(** * Sequencer add-strip operators and curve RNA accessors

    A shallow embedding of
    - [source/blender/makesrna/intern/rna_curve.c] (the accessor callbacks
      of the curve data-block), and
    - [source/blender/editors/space_sequencer/sequencer_add.c] (the
      operators that add strips to the sequencer timeline),
    together with the properties their specification states about them.

    C [int] values are integers of [Z] with the 32-bit wrap-around written
    out where the source computes; C [float] values are IEEE binary32
    numbers ([spec_float] at precision 24); library functions the sources
    call but do not define are parameters. *)

From Stdlib Require Import ZArith Lia Bool.
From Stdlib Require Import Floats.SpecFloat.
From stdpp Require Import base option list strings gmap pretty.

Local Open Scope Z_scope.

(** ** C integers *)

Module CInt.

Definition INT_MAX : Z := 2147483647.
Definition INT_MIN : Z := -2147483648.

(** The value of a [bits]-wide two's-complement integer holding [z]. *)
Definition wrap (bits : Z) (z : Z) : Z :=
  (z + 2 ^ (bits - 1)) mod 2 ^ bits - 2 ^ (bits - 1).

Definition wrap_int (z : Z) : Z := wrap 32 z.

Definition in_range (bits : Z) (z : Z) : Prop :=
  - 2 ^ (bits - 1) <= z < 2 ^ (bits - 1).

Definition is_int (z : Z) : Prop := INT_MIN <= z <= INT_MAX.

Definition int_add (a b : Z) : Z := wrap_int (a + b).
Definition int_sub (a b : Z) : Z := wrap_int (a - b).

End CInt.

(** ** rna_curve.c: accessor callbacks *)

Module RnaCurve.
Import CInt.

(** *** IEEE binary32, the C [float] *)

Definition f32_add : spec_float -> spec_float -> spec_float := SFadd 24 128.
Definition f32_sub : spec_float -> spec_float -> spec_float := SFsub 24 128.

(** The literal [1.0f]. *)
Definition f32_one : spec_float := S754_finite false 8388608 (-23).
(** [-1.0f] and [0.0f], for the examples. *)
Definition f32_minus_one : spec_float := S754_finite true 8388608 (-23).
Definition f32_zero : spec_float := S754_zero false.
Definition f32_two : spec_float := S754_finite false 8388608 (-22).

(** The fields of [Curve] the accessors below touch, and one neighbour
    ([extrude]) to observe that a setter writes nothing else. *)
Record Curve := mkCurve {
  offset : spec_float;
  extrude : spec_float;
}.

(** [rna_Curve_offset_get]: [return cu->offset - 1.0f;] *)
Definition rna_Curve_offset_get (cu : Curve) : spec_float :=
  f32_sub (offset cu) f32_one.

(** [rna_Curve_offset_set]: [cu->offset = 1.0f + value;] *)
Definition rna_Curve_offset_set (cu : Curve) (value : spec_float) : Curve :=
  {| offset := f32_add f32_one value; extrude := extrude cu |}.

(** *** CharInfo.material_index *)

Section CharInfoAccessors.

(** [CharInfo] is declared in [DNA_curve_types.h], which is not among the
    sources at hand: the width in bits of its signed integer field
    [mat_nr] is a parameter of the accessors. *)
Variable mat_nr_bits : Z.

Record CharInfo := mkCharInfo {
  mat_nr : Z;
  info_flag : Z;
}.

(** [rna_ChariInfo_material_index_get]:
    [return info->mat_nr ? info->mat_nr - 1 : 0;] *)
Definition rna_ChariInfo_material_index_get (info : CharInfo) : Z :=
  if mat_nr info =? 0 then 0 else int_sub (mat_nr info) 1.

(** [rna_ChariInfo_material_index_set]: [info->mat_nr = value + 1;]
    The sum is computed in [int] and converted to the type of the field. *)
Definition rna_ChariInfo_material_index_set (info : CharInfo) (value : Z)
  : CharInfo :=
  {| mat_nr := wrap mat_nr_bits (int_add value 1);
     info_flag := info_flag info |}.

End CharInfoAccessors.

(** [rna_Curve_material_index_range], the range callback of the property:
    [*min = 0; *max = max_ii(0, cu->totcol - 1);] *)
Definition rna_Curve_material_index_range (totcol : Z) : Z * Z :=
  (0, Z.max 0 (int_sub totcol 1)).

(** [mat_nr] is a [short] in Blender's [DNA_curve_types.h]: 16 bits. *)
Definition short_bits : Z := 16.

End RnaCurve.

(** ** sequencer_add.c: the add-strip operators *)

Module SequencerAdd.
Import CInt.

(** *** Constants of the headers

    The enumerators and bit masks below are declared in headers
    ([DNA_sequence_types.h], [SEQ_add.h], [DNA_space_types.h],
    [DNA_userdef_types.h]) that are not among the sources at hand: they are
    parameters, gathered in one record. *)
Class Constants := {
  SELECT : Z;
  SEQ_TYPE_MOVIE : Z;
  SEQ_LOAD_SOUND_CACHE : Z;
  SEQ_LOAD_SOUND_MONO : Z;
  SEQ_LOAD_MOVIE_SYNC_FPS : Z;
  SEQ_LOAD_SET_VIEW_TRANSFORM : Z;
  SEQ_PROXY_SKIP_EXISTING : Z;
  SEQ_MARKER_TRANS : Z;
  SPACE_SEQ : Z;
  SEQ_VIEW_PREVIEW : Z;
  SEQ_VIEW_SEQUENCE_PREVIEW : Z;
  USER_SEQ_PROXY_SETUP_AUTOMATIC : Z;
  (** [sizeof(load_data->name)], for [STRNCPY]. *)
  sizeof_name : nat;
}.

(** The four load flags are distinct bits: no two share a bit, none is
    empty. *)
Definition load_flags_distinct {consts : Constants} : Prop :=
  SEQ_LOAD_SOUND_CACHE <> 0 /\ SEQ_LOAD_SOUND_MONO <> 0 /\
  SEQ_LOAD_MOVIE_SYNC_FPS <> 0 /\ SEQ_LOAD_SET_VIEW_TRANSFORM <> 0 /\
  Z.land SEQ_LOAD_SOUND_CACHE SEQ_LOAD_SOUND_MONO = 0 /\
  Z.land SEQ_LOAD_SOUND_CACHE SEQ_LOAD_MOVIE_SYNC_FPS = 0 /\
  Z.land SEQ_LOAD_SOUND_CACHE SEQ_LOAD_SET_VIEW_TRANSFORM = 0 /\
  Z.land SEQ_LOAD_SOUND_MONO SEQ_LOAD_MOVIE_SYNC_FPS = 0 /\
  Z.land SEQ_LOAD_SOUND_MONO SEQ_LOAD_SET_VIEW_TRANSFORM = 0 /\
  Z.land SEQ_LOAD_MOVIE_SYNC_FPS SEQ_LOAD_SET_VIEW_TRANSFORM = 0.

(** [flags & mask] as a C condition. *)
Definition has_flag (flags mask : Z) : bool := negb (Z.land flags mask =? 0).

(** Operator return values ([WM_types.h]). *)
Inductive OperatorResult :=
| OPERATOR_RUNNING_MODAL
| OPERATOR_CANCELLED
| OPERATOR_FINISHED.

Inductive ReportType := RPT_INFO | RPT_WARNING | RPT_ERROR.

(** *** Data *)

(** A [Sequence *]: the address of a strip. *)
Abbreviation ptr := nat.

(** The fields of [Sequence] the operators read or write.  The proxy
    fields stand for [seq->strip->proxy->build_size_flags] and
    [seq->strip->proxy->build_flags]. *)
Record Sequence := mkSequence {
  seq_type : Z;
  machine : Z;
  flag : Z;
  build_size_flags : Z;
  build_flags : Z;
}.

Definition set_flag (f : Z -> Z) (s : Sequence) : Sequence :=
  {| seq_type := seq_type s; machine := machine s; flag := f (flag s);
     build_size_flags := build_size_flags s; build_flags := build_flags s |}.

Definition set_machine (f : Z -> Z) (s : Sequence) : Sequence :=
  {| seq_type := seq_type s; machine := f (machine s); flag := flag s;
     build_size_flags := build_size_flags s; build_flags := build_flags s |}.

Definition set_build_size_flags (v : Z) (s : Sequence) : Sequence :=
  {| seq_type := seq_type s; machine := machine s; flag := flag s;
     build_size_flags := v; build_flags := build_flags s |}.

Definition set_build_flags (f : Z -> Z) (s : Sequence) : Sequence :=
  {| seq_type := seq_type s; machine := machine s; flag := flag s;
     build_size_flags := build_size_flags s;
     build_flags := f (build_flags s) |}.

(** [ImageFormatData] as far as [SequencerAddData] is read. *)
Record ImageFormatData := mkImageFormatData {
  imf_views_format : Z;
  imf_stereo3d_format : Z;
}.

Record SequencerAddData := mkSequencerAddData {
  im_format : ImageFormatData;
}.

(** [SeqLoadData], the load descriptor: the fields the operators fill.
    [memset(load_data, 0, ...)] gives [load_data_zero]. *)
Record SeqLoadData := mkSeqLoadData {
  start_frame : Z;
  channel : Z;
  name : string;
  path : string;
  image_len : Z;
  image_end_frame : Z;
  effect_end_frame : Z;
  flags : Z;
  fit_method : Z;
  adjust_playback_rate : bool;
  use_multiview : bool;
  views_format : Z;
  stereo3d_format : option Z;
  ld_scene : option nat;
}.

Definition load_data_zero : SeqLoadData :=
  {| start_frame := 0; channel := 0; name := ""; path := "";
     image_len := 0; image_end_frame := 0; effect_end_frame := 0;
     flags := 0; fit_method := 0; adjust_playback_rate := false;
     use_multiview := false; views_format := 0; stereo3d_format := None;
     ld_scene := None |}.

Definition with_start_frame (v : Z) (d : SeqLoadData) : SeqLoadData :=
  mkSeqLoadData v (channel d) (name d) (path d) (image_len d)
    (image_end_frame d) (effect_end_frame d) (flags d) (fit_method d)
    (adjust_playback_rate d) (use_multiview d) (views_format d)
    (stereo3d_format d) (ld_scene d).

Definition with_channel (v : Z) (d : SeqLoadData) : SeqLoadData :=
  mkSeqLoadData (start_frame d) v (name d) (path d) (image_len d)
    (image_end_frame d) (effect_end_frame d) (flags d) (fit_method d)
    (adjust_playback_rate d) (use_multiview d) (views_format d)
    (stereo3d_format d) (ld_scene d).

Definition with_name (v : string) (d : SeqLoadData) : SeqLoadData :=
  mkSeqLoadData (start_frame d) (channel d) v (path d) (image_len d)
    (image_end_frame d) (effect_end_frame d) (flags d) (fit_method d)
    (adjust_playback_rate d) (use_multiview d) (views_format d)
    (stereo3d_format d) (ld_scene d).

Definition with_path (v : string) (d : SeqLoadData) : SeqLoadData :=
  mkSeqLoadData (start_frame d) (channel d) (name d) v (image_len d)
    (image_end_frame d) (effect_end_frame d) (flags d) (fit_method d)
    (adjust_playback_rate d) (use_multiview d) (views_format d)
    (stereo3d_format d) (ld_scene d).

Definition with_image_len (v : Z) (d : SeqLoadData) : SeqLoadData :=
  mkSeqLoadData (start_frame d) (channel d) (name d) (path d) v
    (image_end_frame d) (effect_end_frame d) (flags d) (fit_method d)
    (adjust_playback_rate d) (use_multiview d) (views_format d)
    (stereo3d_format d) (ld_scene d).

Definition with_image_end_frame (v : Z) (d : SeqLoadData) : SeqLoadData :=
  mkSeqLoadData (start_frame d) (channel d) (name d) (path d) (image_len d)
    v (effect_end_frame d) (flags d) (fit_method d)
    (adjust_playback_rate d) (use_multiview d) (views_format d)
    (stereo3d_format d) (ld_scene d).

Definition with_effect_end_frame (v : Z) (d : SeqLoadData) : SeqLoadData :=
  mkSeqLoadData (start_frame d) (channel d) (name d) (path d) (image_len d)
    (image_end_frame d) v (flags d) (fit_method d)
    (adjust_playback_rate d) (use_multiview d) (views_format d)
    (stereo3d_format d) (ld_scene d).

Definition with_flags (v : Z) (d : SeqLoadData) : SeqLoadData :=
  mkSeqLoadData (start_frame d) (channel d) (name d) (path d) (image_len d)
    (image_end_frame d) (effect_end_frame d) v (fit_method d)
    (adjust_playback_rate d) (use_multiview d) (views_format d)
    (stereo3d_format d) (ld_scene d).

Definition with_fit_method (v : Z) (d : SeqLoadData) : SeqLoadData :=
  mkSeqLoadData (start_frame d) (channel d) (name d) (path d) (image_len d)
    (image_end_frame d) (effect_end_frame d) (flags d) v
    (adjust_playback_rate d) (use_multiview d) (views_format d)
    (stereo3d_format d) (ld_scene d).

Definition with_adjust_playback_rate (v : bool) (d : SeqLoadData)
  : SeqLoadData :=
  mkSeqLoadData (start_frame d) (channel d) (name d) (path d) (image_len d)
    (image_end_frame d) (effect_end_frame d) (flags d) (fit_method d)
    v (use_multiview d) (views_format d) (stereo3d_format d) (ld_scene d).

Definition with_multiview (imf : ImageFormatData) (d : SeqLoadData)
  : SeqLoadData :=
  mkSeqLoadData (start_frame d) (channel d) (name d) (path d) (image_len d)
    (image_end_frame d) (effect_end_frame d) (flags d) (fit_method d)
    (adjust_playback_rate d) true (imf_views_format imf)
    (Some (imf_stereo3d_format imf)) (ld_scene d).

Definition with_scene (v : option nat) (d : SeqLoadData) : SeqLoadData :=
  mkSeqLoadData (start_frame d) (channel d) (name d) (path d) (image_len d)
    (image_end_frame d) (effect_end_frame d) (flags d) (fit_method d)
    (adjust_playback_rate d) (use_multiview d) (views_format d)
    (stereo3d_format d) v.

(** [SpaceSeq] seen through [SpaceLink], and [ScrArea]. *)
Record SpaceLink := mkSpaceLink {
  spacetype : Z;
  sseq_view : Z;
  sseq_render_size : Z;
  sseq_flag : Z;
}.

Record ScrArea := mkScrArea {
  spacedata : list SpaceLink;
}.

(** [Editing] as far as [sequencer_generic_invoke_xy_guess_channel] reads
    it: [ed->seqbasep], a list of strips or [NULL]. *)
Record Editing := mkEditing {
  seqbasep : option (list Sequence);
}.

(** What the operators work on: the strips by address, the globals [G] and
    [U], the context's area and screen, and the state [L] the libraries
    keep for themselves (the strip list, the job system, ...). *)
Record World (L : Type) := mkWorld {
  strips : gmap ptr Sequence;
  G_is_break : bool;
  U_sequencer_proxy_setup : Z;
  wm_area : ScrArea;
  screen_areabase : list ScrArea;
  lib : L;
}.
Arguments mkWorld {L}.
Arguments strips {L}.
Arguments G_is_break {L}.
Arguments U_sequencer_proxy_setup {L}.
Arguments wm_area {L}.
Arguments screen_areabase {L}.
Arguments lib {L}.

Definition with_strips {L} (f : gmap ptr Sequence -> gmap ptr Sequence)
    (w : World L) : World L :=
  mkWorld (f (strips w)) (G_is_break w) (U_sequencer_proxy_setup w)
    (wm_area w) (screen_areabase w) (lib w).

Definition with_is_break {L} (b : bool) (w : World L) : World L :=
  mkWorld (strips w) b (U_sequencer_proxy_setup w)
    (wm_area w) (screen_areabase w) (lib w).

(** [wmOperator]: its RNA pointer and its custom data. *)
Record wmOperator (P : Type) := mkOperator {
  op_ptr : P;
  customdata : option SequencerAddData;
}.
Arguments mkOperator {P}.
Arguments op_ptr {P}.
Arguments customdata {P}.


(** *** The reflection (RNA) interface

    The operators read their parameters through the RNA access functions;
    [P] is [PointerRNA] (an operator's properties, or one item of a
    collection property) and [PropertyRNA] a property found by name.
    [RNA_collection_items] lists the items [RNA_BEGIN] iterates over,
    [RNA_property_collection_items] those of [RNA_PROP_BEGIN]. *)
Class RnaApi (P PropertyRNA : Type) := {
  RNA_struct_find_property : P -> string -> option PropertyRNA;
  RNA_property_boolean_get : P -> PropertyRNA -> bool;
  RNA_property_int_get : P -> PropertyRNA -> Z;
  RNA_property_string_get : P -> PropertyRNA -> string;
  RNA_property_collection_length : P -> option PropertyRNA -> Z;
  RNA_property_collection_items : P -> PropertyRNA -> list P;
  RNA_collection_items : P -> string -> list P;
  RNA_int_get : P -> string -> Z;
  RNA_boolean_get : P -> string -> bool;
  RNA_enum_get : P -> string -> Z;
  RNA_string_get : P -> string -> string;
  RNA_string_get_alloc : P -> string -> string;
}.

(** Path helpers of [BLI_path_util.h]. *)
Class PathApi := {
  BLI_path_basename : string -> string;
  BLI_path_join : string -> string -> string;
  BLI_path_rel : string -> string -> string;
}.

(** [STRNCPY(dst, src)] into a buffer of [size] bytes: at most [size - 1]
    characters are kept. *)
Definition STRNCPY (size : nat) (src : string) : string :=
  String.substring 0 (size - 1) src.

(** *** Calls into the libraries

    Every call the operators make into the sequencer, window-manager and
    dependency-graph libraries is recorded, in order, with the arguments
    that matter and the value returned.  (Context getters such as
    [CTX_data_scene] and [SEQ_editing_get], allocation and freeing are not
    calls of interest and leave no record.) *)
Inductive Event :=
| Ev_editing_ensure
| Ev_deselect_all
| Ev_select_active_set (p : ptr)
| Ev_test_overlap (p : ptr) (r : bool)
| Ev_handle_overlap (col : gset ptr) (use_sync_markers : bool)
| Ev_seqbase_shuffle (p : ptr)
| Ev_add_scene_strip (ld : SeqLoadData) (r : option ptr)
| Ev_add_movie_strip (ld : SeqLoadData) (r : option ptr)
| Ev_add_sound_strip (ld : SeqLoadData) (r : option ptr)
| Ev_right_handle_frame_set (p : ptr) (frame : Z)
| Ev_left_handle_frame_set (p : ptr) (frame : Z)
| Ev_fit_method_set (m : Z)
| Ev_report (t : ReportType) (msg : string)
| Ev_proxy_wm_job_get
| Ev_proxy_job_get
| Ev_proxy_set (p : ptr)
| Ev_proxy_rebuild_context (p : ptr)
| Ev_jobs_is_running (r : bool)
| Ev_jobs_start
| Ev_area_tag_redraw
| Ev_deg_id_tag_update
| Ev_deg_relations_tag_update
| Ev_event_add_notifier.

(** The library functions, as transformers of the world.  The strip
    insertion functions read the load descriptor (their result fields,
    which the operators never read back, are not modelled) and return the
    new strip or [NULL]. *)
Class SeqLib (L : Type) := {
  SEQ_editing_ensure : World L -> World L;
  ED_sequencer_deselect_all : World L -> World L;
  SEQ_select_active_set : ptr -> World L -> World L;
  SEQ_transform_test_overlap : ptr -> World L -> bool;
  SEQ_transform_handle_overlap : gset ptr -> bool -> World L -> World L;
  SEQ_transform_seqbase_shuffle : ptr -> World L -> World L;
  SEQ_add_scene_strip : SeqLoadData -> World L -> option ptr * World L;
  SEQ_add_movie_strip : SeqLoadData -> World L -> option ptr * World L;
  SEQ_add_sound_strip : SeqLoadData -> World L -> option ptr * World L;
  SEQ_time_right_handle_frame_get : ptr -> World L -> Z;
  SEQ_time_left_handle_frame_get : ptr -> World L -> Z;
  SEQ_time_right_handle_frame_set : ptr -> Z -> World L -> World L;
  SEQ_time_left_handle_frame_set : ptr -> Z -> World L -> World L;
  SEQ_tool_settings_fit_method_set : Z -> World L -> World L;
  BLI_findlink_scenes : Z -> World L -> option nat;
  BKE_main_blendfile_path : World L -> string;
  BKE_report : ReportType -> string -> World L -> World L;
  ED_seq_proxy_wm_job_get : World L -> World L;
  ED_seq_proxy_job_get : World L -> World L;
  SEQ_proxy_set : ptr -> bool -> World L -> World L;
  SEQ_rendersize_to_proxysize : Z -> Z;
  SEQ_proxy_rebuild_context : ptr -> World L -> World L;
  WM_jobs_is_running : World L -> bool;
  WM_jobs_start : World L -> World L;
  ED_area_tag_redraw : World L -> World L;
  DEG_id_tag_update : World L -> World L;
  DEG_relations_tag_update : World L -> World L;
  WM_event_add_notifier : World L -> World L;
}.

(** *** The monad of the operators: world passing with a call record *)

Definition M (L A : Type) : Type := World L -> A * World L * list Event.

#[global] Instance M_ret {L} : MRet (M L) :=
  fun A (a : A) (w : World L) => (a, w, []).

#[global] Instance M_bind {L} : MBind (M L) :=
  fun A B (k : A -> M L B) (m : M L A) (w : World L) =>
    let '(a, w1, t1) := m w in
    let '(b, w2, t2) := k a w1 in
    (b, w2, t1 ++ t2).

(** A call that changes the world. *)
Definition call {L} (f : World L -> World L) (e : Event) : M L unit :=
  fun w => (tt, f w, [e]).

(** A call that changes the world and returns a value. *)
Definition call_ret {L A} (f : World L -> A * World L) (e : A -> Event)
  : M L A :=
  fun w => ((f w).1, (f w).2, [e (f w).1]).

(** A call that only reads. *)
Definition ask {L A} (f : World L -> A) (e : A -> Event) : M L A :=
  fun w => (f w, w, [e (f w)]).

(** Reading and writing memory directly. *)
Definition read {L A} (f : World L -> A) : M L A := fun w => (f w, w, []).
Definition write {L} (f : World L -> World L) : M L unit :=
  fun w => (tt, f w, []).

(** [for] over the elements of a list. *)
Fixpoint foreach {L A} (l : list A) (body : A -> M L unit) : M L unit :=
  match l with
  | [] => mret tt
  | x :: l' => body x ;; foreach l' body
  end.

(** A loop that threads its variables [S] through the iterations. *)
Fixpoint loop {L A S} (l : list A) (body : A -> S -> M L S) (s : S) : M L S :=
  match l with
  | [] => mret s
  | x :: l' => s' ← body x s; loop l' body s'
  end.

(** The value returned, the world left and the calls made by a run of [m]
    from the world [w]. *)
Definition result {L A} (m : M L A) (w : World L) : A := (m w).1.1.
Definition world_after {L A} (m : M L A) (w : World L) : World L := (m w).1.2.
Definition calls {L A} (m : M L A) (w : World L) : list Event := (m w).2.


(** *** sequencer_generic_invoke_xy_guess_channel *)

Section GuessChannel.
Context {consts : Constants}.

(** [SEQ_time_right_handle_frame_get(scene, seq)]. *)
Variable strip_end_of : Sequence -> Z.

(** The body of the [for] loop over [ed->seqbasep], with the loop
    variables [tgt] and [proximity]. *)
Fixpoint guess_channel_loop (type timeline_frame : Z) (l : list Sequence)
    (tgt : option Sequence) (proximity : Z) : option Sequence * Z :=
  match l with
  | [] => (tgt, proximity)
  | seq :: rest =>
    let strip_end := strip_end_of seq in
    if ((type =? -1) || (type =? seq_type seq))
       && (strip_end <=? timeline_frame)
       && (int_sub timeline_frame strip_end <? proximity)
    then guess_channel_loop type timeline_frame rest (Some seq)
           (int_sub timeline_frame strip_end)
    else guess_channel_loop type timeline_frame rest tgt proximity
  end.

(** [ed] is what [SEQ_editing_ensure(scene)] returned and [cfra] is
    [scene->r.cfra]. *)
Definition sequencer_generic_invoke_xy_guess_channel
    (ed : option Editing) (cfra : Z) (type : Z) : Z :=
  let timeline_frame := cfra in
  let proximity := INT_MAX in
  match ed with
  | None => 1
  | Some ed =>
    match seqbasep ed with
    | None => 1
    | Some seqbase =>
      match
        (guess_channel_loop type timeline_frame seqbase None proximity).1
      with
      | Some tgt =>
        if type =? SEQ_TYPE_MOVIE then int_sub (machine tgt) 1 else machine tgt
      | None => 1
      end
    end
  end.

End GuessChannel.

(** *** The operators *)

Section Operators.
Context {consts : Constants} {P PropertyRNA : Type}
        {rna : RnaApi P PropertyRNA} {paths : PathApi}
        {L : Type} {seqlib : SeqLib L}.

Local Abbreviation Op := (wmOperator P).

Definition report (t : ReportType) (msg : string) : M L unit :=
  call (BKE_report t msg) (Ev_report t msg).

(** [(prop = RNA_struct_find_property(ptr, name)) &&
    RNA_property_boolean_get(ptr, prop)]: the boolean property [name]
    exists and is true. *)
Definition prop_is_true (ptr : P) (name : string) : bool :=
  match RNA_struct_find_property ptr name with
  | Some prop => RNA_property_boolean_get ptr prop
  | None => false
  end.

(** The blocks of [load_data_init_from_operator], in the order of the
    source.  First [memset] and the four unconditional assignments. *)
Definition load_data_start (ptr : P) : SeqLoadData :=
  let ld := load_data_zero in
  let ld := with_start_frame (RNA_int_get ptr "frame_start") ld in
  let ld := with_channel (RNA_int_get ptr "channel") ld in
  let ld := with_image_end_frame (start_frame ld) ld in
  with_image_len 1 ld.

(** [if ((prop = RNA_struct_find_property(op->ptr, "fit_method"))) ...] *)
Definition load_data_fit_method (ptr : P) (ld : SeqLoadData)
  : M L SeqLoadData :=
  match RNA_struct_find_property ptr "fit_method" with
  | Some _ =>
    let ld := with_fit_method (RNA_enum_get ptr "fit_method") ld in
    call (SEQ_tool_settings_fit_method_set (fit_method ld))
         (Ev_fit_method_set (fit_method ld)) ;;
    mret ld
  | None => mret ld
  end.

(** [if ((prop = RNA_struct_find_property(op->ptr, "adjust_playback_rate")))
    ...] *)
Definition load_data_playback_rate (ptr : P) (ld : SeqLoadData)
  : SeqLoadData :=
  match RNA_struct_find_property ptr "adjust_playback_rate" with
  | Some _ =>
    with_adjust_playback_rate (RNA_boolean_get ptr "adjust_playback_rate") ld
  | None => ld
  end.

(** The [filepath] block, or else the [directory] block with the first
    item of [files]. *)
Definition load_data_path (ptr : P) (ld : SeqLoadData) : SeqLoadData :=
  match RNA_struct_find_property ptr "filepath" with
  | Some prop =>
    let ld := with_path (RNA_property_string_get ptr prop) ld in
    with_name (STRNCPY sizeof_name (BLI_path_basename (path ld))) ld
  | None =>
    match RNA_struct_find_property ptr "directory" with
    | Some _ =>
      let directory := RNA_string_get_alloc ptr "directory" in
      match RNA_struct_find_property ptr "files" with
      | Some prop =>
        match RNA_property_collection_items ptr prop with
        | itemptr :: _ =>
          let filename := RNA_string_get_alloc itemptr "name" in
          let ld := with_name (STRNCPY sizeof_name filename) ld in
          with_path (BLI_path_join directory filename) ld
        | [] => ld
        end
      | None => ld
      end
    | None => ld
    end
  end.

(** [if (relative) { BLI_path_rel(load_data->path, ...); }] *)
Definition load_data_relative (relative : bool) (blendfile_path : string)
    (ld : SeqLoadData) : SeqLoadData :=
  if relative then with_path (BLI_path_rel (path ld) blendfile_path) ld
  else ld.

(** [if ((prop = RNA_struct_find_property(op->ptr, "frame_end"))) ...] *)
Definition load_data_frame_end (ptr : P) (ld : SeqLoadData) : SeqLoadData :=
  match RNA_struct_find_property ptr "frame_end" with
  | Some prop =>
    let ld := with_image_end_frame (RNA_property_int_get ptr prop) ld in
    with_effect_end_frame (image_end_frame ld) ld
  | None => ld
  end.

(** [if ((prop = RNA_struct_find_property(op->ptr, name)) &&
    RNA_property_boolean_get(op->ptr, prop)) { load_data->flags |= mask; }] *)
Definition load_data_flag (ptr : P) (name : string) (mask : Z)
    (ld : SeqLoadData) : SeqLoadData :=
  if prop_is_true ptr name then with_flags (Z.lor (flags ld) mask) ld else ld.

(** The [use_multiview] block. *)
Definition load_data_multiview (op : Op) (ld : SeqLoadData) : SeqLoadData :=
  if prop_is_true (op_ptr op) "use_multiview" then
    match customdata op with
    | Some sad => with_multiview (im_format sad) ld
    | None => ld
    end
  else ld.

(** [load_data_init_from_operator] *)
Definition load_data_init_from_operator (op : Op) : M L SeqLoadData :=
  let ptr := op_ptr op in
  let relative := prop_is_true ptr "relative_path" in
  let ld := load_data_start ptr in
  ld ← load_data_fit_method ptr ld;
  let ld := load_data_playback_rate ptr ld in
  let ld := load_data_path ptr ld in
  blendfile_path ← read BKE_main_blendfile_path;
  let ld := load_data_relative relative blendfile_path ld in
  let ld := load_data_frame_end ptr ld in
  let ld := load_data_flag ptr "cache" SEQ_LOAD_SOUND_CACHE ld in
  let ld := load_data_flag ptr "mono" SEQ_LOAD_SOUND_MONO ld in
  let ld := load_data_flag ptr "use_framerate" SEQ_LOAD_MOVIE_SYNC_FPS ld in
  let ld :=
    load_data_flag ptr "set_view_transform" SEQ_LOAD_SET_VIEW_TRANSFORM ld in
  let ld := load_data_multiview op ld in
  mret ld.

(** [((SpaceSeq * )area->spacedata.first)->flag & SEQ_MARKER_TRANS) != 0]
    for the context's area. *)
Definition use_sync_markers_of (w : World L) : bool :=
  match spacedata (wm_area w) with
  | sseq :: _ => has_flag (sseq_flag sseq) SEQ_MARKER_TRANS
  | [] => false
  end.

(** The selection step shared by [seq_load_apply_generic_options] and
    [seq_load_apply_generic_options_only_test_overlap]:
    [if (RNA_boolean_get(op->ptr, "replace_sel")) { seq->flag |= SELECT;
    SEQ_select_active_set(scene, seq); }] *)
Definition select_new_strip (op : Op) (seq : ptr) : M L unit :=
  if RNA_boolean_get (op_ptr op) "replace_sel" then
    write (with_strips (alter (set_flag (fun f => Z.lor f SELECT)) seq)) ;;
    call (SEQ_select_active_set seq) (Ev_select_active_set seq)
  else mret tt.

(** The overlap step of [seq_load_apply_generic_options]: everything
    after the selection step. *)
Definition resolve_overlap (op : Op) (seq : ptr) : M L unit :=
  if RNA_boolean_get (op_ptr op) "overlap" then mret tt
  else
    overlaps ← ask (SEQ_transform_test_overlap seq) (Ev_test_overlap seq);
    if negb overlaps then mret tt
    else if RNA_boolean_get (op_ptr op) "overlap_shuffle_override" then
      let strip_col : gset ptr := {[ seq ]} in
      use_sync_markers ← read use_sync_markers_of;
      call (SEQ_transform_handle_overlap strip_col use_sync_markers)
           (Ev_handle_overlap strip_col use_sync_markers)
    else
      call (SEQ_transform_seqbase_shuffle seq) (Ev_seqbase_shuffle seq).

(** [seq_load_apply_generic_options] *)
Definition seq_load_apply_generic_options (op : Op) (seq : option ptr)
  : M L unit :=
  match seq with
  | None => mret tt
  | Some seq => select_new_strip op seq ;; resolve_overlap op seq
  end.

(** [seq_load_apply_generic_options_only_test_overlap]; the collection
    [strip_col] is returned with the strip added. *)
Definition seq_load_apply_generic_options_only_test_overlap
    (op : Op) (seq : option ptr) (strip_col : gset ptr)
  : M L (bool * gset ptr) :=
  match seq with
  | None => mret (false, strip_col)
  | Some seq =>
    select_new_strip op seq ;;
    let strip_col := {[ seq ]} ∪ strip_col in
    overlaps ← ask (SEQ_transform_test_overlap seq) (Ev_test_overlap seq);
    mret (overlaps, strip_col)
  end.

(** [sequencer_add_scene_strip_exec] *)
Definition sequencer_add_scene_strip_exec (op : Op) : M L OperatorResult :=
  call SEQ_editing_ensure Ev_editing_ensure ;;
  sce_seq ← read (BLI_findlink_scenes (RNA_enum_get (op_ptr op) "scene"));
  match sce_seq with
  | None =>
    report RPT_ERROR "Scene not found" ;;
    mret OPERATOR_CANCELLED
  | Some sce =>
    (if RNA_boolean_get (op_ptr op) "replace_sel"
     then call ED_sequencer_deselect_all Ev_deselect_all
     else mret tt) ;;
    load_data ← load_data_init_from_operator op;
    let load_data := with_scene (Some sce) load_data in
    seq ← call_ret (SEQ_add_scene_strip load_data)
                   (Ev_add_scene_strip load_data);
    seq_load_apply_generic_options op seq ;;
    call DEG_id_tag_update Ev_deg_id_tag_update ;;
    call DEG_relations_tag_update Ev_deg_relations_tag_update ;;
    call WM_event_add_notifier Ev_event_add_notifier ;;
    mret OPERATOR_FINISHED
  end.

(** [seq_get_proxy_size_flags]: the preview sizes of the sequencer
    spaces of the screen that show a preview. *)
Definition seq_get_proxy_size_flags (w : World L) : Z :=
  fold_left
    (fun proxy_sizes area =>
       fold_left
         (fun proxy_sizes sl =>
            if spacetype sl =? SPACE_SEQ then
              if negb ((sseq_view sl =? SEQ_VIEW_PREVIEW)
                       || (sseq_view sl =? SEQ_VIEW_SEQUENCE_PREVIEW))
              then proxy_sizes
              else Z.lor proxy_sizes
                     (SEQ_rendersize_to_proxysize (sseq_render_size sl))
            else proxy_sizes)
         (spacedata area) proxy_sizes)
    (screen_areabase w) 0.

(** [seq_build_proxy]; [SEQ_ITERATOR_FOREACH] visits the strips of the
    collection. *)
Definition seq_build_proxy (movie_strips : gset ptr) : M L unit :=
  setup ← read U_sequencer_proxy_setup;
  if negb (setup =? USER_SEQ_PROXY_SETUP_AUTOMATIC) then mret tt
  else
    call ED_seq_proxy_wm_job_get Ev_proxy_wm_job_get ;;
    call ED_seq_proxy_job_get Ev_proxy_job_get ;;
    foreach (elements movie_strips) (fun seq =>
      call (SEQ_proxy_set seq true) (Ev_proxy_set seq) ;;
      size_flags ← read seq_get_proxy_size_flags;
      write (with_strips (alter (set_build_size_flags size_flags) seq)) ;;
      write (with_strips
               (alter (set_build_flags
                         (fun f => Z.lor f SEQ_PROXY_SKIP_EXISTING)) seq)) ;;
      call (SEQ_proxy_rebuild_context seq) (Ev_proxy_rebuild_context seq)) ;;
    running ← ask WM_jobs_is_running Ev_jobs_is_running;
    (if negb running then
       write (with_is_break false) ;;
       call WM_jobs_start Ev_jobs_start
     else mret tt) ;;
    call ED_area_tag_redraw Ev_area_tag_redraw.

(** [sequencer_add_movie_clamp_sound_strip_length] *)
Definition sequencer_add_movie_clamp_sound_strip_length
    (seq_movie seq_sound : option ptr) : M L unit :=
  match seq_movie, seq_sound with
  | Some seq_movie, Some seq_sound =>
    right ← read (SEQ_time_right_handle_frame_get seq_movie);
    call (SEQ_time_right_handle_frame_set seq_sound right)
         (Ev_right_handle_frame_set seq_sound right) ;;
    left ← read (SEQ_time_left_handle_frame_get seq_movie);
    call (SEQ_time_left_handle_frame_set seq_sound left)
         (Ev_left_handle_frame_set seq_sound left)
  | _, _ => mret tt
  end.

(** The sound block of [sequencer_add_movie_single_strip] and of
    [sequencer_add_movie_multiple_strips] (the same statements in both):
    [if (RNA_boolean_get(op->ptr, "sound")) {
    seq_sound = SEQ_add_sound_strip(...);
    sequencer_add_movie_clamp_sound_strip_length(scene, seq_movie, seq_sound);
    if (seq_sound) { seq_movie->machine++; } }]
    It returns [seq_sound]. *)
Definition movie_add_sound (op : Op) (load_data : SeqLoadData)
    (seq_movie : ptr) : M L (option ptr) :=
  if RNA_boolean_get (op_ptr op) "sound" then
    seq_sound ← call_ret (SEQ_add_sound_strip load_data)
                         (Ev_add_sound_strip load_data);
    sequencer_add_movie_clamp_sound_strip_length (Some seq_movie) seq_sound ;;
    match seq_sound with
    | Some _ =>
      write (with_strips
               (alter (set_machine (fun m => int_add m 1)) seq_movie)) ;;
      mret seq_sound
    | None => mret seq_sound
    end
  else mret None.

Definition load_error_message (path : string) : string :=
  "File '" +:+ path +:+ "' could not be loaded".

(** The variables of the loop of [sequencer_add_movie_multiple_strips]. *)
Record MovieLoop := mkMovieLoop {
  ml_load_data : SeqLoadData;
  ml_has_seq_overlap : bool;
  ml_strip_col : gset ptr;
  ml_movie_strips : gset ptr;
}.

(** One iteration of [RNA_BEGIN (op->ptr, itemptr, "files")] in
    [sequencer_add_movie_multiple_strips]. *)
Definition movie_multiple_body (op : Op) (overlap_shuffle_override : bool)
    (itemptr : P) (st : MovieLoop) : M L MovieLoop :=
  let dir_only := RNA_string_get (op_ptr op) "directory" in
  let file_only := RNA_string_get itemptr "name" in
  let load_data :=
    with_path (BLI_path_join dir_only file_only) (ml_load_data st) in
  let load_data := with_name (STRNCPY sizeof_name file_only) load_data in
  seq_movie ← call_ret (SEQ_add_movie_strip load_data)
                       (Ev_add_movie_strip load_data);
  match seq_movie with
  | None =>
    report RPT_ERROR (load_error_message (path load_data)) ;;
    mret (mkMovieLoop load_data (ml_has_seq_overlap st) (ml_strip_col st)
            (ml_movie_strips st))
  | Some seq_movie =>
    seq_sound ← movie_add_sound op load_data seq_movie;
    right ← read (SEQ_time_right_handle_frame_get seq_movie);
    left ← read (SEQ_time_left_handle_frame_get seq_movie);
    let load_data :=
      with_start_frame
        (int_add (start_frame load_data) (int_sub right left)) load_data in
    '(has_seq_overlap, strip_col) ←
      (if overlap_shuffle_override then
         '(o1, col) ← seq_load_apply_generic_options_only_test_overlap
                        op seq_sound (ml_strip_col st);
         '(o2, col) ← seq_load_apply_generic_options_only_test_overlap
                        op (Some seq_movie) col;
         mret (ml_has_seq_overlap st || o1 || o2, col)
       else
         seq_load_apply_generic_options op seq_sound ;;
         seq_load_apply_generic_options op (Some seq_movie) ;;
         mret (ml_has_seq_overlap st, ml_strip_col st));
    mret (mkMovieLoop load_data has_seq_overlap strip_col
            ({[ seq_movie ]} ∪ ml_movie_strips st))
  end.

(** [sequencer_add_movie_multiple_strips]; it returns the load descriptor
    and the collection [r_movie_strips] as the loop left them. *)
Definition sequencer_add_movie_multiple_strips (op : Op)
    (load_data : SeqLoadData) (r_movie_strips : gset ptr)
  : M L (SeqLoadData * gset ptr) :=
  call SEQ_editing_ensure Ev_editing_ensure ;;
  let overlap_shuffle_override :=
    negb (RNA_boolean_get (op_ptr op) "overlap")
    && RNA_boolean_get (op_ptr op) "overlap_shuffle_override" in
  st ← loop (RNA_collection_items (op_ptr op) "files")
            (movie_multiple_body op overlap_shuffle_override)
            (mkMovieLoop load_data false ∅ r_movie_strips);
  (if overlap_shuffle_override then
     if ml_has_seq_overlap st then
       use_sync_markers ← read use_sync_markers_of;
       call (SEQ_transform_handle_overlap (ml_strip_col st) use_sync_markers)
            (Ev_handle_overlap (ml_strip_col st) use_sync_markers)
     else mret tt
   else mret tt) ;;
  mret (ml_load_data st, ml_movie_strips st).

(** [sequencer_add_movie_single_strip] *)
Definition sequencer_add_movie_single_strip (op : Op)
    (load_data : SeqLoadData) (r_movie_strips : gset ptr)
  : M L (bool * gset ptr) :=
  call SEQ_editing_ensure Ev_editing_ensure ;;
  seq_movie ← call_ret (SEQ_add_movie_strip load_data)
                       (Ev_add_movie_strip load_data);
  match seq_movie with
  | None =>
    report RPT_ERROR (load_error_message (path load_data)) ;;
    mret (false, r_movie_strips)
  | Some seq_movie =>
    seq_sound ← movie_add_sound op load_data seq_movie;
    let overlap_shuffle_override :=
      negb (RNA_boolean_get (op_ptr op) "overlap")
      && RNA_boolean_get (op_ptr op) "overlap_shuffle_override" in
    (if overlap_shuffle_override then
       '(o1, col) ← seq_load_apply_generic_options_only_test_overlap
                      op seq_sound ∅;
       '(o2, col) ← seq_load_apply_generic_options_only_test_overlap
                      op (Some seq_movie) col;
       if o1 || o2 then
         use_sync_markers ← read use_sync_markers_of;
         call (SEQ_transform_handle_overlap col use_sync_markers)
              (Ev_handle_overlap col use_sync_markers)
       else mret tt
     else
       seq_load_apply_generic_options op seq_sound ;;
       seq_load_apply_generic_options op (Some seq_movie)) ;;
    mret (true, {[ seq_movie ]} ∪ r_movie_strips)
  end.

(** [sequencer_add_movie_strip_exec]; [movie_strips] is created empty, and
    freeing it and the operator's custom data leaves no trace here. *)
Definition sequencer_add_movie_strip_exec (op : Op) : M L OperatorResult :=
  load_data ← load_data_init_from_operator op;
  (if RNA_boolean_get (op_ptr op) "replace_sel"
   then call ED_sequencer_deselect_all Ev_deselect_all
   else mret tt) ;;
  let tot_files :=
    RNA_property_collection_length (op_ptr op)
      (RNA_struct_find_property (op_ptr op) "files") in
  movie_strips ←
    (if 1 <? tot_files then
       r ← sequencer_add_movie_multiple_strips op load_data ∅;
       mret r.2
     else
       r ← sequencer_add_movie_single_strip op load_data ∅;
       mret r.2);
  if (size movie_strips =? 0)%nat then mret OPERATOR_CANCELLED
  else
    seq_build_proxy movie_strips ;;
    call DEG_relations_tag_update Ev_deg_relations_tag_update ;;
    call DEG_id_tag_update Ev_deg_id_tag_update ;;
    call WM_event_add_notifier Ev_event_add_notifier ;;
    mret OPERATOR_FINISHED.

(** One iteration of the loop of [sequencer_add_sound_multiple_strips]. *)
Definition sound_multiple_body (op : Op) (itemptr : P)
    (load_data : SeqLoadData) : M L SeqLoadData :=
  let dir_only := RNA_string_get (op_ptr op) "directory" in
  let file_only := RNA_string_get itemptr "name" in
  let load_data := with_path (BLI_path_join dir_only file_only) load_data in
  let load_data := with_name (STRNCPY sizeof_name file_only) load_data in
  seq ← call_ret (SEQ_add_sound_strip load_data)
                 (Ev_add_sound_strip load_data);
  match seq with
  | None =>
    report RPT_ERROR (load_error_message (path load_data)) ;;
    mret load_data
  | Some seq =>
    seq_load_apply_generic_options op (Some seq) ;;
    right ← read (SEQ_time_right_handle_frame_get seq);
    left ← read (SEQ_time_left_handle_frame_get seq);
    mret (with_start_frame
            (int_add (start_frame load_data) (int_sub right left)) load_data)
  end.

(** [sequencer_add_sound_multiple_strips] *)
Definition sequencer_add_sound_multiple_strips (op : Op)
    (load_data : SeqLoadData) : M L SeqLoadData :=
  call SEQ_editing_ensure Ev_editing_ensure ;;
  loop (RNA_collection_items (op_ptr op) "files")
       (sound_multiple_body op) load_data.

End Operators.

(** *** Sample instances for the examples

    Values for the header constants (those of Blender's headers), used
    where a property is run on a concrete input. *)
Module Samples.

Definition sample_constants : Constants := {|
  SELECT := 1;
  SEQ_TYPE_MOVIE := 3;
  SEQ_LOAD_SOUND_CACHE := Z.shiftl 1 1;
  SEQ_LOAD_SOUND_MONO := Z.shiftl 1 2;
  SEQ_LOAD_MOVIE_SYNC_FPS := Z.shiftl 1 3;
  SEQ_LOAD_SET_VIEW_TRANSFORM := Z.shiftl 1 4;
  SEQ_PROXY_SKIP_EXISTING := 1;
  SEQ_MARKER_TRANS := Z.shiftl 1 1;
  SPACE_SEQ := 8;
  SEQ_VIEW_PREVIEW := 2;
  SEQ_VIEW_SEQUENCE_PREVIEW := 3;
  USER_SEQ_PROXY_SETUP_AUTOMATIC := 1;
  sizeof_name := 64;
|}.

(** A strip of the given type on the given channel. *)
Definition strip (type channel : Z) : Sequence := mkSequence type channel 0 0 0.

(** Operator properties held in a map from identifiers to values; a
    property is found by its identifier. *)
Inductive PropValue :=
| PInt (z : Z)
| PBool (b : bool)
| PEnum (z : Z)
| PString (s : string)
| PFiles (names : list string).

Abbreviation SamplePtr := (gmap string PropValue).

Definition sample_bool (p : SamplePtr) (n : string) : bool :=
  match p !! n with Some (PBool b) => b | _ => false end.
Definition sample_int (p : SamplePtr) (n : string) : Z :=
  match p !! n with Some (PInt z) => z | _ => 0 end.
Definition sample_enum (p : SamplePtr) (n : string) : Z :=
  match p !! n with Some (PEnum z) => z | _ => 0 end.
Definition sample_string (p : SamplePtr) (n : string) : string :=
  match p !! n with Some (PString s) => s | _ => "" end.
Definition sample_items (p : SamplePtr) (n : string) : list SamplePtr :=
  match p !! n with
  | Some (PFiles names) => (fun f => {[ "name" := PString f ]}) <$> names
  | _ => []
  end.

#[local] Instance sample_rna : RnaApi SamplePtr string := {|
  RNA_struct_find_property p n :=
    match p !! n with Some _ => Some n | None => None end;
  RNA_property_boolean_get := sample_bool;
  RNA_property_int_get := sample_int;
  RNA_property_string_get := sample_string;
  RNA_property_collection_length p o :=
    match o with
    | Some n => Z.of_nat (length (sample_items p n))
    | None => 0
    end;
  RNA_property_collection_items := sample_items;
  RNA_collection_items := sample_items;
  RNA_int_get := sample_int;
  RNA_boolean_get := sample_bool;
  RNA_enum_get := sample_enum;
  RNA_string_get := sample_string;
  RNA_string_get_alloc := sample_string;
|}.

#[local] Instance sample_paths : PathApi := {|
  BLI_path_basename s := s;
  BLI_path_join dir file := dir +:+ file;
  BLI_path_rel s _ := s;
|}.

(** A small stand-in for the libraries: the active strip, the handle
    frames of the strips, the files that can be loaded, the scenes of
    [bmain], the proxy job and its queue, and the reports. *)
Record SampleLib := mkSampleLib {
  lib_active : option ptr;
  lib_handles : gmap ptr (Z * Z);
  lib_loadable : list string;
  lib_scenes : list nat;
  lib_job_running : bool;
  lib_queue : list ptr;
  lib_reports : list (ReportType * string);
}.

Definition with_lib {L} (f : L -> L) (w : World L) : World L :=
  mkWorld (strips w) (G_is_break w) (U_sequencer_proxy_setup w)
    (wm_area w) (screen_areabase w) (f (lib w)).

Definition lib_set_active (p : option ptr) (l : SampleLib) : SampleLib :=
  mkSampleLib p (lib_handles l) (lib_loadable l) (lib_scenes l)
    (lib_job_running l) (lib_queue l) (lib_reports l).
Definition lib_set_handles (f : gmap ptr (Z * Z) -> gmap ptr (Z * Z))
    (l : SampleLib) : SampleLib :=
  mkSampleLib (lib_active l) (f (lib_handles l)) (lib_loadable l)
    (lib_scenes l) (lib_job_running l) (lib_queue l) (lib_reports l).
Definition lib_set_running (b : bool) (l : SampleLib) : SampleLib :=
  mkSampleLib (lib_active l) (lib_handles l) (lib_loadable l) (lib_scenes l)
    b (lib_queue l) (lib_reports l).
Definition lib_enqueue (p : ptr) (l : SampleLib) : SampleLib :=
  mkSampleLib (lib_active l) (lib_handles l) (lib_loadable l) (lib_scenes l)
    (lib_job_running l) (lib_queue l ++ [p]) (lib_reports l).
Definition lib_add_report (r : ReportType * string) (l : SampleLib)
  : SampleLib :=
  mkSampleLib (lib_active l) (lib_handles l) (lib_loadable l) (lib_scenes l)
    (lib_job_running l) (lib_queue l) (lib_reports l ++ [r]).

(** A new strip of 10 frames at the descriptor's start frame and channel,
    at an address not in use. *)
Definition sample_add (type : Z) (ld : SeqLoadData) (w : World SampleLib)
  : option ptr * World SampleLib :=
  let p := fresh (dom (strips w)) in
  (Some p,
   with_lib (lib_set_handles
               (<[p := (start_frame ld, start_frame ld + 10)]>))
     (with_strips (<[p := strip type (channel ld)]>) w)).

Definition sample_add_file (type : Z) (ld : SeqLoadData)
    (w : World SampleLib) : option ptr * World SampleLib :=
  if bool_decide (path ld ∈ lib_loadable (lib w)) then sample_add type ld w
  else (None, w).

(** Another strip is on the channel of strip [p]. *)
Definition sample_test_overlap (p : ptr) (w : World SampleLib) : bool :=
  match strips w !! p with
  | Some s =>
    bool_decide (Exists (fun qs => qs.1 <> p /\ machine qs.2 = machine s)
                   (map_to_list (strips w)))
  | None => false
  end.

Definition sample_handle (p : ptr) (w : World SampleLib) : Z * Z :=
  default (0, 0) (lib_handles (lib w) !! p).

#[local] Instance sample_lib : SeqLib SampleLib := {|
  SEQ_editing_ensure w := w;
  ED_sequencer_deselect_all :=
    with_strips (fmap (set_flag (fun f => Z.land f (Z.lnot 1))));
  SEQ_select_active_set p := with_lib (lib_set_active (Some p));
  SEQ_transform_test_overlap := sample_test_overlap;
  SEQ_transform_handle_overlap col _ :=
    with_strips (map_imap (fun p s =>
      Some (if bool_decide (p ∈ col) then set_machine (fun c => c + 1) s
            else s)));
  SEQ_transform_seqbase_shuffle p :=
    with_strips (alter (set_machine (fun c => c + 1)) p);
  SEQ_add_scene_strip := sample_add 2;
  SEQ_add_movie_strip := sample_add_file 3;
  SEQ_add_sound_strip := sample_add_file 4;
  SEQ_time_right_handle_frame_get p w := (sample_handle p w).2;
  SEQ_time_left_handle_frame_get p w := (sample_handle p w).1;
  SEQ_time_right_handle_frame_set p z :=
    with_lib (lib_set_handles (alter (fun h => (h.1, z)) p));
  SEQ_time_left_handle_frame_set p z :=
    with_lib (lib_set_handles (alter (fun h => (z, h.2)) p));
  SEQ_tool_settings_fit_method_set _ w := w;
  BLI_findlink_scenes n w :=
    if 0 <=? n then lib_scenes (lib w) !! Z.to_nat n else None;
  BKE_main_blendfile_path _ := "";
  BKE_report t msg := with_lib (lib_add_report (t, msg));
  ED_seq_proxy_wm_job_get w := w;
  ED_seq_proxy_job_get w := w;
  SEQ_proxy_set _ _ w := w;
  SEQ_rendersize_to_proxysize z := z;
  SEQ_proxy_rebuild_context p := with_lib (lib_enqueue p);
  WM_jobs_is_running w := lib_job_running (lib w);
  WM_jobs_start := with_lib (lib_set_running true);
  ED_area_tag_redraw w := w;
  DEG_id_tag_update w := w;
  DEG_relations_tag_update w := w;
  WM_event_add_notifier w := w;
|}.

(** A world with one movie strip on channel 1 (frames 1 to 11) at address
    0, one scene, and two loadable files. *)
Definition sample_world : World SampleLib :=
  mkWorld {[ 0%nat := mkSequence 3 1 1 0 0 ]} true 1
    (mkScrArea [mkSpaceLink 8 2 0 0]) [mkScrArea [mkSpaceLink 8 2 0 0]]
    (mkSampleLib (Some 0%nat) {[ 0%nat := (1, 11) ]}
       ["/clips/a.mov"; "/clips/c.mov"] [7%nat] false [] []).

(** An operator with the given properties and no custom data. *)
Definition sample_op (props : list (string * PropValue))
  : wmOperator SamplePtr :=
  mkOperator (list_to_map props) None.

End Samples.

End SequencerAdd.

(** * Vocabulary of the properties

    The predicates, observations and sample inputs in whose terms the
    properties of the operators are stated. *)

Module SequencerAddSpec.
Import CInt SequencerAdd.

(** ** The guessed channel *)

(** The strip is of the requested type (any strip when the type is -1) and
    its right handle is at or before the current frame. *)
Definition candidate (strip_end_of : Sequence -> Z) (type cfra : Z)
    (s : Sequence) : Prop :=
  (type = -1 \/ type = seq_type s) /\ strip_end_of s <= cfra.

(** The loop variables after the strips [seen]: no target and the initial
    proximity while no candidate was seen, else a closest candidate and its
    distance. *)
Definition guess_inv (strip_end_of : Sequence -> Z) (type cfra : Z)
    (seen : list Sequence) (st : option Sequence * Z) : Prop :=
  match st.1 with
  | None =>
    st.2 = INT_MAX /\
    forall s, s ∈ seen -> ~ candidate strip_end_of type cfra s
  | Some t =>
    t ∈ seen /\ candidate strip_end_of type cfra t /\
    st.2 = cfra - strip_end_of t /\
    forall s, s ∈ seen -> candidate strip_end_of type cfra s ->
      strip_end_of s <= strip_end_of t
  end.

(** The strips the loop visits: those of [ed->seqbasep], none when [ed] or
    [ed->seqbasep] is [NULL]. *)
Definition visited_strips (ed : option Editing) : list Sequence :=
  match ed with
  | Some ed => default [] (seqbasep ed)
  | None => []
  end.

(** Sample timeline: two movie strips, on channels 2 and 4, ending at
    frames 10 and 20, and an image strip on channel 7 ending at frame 30. *)
Definition sample_strip_end (s : Sequence) : Z :=
  if machine s =? 2 then 10 else if machine s =? 4 then 20 else 30.

Definition sample_editing : option Editing :=
  Some (mkEditing (Some [Samples.strip 3 2; Samples.strip 3 4;
                         Samples.strip 0 7])).

(** ** Calls and observations *)

(** The two ways an overlap is resolved. *)
Definition is_overlap_resolution (e : Event) : bool :=
  match e with
  | Ev_handle_overlap _ _ | Ev_seqbase_shuffle _ => true
  | _ => false
  end.

Definition is_select_active_set (e : Event) : bool :=
  match e with Ev_select_active_set _ => true | _ => false end.

Definition is_deselect_all (e : Event) : bool :=
  match e with Ev_deselect_all => true | _ => false end.

Definition is_report (e : Event) : bool :=
  match e with Ev_report _ _ => true | _ => false end.

Definition is_jobs_start (e : Event) : bool :=
  match e with Ev_jobs_start => true | _ => false end.

(** What is observed of an import: each attempt to load a movie file, with
    the path tried and the strip returned, and each report. *)
Inductive LoadObs :=
| Obs_load (path : string) (r : option ptr)
| Obs_report (t : ReportType) (msg : string).

Definition movie_obs (e : Event) : option LoadObs :=
  match e with
  | Ev_add_movie_strip ld r => Some (Obs_load (path ld) r)
  | Ev_report t msg => Some (Obs_report t msg)
  | _ => None
  end.

Definition is_movie_obs (e : Event) : bool :=
  match e with
  | Ev_add_movie_strip _ _ | Ev_report _ _ => true
  | _ => false
  end.

(** The same of an import of sound files. *)
Definition sound_obs (e : Event) : option LoadObs :=
  match e with
  | Ev_add_sound_strip ld r => Some (Obs_load (path ld) r)
  | Ev_report t msg => Some (Obs_report t msg)
  | _ => None
  end.

Definition is_sound_obs (e : Event) : bool :=
  match e with
  | Ev_add_sound_strip _ _ | Ev_report _ _ => true
  | _ => false
  end.

(** The observations of one file: the attempt, and the error report when
    it failed. *)
Definition file_obs (path : string) (r : option ptr) : list LoadObs :=
  Obs_load path r ::
  match r with
  | None => [Obs_report RPT_ERROR (load_error_message path)]
  | Some _ => []
  end.

(** The observations of a list of files, given what each attempt
    returned. *)
Fixpoint files_obs (paths : list string) (rs : list (option ptr))
  : list LoadObs :=
  match paths, rs with
  | path :: paths, r :: rs => file_obs path r ++ files_obs paths rs
  | _, _ => []
  end.

(** Some attempt of the observations returned a strip. *)
Definition loaded (obs : list LoadObs) : Prop :=
  exists path p, Obs_load path (Some p) ∈ obs.

(** ** Parts of the operators, and what the library may be assumed to do *)

Section Vocabulary.
Context {consts : Constants} {P PropertyRNA : Type}
        {rna : RnaApi P PropertyRNA} {paths : PathApi}
        {L : Type} {seqlib : SeqLib L}.

(** No call of [m] is one of the [bad] ones. *)
Definition avoids (bad : Event -> bool) {A} (m : M L A) : Prop :=
  forall w, Forall (fun e => bad e = false) (calls m w).

(** The descriptor after the fit-method block of
    [load_data_init_from_operator] (the block without its library
    call). *)
Definition stage_fit (ptr : P) (ld : SeqLoadData) : SeqLoadData :=
  match RNA_struct_find_property ptr "fit_method" with
  | Some _ => with_fit_method (RNA_enum_get ptr "fit_method") ld
  | None => ld
  end.

(** Two descriptors with the same frame fields. *)
Definition same_frames (a b : SeqLoadData) : Prop :=
  start_frame a = start_frame b /\ channel a = channel b /\
  image_len a = image_len b /\ image_end_frame a = image_end_frame b /\
  effect_end_frame a = effect_end_frame b.

(** The scene the operator's [scene] property selects, looked up after
    [SEQ_editing_ensure]. *)
Definition scene_lookup (op : wmOperator P) (w : World L) : option nat :=
  BLI_findlink_scenes (RNA_enum_get (op_ptr op) "scene")
    (SEQ_editing_ensure w).

(** What [sequencer_add_scene_strip_exec] does once the scene is found. *)
Definition scene_strip_found (op : wmOperator P) (sce : nat)
  : M L OperatorResult :=
  (if RNA_boolean_get (op_ptr op) "replace_sel"
   then call ED_sequencer_deselect_all Ev_deselect_all
   else mret tt) ;;
  load_data ← load_data_init_from_operator op;
  let load_data := with_scene (Some sce) load_data in
  seq ← call_ret (SEQ_add_scene_strip load_data)
                 (Ev_add_scene_strip load_data);
  seq_load_apply_generic_options op seq ;;
  call DEG_id_tag_update Ev_deg_id_tag_update ;;
  call DEG_relations_tag_update Ev_deg_relations_tag_update ;;
  call WM_event_add_notifier Ev_event_add_notifier ;;
  mret OPERATOR_FINISHED.

(** The strip at [p] has its [SELECT] flag set. *)
Definition selected (p : ptr) (w : World L) : Prop :=
  exists s, strips w !! p = Some s /\ has_flag (flag s) SELECT = true.

Definition keeps_selected (p : ptr) (f : World L -> World L) : Prop :=
  forall w, selected p w -> selected p (f w).

(** The library calls made once the new strip [p] is selected do not
    deselect it. *)
Definition library_keeps_selected (p : ptr) : Prop :=
  keeps_selected p (SEQ_select_active_set p) /\
  (forall col b, keeps_selected p (SEQ_transform_handle_overlap col b)) /\
  keeps_selected p (SEQ_transform_seqbase_shuffle p) /\
  keeps_selected p DEG_id_tag_update /\
  keeps_selected p DEG_relations_tag_update /\
  keeps_selected p WM_event_add_notifier.

(** The per-strip part of [seq_build_proxy]. *)
Definition enqueue_proxies (strips_to_build : list ptr) : M L unit :=
  foreach strips_to_build (fun seq =>
    call (SEQ_proxy_set seq true) (Ev_proxy_set seq) ;;
    size_flags ← read seq_get_proxy_size_flags;
    write (with_strips (alter (set_build_size_flags size_flags) seq)) ;;
    write (with_strips
             (alter (set_build_flags
                       (fun f => Z.lor f SEQ_PROXY_SKIP_EXISTING)) seq)) ;;
    call (SEQ_proxy_rebuild_context seq) (Ev_proxy_rebuild_context seq)).

(** What follows a successful load in one iteration of the loop of
    [sequencer_add_movie_multiple_strips]. *)
Definition movie_loaded (op : wmOperator P) (overlap_shuffle_override : bool)
    (st : MovieLoop) (load_data : SeqLoadData) (seq_movie : ptr)
  : M L MovieLoop :=
  seq_sound ← movie_add_sound op load_data seq_movie;
  right ← read (SEQ_time_right_handle_frame_get seq_movie);
  left ← read (SEQ_time_left_handle_frame_get seq_movie);
  let load_data :=
    with_start_frame
      (int_add (start_frame load_data) (int_sub right left)) load_data in
  '(has_seq_overlap, strip_col) ←
    (if overlap_shuffle_override then
       '(o1, col) ← seq_load_apply_generic_options_only_test_overlap
                      op seq_sound (ml_strip_col st);
       '(o2, col) ← seq_load_apply_generic_options_only_test_overlap
                      op (Some seq_movie) col;
       mret (ml_has_seq_overlap st || o1 || o2, col)
     else
       seq_load_apply_generic_options op seq_sound ;;
       seq_load_apply_generic_options op (Some seq_movie) ;;
       mret (ml_has_seq_overlap st, ml_strip_col st));
  mret (mkMovieLoop load_data has_seq_overlap strip_col
          ({[ seq_movie ]} ∪ ml_movie_strips st)).

(** The import step of [sequencer_add_movie_strip_exec]: several files or
    one. *)
Definition movie_import (op : wmOperator P) (load_data : SeqLoadData)
  : M L (gset ptr) :=
  if 1 <? RNA_property_collection_length (op_ptr op)
            (RNA_struct_find_property (op_ptr op) "files")
  then
    r ← sequencer_add_movie_multiple_strips op load_data ∅;
    mret r.2
  else
    r ← sequencer_add_movie_single_strip op load_data ∅;
    mret r.2.

(** The world in which the import starts. *)
Definition movie_import_world (op : wmOperator P) (w : World L) : World L :=
  let w1 := world_after (load_data_init_from_operator op) w in
  if RNA_boolean_get (op_ptr op) "replace_sel"
  then ED_sequencer_deselect_all w1 else w1.

(** What [sequencer_add_movie_strip_exec] does after the import. *)
Definition movie_import_done (movie_strips : gset ptr) : M L OperatorResult :=
  if (size movie_strips =? 0)%nat then mret OPERATOR_CANCELLED
  else
    seq_build_proxy movie_strips ;;
    call DEG_relations_tag_update Ev_deg_relations_tag_update ;;
    call DEG_id_tag_update Ev_deg_id_tag_update ;;
    call WM_event_add_notifier Ev_event_add_notifier ;;
    mret OPERATOR_FINISHED.

End Vocabulary.

(** ** Sample operators *)

(** A sound operator: start frame 10, channel 2, end frame 30, cached,
    not mono. *)
Definition sample_sound_op : wmOperator Samples.SamplePtr :=
  Samples.sample_op
    [("frame_start", Samples.PInt 10); ("channel", Samples.PInt 2);
     ("frame_end", Samples.PInt 30); ("cache", Samples.PBool true);
     ("mono", Samples.PBool false); ("filepath", Samples.PString "/a.wav")].

(** An operator adding scene 0 of [bmain] and replacing the selection. *)
Definition sample_scene_op : wmOperator Samples.SamplePtr :=
  Samples.sample_op
    [("scene", Samples.PEnum 0); ("replace_sel", Samples.PBool true);
     ("frame_start", Samples.PInt 20); ("channel", Samples.PInt 1)].

(** A movie operator that loads sound. *)
Definition sample_movie_op (files : list string)
  : wmOperator Samples.SamplePtr :=
  Samples.sample_op
    [("files", Samples.PFiles files); ("directory", Samples.PString "/clips/");
     ("replace_sel", Samples.PBool true); ("frame_start", Samples.PInt 1);
     ("channel", Samples.PInt 1); ("sound", Samples.PBool true)].

Definition sample_load_data : SeqLoadData :=
  with_path "/clips/a.mov" (with_channel 1 (with_start_frame 1 load_data_zero)).

End SequencerAddSpec.

(** * The further operators of sequencer_add.c

    The operators and helpers of the file that the definitions above leave
    out, and the observations in whose terms their properties are
    stated. *)

Module SequencerAddOperators.
Import CInt SequencerAdd SequencerAddSpec.

(** ** Observations of a run *)

(** The strip a call enqueues for a proxy rebuild, and the strip a call
    enables proxies on. *)
Definition rebuild_of (e : Event) : option ptr :=
  match e with Ev_proxy_rebuild_context p => Some p | _ => None end.

Definition proxy_set_of (e : Event) : option ptr :=
  match e with Ev_proxy_set p => Some p | _ => None end.

(** The strip a call created: a movie or a sound strip. *)
Definition loaded_strip_of (e : Event) : option ptr :=
  match e with
  | Ev_add_movie_strip _ r | Ev_add_sound_strip _ r => r
  | _ => None
  end.

Definition is_handle_overlap (e : Event) : bool :=
  match e with Ev_handle_overlap _ _ => true | _ => false end.

Definition is_seqbase_shuffle (e : Event) : bool :=
  match e with Ev_seqbase_shuffle _ => true | _ => false end.

(** The strip a call tested for overlap, and whether some test of a run
    found one. *)
Definition tested_strip_of (e : Event) : option ptr :=
  match e with Ev_test_overlap p _ => Some p | _ => None end.

Definition found_overlap (e : Event) : bool :=
  match e with Ev_test_overlap _ r => r | _ => false end.

(** What a run leaves to observe of overlaps: the strips it created, the
    strips it tested, whether a test found an overlap, and the resolutions
    it called. *)
Record Overlaps := mkOverlaps {
  ov_loaded : list ptr;
  ov_tested : list ptr;
  ov_found : bool;
  ov_resolved : list Event;
}.

Definition overlaps_of (tr : list Event) : Overlaps :=
  mkOverlaps (omap loaded_strip_of tr) (omap tested_strip_of tr)
    (existsb found_overlap tr) (List.filter is_overlap_resolution tr).

Definition ov_app (a b : Overlaps) : Overlaps :=
  mkOverlaps (ov_loaded a ++ ov_loaded b) (ov_tested a ++ ov_tested b)
    (ov_found a || ov_found b) (ov_resolved a ++ ov_resolved b).

Section OperatorVocabulary.
Context {consts : Constants} {P PropertyRNA : Type}
        {rna : RnaApi P PropertyRNA} {paths : PathApi}
        {L : Type} {seqlib : SeqLib L}.

(** A sequencer space that shows a preview. *)
Definition shows_preview (sl : SpaceLink) : Prop :=
  spacetype sl = SPACE_SEQ /\
  (sseq_view sl = SEQ_VIEW_PREVIEW \/ sseq_view sl = SEQ_VIEW_SEQUENCE_PREVIEW).

(** The strip [p], as [seq_build_proxy] leaves it before it hands it to
    [SEQ_proxy_rebuild_context]: the world after [SEQ_proxy_set] with the
    two proxy fields written. *)
Definition proxy_prepared (p : ptr) (w : World L) : World L :=
  let w1 := SEQ_proxy_set p true w in
  with_strips
    (alter (set_build_flags (fun f => Z.lor f SEQ_PROXY_SKIP_EXISTING)) p)
    (with_strips
       (alter (set_build_size_flags (seq_get_proxy_size_flags w1)) p) w1).

(** [overlap_shuffle_override] as the movie functions compute it. *)
Definition overlap_shuffle_override_of (op : wmOperator P) : bool :=
  negb (RNA_boolean_get (op_ptr op) "overlap")
  && RNA_boolean_get (op_ptr op) "overlap_shuffle_override".

(** The path [load_data_init_from_operator] leaves, made relative to the
    blend file when the operator asks for it. *)
Definition relative_to_blendfile (op : wmOperator P) (w : World L)
    (path : string) : string :=
  if prop_is_true (op_ptr op) "relative_path"
  then BLI_path_rel path (BKE_main_blendfile_path w)
  else path.

End OperatorVocabulary.

(** ** Adding sound strips *)

Section SoundOperators.
Context {consts : Constants} {P PropertyRNA : Type}
        {rna : RnaApi P PropertyRNA} {paths : PathApi}
        {L : Type} {seqlib : SeqLib L}.

(** [sequencer_add_sound_single_strip] *)
Definition sequencer_add_sound_single_strip (op : wmOperator P)
    (load_data : SeqLoadData) : M L bool :=
  call SEQ_editing_ensure Ev_editing_ensure ;;
  seq ← call_ret (SEQ_add_sound_strip load_data)
                 (Ev_add_sound_strip load_data);
  match seq with
  | None =>
    report RPT_ERROR (load_error_message (path load_data)) ;;
    mret false
  | Some seq =>
    seq_load_apply_generic_options op (Some seq) ;;
    mret true
  end.

(** The import step of [sequencer_add_sound_strip_exec]:
    [if (tot_files > 1) { sequencer_add_sound_multiple_strips(...); }
     else { if (!sequencer_add_sound_single_strip(...)) {
     return OPERATOR_CANCELLED; } }]
    It returns false where the operator returns early. *)
Definition sound_import (op : wmOperator P) (load_data : SeqLoadData)
  : M L bool :=
  let tot_files :=
    RNA_property_collection_length (op_ptr op)
      (RNA_struct_find_property (op_ptr op) "files") in
  if 1 <? tot_files then
    sequencer_add_sound_multiple_strips op load_data ;;
    mret true
  else sequencer_add_sound_single_strip op load_data.

(** [sequencer_add_sound_strip_exec]; freeing the operator's custom data
    leaves no trace here. *)
Definition sequencer_add_sound_strip_exec (op : wmOperator P)
  : M L OperatorResult :=
  load_data ← load_data_init_from_operator op;
  (if RNA_boolean_get (op_ptr op) "replace_sel"
   then call ED_sequencer_deselect_all Ev_deselect_all
   else mret tt) ;;
  imported ← sound_import op load_data;
  if negb imported then mret OPERATOR_CANCELLED
  else
    call DEG_relations_tag_update Ev_deg_relations_tag_update ;;
    call DEG_id_tag_update Ev_deg_id_tag_update ;;
    call WM_event_add_notifier Ev_event_add_notifier ;;
    mret OPERATOR_FINISHED.

(** The world in which the import of [sequencer_add_sound_strip_exec]
    starts. *)
Definition sound_import_world (op : wmOperator P) (w : World L) : World L :=
  let w1 := world_after (load_data_init_from_operator op) w in
  if RNA_boolean_get (op_ptr op) "replace_sel"
  then ED_sequencer_deselect_all w1 else w1.

End SoundOperators.

(** The calls that end an exec that finished. *)
Definition is_update (e : Event) : bool :=
  match e with
  | Ev_deg_id_tag_update | Ev_deg_relations_tag_update
  | Ev_event_add_notifier => true
  | _ => false
  end.

(** ** Image sequences: the frame numbers of the files *)

(** The path functions of [BLI_path_util.h] that read and write the frame
    number of a file name, and the buffer sizes the image functions
    use. *)
Class FrameApi := {
  (** [BLI_path_frame_get(path, &frame, &numdigits)], given what
      [numdigits] holds: the frame number found in the path, if one was,
      and what it leaves in [numdigits]. *)
  BLI_path_frame_get : string -> Z -> option Z * Z;
  (** [BLI_path_frame_strip(path, ext, sizeof(ext))]: the path without its
      frame number, and the extension. *)
  BLI_path_frame_strip : string -> string * string;
  (** [BLI_path_frame(path, sizeof(path), frame, digits)]. *)
  BLI_path_frame : string -> Z -> Z -> string;
  (** [BLI_path_split_dir_part(path, dir, dir_maxlen)]. *)
  BLI_path_split_dir_part : string -> nat -> string;
  FILE_MAX : nat;
  FILE_MAXDIR : nat;
  (** [sizeof(se->name)] of a [StripElem]. *)
  sizeof_StripElem_name : nat;
}.

Section ImageFrames.
Context {P PropertyRNA : Type} {rna : RnaApi P PropertyRNA}
        {frames : FrameApi}.

(** One iteration of [RNA_BEGIN (op->ptr, itemptr, "files")] in
    [sequencer_image_seq_get_minmax_frame], on the variables [minframe],
    [maxframe] and [numdigits]; [min_ii] and [max_ii] are the minimum and
    the maximum of two [int]s. *)
Definition minmax_frame_step (st : Z * Z * Z) (itemptr : P) : Z * Z * Z :=
  let '(minframe, maxframe, numdigits) := st in
  let filename := RNA_string_get_alloc itemptr "name" in
  match BLI_path_frame_get filename numdigits with
  | (Some frame, numdigits) =>
    (Z.min minframe frame, Z.max maxframe frame, numdigits)
  | (None, numdigits) => (minframe, maxframe, numdigits)
  end.

(** [sequencer_image_seq_get_minmax_frame]: the value returned, with
    [*r_minframe] and [*r_numdigits]. *)
Definition sequencer_image_seq_get_minmax_frame (op : wmOperator P)
    (sfra : Z) : Z * Z * Z :=
  let '(minframe, maxframe, numdigits) :=
    fold_left minmax_frame_step (RNA_collection_items (op_ptr op) "files")
      (INT_MAX, INT_MIN, 0) in
  let '(minframe, maxframe) :=
    if minframe =? INT_MAX then (sfra, int_add sfra 1)
    else (minframe, maxframe) in
  (int_add (int_sub maxframe minframe) 1, minframe, numdigits).

(** [sequencer_add_image_strip_calculate_length]: the length, with
    [*minframe] and [*numdigits], which the source leaves unset (here 0)
    without placeholders and reads only with them. *)
Definition sequencer_add_image_strip_calculate_length (op : wmOperator P)
    (start_frame : Z) : Z * Z * Z :=
  if RNA_boolean_get (op_ptr op) "use_placeholders" then
    sequencer_image_seq_get_minmax_frame op start_frame
  else
    (RNA_property_collection_length (op_ptr op)
       (RNA_struct_find_property (op_ptr op) "files"), 0, 0).

(** The names [sequencer_image_seq_reserve_frames] writes to the [len]
    elements from [se] on: none when [files] is empty. *)
Definition sequencer_image_seq_reserve_frames (op : wmOperator P)
    (len minframe numdigits : Z) : list string :=
  match RNA_collection_items (op_ptr op) "files" with
  | [] => []
  | itemptr :: _ =>
    let filename := RNA_string_get_alloc itemptr "name" in
    let '(filename, ext) := BLI_path_frame_strip filename in
    (fun i =>
       let filename_stripped := STRNCPY FILE_MAX filename in
       let filename_stripped :=
         BLI_path_frame filename_stripped (int_add minframe i) numdigits in
       STRNCPY sizeof_StripElem_name (filename_stripped +:+ ext))
    <$> seqZ 0 len
  end.

(** The frame numbers the loop of [sequencer_image_seq_get_minmax_frame]
    finds in the names of [files], in order, [numdigits] holding [nd]
    before the first. *)
Fixpoint frames_found (files : list P) (nd : Z) : list Z :=
  match files with
  | [] => []
  | itemptr :: files =>
    match BLI_path_frame_get (RNA_string_get_alloc itemptr "name") nd with
    | (Some frame, nd) => frame :: frames_found files nd
    | (None, nd) => frames_found files nd
    end
  end.

End ImageFrames.

Section ImagePlaceholders.
Context {P PropertyRNA : Type} {rna : RnaApi P PropertyRNA}
        {frames : FrameApi}.

(** The name of the placeholder of frame [frame]: the name of the first
    file with its frame number replaced. *)
Definition placeholder_name (op : wmOperator P) (frame numdigits : Z)
  : option string :=
  match RNA_collection_items (op_ptr op) "files" with
  | [] => None
  | itemptr :: _ =>
    let '(filename, ext) :=
      BLI_path_frame_strip (RNA_string_get_alloc itemptr "name") in
    Some (STRNCPY sizeof_StripElem_name
            (BLI_path_frame (STRNCPY FILE_MAX filename) frame numdigits
             +:+ ext))
  end.

End ImagePlaceholders.

(** ** The operators that add scene, clip, mask, image and effect strips *)

(** Further constants of the headers. *)
Class OperatorConstants := {
  MAXSEQ : Z;
  SEQ_TYPE_COLOR : Z;
}.

(** [load_data.effect], but for [end_frame]: the type of the effect and
    its input strips. *)
Record EffectData := mkEffectData {
  effect_type : Z;
  effect_seq1 : option ptr;
  effect_seq2 : option ptr;
  effect_seq3 : option ptr;
}.

(** What [seq_effect_find_selected] gives: the three input strips, or
    [false] with an error message. *)
Inductive EffectInputs :=
| Inputs_found (seq1 seq2 seq3 : option ptr)
| Inputs_error (error_msg : string).

(** Further access to the properties of an operator. *)
Class RnaSetApi (P : Type) := {
  RNA_struct_property_is_set : P -> string -> bool;
  (** The three floats [RNA_float_get_array] reads. *)
  RNA_float_get_array : P -> string -> list SpecFloat.spec_float;
}.

(** The calls of these operators into the libraries: those recorded so
    far, and the ones only they make. *)
Inductive OpEvent :=
| Ev_base (e : Event)
| Ev_scene_sequencer_add (type : Z) (r : option nat)
| Ev_add_movieclip_strip (ld : SeqLoadData) (clip : nat) (r : option ptr)
| Ev_add_mask_strip (ld : SeqLoadData) (mask : nat) (r : option ptr)
| Ev_add_image_strip (ld : SeqLoadData) (r : ptr)
| Ev_image_set_directory (p : ptr) (directory : string)
| Ev_image_load_file (p : ptr) (strip_frame : Z) (filename : string)
| Ev_image_init_alpha_mode (p : ptr)
| Ev_strip_elem_name (p : ptr) (index : Z) (name : string)
| Ev_effect_find_selected (type : Z) (r : EffectInputs)
| Ev_add_effect_strip (ld : SeqLoadData) (effect : EffectData) (r : ptr)
| Ev_color_set (p : ptr) (col : list SpecFloat.spec_float).

(** The library functions only these operators call.  [SEQ_add_image_strip]
    and [SEQ_add_effect_strip] return a strip that the operators use
    without testing it. [BLI_findlink_movieclips] and [BLI_findlink_masks]
    are [BLI_findlink] on [bmain->movieclips] and [bmain->masks];
    [StripElem_name_set] is the write of [se->name] for an element of
    [seq->strip->stripdata], [SolidColorVars_col_set] that of
    [colvars->col] of the strip's effect data. *)
Class OperatorLib (L : Type) := {
  ED_scene_sequencer_add : Z -> World L -> option nat * World L;
  BLI_findlink_movieclips : Z -> World L -> option nat;
  BLI_findlink_masks : Z -> World L -> option nat;
  SEQ_add_movieclip_strip :
    SeqLoadData -> nat -> World L -> option ptr * World L;
  SEQ_add_mask_strip : SeqLoadData -> nat -> World L -> option ptr * World L;
  SEQ_add_image_strip : SeqLoadData -> World L -> ptr * World L;
  SEQ_add_image_set_directory : ptr -> string -> World L -> World L;
  SEQ_add_image_load_file : ptr -> Z -> string -> World L -> World L;
  SEQ_add_image_init_alpha_mode : ptr -> World L -> World L;
  StripElem_name_set : ptr -> Z -> string -> World L -> World L;
  seq_effect_find_selected : Z -> World L -> EffectInputs;
  SEQ_add_effect_strip : SeqLoadData -> EffectData -> World L -> ptr * World L;
  SolidColorVars_col_set :
    ptr -> list SpecFloat.spec_float -> World L -> World L;
}.

(** The monad of these operators: as [M], with the longer call record. *)
Definition MO (L A : Type) : Type := World L -> A * World L * list OpEvent.

#[global] Instance MO_ret {L} : MRet (MO L) :=
  fun A (a : A) (w : World L) => (a, w, []).

#[global] Instance MO_bind {L} : MBind (MO L) :=
  fun A B (k : A -> MO L B) (m : MO L A) (w : World L) =>
    let '(a, w1, t1) := m w in
    let '(b, w2, t2) := k a w1 in
    (b, w2, t1 ++ t2).

(** A computation of [M], its calls recorded as they were. *)
Definition lift {L A} (m : M L A) : MO L A :=
  fun w => ((m w).1.1, (m w).1.2, Ev_base <$> (m w).2).

Definition op_call {L} (f : World L -> World L) (e : OpEvent) : MO L unit :=
  fun w => (tt, f w, [e]).

Definition op_call_ret {L A} (f : World L -> A * World L) (e : A -> OpEvent)
  : MO L A :=
  fun w => ((f w).1, (f w).2, [e (f w).1]).

Definition op_ask {L A} (f : World L -> A) (e : A -> OpEvent) : MO L A :=
  fun w => (f w, w, [e (f w)]).

Definition op_read {L A} (f : World L -> A) : MO L A :=
  fun w => (f w, w, []).

(** A loop that threads its variables [S] through the iterations. *)
Fixpoint op_loop {L A S} (l : list A) (body : A -> S -> MO L S) (s : S)
  : MO L S :=
  match l with
  | [] => mret s
  | x :: l' => s' ← body x s; op_loop l' body s'
  end.

Definition op_result {L A} (m : MO L A) (w : World L) : A := (m w).1.1.
Definition op_world_after {L A} (m : MO L A) (w : World L) : World L :=
  (m w).1.2.
Definition op_calls {L A} (m : MO L A) (w : World L) : list OpEvent :=
  (m w).2.

(** The calls of a record that [Event] lists. *)
Definition base_of (e : OpEvent) : option Event :=
  match e with Ev_base e => Some e | _ => None end.

(** No call of [m] is one of the [bad] ones. *)
Definition op_avoids {L} (bad : OpEvent -> bool) {A} (m : MO L A) : Prop :=
  forall w, Forall (fun e => bad e = false) (op_calls m w).

Definition is_base_report (e : OpEvent) : bool :=
  match e with Ev_base (Ev_report _ _) => true | _ => false end.

(** A call that adds a strip. *)
Definition is_strip_added (e : OpEvent) : bool :=
  match e with
  | Ev_base (Ev_add_scene_strip _ _) | Ev_base (Ev_add_movie_strip _ _)
  | Ev_base (Ev_add_sound_strip _ _)
  | Ev_add_movieclip_strip _ _ _ | Ev_add_mask_strip _ _ _
  | Ev_add_image_strip _ _ | Ev_add_effect_strip _ _ _ => true
  | _ => false
  end.

Definition is_base_relations_update (e : OpEvent) : bool :=
  match e with Ev_base Ev_deg_relations_tag_update => true | _ => false end.

Definition is_base_deselect_all (e : OpEvent) : bool :=
  match e with Ev_base Ev_deselect_all => true | _ => false end.

(** The file a call loads into an image strip, and the element name a
    call writes, each with the strip and the index. *)
Definition image_load_of (e : OpEvent) : option (ptr * Z * string) :=
  match e with
  | Ev_image_load_file p strip_frame filename => Some (p, strip_frame, filename)
  | _ => None
  end.

Definition elem_name_of (e : OpEvent) : option (ptr * Z * string) :=
  match e with
  | Ev_strip_elem_name p index name => Some (p, index, name)
  | _ => None
  end.

Definition is_base_handle_set (e : OpEvent) : bool :=
  match e with
  | Ev_base (Ev_right_handle_frame_set _ _)
  | Ev_base (Ev_left_handle_frame_set _ _) => true
  | _ => false
  end.

(** The strip a call inserted. *)
Definition inserted_strip_of (e : OpEvent) : option ptr :=
  match e with
  | Ev_base (Ev_add_scene_strip _ r) | Ev_base (Ev_add_movie_strip _ r)
  | Ev_base (Ev_add_sound_strip _ r)
  | Ev_add_movieclip_strip _ _ r | Ev_add_mask_strip _ _ r => r
  | Ev_add_image_strip _ p | Ev_add_effect_strip _ _ p => Some p
  | _ => None
  end.

(** A call that adds a strip, [ED_sequencer_deselect_all] or
    [SEQ_select_active_set]. *)
Definition is_selection_call (e : OpEvent) : bool :=
  match e with
  | Ev_base Ev_deselect_all | Ev_base (Ev_select_active_set _) => true
  | _ => is_strip_added e
  end.

(** A record of calls that replaces the selection: every strip inserted is
    inserted after a call of [ED_sequencer_deselect_all] and before a call
    of [SEQ_select_active_set] on it. *)
Definition replaces_selection (tr : list OpEvent) : Prop :=
  forall pre e post p,
    tr = pre ++ e :: post -> inserted_strip_of e = Some p ->
    Ev_base Ev_deselect_all ∈ pre /\
    Ev_base (Ev_select_active_set p) ∈ post.

(** A record of calls that leaves the selection and the active strip
    alone. *)
Definition keeps_selection (tr : list OpEvent) : Prop :=
  (Ev_base Ev_deselect_all ∉ tr) /\
  forall q, Ev_base (Ev_select_active_set q) ∉ tr.

(** The two together, for a part of a record: with [replace_sel] the
    selection is replaced, where [deselected] says that
    [ED_sequencer_deselect_all] was called before the part starts; without
    it the selection is left alone. *)
Definition selection_handled (replace_sel deselected : bool)
    (tr : list OpEvent) : Prop :=
  if replace_sel then
    forall pre e post p,
      tr = pre ++ e :: post -> inserted_strip_of e = Some p ->
      (deselected = true \/ Ev_base Ev_deselect_all ∈ pre) /\
      Ev_base (Ev_select_active_set p) ∈ post
  else keeps_selection tr.

Definition handles_selection {L} (replace_sel deselected : bool) {A}
    (m : M L A) : Prop :=
  forall w, selection_handled replace_sel deselected (Ev_base <$> calls m w).

Definition op_handles_selection {L} (replace_sel deselected : bool) {A}
    (m : MO L A) : Prop :=
  forall w, selection_handled replace_sel deselected (op_calls m w).

Section MoreOperators.
Context {consts : Constants} {opconsts : OperatorConstants}
        {P PropertyRNA : Type} {rna : RnaApi P PropertyRNA}
        {rnaset : RnaSetApi P} {paths : PathApi} {frames : FrameApi}
        {L : Type} {seqlib : SeqLib L} {oplib : OperatorLib L}.

(** [if (RNA_boolean_get(op->ptr, "replace_sel")) {
    ED_sequencer_deselect_all(scene); }] *)
Definition deselect_if_replacing (op : wmOperator P) : M L unit :=
  if RNA_boolean_get (op_ptr op) "replace_sel"
  then call ED_sequencer_deselect_all Ev_deselect_all
  else mret tt.

(** [sequencer_add_scene_strip_new_exec] *)
Definition sequencer_add_scene_strip_new_exec (op : wmOperator P)
  : MO L OperatorResult :=
  lift (call SEQ_editing_ensure Ev_editing_ensure) ;;
  lift (deselect_if_replacing op) ;;
  load_data ← lift (load_data_init_from_operator op);
  let type := RNA_enum_get (op_ptr op) "type" in
  scene_new ← op_call_ret (ED_scene_sequencer_add type)
                          (Ev_scene_sequencer_add type);
  match scene_new with
  | None => mret OPERATOR_CANCELLED
  | Some sce =>
    let load_data := with_scene (Some sce) load_data in
    seq ← lift (call_ret (SEQ_add_scene_strip load_data)
                         (Ev_add_scene_strip load_data));
    lift (seq_load_apply_generic_options op seq) ;;
    lift (call DEG_id_tag_update Ev_deg_id_tag_update) ;;
    lift (call DEG_relations_tag_update Ev_deg_relations_tag_update) ;;
    lift (call WM_event_add_notifier Ev_event_add_notifier) ;;
    mret OPERATOR_FINISHED
  end.

(** [sequencer_add_movieclip_strip_exec]; [load_data.clip] is handed to
    [SEQ_add_movieclip_strip] beside the descriptor. *)
Definition sequencer_add_movieclip_strip_exec (op : wmOperator P)
  : MO L OperatorResult :=
  lift (call SEQ_editing_ensure Ev_editing_ensure) ;;
  clip ← op_read (BLI_findlink_movieclips (RNA_enum_get (op_ptr op) "clip"));
  match clip with
  | None =>
    lift (report RPT_ERROR "Movie clip not found") ;;
    mret OPERATOR_CANCELLED
  | Some clip =>
    lift (deselect_if_replacing op) ;;
    load_data ← lift (load_data_init_from_operator op);
    seq ← op_call_ret (SEQ_add_movieclip_strip load_data clip)
                      (Ev_add_movieclip_strip load_data clip);
    lift (seq_load_apply_generic_options op seq) ;;
    lift (call DEG_id_tag_update Ev_deg_id_tag_update) ;;
    lift (call WM_event_add_notifier Ev_event_add_notifier) ;;
    mret OPERATOR_FINISHED
  end.

(** [sequencer_add_mask_strip_exec]; [load_data.mask] is handed to
    [SEQ_add_mask_strip] beside the descriptor. *)
Definition sequencer_add_mask_strip_exec (op : wmOperator P)
  : MO L OperatorResult :=
  lift (call SEQ_editing_ensure Ev_editing_ensure) ;;
  mask ← op_read (BLI_findlink_masks (RNA_enum_get (op_ptr op) "mask"));
  match mask with
  | None =>
    lift (report RPT_ERROR "Mask not found") ;;
    mret OPERATOR_CANCELLED
  | Some mask =>
    lift (deselect_if_replacing op) ;;
    load_data ← lift (load_data_init_from_operator op);
    seq ← op_call_ret (SEQ_add_mask_strip load_data mask)
                      (Ev_add_mask_strip load_data mask);
    lift (seq_load_apply_generic_options op seq) ;;
    lift (call DEG_id_tag_update Ev_deg_id_tag_update) ;;
    lift (call WM_event_add_notifier Ev_event_add_notifier) ;;
    mret OPERATOR_FINISHED
  end.

(** [sequencer_add_image_strip_load_files] *)
Definition sequencer_add_image_strip_load_files (op : wmOperator P)
    (seq : ptr) (load_data : SeqLoadData) (minframe numdigits : Z)
  : MO L unit :=
  let use_placeholders := RNA_boolean_get (op_ptr op) "use_placeholders" in
  let directory := BLI_path_split_dir_part (path load_data) FILE_MAXDIR in
  op_call (SEQ_add_image_set_directory seq directory)
          (Ev_image_set_directory seq directory) ;;
  if use_placeholders then
    op_loop
      (sequencer_image_seq_reserve_frames op (image_len load_data)
         minframe numdigits)
      (fun name i =>
         op_call (StripElem_name_set seq i name)
                 (Ev_strip_elem_name seq i name) ;;
         mret (i + 1))
      0 ;;
    mret tt
  else
    op_loop (RNA_collection_items (op_ptr op) "files")
      (fun itemptr strip_frame =>
         let filename := RNA_string_get_alloc itemptr "name" in
         op_call (SEQ_add_image_load_file seq strip_frame filename)
                 (Ev_image_load_file seq strip_frame filename) ;;
         mret (strip_frame + 1))
      0 ;;
    mret tt.

(** [sequencer_add_image_strip_exec]; [sequencer_add_cancel], which frees
    the operator's custom data, leaves no trace here. *)
Definition sequencer_add_image_strip_exec (op : wmOperator P)
  : MO L OperatorResult :=
  lift (call SEQ_editing_ensure Ev_editing_ensure) ;;
  load_data ← lift (load_data_init_from_operator op);
  let '(len, minframe, numdigits) :=
    sequencer_add_image_strip_calculate_length op (start_frame load_data) in
  let load_data := with_image_len len load_data in
  if image_len load_data =? 0 then mret OPERATOR_CANCELLED
  else
    lift (deselect_if_replacing op) ;;
    seq ← op_call_ret (SEQ_add_image_strip load_data)
                      (Ev_add_image_strip load_data);
    sequencer_add_image_strip_load_files op seq load_data minframe
      numdigits ;;
    op_call (SEQ_add_image_init_alpha_mode seq)
            (Ev_image_init_alpha_mode seq) ;;
    (if image_len load_data =? 1 then
       lift (call (SEQ_time_right_handle_frame_set seq
                     (image_end_frame load_data))
                  (Ev_right_handle_frame_set seq (image_end_frame load_data)))
     else mret tt) ;;
    lift (seq_load_apply_generic_options op (Some seq)) ;;
    lift (call DEG_id_tag_update Ev_deg_id_tag_update) ;;
    lift (call WM_event_add_notifier Ev_event_add_notifier) ;;
    mret OPERATOR_FINISHED.

(** [seq ? seq->machine : 0]; a strip that is not in memory reads as 0. *)
Definition machine_or_zero (w : World L) (seq : option ptr) : Z :=
  match seq with
  | Some p => default 0 (machine <$> strips w !! p)
  | None => 0
  end.

(** The channel block of [sequencer_add_effect_strip_exec]:
    [if (!RNA_struct_property_is_set(op->ptr, "channel")) { if (seq1 != NULL)
    { int chan = max_iii(...); if (chan < MAXSEQ) { load_data.channel = chan;
    } } }] *)
Definition effect_channel (op : wmOperator P) (seq1 seq2 seq3 : option ptr)
    (load_data : SeqLoadData) (w : World L) : SeqLoadData :=
  if negb (RNA_struct_property_is_set (op_ptr op) "channel") then
    match seq1 with
    | Some _ =>
      let chan :=
        Z.max (Z.max (machine_or_zero w seq1) (machine_or_zero w seq2))
          (machine_or_zero w seq3) in
      if chan <? MAXSEQ then with_channel chan load_data else load_data
    | None => load_data
    end
  else load_data.

(** [sequencer_add_effect_strip_exec] *)
Definition sequencer_add_effect_strip_exec (op : wmOperator P)
  : MO L OperatorResult :=
  lift (call SEQ_editing_ensure Ev_editing_ensure) ;;
  load_data ← lift (load_data_init_from_operator op);
  let type := RNA_enum_get (op_ptr op) "type" in
  found ← op_ask (seq_effect_find_selected type)
                 (Ev_effect_find_selected type);
  match found with
  | Inputs_error error_msg =>
    lift (report RPT_ERROR error_msg) ;;
    mret OPERATOR_CANCELLED
  | Inputs_found seq1 seq2 seq3 =>
    lift (deselect_if_replacing op) ;;
    let effect := mkEffectData type seq1 seq2 seq3 in
    load_data ← op_read (effect_channel op seq1 seq2 seq3 load_data);
    seq ← op_call_ret (SEQ_add_effect_strip load_data effect)
                      (Ev_add_effect_strip load_data effect);
    lift (seq_load_apply_generic_options op (Some seq)) ;;
    seq_type ← op_read (fun w => seq_type <$> strips w !! seq);
    (if bool_decide (seq_type = Some SEQ_TYPE_COLOR) then
       let col := RNA_float_get_array (op_ptr op) "color" in
       op_call (SolidColorVars_col_set seq col) (Ev_color_set seq col)
     else mret tt) ;;
    lift (call DEG_id_tag_update Ev_deg_id_tag_update) ;;
    lift (call WM_event_add_notifier Ev_event_add_notifier) ;;
    mret OPERATOR_FINISHED
  end.

End MoreOperators.

(** ** Sample operators *)

(** A movie operator that loads sound and resolves the overlaps of its
    strips together. *)
Definition sample_override_op : wmOperator Samples.SamplePtr :=
  Samples.sample_op
    [("files", Samples.PFiles ["a.mov"; "b.mov"; "c.mov"]);
     ("directory", Samples.PString "/clips/");
     ("frame_start", Samples.PInt 1); ("channel", Samples.PInt 1);
     ("sound", Samples.PBool true); ("overlap", Samples.PBool false);
     ("overlap_shuffle_override", Samples.PBool true)].

(** Sample file names: [img_0003.png] and [img_0007.png] hold the frame
    numbers 3 and 7 in four digits, no other name holds one. *)
Definition sample_frame_of (name : string) : option Z :=
  if String.eqb name "img_0003.png" then Some 3
  else if String.eqb name "img_0007.png" then Some 7
  else None.

#[local] Instance sample_frames : FrameApi := {|
  BLI_path_frame_get name numdigits :=
    match sample_frame_of name with
    | Some frame => (Some frame, 4)
    | None => (None, 0)
    end;
  BLI_path_frame_strip name := ("img_####", ".png");
  BLI_path_frame path frame digits := path +:+ "@" +:+ pretty frame;
  BLI_path_split_dir_part path size := STRNCPY size "/images/";
  FILE_MAX := 1024;
  FILE_MAXDIR := 768;
  sizeof_StripElem_name := 256;
|}.

(** An image operator with placeholders over three files, one of them
    without a frame number. *)
Definition sample_image_op : wmOperator Samples.SamplePtr :=
  Samples.sample_op
    [("files", Samples.PFiles ["img_0007.png"; "notes.txt"; "img_0003.png"]);
     ("directory", Samples.PString "/images/");
     ("use_placeholders", Samples.PBool true);
     ("frame_start", Samples.PInt 1); ("channel", Samples.PInt 2)].

(** Stand-ins for the rest of the libraries: every data-block is found
    and every strip is added as the sample library adds one. *)
#[local] Instance sample_opconsts : OperatorConstants := {|
  MAXSEQ := 128;
  SEQ_TYPE_COLOR := 28;
|}.

#[local] Instance sample_rnaset : RnaSetApi Samples.SamplePtr := {|
  RNA_struct_property_is_set p n := bool_decide (is_Some (p !! n));
  RNA_float_get_array _ _ := [];
|}.

Definition sample_add_strip (type : Z) (ld : SeqLoadData)
    (w : World Samples.SampleLib) : ptr * World Samples.SampleLib :=
  (default 0%nat (Samples.sample_add type ld w).1,
   (Samples.sample_add type ld w).2).

#[local] Instance sample_oplib : OperatorLib Samples.SampleLib := {|
  ED_scene_sequencer_add _ w := (Some 0%nat, w);
  BLI_findlink_movieclips _ _ := Some 0%nat;
  BLI_findlink_masks _ _ := Some 0%nat;
  SEQ_add_movieclip_strip ld _ := Samples.sample_add 5 ld;
  SEQ_add_mask_strip ld _ := Samples.sample_add 6 ld;
  SEQ_add_image_strip := sample_add_strip 0;
  SEQ_add_image_set_directory _ _ w := w;
  SEQ_add_image_load_file _ _ _ w := w;
  SEQ_add_image_init_alpha_mode _ w := w;
  StripElem_name_set _ _ _ w := w;
  seq_effect_find_selected _ _ := Inputs_found None None None;
  SEQ_add_effect_strip ld _ := sample_add_strip 28 ld;
  SolidColorVars_col_set _ _ w := w;
|}.

(** An image operator over two files that replaces the selection. *)
Definition sample_image_replace_op : wmOperator Samples.SamplePtr :=
  Samples.sample_op
    [("files", Samples.PFiles ["a.png"; "b.png"]);
     ("directory", Samples.PString "/images/");
     ("replace_sel", Samples.PBool true);
     ("frame_start", Samples.PInt 1); ("channel", Samples.PInt 2)].

End SequencerAddOperators.

(** ** rna_curve.c: splines, their points, and the curve's links *)

Module RnaCurveSplines.
Import CInt.

(** Constants of [DNA_curve_types.h] and [DNA_object_types.h], the sizes of
    the structs that pointer arithmetic steps over, and the width of the
    [type] field of [Nurb]: the headers are not among the sources at
    hand. *)
Class CurveConstants := {
  CU_BEZIER : Z;
  CU_SMOOTH : Z;
  CU_3D : Z;
  CU_FRONT : Z;
  CU_BACK : Z;
  OB_CURVES_LEGACY : Z;
  sizeof_BezTriple : Z;
  sizeof_BPoint : Z;
  sizeof_TextBox : Z;
  Nurb_type_bits : Z;
}.

(** [a * b] on [int]. *)
Definition int_mul (a b : Z) : Z := wrap_int (a * b).

(** The fields of [Nurb] the callbacks read and write.  [bp] and [bezt] are
    the addresses of the point arrays, 0 for [NULL]. *)
Record Nurb := mkNurb {
  nu_type : Z;
  nu_flag : Z;
  pntsu : Z;
  pntsv : Z;
  resolu : Z;
  resolv : Z;
  orderu : Z;
  orderv : Z;
  bp : Z;
  bezt : Z;
}.

(** A [Nurb] as [MEM_callocN] hands it out. *)
Definition Nurb_zero : Nurb := mkNurb 0 0 0 0 0 0 0 0 0 0.

Definition with_resolu (r : Z) (nu : Nurb) : Nurb :=
  mkNurb (nu_type nu) (nu_flag nu) (pntsu nu) (pntsv nu) r (resolv nu)
         (orderu nu) (orderv nu) (bp nu) (bezt nu).

Definition with_resolv (r : Z) (nu : Nurb) : Nurb :=
  mkNurb (nu_type nu) (nu_flag nu) (pntsu nu) (pntsv nu) (resolu nu) r
         (orderu nu) (orderv nu) (bp nu) (bezt nu).

(** The fields of [Object] read through a pointer to it. *)
Record Object := mkObject {
  ob_type : Z;
  ob_data : Z;
}.

(** The fields of [Curve] the callbacks read and write.  [cu_nurbs] is the
    list [BKE_curve_nurbs_get(cu)] returns, [cu_tb] the address of the
    text box array, and the two object links hold addresses. *)
Record Curve := mkCurve {
  cu_flag : Z;
  cu_resolu : Z;
  cu_resolv : Z;
  cu_bevobj : option Z;
  cu_taperobj : option Z;
  cu_nurbs : list Nurb;
  cu_tb : Z;
  cu_totbox : Z;
}.

Definition with_flag (f : Z) (cu : Curve) : Curve :=
  mkCurve f (cu_resolu cu) (cu_resolv cu) (cu_bevobj cu) (cu_taperobj cu)
          (cu_nurbs cu) (cu_tb cu) (cu_totbox cu).

Definition with_bevobj (ob : option Z) (cu : Curve) : Curve :=
  mkCurve (cu_flag cu) (cu_resolu cu) (cu_resolv cu) ob (cu_taperobj cu)
          (cu_nurbs cu) (cu_tb cu) (cu_totbox cu).

Definition with_taperobj (ob : option Z) (cu : Curve) : Curve :=
  mkCurve (cu_flag cu) (cu_resolu cu) (cu_resolv cu) (cu_bevobj cu) ob
          (cu_nurbs cu) (cu_tb cu) (cu_totbox cu).

Definition with_nurbs (l : list Nurb) (cu : Curve) : Curve :=
  mkCurve (cu_flag cu) (cu_resolu cu) (cu_resolv cu) (cu_bevobj cu)
          (cu_taperobj cu) l (cu_tb cu) (cu_totbox cu).

(** An [EnumPropertyItem]; a table is the list of its entries before the
    terminator. *)
Record EnumPropertyItem := mkItem {
  item_value : Z;
  item_identifier : string;
  item_icon : Z;
  item_name : string;
  item_description : string;
}.

(** The calls into other modules, in the order they are made. *)
Inductive CurveEvent :=
  | Ev_id_lib_extern (ob : Z)
  | Ev_report_error (msg : string)
  | Ev_nurb_points_add (number : Z)
  | Ev_nurb_bezierPoints_add (number : Z)
  | Ev_nurb_knot_calc_u
  | Ev_nurb_handles_calc
  | Ev_deg_id_tag_update
  | Ev_main_add_notifier
  | Ev_curve_dimension_update (cu : Curve).

(** The functions of [BKE_curve.h] that change what they are handed. *)
Class CurveLib := {
  BKE_nurb_points_add : Nurb -> Z -> Nurb;
  BKE_nurb_bezierPoints_add : Nurb -> Z -> Nurb;
  BKE_nurb_knot_calc_u : Nurb -> Nurb;
  BKE_nurb_handles_calc : Nurb -> Nurb;
  BKE_curve_dimension_update : Curve -> Curve;
}.

Section Splines.
Context {cconsts : CurveConstants} {clib : CurveLib}.

(** [curve3d_fill_mode_items] *)
Definition curve3d_fill_mode_items : list EnumPropertyItem :=
  [ mkItem 0 "FULL" 0 "Full" "";
    mkItem CU_BACK "BACK" 0 "Back" "";
    mkItem CU_FRONT "FRONT" 0 "Front" "";
    mkItem (Z.lor CU_FRONT CU_BACK) "HALF" 0 "Half" "" ].

(** [curve2d_fill_mode_items] *)
Definition curve2d_fill_mode_items : list EnumPropertyItem :=
  [ mkItem 0 "NONE" 0 "None" "";
    mkItem CU_BACK "BACK" 0 "Back" "";
    mkItem CU_FRONT "FRONT" 0 "Front" "";
    mkItem (Z.lor CU_FRONT CU_BACK) "BOTH" 0 "Both" "" ].

(** The address of the [k]-th element of an array of structs of [size]
    bytes that starts at [base]. *)
Definition element_address (base size k : Z) : Z := base + k * size.

(** The test of the loop of [curve_nurb_from_point]: the point lies in the
    array of the spline's kind. *)
Definition point_in_nurb (nu : Nurb) (point : Z) : bool :=
  if nu_type nu =? CU_BEZIER then
    (bezt nu <=? point)
    && (point <? element_address (bezt nu) sizeof_BezTriple (pntsu nu))
  else
    (bp nu <=? point)
    && (point <? element_address (bp nu) sizeof_BPoint
                   (int_mul (pntsu nu) (pntsv nu))).

(** [for (nu = nurbs->first; nu; nu = nu->next, i++) { ... break; }],
    entered with the counter at [i]. *)
Fixpoint nurb_search (nurbs : list Nurb) (point : Z) (i : Z)
  : option (Nurb * Z) :=
  match nurbs with
  | [] => None
  | nu :: rest =>
    if point_in_nurb nu point then Some (nu, i)
    else nurb_search rest point (int_add i 1)
  end.

(** [curve_nurb_from_point], with both [nu_index] and [pt_index] asked for:
    the spline, its index and the index of the point in its array.  The
    difference of two pointers counts elements. *)
Definition curve_nurb_from_point (nurbs : list Nurb) (point : Z)
  : option (Nurb * Z * Z) :=
  match nurb_search nurbs point 0 with
  | Some (nu, i) =>
    let pt_index :=
      if nu_type nu =? CU_BEZIER then
        wrap_int ((point - bezt nu) `quot` sizeof_BezTriple)
      else
        wrap_int ((point - bp nu) `quot` sizeof_BPoint) in
    Some (nu, i, pt_index)
  | None => None
  end.

(** [rna_Curve_spline_point_path] *)
Definition rna_Curve_spline_point_path (cu : Curve) (point : Z) : string :=
  match curve_nurb_from_point (cu_nurbs cu) point with
  | Some (nu, nu_index, pt_index) =>
    if nu_type nu =? CU_BEZIER then
      "splines[" +:+ pretty nu_index +:+ "].bezier_points["
        +:+ pretty pt_index +:+ "]"
    else
      "splines[" +:+ pretty nu_index +:+ "].points["
        +:+ pretty pt_index +:+ "]"
  | None => ""
  end.

(** [rna_Nurb_length] *)
Definition rna_Nurb_length (nu : Nurb) : Z :=
  if nu_type nu =? CU_BEZIER then 0
  else if 0 <? pntsv nu then int_mul (pntsu nu) (pntsv nu) else pntsu nu.

(** [rna_BPoint_array_begin]: the start, the item size and the length that
    go to [rna_iterator_array_begin]. *)
Definition rna_BPoint_array_begin (nu : Nurb) : Z * Z * Z :=
  (bp nu, sizeof_BPoint,
   if 0 <? pntsv nu then int_mul (pntsu nu) (pntsv nu) else pntsu nu).

(** [rna_Curve_update_data_id], and [rna_Curve_update_data] that calls it
    with the owner. *)
Definition rna_Curve_update_data_id : list CurveEvent :=
  [Ev_deg_id_tag_update; Ev_main_add_notifier].

Definition rna_Curve_update_data : list CurveEvent :=
  rna_Curve_update_data_id.

(** [rna_Curve_update_points]: the spline found is the one
    [BKE_nurb_handles_calc] works on; the list keeps its other splines. *)
Definition rna_Curve_update_points (cu : Curve) (point : Z)
  : Curve * list CurveEvent :=
  match curve_nurb_from_point (cu_nurbs cu) point with
  | Some (nu, nu_index, _) =>
    (with_nurbs (<[Z.to_nat nu_index := BKE_nurb_handles_calc nu]>
                   (cu_nurbs cu)) cu,
     Ev_nurb_handles_calc :: rna_Curve_update_data)
  | None => (cu, rna_Curve_update_data)
  end.

(** [rna_Curve_otherObject_poll]: [cu] is the address of the curve, [value]
    the object the pointer holds with its address. *)
Definition rna_Curve_otherObject_poll (cu : Z) (value : option (Z * Object))
  : bool :=
  match value with
  | Some (_, ob) =>
    if (ob_type ob =? OB_CURVES_LEGACY) && negb (ob_data ob =? cu) then true
    else false
  | None => false
  end.

(** [rna_Curve_bevelObject_set] *)
Definition rna_Curve_bevelObject_set (cu : Z) (c : Curve)
    (value : option (Z * Object)) : Curve * list CurveEvent :=
  match value with
  | Some (ob_ptr, ob) =>
    if (ob_type ob =? OB_CURVES_LEGACY) && negb (ob_data ob =? cu) then
      (with_bevobj (Some ob_ptr) c, [Ev_id_lib_extern ob_ptr])
    else (c, [])
  | None => (with_bevobj None c, [])
  end.

(** [rna_Curve_taperObject_set] *)
Definition rna_Curve_taperObject_set (cu : Z) (c : Curve)
    (value : option (Z * Object)) : Curve * list CurveEvent :=
  match value with
  | Some (ob_ptr, ob) =>
    if (ob_type ob =? OB_CURVES_LEGACY) && negb (ob_data ob =? cu) then
      (with_taperobj (Some ob_ptr) c, [Ev_id_lib_extern ob_ptr])
    else (c, [])
  | None => (with_taperobj None c, [])
  end.

(** [rna_Curve_bevelObject_get] and [rna_Curve_taperObject_get]: the
    address the pointer returned holds, if any. *)
Definition rna_Curve_bevelObject_get (c : Curve) : option Z := cu_bevobj c.
Definition rna_Curve_taperObject_get (c : Curve) : option Z := cu_taperobj c.

(** [rna_Curve_resolution_u_update_data] *)
Definition rna_Curve_resolution_u_update_data (cu : Curve)
  : Curve * list CurveEvent :=
  (with_nurbs (with_resolu (cu_resolu cu) <$> cu_nurbs cu) cu,
   rna_Curve_update_data).

(** [rna_Curve_resolution_v_update_data] *)
Definition rna_Curve_resolution_v_update_data (cu : Curve)
  : Curve * list CurveEvent :=
  (with_nurbs (with_resolv (cu_resolv cu) <$> cu_nurbs cu) cu,
   rna_Curve_update_data).

(** [rna_Curve_spline_new]: [point] is the address [MEM_callocN] returned
    for the single point.  Beside the curve and the spline, the result
    gives the radius written into that point, whose other fields are
    zero. *)
Definition rna_Curve_spline_new (cu : Curve) (type : Z) (point : Z)
  : Curve * Nurb * spec_float :=
  let nu := Nurb_zero in
  let nu :=
    if type =? CU_BEZIER then
      mkNurb (nu_type nu) (nu_flag nu) (pntsu nu) (pntsv nu) (resolu nu)
             (resolv nu) (orderu nu) (orderv nu) (bp nu) point
    else
      mkNurb (nu_type nu) (nu_flag nu) (pntsu nu) (pntsv nu) (resolu nu)
             (resolv nu) (orderu nu) (orderv nu) point (bezt nu) in
  let nu :=
    mkNurb (wrap Nurb_type_bits type) CU_SMOOTH 1 1 (cu_resolu cu)
           (cu_resolv cu) 4 4 (bp nu) (bezt nu) in
  (with_nurbs (cu_nurbs cu ++ [nu]) cu, nu, RnaCurve.f32_one).

(** [rna_Curve_spline_points_add] *)
Definition rna_Curve_spline_points_add (nu : Nurb) (number : Z)
  : Nurb * list CurveEvent :=
  if nu_type nu =? CU_BEZIER then
    (nu, [Ev_report_error "Bezier spline cannot have points added"])
  else if number =? 0 then (nu, [])
  else
    (BKE_nurb_knot_calc_u (BKE_nurb_points_add nu number),
     [Ev_nurb_points_add number; Ev_nurb_knot_calc_u]
       ++ rna_Curve_update_data_id).

(** [rna_Curve_spline_bezpoints_add] *)
Definition rna_Curve_spline_bezpoints_add (nu : Nurb) (number : Z)
  : Nurb * list CurveEvent :=
  if negb (nu_type nu =? CU_BEZIER) then
    (nu, [Ev_report_error "Only Bezier splines can be added"])
  else if number =? 0 then (nu, [])
  else
    (BKE_nurb_knot_calc_u (BKE_nurb_bezierPoints_add nu number),
     [Ev_nurb_bezierPoints_add number; Ev_nurb_knot_calc_u]
       ++ rna_Curve_update_data_id).

(** [rna_Curve_dimension_set]: [cu->flag |= CU_3D] and
    [cu->flag &= ~CU_3D]; neither leaves the range of the field. *)
Definition rna_Curve_dimension_set (cu : Curve) (value : Z)
  : Curve * list CurveEvent :=
  if value =? CU_3D then (with_flag (Z.lor (cu_flag cu) CU_3D) cu, [])
  else
    let cu := with_flag (Z.land (cu_flag cu) (Z.lnot CU_3D)) cu in
    (BKE_curve_dimension_update cu, [Ev_curve_dimension_update cu]).

(** [rna_Curve_fill_mode_itemf] *)
Definition rna_Curve_fill_mode_itemf (cu : Curve) : list EnumPropertyItem :=
  if negb (Z.land (cu_flag cu) CU_3D =? 0) then curve3d_fill_mode_items
  else curve2d_fill_mode_items.

(** [rna_Curve_active_textbox_index_range] *)
Definition rna_Curve_active_textbox_index_range (cu : Curve) : Z * Z :=
  (0, Z.max 0 (int_sub (cu_totbox cu) 1)).

(** [rna_TextBox_path]: [tb] is the address of the text box. *)
Definition rna_TextBox_path (cu : Curve) (tb : Z) : string :=
  let index := wrap_int ((tb - cu_tb cu) `quot` sizeof_TextBox) in
  if (0 <=? index) && (index <? cu_totbox cu) then
    "text_boxes[" +:+ pretty index +:+ "]"
  else "".

(** The splines all carry the curve's resolution along U. *)
Definition resolution_u_synced (cu : Curve) : Prop :=
  Forall (fun nu => resolu nu = cu_resolu cu) (cu_nurbs cu).

(** No spline before the [i]-th holds the address in its array. *)
Definition first_holder (nurbs : list Nurb) (i : nat) (point : Z) : Prop :=
  forall j nu, (j < i)%nat -> nurbs !! j = Some nu ->
               point_in_nurb nu point = false.

End Splines.

(** A curve with a Bezier spline of three points and a grid of 2 by 2
    points, for the examples. *)
#[local] Instance sample_constants : CurveConstants := {|
  CU_BEZIER := 1;
  CU_SMOOTH := 1;
  CU_3D := 1;
  CU_FRONT := 2;
  CU_BACK := 4;
  OB_CURVES_LEGACY := 2;
  sizeof_BezTriple := 72;
  sizeof_BPoint := 36;
  sizeof_TextBox := 16;
  Nurb_type_bits := 16;
|}.

(** A stand-in for the library that changes nothing. *)
#[local] Instance sample_curve_lib : CurveLib := {|
  BKE_nurb_points_add nu _ := nu;
  BKE_nurb_bezierPoints_add nu _ := nu;
  BKE_nurb_knot_calc_u nu := nu;
  BKE_nurb_handles_calc nu := nu;
  BKE_curve_dimension_update cu := cu;
|}.

Definition sample_bezier : Nurb := mkNurb 1 1 3 1 12 12 4 4 0 4096.
Definition sample_grid : Nurb := mkNurb 4 1 2 2 12 12 4 4 8192 0.
Definition sample_curve : Curve :=
  mkCurve 1 12 12 None None [sample_bezier; sample_grid] 16384 2.

End RnaCurveSplines.

(** ** rna_curve.c: the bevel profile and the text body *)

Module RnaCurveBevel.
Import CInt.

(** [CU_BEV_MODE_CURVE_PROFILE] and the width of the field [bevel_mode],
    both of [DNA_curve_types.h]. *)
Class BevelConstants := {
  CU_BEV_MODE_CURVE_PROFILE : Z;
  bevel_mode_bits : Z;
}.

(** The fields of [Curve] the two callbacks touch; [bevel_profile] holds
    the address of the profile. *)
Record Curve := mkCurve {
  bevel_mode : Z;
  bevel_profile : option Z;
  bevresol : Z;
}.

(** The calls into other modules: [BKE_curveprofile_add(PROF_PRESET_LINE)]
    with the profile it returns, [BKE_curveprofile_init] with the profile
    and the number of segments it is handed, and the data update. *)
Inductive BevelEvent :=
  | Ev_curveprofile_add (profile : Z)
  | Ev_curveprofile_init (profile : option Z) (segments : Z)
  | Ev_deg_id_tag_update
  | Ev_main_add_notifier.

Section Bevel.
Context {bconsts : BevelConstants}.

(** [rna_Curve_bevel_mode_set]; [added] is the profile
    [BKE_curveprofile_add] returns when it is called. *)
Definition rna_Curve_bevel_mode_set (added : Z) (cu : Curve) (value : Z)
  : Curve * list BevelEvent :=
  let '(cu, tr) :=
    if value =? CU_BEV_MODE_CURVE_PROFILE then
      match bevel_profile cu with
      | None =>
        let cu := mkCurve (bevel_mode cu) (Some added) (bevresol cu) in
        (cu, [Ev_curveprofile_add added;
              Ev_curveprofile_init (bevel_profile cu)
                (int_add (bevresol cu) 1)])
      | Some _ => (cu, [])
      end
    else (cu, []) in
  (mkCurve (wrap bevel_mode_bits value) (bevel_profile cu) (bevresol cu), tr).

(** [rna_Curve_bevel_resolution_update] *)
Definition rna_Curve_bevel_resolution_update (cu : Curve)
  : list BevelEvent :=
  (if bevel_mode cu =? CU_BEV_MODE_CURVE_PROFILE then
     [Ev_curveprofile_init (bevel_profile cu) (int_add (bevresol cu) 1)]
   else []) ++ [Ev_deg_id_tag_update; Ev_main_add_notifier].

(** A call that hands [NULL] to [BKE_curveprofile_init]. *)
Definition inits_null (e : BevelEvent) : bool :=
  match e with Ev_curveprofile_init None _ => true | _ => false end.

End Bevel.

#[local] Instance sample_bevel : BevelConstants := {|
  CU_BEV_MODE_CURVE_PROFILE := 2;
  bevel_mode_bits := 8;
|}.

End RnaCurveBevel.

Module RnaCurveText.
Import CInt.

(** [BLI_strlen_utf8_ex] of [BLI_string_utf8.h], on the bytes of a string
    before its terminator: the number of characters and the number of
    bytes.  The sizes are those of [char32_t] and of [CharInfo]. *)
Class TextLib := {
  BLI_strlen_utf8_ex : list Byte.byte -> Z * Z;
  sizeof_char32_t : Z;
  sizeof_CharInfo : Z;
}.

(** A block of the allocator: its size in bytes and the bytes written to
    it from its start. *)
Record Block := mkBlock {
  block_size : Z;
  block_bytes : list Byte.byte;
}.

(** The text fields of [Curve].  [str] is the block of the text, [strinfo]
    the size in bytes of the zeroed block of character infos; [None] is
    [NULL]. *)
Record Curve := mkCurve {
  str : option Block;
  strinfo : option Z;
  len_char32 : Z;
  len : Z;
  pos : Z;
}.

(** The blocks handed back to the allocator with [MEM_freeN]. *)
Inductive TextEvent :=
  | Ev_free_str (b : Block)
  | Ev_free_strinfo (size : Z).

Section Text.
Context {tlib : TextLib}.

(** [memcpy(dst, src, n)] from a C string: the [n] bytes read are those of
    the string and its terminator; reading further is undefined. *)
Definition read_string (value : list Byte.byte) (n : Z)
  : option (list Byte.byte) :=
  if (0 <=? n) && (n <=? Z.of_nat (length value) + 1) then
    Some (take (Z.to_nat n) (value ++ [Byte.x00]))
  else None.

(** [memcpy(dst, src, n)] from a block: the [n] bytes read must have been
    written. *)
Definition read_block (b : Block) (n : Z) : option (list Byte.byte) :=
  if (0 <=? n) && (n <=? Z.of_nat (length (block_bytes b))) then
    Some (take (Z.to_nat n) (block_bytes b))
  else None.

(** [rna_Curve_body_length] *)
Definition rna_Curve_body_length (cu : Curve) : Z := len cu.

(** [rna_Curve_body_get]: the bytes copied to [value], if the copy is
    defined. *)
Definition rna_Curve_body_get (cu : Curve) : option (list Byte.byte) :=
  match str cu with
  | Some b => read_block b (int_add (rna_Curve_body_length cu) 1)
  | None => None
  end.

(** [rna_Curve_body_set]: the curve after the call and the blocks freed,
    if the copy into the new block is defined (the bytes read are those of
    the string, and the block holds them). *)
Definition rna_Curve_body_set (cu : Curve) (value : list Byte.byte)
  : option (Curve * list TextEvent) :=
  let '(len_chars, len_bytes) := BLI_strlen_utf8_ex value in
  let freed :=
    match str cu with Some b => [Ev_free_str b] | None => [] end
    ++ match strinfo cu with Some n => [Ev_free_strinfo n] | None => [] end in
  let size := len_bytes + sizeof_char32_t in
  match read_string value (len_bytes + 1) with
  | Some bytes =>
    if len_bytes + 1 <=? size then
      Some (mkCurve (Some (mkBlock size bytes))
                    (Some ((len_chars + 4) * sizeof_CharInfo))
                    (wrap_int len_chars) (wrap_int len_bytes)
                    (wrap_int len_chars),
            freed)
    else None
  | None => None
  end.

End Text.

(** A counter of bytes for the examples, right on ASCII text. *)
#[local] Instance sample_text : TextLib := {|
  BLI_strlen_utf8_ex value :=
    (Z.of_nat (length value), Z.of_nat (length value));
  sizeof_char32_t := 4;
  sizeof_CharInfo := 8;
|}.

End RnaCurveText.

(** * Properties *)

(** ** C integers *)

Module CIntFacts.
Import CInt.

Lemma pow2_double bits : 0 < bits -> 2 ^ bits = 2 * 2 ^ (bits - 1).
Proof.
  intros Hb. replace bits with (Z.succ (bits - 1)) at 1 by lia.
  rewrite Z.pow_succ_r by lia. reflexivity.
Qed.

Lemma wrap_small bits z : 0 < bits -> in_range bits z -> wrap bits z = z.
Proof.
  intros Hb [Hlo Hhi]. unfold wrap.
  pose proof (pow2_double bits Hb) as Hpow.
  rewrite Z.mod_small by lia. lia.
Qed.

Lemma wrap_in_range bits z : 0 < bits -> in_range bits (wrap bits z).
Proof.
  intros Hb. unfold wrap, in_range.
  pose proof (pow2_double bits Hb) as Hpow.
  assert (Hpos : 0 < 2 ^ (bits - 1)) by (apply Z.pow_pos_nonneg; lia).
  pose proof (Z.mod_pos_bound (z + 2 ^ (bits - 1)) (2 ^ bits)) as Hm.
  lia.
Qed.

Lemma is_int_in_range z : is_int z <-> in_range 32 z.
Proof. unfold is_int, in_range, INT_MIN, INT_MAX. simpl. lia. Qed.

Lemma wrap_int_small z : is_int z -> wrap_int z = z.
Proof. intros Hz. apply wrap_small; [lia|]. by apply is_int_in_range. Qed.

Lemma wrap_int_is_int z : is_int (wrap_int z).
Proof. apply is_int_in_range, wrap_in_range. lia. Qed.

Lemma int_sub_small a b : is_int (a - b) -> int_sub a b = a - b.
Proof. apply wrap_int_small. Qed.

Lemma int_add_small a b : is_int (a + b) -> int_add a b = a + b.
Proof. apply wrap_int_small. Qed.

Lemma in_range_mono b1 b2 z : 0 < b1 <= b2 -> in_range b1 z -> in_range b2 z.
Proof.
  intros Hb [Hlo Hhi]. unfold in_range.
  assert (2 ^ (b1 - 1) <= 2 ^ (b2 - 1)) by (apply Z.pow_le_mono_r; lia).
  lia.
Qed.

End CIntFacts.

(** ** rna_curve.c *)

Module RnaCurveFacts.
Import CInt CIntFacts RnaCurve.

(** The setter writes the [offset] field only. *)
Lemma rna_Curve_offset_set_extrude cu v :
  extrude (rna_Curve_offset_set cu v) = extrude cu.
Proof. reflexivity. Qed.

Example offset_set_zero cu :
  offset (rna_Curve_offset_set cu f32_zero) = f32_one.
Proof. reflexivity. Qed.

Example offset_get_one :
  rna_Curve_offset_get (mkCurve f32_one f32_zero) = f32_zero.
Proof. reflexivity. Qed.

Example offset_set_one cu :
  offset (rna_Curve_offset_set cu f32_one) = f32_two.
Proof. reflexivity. Qed.

(** The round trip through the stored field rounds twice: the exposed
    value [2^-30] is stored as [1.0f] and read back as [0.0f]. *)
Example offset_round_trip_rounds cu :
  let tiny := S754_finite false 8388608 (-53) in
  offset (rna_Curve_offset_set cu tiny) = f32_one /\
  rna_Curve_offset_get (rna_Curve_offset_set cu tiny) = f32_zero.
Proof. by vm_compute. Qed.

(** C4, as stated, fails: after [rna_Curve_offset_set(0.0f)] the stored
    field is [1.0f], not [0.0f - 1.0f = -1.0f]; and on that stored field
    the getter returns [0.0f], not the stored field plus one ([2.0f]). *)
Lemma offset_not_value_minus_one :
  let cu := rna_Curve_offset_set (mkCurve f32_zero f32_zero) f32_zero in
  offset cu = f32_one /\
  offset cu <> f32_sub f32_zero f32_one /\
  rna_Curve_offset_get cu = f32_zero /\
  rna_Curve_offset_get cu <> f32_add (offset cu) f32_one.
Proof. vm_compute. repeat split; congruence. Qed.

(** C4, amended: the backing field stores the exposed value plus 1.  For
    every value [v], after [rna_Curve_offset_set(v)] the stored field
    [cu->offset] equals [1.0f + v] (in binary32 arithmetic) and no other
    field changes, and [rna_Curve_offset_get] returns the stored field
    minus [1.0f]. *)
Theorem offset_stored_as_value_plus_one (cu : Curve) (v : spec_float) :
  offset (rna_Curve_offset_set cu v) = f32_add f32_one v /\
  extrude (rna_Curve_offset_set cu v) = extrude cu /\
  rna_Curve_offset_get cu = f32_sub (offset cu) f32_one /\
  rna_Curve_offset_get (rna_Curve_offset_set cu v)
    = f32_sub (f32_add f32_one v) f32_one.
Proof. repeat split. Qed.

(** The setter stores [value + 1] whenever that fits the field. *)
Lemma material_index_set_mat_nr bits info v :
  0 < bits <= 32 -> in_range bits (v + 1) ->
  mat_nr (rna_ChariInfo_material_index_set bits info v) = v + 1.
Proof.
  intros Hb Hv. unfold rna_ChariInfo_material_index_set. simpl.
  unfold int_add. rewrite wrap_int_small.
  - by apply wrap_small; [lia|].
  - apply is_int_in_range. eapply in_range_mono; [|exact Hv]. lia.
Qed.

(** The getter on a non-negative field is never negative. *)
Lemma material_index_get_nonneg info :
  0 <= mat_nr info <= INT_MAX -> 0 <= rna_ChariInfo_material_index_get info.
Proof.
  intros Hm. unfold rna_ChariInfo_material_index_get.
  destruct (Z.eqb_spec (mat_nr info) 0) as [|Hne]; [lia|].
  rewrite int_sub_small; unfold is_int, INT_MIN, INT_MAX in *; lia.
Qed.

(** C8, as stated, fails at the top of the field's range: 32767 is a
    non-negative [int], and with the [short] field the setter stores
    -32768 for it and the getter then returns -32769, which is neither
    32767 nor non-negative; with a [char]-wide field the same happens at
    127. *)
Lemma material_index_round_trip_fails :
  let info := mkCharInfo 0 0 in
  let info16 := rna_ChariInfo_material_index_set short_bits info 32767 in
  let info8 := rna_ChariInfo_material_index_set 8 info 127 in
  0 <= 32767 <= INT_MAX /\
  mat_nr info16 = -32768 /\
  rna_ChariInfo_material_index_get info16 = -32769 /\
  rna_ChariInfo_material_index_get info16 <> 32767 /\
  rna_ChariInfo_material_index_get info16 < 0 /\
  rna_ChariInfo_material_index_get info8 <> 127.
Proof. vm_compute. repeat split; congruence. Qed.

(** C8, amended: the accessors form a round trip on the non-negative
    values whose successor fits the [mat_nr] field.  For every width
    [bits] of the field (at most that of [int]) and every [v] with
    [0 <= v] and [v + 1 < 2 ^ (bits - 1)] (so [v <= 32766] for a [short]),
    the getter after the setter returns [v]; the setter stores [v + 1];
    and the getter returns [mat_nr - 1] for a nonzero [mat_nr] and 0 for
    0, hence nothing negative for a field that is not negative. *)
Theorem material_index_round_trip (bits : Z) (info : CharInfo) (v : Z) :
  0 < bits <= 32 -> 0 <= v -> v + 1 < 2 ^ (bits - 1) ->
  let info' := rna_ChariInfo_material_index_set bits info v in
  mat_nr info' = v + 1 /\
  info_flag info' = info_flag info /\
  rna_ChariInfo_material_index_get info' = v /\
  rna_ChariInfo_material_index_get (mkCharInfo 0 (info_flag info)) = 0 /\
  (forall i, 0 <= mat_nr i <= INT_MAX ->
     0 <= rna_ChariInfo_material_index_get i /\
     (mat_nr i <> 0 -> rna_ChariInfo_material_index_get i = mat_nr i - 1)).
Proof.
  intros Hb Hv Hfit info'.
  assert (Hr : in_range bits (v + 1)).
  { unfold in_range. split; [|lia].
    assert (0 < 2 ^ (bits - 1)) by (apply Z.pow_pos_nonneg; lia). lia. }
  assert (Hm : mat_nr info' = v + 1)
    by (by apply material_index_set_mat_nr).
  assert (Hint : is_int (v + 1)).
  { apply is_int_in_range. eapply in_range_mono; [|exact Hr]. lia. }
  repeat split.
  - exact Hm.
  - unfold rna_ChariInfo_material_index_get. rewrite Hm.
    destruct (Z.eqb_spec (v + 1) 0) as [|_]; [lia|].
    rewrite int_sub_small; [lia|].
    unfold is_int, INT_MIN, INT_MAX in *. lia.
  - by apply material_index_get_nonneg.
  - intros Hne. unfold rna_ChariInfo_material_index_get.
    destruct (Z.eqb_spec (mat_nr i) 0) as [|_]; [done|].
    rewrite int_sub_small; [done|].
    unfold is_int, INT_MIN, INT_MAX in *. lia.
Qed.

(** Within the range the property declares, and with [totcol] of the
    type of [mat_nr], narrower than [int], the round trip holds. *)
Lemma material_index_round_trip_in_range bits info totcol v :
  1 < bits < 32 -> in_range bits totcol ->
  (rna_Curve_material_index_range totcol).1 <= v
    <= (rna_Curve_material_index_range totcol).2 ->
  rna_ChariInfo_material_index_get
    (rna_ChariInfo_material_index_set bits info v) = v.
Proof.
  intros Hb Ht [Hlo Hhi]. simpl in Hlo, Hhi.
  destruct Ht as [Htl Hth].
  assert (Hpow : 2 <= 2 ^ (bits - 1)).
  { change 2 with (2 ^ 1) at 1. apply Z.pow_le_mono_r; lia. }
  assert (Hmax : 2 ^ (bits - 1) <= 1073741824).
  { change 1073741824 with (2 ^ 30). apply Z.pow_le_mono_r; lia. }
  rewrite int_sub_small in Hhi
    by (unfold is_int, INT_MIN, INT_MAX; simpl; lia).
  assert (Hr : in_range bits (v + 1)) by (unfold in_range; lia).
  unfold rna_ChariInfo_material_index_get.
  rewrite material_index_set_mat_nr by (done || lia).
  destruct (Z.eqb_spec (v + 1) 0) as [|_]; [lia|].
  rewrite int_sub_small; [lia|].
  unfold is_int, INT_MIN, INT_MAX; simpl; lia.
Qed.

Lemma material_index_round_trip_witness :
  rna_ChariInfo_material_index_get
    (rna_ChariInfo_material_index_set short_bits (mkCharInfo 0 0) 32766)
  = 32766.
Proof.
  assert (Hbits : 0 < short_bits <= 32) by (unfold short_bits; lia).
  assert (Hv : 0 <= 32766) by lia.
  assert (Hfit : 32766 + 1 < 2 ^ (short_bits - 1)) by reflexivity.
  exact (proj1 (proj2 (proj2
    (material_index_round_trip short_bits (mkCharInfo 0 0) 32766
       Hbits Hv Hfit)))).
Defined.

End RnaCurveFacts.

(** ** sequencer_add.c *)

Module SequencerAddFacts.
Import CInt CIntFacts SequencerAdd SequencerAddSpec.

(** *** The channel guessed for a new strip *)

Section GuessChannelFacts.
Context {consts : Constants}.
Variable strip_end_of : Sequence -> Z.
Variables (type cfra : Z).

Lemma candidate_test s :
  candidate strip_end_of type cfra s <->
  ((type =? -1) || (type =? seq_type s)) && (strip_end_of s <=? cfra) = true.
Proof.
  unfold candidate.
  rewrite andb_true_iff, orb_true_iff, !Z.eqb_eq, Z.leb_le. tauto.
Qed.

Lemma guess_channel_loop_skip l tgt prox :
  (forall s, s ∈ l -> ~ candidate strip_end_of type cfra s) ->
  guess_channel_loop strip_end_of type cfra l tgt prox = (tgt, prox).
Proof.
  induction l as [|s l IH]; intros Hno; [done|]. simpl.
  destruct (((type =? -1) || (type =? seq_type s))
            && (strip_end_of s <=? cfra)) eqn:Hc.
  - exfalso. apply (Hno s); [left|]. by apply candidate_test.
  - simpl. apply IH. intros s' Hs'. apply Hno. by right.
Qed.

Lemma guess_channel_loop_inv l : forall seen tgt prox,
  (forall s, s ∈ l -> candidate strip_end_of type cfra s ->
     cfra - strip_end_of s < INT_MAX) ->
  guess_inv strip_end_of type cfra seen (tgt, prox) ->
  guess_inv strip_end_of type cfra (seen ++ l)
    (guess_channel_loop strip_end_of type cfra l tgt prox).
Proof.
  induction l as [|s l IH]; intros seen tgt prox Hnear Hinv.
  { simpl. by rewrite app_nil_r. }
  simpl.
  replace (seen ++ s :: l) with ((seen ++ [s]) ++ l)
    by (by rewrite <- app_assoc).
  assert (Hnear' : forall s', s' ∈ l -> candidate strip_end_of type cfra s' ->
                     cfra - strip_end_of s' < INT_MAX).
  { intros s' Hs'. apply Hnear. by right. }
  destruct (((type =? -1) || (type =? seq_type s))
            && (strip_end_of s <=? cfra)) eqn:Hc; simpl.
  - (* [s] is a candidate: the distance is computed exactly *)
    assert (Hcand : candidate strip_end_of type cfra s)
      by (by apply candidate_test).
    assert (Hd : int_sub cfra (strip_end_of s) = cfra - strip_end_of s).
    { apply int_sub_small. pose proof (Hnear s ltac:(left) Hcand).
      destruct Hcand as [_ Hle]. unfold is_int, INT_MIN, INT_MAX in *. lia. }
    rewrite Hd.
    destruct (cfra - strip_end_of s <? prox) eqn:Hlt.
    + apply Z.ltb_lt in Hlt. apply IH; [done|].
      unfold guess_inv in *. simpl in *.
      split; [set_solver|]. split; [done|]. split; [done|].
      intros s' Hs' Hc'. apply elem_of_app in Hs' as [Hs'|Hs'].
      * destruct tgt as [t|].
        -- destruct Hinv as (_ & _ & -> & Hmin).
           specialize (Hmin s' Hs' Hc'). lia.
        -- destruct Hinv as [_ Hno]. by destruct (Hno s' Hs').
      * apply list_elem_of_singleton in Hs' as ->. lia.
    + apply Z.ltb_ge in Hlt. apply IH; [done|].
      unfold guess_inv in *. simpl in *.
      destruct tgt as [t|].
      * destruct Hinv as (Hin & Hct & -> & Hmin).
        split; [set_solver|]. split; [done|]. split; [done|].
        intros s' Hs' Hc'. apply elem_of_app in Hs' as [Hs'|Hs'].
        -- by apply Hmin.
        -- apply list_elem_of_singleton in Hs' as ->. lia.
      * destruct Hinv as [-> _].
        pose proof (Hnear s ltac:(left) Hcand). lia.
  - (* not a candidate: the loop variables are kept *)
    apply IH; [done|].
    assert (Hnc : ~ candidate strip_end_of type cfra s).
    { intros Hc'. apply candidate_test in Hc'. congruence. }
    unfold guess_inv in *. simpl in *.
    destruct tgt as [t|].
    + destruct Hinv as (Hin & Hct & -> & Hmin).
      split; [set_solver|]. split; [done|]. split; [done|].
      intros s' Hs' Hc'. apply elem_of_app in Hs' as [Hs'|Hs'].
      * by apply Hmin.
      * apply list_elem_of_singleton in Hs' as ->. done.
    + destruct Hinv as [-> Hno]. split; [done|].
      intros s' Hs'. apply elem_of_app in Hs' as [Hs'|Hs'].
      * by apply Hno.
      * apply list_elem_of_singleton in Hs' as ->. done.
Qed.

End GuessChannelFacts.

Example guess_channel_movie_sample :
  sequencer_generic_invoke_xy_guess_channel (consts := Samples.sample_constants)
    sample_strip_end sample_editing 25 3 = 3.
Proof. reflexivity. Qed.

Example guess_channel_any_sample :
  sequencer_generic_invoke_xy_guess_channel (consts := Samples.sample_constants)
    sample_strip_end sample_editing 31 (-1) = 7.
Proof. reflexivity. Qed.

(** For a movie the guess can be 0, one below channel 1. *)
Example guess_channel_movie_zero :
  sequencer_generic_invoke_xy_guess_channel (consts := Samples.sample_constants)
    (fun _ => 5) (Some (mkEditing (Some [Samples.strip 3 1]))) 10 3 = 0.
Proof. reflexivity. Qed.

(** C9 against the code: a strip that ends exactly [INT_MAX] frames before
    the current frame is never taken.  Here the one strip of the timeline
    (of any type, on channel 5) ends at frame -2147483647, at or before
    the current frame 0, so the guess should be its channel 5; the code
    returns 1, because the distance [0 - (-2147483647) = INT_MAX] is not
    below the initial [proximity = INT_MAX]. *)
Lemma guess_channel_far_strip_ignored :
  let s := Samples.strip 0 5 in
  let strip_end_of := fun _ : Sequence => -2147483647 in
  candidate strip_end_of (-1) 0 s /\
  machine s = 5 /\
  sequencer_generic_invoke_xy_guess_channel (consts := Samples.sample_constants)
    strip_end_of (Some (mkEditing (Some [s]))) 0 (-1) = 1.
Proof. unfold candidate. simpl. repeat split; auto with zarith. Qed.

(** Away from that corner the guess is as specified.  It is 1 whenever no
    strip of the requested type (any strip when the type is -1) ends at or
    before the current frame.  Otherwise, provided each such strip ends
    fewer than [INT_MAX] frames before the current frame, the guess is the
    channel ([machine]) of a strip whose right end is closest to the
    current frame among them, minus 1 (in [int]) when the requested type
    is movie: for a movie strip on channel [c > INT_MIN] the guess is
    [c - 1], which is 0, below the minimum channel 1, for [c = 1]. *)
Theorem guess_channel_closest_strip {consts : Constants}
    (strip_end_of : Sequence -> Z) (ed : option Editing) (cfra type : Z) :
  let guess :=
    sequencer_generic_invoke_xy_guess_channel strip_end_of ed cfra type in
  let cand := candidate strip_end_of type cfra in
  ((forall s, s ∈ visited_strips ed -> ~ cand s) -> guess = 1) /\
  ((forall s, s ∈ visited_strips ed -> cand s ->
      cfra - strip_end_of s < INT_MAX) ->
   (exists s, s ∈ visited_strips ed /\ cand s) ->
   exists tgt,
     tgt ∈ visited_strips ed /\ cand tgt /\
     (forall s, s ∈ visited_strips ed -> cand s ->
        strip_end_of s <= strip_end_of tgt) /\
     guess = (if type =? SEQ_TYPE_MOVIE then int_sub (machine tgt) 1
              else machine tgt) /\
     (type = SEQ_TYPE_MOVIE -> INT_MIN < machine tgt <= INT_MAX ->
        guess = machine tgt - 1)).
Proof.
  intros guess cand. split.
  - intros Hno. unfold guess, sequencer_generic_invoke_xy_guess_channel.
    destruct ed as [[[l|]]|]; try done. simpl in *.
    by rewrite guess_channel_loop_skip.
  - intros Hnear [s0 [Hs0 Hc0]].
    destruct ed as [[[l|]]|]; simpl in *; try (by apply elem_of_nil in Hs0).
    assert (Hinit : guess_inv strip_end_of type cfra [] (None, INT_MAX)).
    { split; [done|]. intros s Hs. by apply elem_of_nil in Hs. }
    pose proof (guess_channel_loop_inv strip_end_of type cfra l [] None INT_MAX
                  Hnear Hinit) as Hinv.
    unfold guess, sequencer_generic_invoke_xy_guess_channel. simpl.
    destruct (guess_channel_loop strip_end_of type cfra l None INT_MAX)
      as [[t|] prox]; unfold guess_inv in Hinv; simpl in Hinv.
    + destruct Hinv as (Hin & Hct & _ & Hmin).
      exists t. simpl.
      split; [exact Hin|]. split; [exact Hct|]. split; [exact Hmin|].
      split; [reflexivity|]. intros -> Hm. rewrite Z.eqb_refl.
      apply int_sub_small.
      unfold is_int, INT_MIN, INT_MAX in *. lia.
    + destruct Hinv as [_ Hno].
      by destruct (Hno s0 Hs0).
Qed.

Lemma guess_channel_closest_strip_witness :
  exists tgt,
    tgt ∈ visited_strips sample_editing /\
    candidate sample_strip_end 3 25 tgt /\
    sequencer_generic_invoke_xy_guess_channel
      (consts := Samples.sample_constants) sample_strip_end sample_editing 25 3
    = machine tgt - 1.
Proof.
  destruct (guess_channel_closest_strip (consts := Samples.sample_constants)
              sample_strip_end sample_editing 25 3) as [_ Hclosest].
  destruct Hclosest as (tgt & Hin & Hc & Hmin & _ & Hmovie).
  - intros s Hs _. simpl in Hs. unfold INT_MAX.
    repeat (apply elem_of_cons in Hs as [->|Hs]); [by vm_compute..|].
    by apply elem_of_nil in Hs.
  - exists (Samples.strip 3 2). split; [by left|].
    unfold candidate. split; [by right|]. by vm_compute.
  - exists tgt. split; [done|]. split; [done|].
    apply Hmovie; [reflexivity|].
    simpl in Hin. unfold INT_MIN, INT_MAX.
    repeat (apply elem_of_cons in Hin as [->|Hin]); simpl; [lia..|].
    by apply elem_of_nil in Hin.
Defined.

(** *** The monad *)

Section MonadFacts.
Context {L : Type}.

Lemma run_bind {A B} (m : M L A) (k : A -> M L B) (w : World L) :
  (m ≫= k) w =
  ((k (m w).1.1 (m w).1.2).1.1,
   (k (m w).1.1 (m w).1.2).1.2,
   (m w).2 ++ (k (m w).1.1 (m w).1.2).2).
Proof.
  unfold mbind, M_bind. destruct (m w) as [[a w1] t1]. simpl.
  by destruct (k a w1) as [[b w2] t2].
Qed.

Lemma run_ret {A} (a : A) (w : World L) : (mret a : M L A) w = (a, w, []).
Proof. reflexivity. Qed.

Lemma run_call_bind {B} f e (k : unit -> M L B) (w : World L) :
  (call f e ≫= k) w =
  ((k tt (f w)).1.1, (k tt (f w)).1.2, e :: (k tt (f w)).2).
Proof. by rewrite run_bind. Qed.

Lemma run_read_bind {A B} (f : World L -> A) (k : A -> M L B) (w : World L) :
  (read f ≫= k) w = k (f w) w.
Proof. rewrite run_bind. simpl. by destruct (k (f w) w) as [[b w2] t2]. Qed.

Lemma run_write_bind {B} f (k : unit -> M L B) (w : World L) :
  (write f ≫= k) w = k tt (f w).
Proof. rewrite run_bind. simpl. by destruct (k tt (f w)) as [[b w2] t2]. Qed.

Lemma run_ret_bind {A B} (a : A) (k : A -> M L B) (w : World L) :
  (mret a ≫= k) w = k a w.
Proof. rewrite run_bind. simpl. by destruct (k a w) as [[b w2] t2]. Qed.

End MonadFacts.

(** *** The load descriptor *)

Section LoadDataFacts.
Context {consts : Constants} {P PropertyRNA : Type}
        {rna : RnaApi P PropertyRNA} {paths : PathApi}
        {L : Type} {seqlib : SeqLib L}.

Lemma prop_is_true_iff ptr name :
  prop_is_true ptr name = true <->
  exists prop, RNA_struct_find_property ptr name = Some prop /\
               RNA_property_boolean_get ptr prop = true.
Proof.
  unfold prop_is_true. destruct (RNA_struct_find_property ptr name) as [p|].
  - split; [eauto|]. by intros (p' & [= <-] & Hp).
  - split; [done|]. by intros (p' & [=] & _).
Qed.

Lemma load_data_fit_method_result ptr ld (w : World L) :
  result (load_data_fit_method ptr ld) w = stage_fit ptr ld.
Proof.
  unfold result, load_data_fit_method, stage_fit.
  by destruct (RNA_struct_find_property ptr "fit_method").
Qed.

(** The descriptor [load_data_init_from_operator] builds, block by
    block. *)
Lemma load_data_init_from_operator_stages (op : wmOperator P) (w : World L) :
  let ptr := op_ptr op in
  result (load_data_init_from_operator op) w =
  load_data_multiview op
    (load_data_flag ptr "set_view_transform" SEQ_LOAD_SET_VIEW_TRANSFORM
       (load_data_flag ptr "use_framerate" SEQ_LOAD_MOVIE_SYNC_FPS
          (load_data_flag ptr "mono" SEQ_LOAD_SOUND_MONO
             (load_data_flag ptr "cache" SEQ_LOAD_SOUND_CACHE
                (load_data_frame_end ptr
                   (load_data_relative (prop_is_true ptr "relative_path")
                      (BKE_main_blendfile_path
                         (world_after (load_data_init_from_operator op) w))
                      (load_data_path ptr
                         (load_data_playback_rate ptr
                            (stage_fit ptr (load_data_start ptr)))))))))).
Proof.
  intros ptr. rewrite <- (load_data_fit_method_result ptr _ w).
  unfold result, world_after, load_data_init_from_operator. fold ptr.
  rewrite run_bind. simpl.
  by destruct (load_data_fit_method ptr (load_data_start ptr) w)
    as [[ld w1] t1].
Qed.

Lemma same_frames_trans a b c :
  same_frames a b -> same_frames b c -> same_frames a c.
Proof. unfold same_frames. intuition congruence. Qed.

Local Ltac stage_cases :=
  repeat case_match; unfold same_frames; simpl; repeat split; reflexivity.

Lemma stage_fit_frames ptr ld : same_frames (stage_fit ptr ld) ld.
Proof. unfold stage_fit. stage_cases. Qed.

Lemma stage_fit_flags ptr ld : flags (stage_fit ptr ld) = flags ld.
Proof. unfold stage_fit. stage_cases. Qed.

Lemma load_data_playback_rate_frames ptr ld :
  same_frames (load_data_playback_rate ptr ld) ld.
Proof. unfold load_data_playback_rate. stage_cases. Qed.

Lemma load_data_playback_rate_flags ptr ld :
  flags (load_data_playback_rate ptr ld) = flags ld.
Proof. unfold load_data_playback_rate. stage_cases. Qed.

Lemma load_data_path_frames ptr ld : same_frames (load_data_path ptr ld) ld.
Proof. unfold load_data_path. stage_cases. Qed.

Lemma load_data_path_flags ptr ld : flags (load_data_path ptr ld) = flags ld.
Proof. unfold load_data_path. stage_cases. Qed.

Lemma load_data_relative_frames rel bp ld :
  same_frames (load_data_relative rel bp ld) ld.
Proof. unfold load_data_relative. stage_cases. Qed.

Lemma load_data_relative_flags rel bp ld :
  flags (load_data_relative rel bp ld) = flags ld.
Proof. unfold load_data_relative. stage_cases. Qed.

Lemma load_data_frame_end_flags ptr ld :
  flags (load_data_frame_end ptr ld) = flags ld.
Proof. unfold load_data_frame_end. stage_cases. Qed.

Lemma load_data_flag_frames ptr name mask ld :
  same_frames (load_data_flag ptr name mask ld) ld.
Proof. unfold load_data_flag. stage_cases. Qed.

Lemma load_data_flag_flags ptr name mask ld :
  flags (load_data_flag ptr name mask ld) =
  if prop_is_true ptr name then Z.lor (flags ld) mask else flags ld.
Proof. unfold load_data_flag. by destruct (prop_is_true ptr name). Qed.

Lemma load_data_multiview_frames op ld :
  same_frames (load_data_multiview op ld) ld.
Proof. unfold load_data_multiview. stage_cases. Qed.

Lemma load_data_multiview_flags op ld :
  flags (load_data_multiview op ld) = flags ld.
Proof. unfold load_data_multiview. stage_cases. Qed.

(** [frame_end], when present, overrides both end frames. *)
Lemma load_data_frame_end_fields ptr ld :
  start_frame (load_data_frame_end ptr ld) = start_frame ld /\
  channel (load_data_frame_end ptr ld) = channel ld /\
  image_len (load_data_frame_end ptr ld) = image_len ld /\
  match RNA_struct_find_property ptr "frame_end" with
  | Some prop =>
    image_end_frame (load_data_frame_end ptr ld)
      = RNA_property_int_get ptr prop /\
    effect_end_frame (load_data_frame_end ptr ld)
      = RNA_property_int_get ptr prop
  | None =>
    image_end_frame (load_data_frame_end ptr ld) = image_end_frame ld /\
    effect_end_frame (load_data_frame_end ptr ld) = effect_end_frame ld
  end.
Proof. unfold load_data_frame_end. by case_match. Qed.

(** Flag masks. *)
Lemma has_flag_lor a m m' :
  has_flag (Z.lor a m) m' = has_flag a m' || has_flag m m'.
Proof.
  unfold has_flag. rewrite Z.land_lor_distr_l.
  destruct (Z.eqb_spec (Z.land a m') 0) as [Ha|Ha];
    destruct (Z.eqb_spec (Z.land m m') 0) as [Hm|Hm];
    destruct (Z.eqb_spec (Z.lor (Z.land a m') (Z.land m m')) 0) as [Ho|Ho];
    simpl; try reflexivity; apply Z.lor_eq_0_iff in Ho || (exfalso; apply Ho;
      apply Z.lor_eq_0_iff); tauto.
Qed.

Lemma has_flag_self m : m <> 0 -> has_flag m m = true.
Proof.
  intros Hm. unfold has_flag. rewrite Z.land_diag.
  by destruct (Z.eqb_spec m 0).
Qed.

Lemma has_flag_disjoint m m' : Z.land m m' = 0 -> has_flag m m' = false.
Proof. intros Hm. unfold has_flag. by rewrite Hm. Qed.

Lemma has_flag_zero m : has_flag 0 m = false.
Proof. unfold has_flag. by rewrite Z.land_0_l. Qed.


Lemma load_data_frame_end_same ptr a b :
  same_frames a b ->
  same_frames (load_data_frame_end ptr a) (load_data_frame_end ptr b).
Proof.
  intros (Hs & Hc & Hl & He & Hf). unfold load_data_frame_end, same_frames.
  destruct (RNA_struct_find_property ptr "frame_end"); simpl;
    repeat split; assumption.
Qed.

(** The frame fields after the last block that writes them. *)
Lemma load_data_init_frames (op : wmOperator P) (w : World L) :
  same_frames (result (load_data_init_from_operator op) w)
    (load_data_frame_end (op_ptr op) (load_data_start (op_ptr op))).
Proof.
  rewrite load_data_init_from_operator_stages. cbv zeta.
  eapply same_frames_trans; [apply load_data_multiview_frames|].
  do 4 (eapply same_frames_trans; [apply load_data_flag_frames|]).
  apply load_data_frame_end_same.
  eapply same_frames_trans; [apply load_data_relative_frames|].
  eapply same_frames_trans; [apply load_data_path_frames|].
  eapply same_frames_trans; [apply load_data_playback_rate_frames|].
  apply stage_fit_frames.
Qed.

(** The flags after the four flag blocks. *)
Lemma load_data_init_flags (op : wmOperator P) (w : World L) :
  let ptr := op_ptr op in
  let add (name : string) (mask f : Z) :=
    if prop_is_true ptr name then Z.lor f mask else f in
  flags (result (load_data_init_from_operator op) w) =
  add "set_view_transform" SEQ_LOAD_SET_VIEW_TRANSFORM
    (add "use_framerate" SEQ_LOAD_MOVIE_SYNC_FPS
       (add "mono" SEQ_LOAD_SOUND_MONO
          (add "cache" SEQ_LOAD_SOUND_CACHE 0))).
Proof.
  intros ptr add. rewrite load_data_init_from_operator_stages. cbv zeta.
  rewrite load_data_multiview_flags, !load_data_flag_flags,
    load_data_frame_end_flags, load_data_relative_flags, load_data_path_flags,
    load_data_playback_rate_flags, stage_fit_flags.
  reflexivity.
Qed.

End LoadDataFacts.

(** C5: the load descriptor [load_data_init_from_operator] builds has
    [start_frame] equal to the [frame_start] int property, [channel] equal
    to the [channel] int property, [image.len] equal to 1, and
    [image.end_frame] equal to [start_frame] unless a [frame_end] property
    exists, in which case [image.end_frame] and [effect.end_frame] both
    hold its value; and, the four load flags being distinct bits, each of
    them (sound cache, sound mono, movie sync FPS, set view transform) is
    set if and only if the boolean property of its name ([cache], [mono],
    [use_framerate], [set_view_transform]) exists and is true. *)
Theorem load_data_init_from_operator_fields
    {consts : Constants} {P PropertyRNA : Type} {rna : RnaApi P PropertyRNA}
    {paths : PathApi} {L : Type} {seqlib : SeqLib L}
    (op : wmOperator P) (w : World L) :
  load_flags_distinct ->
  let ptr := op_ptr op in
  let ld := result (load_data_init_from_operator op) w in
  let exists_and_true name :=
    exists prop, RNA_struct_find_property ptr name = Some prop /\
                 RNA_property_boolean_get ptr prop = true in
  start_frame ld = RNA_int_get ptr "frame_start" /\
  channel ld = RNA_int_get ptr "channel" /\
  image_len ld = 1 /\
  (RNA_struct_find_property ptr "frame_end" = None ->
     image_end_frame ld = start_frame ld) /\
  (forall prop, RNA_struct_find_property ptr "frame_end" = Some prop ->
     image_end_frame ld = RNA_property_int_get ptr prop /\
     effect_end_frame ld = RNA_property_int_get ptr prop) /\
  (has_flag (flags ld) SEQ_LOAD_SOUND_CACHE = true <->
     exists_and_true "cache") /\
  (has_flag (flags ld) SEQ_LOAD_SOUND_MONO = true <->
     exists_and_true "mono") /\
  (has_flag (flags ld) SEQ_LOAD_MOVIE_SYNC_FPS = true <->
     exists_and_true "use_framerate") /\
  (has_flag (flags ld) SEQ_LOAD_SET_VIEW_TRANSFORM = true <->
     exists_and_true "set_view_transform").
Proof.
  intros (Hc & Hm & Hf & Hv & Hcm & Hcf & Hcv & Hmf & Hmv & Hfv) ptr ld ex.
  destruct (load_data_init_frames op w) as (Hs & Hch & Hl & He & Hee).
  fold ld ptr in Hs, Hch, Hl, He, Hee.
  pose proof (load_data_frame_end_fields ptr (load_data_start ptr))
    as (Hs' & Hch' & Hl' & Hend).
  assert (Hflags : forall mask,
    has_flag (flags ld) mask =
    (prop_is_true ptr "cache" && has_flag SEQ_LOAD_SOUND_CACHE mask)
    || (prop_is_true ptr "mono" && has_flag SEQ_LOAD_SOUND_MONO mask)
    || (prop_is_true ptr "use_framerate"
        && has_flag SEQ_LOAD_MOVIE_SYNC_FPS mask)
    || (prop_is_true ptr "set_view_transform"
        && has_flag SEQ_LOAD_SET_VIEW_TRANSFORM mask)).
  { intros mask. unfold ld. rewrite load_data_init_flags. cbv zeta. fold ptr.
    destruct (prop_is_true ptr "cache"), (prop_is_true ptr "mono"),
      (prop_is_true ptr "use_framerate"),
      (prop_is_true ptr "set_view_transform");
      rewrite ?has_flag_lor, ?has_flag_zero; simpl;
      rewrite ?orb_false_r; reflexivity. }
  assert (Hmc : Z.land SEQ_LOAD_SOUND_MONO SEQ_LOAD_SOUND_CACHE = 0)
    by (by rewrite Z.land_comm).
  assert (Hfc : Z.land SEQ_LOAD_MOVIE_SYNC_FPS SEQ_LOAD_SOUND_CACHE = 0)
    by (by rewrite Z.land_comm).
  assert (Hvc : Z.land SEQ_LOAD_SET_VIEW_TRANSFORM SEQ_LOAD_SOUND_CACHE = 0)
    by (by rewrite Z.land_comm).
  assert (Hfm : Z.land SEQ_LOAD_MOVIE_SYNC_FPS SEQ_LOAD_SOUND_MONO = 0)
    by (by rewrite Z.land_comm).
  assert (Hvm : Z.land SEQ_LOAD_SET_VIEW_TRANSFORM SEQ_LOAD_SOUND_MONO = 0)
    by (by rewrite Z.land_comm).
  assert (Hvf : Z.land SEQ_LOAD_SET_VIEW_TRANSFORM SEQ_LOAD_MOVIE_SYNC_FPS = 0)
    by (by rewrite Z.land_comm).
  split; [by rewrite Hs, Hs'|]. split; [by rewrite Hch, Hch'|].
  split; [by rewrite Hl, Hl'|].
  split.
  { intros Hnone. rewrite Hnone in Hend. destruct Hend as [Hi _].
    by rewrite He, Hi, Hs, Hs'. }
  split.
  { intros prop Hsome. rewrite Hsome in Hend. destruct Hend as [Hi Hef].
    by rewrite He, Hee. }
  unfold ex. rewrite <- !prop_is_true_iff, !Hflags.
  rewrite !has_flag_self by assumption.
  rewrite !has_flag_disjoint by assumption.
  rewrite !andb_false_r, !andb_true_r, !orb_false_r. simpl.
  by repeat split.
Qed.


Lemma sample_load_flags_distinct :
  load_flags_distinct (consts := Samples.sample_constants).
Proof. unfold load_flags_distinct. simpl. repeat split; discriminate. Qed.

Lemma load_data_init_from_operator_fields_witness :
  let ld :=
    result (load_data_init_from_operator
              (consts := Samples.sample_constants)
              (rna := Samples.sample_rna) (paths := Samples.sample_paths)
              (seqlib := Samples.sample_lib)
              sample_sound_op)
      Samples.sample_world in
  start_frame ld = 10 /\ channel ld = 2 /\ image_len ld = 1 /\
  image_end_frame ld = 30 /\ effect_end_frame ld = 30 /\
  has_flag (flags ld) 2 = true /\ has_flag (flags ld) 4 = false.
Proof.
  pose proof (load_data_init_from_operator_fields
                (consts := Samples.sample_constants)
                (rna := Samples.sample_rna) (paths := Samples.sample_paths)
                (seqlib := Samples.sample_lib)
                sample_sound_op Samples.sample_world
                sample_load_flags_distinct)
    as (Hs & Hc & Hl & _ & Hend & Hcache & Hmono & _).
  destruct (Hend "frame_end" eq_refl) as [Hi He].
  split; [exact Hs|]. split; [exact Hc|]. split; [exact Hl|].
  split; [exact Hi|]. split; [exact He|]. split.
  - apply Hcache. by exists "cache".
  - apply not_true_is_false. intros Hset. apply Hmono in Hset.
    by destruct Hset as (prop & [= <-] & Hfalse).
Defined.

(** *** Running the monad, and calls that never happen *)

Section RunFacts.
Context {L : Type}.

Lemma result_bind {A B} (m : M L A) (k : A -> M L B) w :
  result (m ≫= k) w = result (k (result m w)) (world_after m w).
Proof. unfold result. by rewrite run_bind. Qed.

Lemma world_after_bind {A B} (m : M L A) (k : A -> M L B) w :
  world_after (m ≫= k) w = world_after (k (result m w)) (world_after m w).
Proof. unfold world_after, result. by rewrite run_bind. Qed.

Lemma calls_bind {A B} (m : M L A) (k : A -> M L B) w :
  calls (m ≫= k) w = calls m w ++ calls (k (result m w)) (world_after m w).
Proof. unfold calls, world_after, result. by rewrite run_bind. Qed.

Lemma calls_call f e (w : World L) : calls (call f e) w = [e].
Proof. reflexivity. Qed.
Lemma world_after_call f e (w : World L) : world_after (call f e) w = f w.
Proof. reflexivity. Qed.
Lemma calls_call_ret {A} (f : World L -> A * World L) e w :
  calls (call_ret f e) w = [e (f w).1].
Proof. reflexivity. Qed.
Lemma result_call_ret {A} (f : World L -> A * World L) e w :
  result (call_ret f e) w = (f w).1.
Proof. reflexivity. Qed.
Lemma world_after_call_ret {A} (f : World L -> A * World L) e w :
  world_after (call_ret f e) w = (f w).2.
Proof. reflexivity. Qed.
Lemma calls_ask {A} (f : World L -> A) e w : calls (ask f e) w = [e (f w)].
Proof. reflexivity. Qed.
Lemma result_ask {A} (f : World L -> A) e w : result (ask f e) w = f w.
Proof. reflexivity. Qed.
Lemma world_after_ask {A} (f : World L -> A) e w :
  world_after (ask f e) w = w.
Proof. reflexivity. Qed.
Lemma calls_read {A} (f : World L -> A) w : calls (read f) w = [].
Proof. reflexivity. Qed.
Lemma result_read {A} (f : World L -> A) w : result (read f) w = f w.
Proof. reflexivity. Qed.
Lemma world_after_read {A} (f : World L -> A) w : world_after (read f) w = w.
Proof. reflexivity. Qed.
Lemma calls_write f (w : World L) : calls (write f) w = [].
Proof. reflexivity. Qed.
Lemma world_after_write f (w : World L) : world_after (write f) w = f w.
Proof. reflexivity. Qed.
Lemma calls_ret {A} (a : A) (w : World L) : calls (mret a : M L A) w = [].
Proof. reflexivity. Qed.
Lemma result_ret {A} (a : A) (w : World L) : result (mret a : M L A) w = a.
Proof. reflexivity. Qed.
Lemma world_after_ret {A} (a : A) (w : World L) :
  world_after (mret a : M L A) w = w.
Proof. reflexivity. Qed.

(** The monad laws, run by run. *)
Lemma run_bind_assoc {A B C} (m : M L A) (k : A -> M L B) (h : B -> M L C)
    (w : World L) :
  ((m ≫= k) ≫= h) w = (m ≫= fun a => k a ≫= h) w.
Proof. rewrite !run_bind. simpl. by rewrite app_assoc. Qed.

Lemma run_bind_ext {A B} (m : M L A) (k k' : A -> M L B) (w : World L) :
  (forall a w', k a w' = k' a w') -> (m ≫= k) w = (m ≫= k') w.
Proof. intros Hk. by rewrite !run_bind, Hk. Qed.

Lemma run_bind_ext_l {A B} (m m' : M L A) (k : A -> M L B) (w : World L) :
  m w = m' w -> (m ≫= k) w = (m' ≫= k) w.
Proof. intros Hm. by rewrite !run_bind, Hm. Qed.

Lemma calls_ext {A} (m m' : M L A) (w : World L) :
  m w = m' w -> calls m w = calls m' w.
Proof. unfold calls. by intros ->. Qed.

Lemma world_after_ext {A} (m m' : M L A) (w : World L) :
  m w = m' w -> world_after m w = world_after m' w.
Proof. unfold world_after. by intros ->. Qed.

(** A loop over two lists, one after the other. *)
Lemma run_loop_app {A S} (l1 l2 : list A) (body : A -> S -> M L S) :
  forall (s : S) (w : World L),
  loop (l1 ++ l2) body s w = (s' ← loop l1 body s; loop l2 body s') w.
Proof.
  induction l1 as [|x l1 IH]; intros s w; simpl.
  - by rewrite run_ret_bind.
  - rewrite !run_bind. simpl. rewrite !IH, !run_bind. simpl.
    by rewrite app_assoc.
Qed.

Lemma calls_loop_app {A S} (l1 l2 : list A) (body : A -> S -> M L S) s w :
  calls (loop (l1 ++ l2) body s) w =
  calls (loop l1 body s) w
  ++ calls (loop l2 body (result (loop l1 body s) w))
       (world_after (loop l1 body s) w).
Proof. unfold calls at 1. by rewrite run_loop_app, run_bind. Qed.

Lemma result_loop_app {A S} (l1 l2 : list A) (body : A -> S -> M L S) s w :
  result (loop (l1 ++ l2) body s) w =
  result (loop l2 body (result (loop l1 body s) w))
    (world_after (loop l1 body s) w).
Proof. unfold result at 1. by rewrite run_loop_app, run_bind. Qed.

Lemma world_after_loop_app {A S} (l1 l2 : list A) (body : A -> S -> M L S)
    s w :
  world_after (loop (l1 ++ l2) body s) w =
  world_after (loop l2 body (result (loop l1 body s) w))
    (world_after (loop l1 body s) w).
Proof. unfold world_after at 1. by rewrite run_loop_app, run_bind. Qed.

Lemma avoids_ret bad {A} (a : A) : avoids bad (mret a : M L A).
Proof. intros w. constructor. Qed.

Lemma avoids_bind bad {A B} (m : M L A) (k : A -> M L B) :
  avoids bad m -> (forall a, avoids bad (k a)) -> avoids bad (m ≫= k).
Proof.
  intros Hm Hk w. rewrite calls_bind. apply Forall_app. split; [apply Hm|].
  apply Hk.
Qed.

Lemma avoids_call bad f e : bad e = false -> avoids bad (call (L := L) f e).
Proof. intros He w. by repeat constructor. Qed.

Lemma avoids_call_ret bad {A} (f : World L -> A * World L) e :
  (forall a, bad (e a) = false) -> avoids bad (call_ret f e).
Proof. intros He w. by repeat constructor. Qed.

Lemma avoids_ask bad {A} (f : World L -> A) e :
  (forall a, bad (e a) = false) -> avoids bad (ask f e).
Proof. intros He w. by repeat constructor. Qed.

Lemma avoids_read bad {A} (f : World L -> A) : avoids bad (read f).
Proof. intros w. constructor. Qed.

Lemma avoids_write bad (f : World L -> World L) : avoids bad (write f).
Proof. intros w. constructor. Qed.

Lemma avoids_foreach bad {A} (l : list A) (body : A -> M L unit) :
  (forall x, avoids bad (body x)) -> avoids bad (foreach l body).
Proof.
  intros Hb. induction l as [|x l IH]; simpl; [apply avoids_ret|].
  apply avoids_bind; [apply Hb|]. by intros _.
Qed.

Lemma avoids_loop bad {A S} (l : list A) (body : A -> S -> M L S) :
  (forall x s, avoids bad (body x s)) -> forall s, avoids bad (loop l body s).
Proof.
  intros Hb. induction l as [|x l IH]; intros s; simpl; [apply avoids_ret|].
  apply avoids_bind; [apply Hb|]. apply IH.
Qed.

Lemma avoids_filter bad {A} (m : M L A) w :
  avoids bad m -> List.filter bad (calls m w) = [].
Proof.
  intros Hm. specialize (Hm w). induction Hm as [|e l He _ IH]; [done|].
  simpl. by rewrite He.
Qed.

Lemma avoids_not_in bad {A} (m : M L A) w e :
  avoids bad m -> bad e = true -> e ∉ calls m w.
Proof.
  intros Hm He Hin. specialize (Hm w).
  rewrite Forall_forall in Hm. specialize (Hm e Hin). congruence.
Qed.

End RunFacts.

(** Runs the binds, calls, reads and writes at the head of a goal. *)
Ltac run_simpl :=
  repeat first
    [ rewrite calls_bind | rewrite world_after_bind | rewrite result_bind
    | rewrite calls_call | rewrite world_after_call
    | rewrite calls_call_ret | rewrite result_call_ret
    | rewrite world_after_call_ret
    | rewrite calls_ask | rewrite result_ask | rewrite world_after_ask
    | rewrite calls_read | rewrite result_read | rewrite world_after_read
    | rewrite calls_write | rewrite world_after_write
    | rewrite calls_ret | rewrite result_ret | rewrite world_after_ret ].

(** Breaks a goal [avoids bad m] down along the structure of [m]. *)
Ltac avoids_step :=
  first
    [ apply avoids_ret
    | apply avoids_read
    | apply avoids_write
    | apply avoids_call; reflexivity
    | apply avoids_call_ret; intros; reflexivity
    | apply avoids_ask; intros; reflexivity
    | apply avoids_bind; [|intros]
    | apply avoids_foreach; intros
    | apply avoids_loop; intros
    | progress case_match ].

Ltac avoids_auto := repeat avoids_step.

(** *** Overlap handling and selection of a new strip *)

Section OverlapFacts.
Context {consts : Constants} {P PropertyRNA : Type}
        {rna : RnaApi P PropertyRNA} {paths : PathApi}
        {L : Type} {seqlib : SeqLib L}.

Lemma select_new_strip_avoids bad op seq :
  (forall p, bad (Ev_select_active_set p) = false) ->
  avoids bad (select_new_strip (L := L) op seq).
Proof.
  intros Hb. unfold select_new_strip. case_match; [|apply avoids_ret].
  apply avoids_bind; [apply avoids_write|]. intros _. by apply avoids_call.
Qed.

Lemma resolve_overlap_avoids bad op seq :
  (forall p r, bad (Ev_test_overlap p r) = false) ->
  (forall col b, bad (Ev_handle_overlap col b) = false) ->
  (forall p, bad (Ev_seqbase_shuffle p) = false) ->
  avoids bad (resolve_overlap (L := L) op seq).
Proof.
  intros Ht Hh Hs. unfold resolve_overlap. case_match; [apply avoids_ret|].
  apply avoids_bind; [by apply avoids_ask|]. intros overlaps.
  case_match; [apply avoids_ret|]. case_match.
  - apply avoids_bind; [apply avoids_read|]. intros b. by apply avoids_call.
  - by apply avoids_call.
Qed.

Lemma seq_load_apply_generic_options_avoids bad op seq :
  (forall p, bad (Ev_select_active_set p) = false) ->
  (forall p r, bad (Ev_test_overlap p r) = false) ->
  (forall col b, bad (Ev_handle_overlap col b) = false) ->
  (forall p, bad (Ev_seqbase_shuffle p) = false) ->
  avoids bad (seq_load_apply_generic_options (L := L) op seq).
Proof.
  intros Ha Ht Hh Hs. unfold seq_load_apply_generic_options.
  destruct seq as [p|]; [|apply avoids_ret].
  apply avoids_bind; [by apply select_new_strip_avoids|].
  intros _. by apply resolve_overlap_avoids.
Qed.

(** What the overlap step does, case by case. *)
Lemma resolve_overlap_run op seq (w : World L) :
  resolve_overlap op seq w =
  if RNA_boolean_get (op_ptr op) "overlap" then (tt, w, [])
  else if negb (SEQ_transform_test_overlap seq w)
  then (tt, w, [Ev_test_overlap seq false])
  else if RNA_boolean_get (op_ptr op) "overlap_shuffle_override"
  then (tt,
        SEQ_transform_handle_overlap {[ seq ]} (use_sync_markers_of w) w,
        [Ev_test_overlap seq true;
         Ev_handle_overlap {[ seq ]} (use_sync_markers_of w)])
  else (tt, SEQ_transform_seqbase_shuffle seq w,
        [Ev_test_overlap seq true; Ev_seqbase_shuffle seq]).
Proof.
  unfold resolve_overlap.
  destruct (RNA_boolean_get (op_ptr op) "overlap"); [done|].
  rewrite run_bind. unfold ask at 1 2 3. simpl.
  destruct (SEQ_transform_test_overlap seq w); simpl; [|done].
  by destruct (RNA_boolean_get (op_ptr op) "overlap_shuffle_override").
Qed.

End OverlapFacts.

(** C1: for a new strip [seq] (not [NULL]) handled by
    [seq_load_apply_generic_options], let [w1] be the world after the
    selection step, in which the overlap is tested.  If the operator's
    [overlap] property is true or [SEQ_transform_test_overlap] returns
    false, no overlap resolution is called and the world stays [w1];
    otherwise exactly one resolution is called, chosen by
    [overlap_shuffle_override] alone: [SEQ_transform_handle_overlap] (on
    the collection holding just [seq]) when it is true,
    [SEQ_transform_seqbase_shuffle] (on [seq]) when it is false. *)
Theorem overlap_resolution_policy
    {consts : Constants} {P PropertyRNA : Type} {rna : RnaApi P PropertyRNA}
    {paths : PathApi} {L : Type} {seqlib : SeqLib L}
    (op : wmOperator P) (seq : ptr) (w : World L) :
  let w1 := world_after (select_new_strip op seq) w in
  let run := seq_load_apply_generic_options op (Some seq) in
  let resolutions := List.filter is_overlap_resolution (calls run w) in
  if RNA_boolean_get (op_ptr op) "overlap"
     || negb (SEQ_transform_test_overlap seq w1)
  then resolutions = [] /\ world_after run w = w1
  else if RNA_boolean_get (op_ptr op) "overlap_shuffle_override"
  then resolutions = [Ev_handle_overlap {[ seq ]} (use_sync_markers_of w1)] /\
       world_after run w =
         SEQ_transform_handle_overlap {[ seq ]} (use_sync_markers_of w1) w1
  else resolutions = [Ev_seqbase_shuffle seq] /\
       world_after run w = SEQ_transform_seqbase_shuffle seq w1.
Proof.
  intros w1 run resolutions.
  assert (Hsel : List.filter is_overlap_resolution
                   (calls (select_new_strip op seq) w) = []).
  { apply avoids_filter. by apply select_new_strip_avoids. }
  unfold resolutions, run, seq_load_apply_generic_options.
  rewrite calls_bind, world_after_bind, List.filter_app, Hsel. fold w1.
  unfold calls, world_after. rewrite resolve_overlap_run. simpl.
  destruct (RNA_boolean_get (op_ptr op) "overlap"); [done|].
  destruct (SEQ_transform_test_overlap seq w1); [|done]. simpl.
  by destruct (RNA_boolean_get (op_ptr op) "overlap_shuffle_override").
Qed.

(** *** The add-scene-strip operator *)

Section SceneStripFacts.
Context {consts : Constants} {P PropertyRNA : Type}
        {rna : RnaApi P PropertyRNA} {paths : PathApi}
        {L : Type} {seqlib : SeqLib L}.

Lemma load_data_init_from_operator_avoids bad (op : wmOperator P) :
  (forall m, bad (Ev_fit_method_set m) = false) ->
  avoids bad (load_data_init_from_operator (L := L) op).
Proof.
  intros Hb. unfold load_data_init_from_operator, load_data_fit_method.
  apply avoids_bind.
  - case_match; [|apply avoids_ret].
    apply avoids_bind; [by apply avoids_call|]. intros _. apply avoids_ret.
  - intros ld. apply avoids_bind; [apply avoids_read|]. intros bp.
    apply avoids_ret.
Qed.

Lemma scene_strip_exec_run (op : wmOperator P) (w : World L) :
  sequencer_add_scene_strip_exec op w =
  match scene_lookup op w with
  | None =>
    (OPERATOR_CANCELLED,
     BKE_report RPT_ERROR "Scene not found" (SEQ_editing_ensure w),
     [Ev_editing_ensure; Ev_report RPT_ERROR "Scene not found"])
  | Some sce =>
    (result (scene_strip_found op sce) (SEQ_editing_ensure w),
     world_after (scene_strip_found op sce) (SEQ_editing_ensure w),
     Ev_editing_ensure ::
       calls (scene_strip_found op sce) (SEQ_editing_ensure w))
  end.
Proof.
  unfold sequencer_add_scene_strip_exec, scene_lookup.
  rewrite run_call_bind, run_read_bind.
  destruct (BLI_findlink_scenes _ _) as [sce|]; [|done].
  reflexivity.
Qed.

Lemma scene_strip_found_result op sce (w : World L) :
  result (scene_strip_found op sce) w = OPERATOR_FINISHED.
Proof.
  unfold scene_strip_found.
  repeat (rewrite result_bind; cbv zeta). reflexivity.
Qed.

Lemma scene_strip_found_avoids bad op sce :
  bad Ev_deselect_all = false ->
  (forall m, bad (Ev_fit_method_set m) = false) ->
  (forall ld r, bad (Ev_add_scene_strip ld r) = false) ->
  (forall p, bad (Ev_select_active_set p) = false) ->
  (forall p r, bad (Ev_test_overlap p r) = false) ->
  (forall col b, bad (Ev_handle_overlap col b) = false) ->
  (forall p, bad (Ev_seqbase_shuffle p) = false) ->
  bad Ev_deg_id_tag_update = false ->
  bad Ev_deg_relations_tag_update = false ->
  bad Ev_event_add_notifier = false ->
  avoids bad (scene_strip_found op sce).
Proof.
  intros Hd Hf Ha Hs Ht Hh Hsh Hi Hr Hn. unfold scene_strip_found.
  apply avoids_bind.
  { case_match; [by apply avoids_call|apply avoids_ret]. }
  intros _. apply avoids_bind; [by apply load_data_init_from_operator_avoids|].
  intros ld. apply avoids_bind; [by apply avoids_call_ret|].
  intros seq. apply avoids_bind.
  { by apply seq_load_apply_generic_options_avoids. }
  intros _. apply avoids_bind; [by apply avoids_call|].
  intros _. apply avoids_bind; [by apply avoids_call|].
  intros _. apply avoids_bind; [by apply avoids_call|].
  intros _. apply avoids_ret.
Qed.

End SceneStripFacts.

(** C2: [sequencer_add_scene_strip_exec] returns [OPERATOR_CANCELLED] and
    reports the error "Scene not found" if and only if the scene selected
    by the [scene] enum property is not found (the lookup returns [NULL]);
    in every other case it returns [OPERATOR_FINISHED] (and reports
    nothing). *)
Theorem scene_strip_exec_cancelled_iff_not_found
    {consts : Constants} {P PropertyRNA : Type} {rna : RnaApi P PropertyRNA}
    {paths : PathApi} {L : Type} {seqlib : SeqLib L}
    (op : wmOperator P) (w : World L) :
  let run := sequencer_add_scene_strip_exec op in
  let not_found := Ev_report RPT_ERROR "Scene not found" in
  ((result run w = OPERATOR_CANCELLED /\ not_found ∈ calls run w)
     <-> scene_lookup op w = None) /\
  (result run w = OPERATOR_CANCELLED <-> scene_lookup op w = None) /\
  (not_found ∈ calls run w <-> scene_lookup op w = None) /\
  (scene_lookup op w <> None ->
     result run w = OPERATOR_FINISHED /\
     forall t msg, Ev_report t msg ∉ calls run w).
Proof.
  intros run not_found.
  assert (Hcases :
    (scene_lookup op w = None /\ result run w = OPERATOR_CANCELLED /\
     not_found ∈ calls run w) \/
    (scene_lookup op w <> None /\ result run w = OPERATOR_FINISHED /\
     forall t msg, Ev_report t msg ∉ calls run w)).
  { unfold result, calls, run. rewrite scene_strip_exec_run.
    destruct (scene_lookup op w) as [sce|] eqn:Hlookup.
    - right. split; [done|]. simpl. split.
      + apply scene_strip_found_result.
      + intros t msg Hin. apply elem_of_cons in Hin as [Hin|Hin]; [done|].
        revert Hin. apply (avoids_not_in is_report); [|done].
        by apply scene_strip_found_avoids.
    - left. split; [done|]. split; [done|]. simpl. unfold not_found.
      set_solver. }
  destruct Hcases as [(Hnone & Hr & Hin)|(Hsome & Hr & Hnin)].
  - rewrite Hr, Hnone.
    split_and!; [by split|by split|by split|]. intros Hne. by destruct Hne.
  - rewrite Hr. split_and!.
    + split; [by intros [Hc _]|congruence].
    + split; [done|congruence].
    + split; [|congruence]. intros Hin. by destruct (Hnin _ _ Hin).
    + done.
Qed.

(** *** Selection of the new strip *)

Section SelectionFacts.
Context {consts : Constants} {P PropertyRNA : Type}
        {rna : RnaApi P PropertyRNA} {paths : PathApi}
        {L : Type} {seqlib : SeqLib L}.

Lemma has_flag_lor_self f m : m <> 0 -> has_flag (Z.lor f m) m = true.
Proof.
  intros Hm. rewrite has_flag_lor, has_flag_self by done. apply orb_true_r.
Qed.

(** [seq->flag |= SELECT] on a live strip selects it. *)
Lemma flag_write_selected p (w : World L) :
  SELECT <> 0 -> is_Some (strips w !! p) ->
  selected p (with_strips (alter (set_flag (fun f => Z.lor f SELECT)) p) w).
Proof.
  intros Hsel [s Hs]. exists (set_flag (fun f => Z.lor f SELECT) s).
  simpl. rewrite lookup_alter_eq, Hs. split; [done|]. simpl.
  by apply has_flag_lor_self.
Qed.

(** The selection step, case by case. *)
Lemma select_new_strip_run op p (w : World L) :
  select_new_strip op p w =
  if RNA_boolean_get (op_ptr op) "replace_sel" then
    (tt,
     SEQ_select_active_set p
       (with_strips (alter (set_flag (fun f => Z.lor f SELECT)) p) w),
     [Ev_select_active_set p])
  else (tt, w, []).
Proof.
  unfold select_new_strip.
  by destruct (RNA_boolean_get (op_ptr op) "replace_sel").
Qed.

Lemma select_new_strip_calls op p (w : World L) :
  RNA_boolean_get (op_ptr op) "replace_sel" = true ->
  calls (select_new_strip op p) w = [Ev_select_active_set p].
Proof. intros Hrs. unfold calls. by rewrite select_new_strip_run, Hrs. Qed.

Lemma select_new_strip_world op p (w : World L) :
  RNA_boolean_get (op_ptr op) "replace_sel" = true ->
  world_after (select_new_strip op p) w =
  SEQ_select_active_set p
    (with_strips (alter (set_flag (fun f => Z.lor f SELECT)) p) w).
Proof.
  intros Hrs. unfold world_after. by rewrite select_new_strip_run, Hrs.
Qed.

Lemma resolve_overlap_keeps_selected op p (w : World L) :
  library_keeps_selected p -> selected p w ->
  selected p (world_after (resolve_overlap op p) w).
Proof.
  intros (_ & Hh & Hs & _) Hsel. unfold world_after.
  rewrite resolve_overlap_run. repeat case_match; simpl; try done.
  - by apply Hh.
  - by apply Hs.
Qed.

(** The post-processing of a new strip, in either of its two versions,
    with [replace_sel]: [SEQ_select_active_set] is its first call, and the
    strip is selected when it returns. *)
Lemma post_processing_selects op p (w : World L) :
  RNA_boolean_get (op_ptr op) "replace_sel" = true ->
  is_Some (strips w !! p) -> SELECT <> 0 -> library_keeps_selected p ->
  let generic := seq_load_apply_generic_options op (Some p) in
  (exists rest, calls generic w = Ev_select_active_set p :: rest) /\
  selected p (world_after generic w) /\
  forall col,
    let only_test :=
      seq_load_apply_generic_options_only_test_overlap op (Some p) col in
    calls only_test w =
      [Ev_select_active_set p;
       Ev_test_overlap p (result only_test w).1] /\
    selected p (world_after only_test w) /\
    (result only_test w).2 = {[ p ]} ∪ col.
Proof.
  intros Hrs Hlive Hsel Hlib generic.
  assert (Hstep : selected p (world_after (select_new_strip op p) w)).
  { rewrite select_new_strip_world by done.
    destruct Hlib as [Hact _]. by apply Hact, flag_write_selected. }
  split_and!.
  - unfold generic, seq_load_apply_generic_options.
    rewrite calls_bind, select_new_strip_calls by done. by eexists.
  - unfold generic, seq_load_apply_generic_options.
    rewrite world_after_bind. by apply resolve_overlap_keeps_selected.
  - intros col only_test.
    unfold only_test, seq_load_apply_generic_options_only_test_overlap.
    run_simpl. rewrite select_new_strip_calls by done. done.
Qed.

End SelectionFacts.

(** With [replace_sel] true, the post-processing every add-strip
    exec applies to a new strip [p] (in either of its two versions) calls
    [SEQ_select_active_set] on [p] first, and, [p] being a live strip that
    the later library calls do not deselect, leaves [p] with its [SELECT]
    flag set.  In [sequencer_add_scene_strip_exec] with the scene found
    and [SEQ_add_scene_strip] creating [p], [ED_sequencer_deselect_all] is
    called before the insertion, which happens in the world it (and the
    library call of [load_data_init_from_operator]) left; the insertion is
    followed at once by [SEQ_select_active_set] on [p], and [p] is
    selected in the end.  With [replace_sel] false the exec calls neither
    [ED_sequencer_deselect_all] nor [SEQ_select_active_set], and the
    selection step of the post-processing changes nothing. *)
Lemma scene_exec_selects_new_strip
    {consts : Constants} {P PropertyRNA : Type} {rna : RnaApi P PropertyRNA}
    {paths : PathApi} {L : Type} {seqlib : SeqLib L}
    (op : wmOperator P) (w : World L) (sce : nat) :
  scene_lookup op w = Some sce ->
  let run := sequencer_add_scene_strip_exec op in
  let w1 := ED_sequencer_deselect_all (SEQ_editing_ensure w) in
  let init := load_data_init_from_operator op in
  let load_data := with_scene (Some sce) (result init w1) in
  let added := SEQ_add_scene_strip load_data (world_after init w1) in
  (RNA_boolean_get (op_ptr op) "replace_sel" = true ->
   forall p, SELECT <> 0 -> library_keeps_selected p ->
     (forall w', is_Some (strips w' !! p) ->
        let generic := seq_load_apply_generic_options op (Some p) in
        (exists rest, calls generic w' = Ev_select_active_set p :: rest) /\
        selected p (world_after generic w') /\
        forall col,
          let only_test :=
            seq_load_apply_generic_options_only_test_overlap
              op (Some p) col in
          (exists rest,
             calls only_test w' = Ev_select_active_set p :: rest) /\
          selected p (world_after only_test w')) /\
     (fst added = Some p -> is_Some (strips (snd added) !! p) ->
        (exists post,
           calls run w =
           [Ev_editing_ensure; Ev_deselect_all] ++ calls init w1 ++
           Ev_add_scene_strip load_data (Some p) :: Ev_select_active_set p ::
           post) /\
        selected p (world_after run w))) /\
  (RNA_boolean_get (op_ptr op) "replace_sel" = false ->
   (Ev_deselect_all ∉ calls run w) /\
   (forall q, Ev_select_active_set q ∉ calls run w) /\
   (forall q w', select_new_strip op q w' = (tt, w', []))).
Proof.
  intros Hfound run w1 init load_data added.
  pose proof (scene_strip_exec_run op w) as Hrun. rewrite Hfound in Hrun.
  split.
  - intros Hrs p Hsel Hlib. split.
    { intros w' Hlive generic.
      destruct (post_processing_selects op p w' Hrs Hlive Hsel Hlib)
        as (Hcalls & Hselected & Honly).
      split; [exact Hcalls|]. split; [exact Hselected|].
      intros col only_test. destruct (Honly col) as (Hc & Hs & _).
      split; [|exact Hs]. fold only_test in Hc. rewrite Hc. by eexists. }
    intros Hp Hlive.
    unfold run. unfold calls at 1. unfold world_after at 1. rewrite Hrun.
    cbn [fst snd]. unfold scene_strip_found. rewrite Hrs.
    run_simpl. fold w1 init load_data added. rewrite Hp.
    unfold seq_load_apply_generic_options. run_simpl.
    rewrite (select_new_strip_calls op p) by done.
    rewrite (select_new_strip_world op p) by done.
    destruct Hlib as (Hact & Hh & Hsh & Hid & Hrel & Hnot). split.
    + eexists. simpl. reflexivity.
    + apply Hnot, Hrel, Hid.
      apply resolve_overlap_keeps_selected; [done|].
      by apply Hact, flag_write_selected.
  - intros Hrs. unfold run, calls. rewrite Hrun. cbn [snd].
    assert (Hav : forall bad,
              bad Ev_editing_ensure = false ->
              (forall m, bad (Ev_fit_method_set m) = false) ->
              (forall ld r, bad (Ev_add_scene_strip ld r) = false) ->
              (forall q r, bad (Ev_test_overlap q r) = false) ->
              (forall col b, bad (Ev_handle_overlap col b) = false) ->
              (forall q, bad (Ev_seqbase_shuffle q) = false) ->
              bad Ev_deg_id_tag_update = false ->
              bad Ev_deg_relations_tag_update = false ->
              bad Ev_event_add_notifier = false ->
              forall e, bad e = true ->
              e ∉ Ev_editing_ensure ::
                    calls (scene_strip_found op sce) (SEQ_editing_ensure w)).
    { intros bad He Hf Ha Ht Hh Hs Hi Hr Hn e Hbad Hin.
      apply elem_of_cons in Hin as [->|Hin]; [congruence|].
      revert Hin. apply (avoids_not_in bad); [|done].
      unfold scene_strip_found. rewrite Hrs.
      apply avoids_bind; [apply avoids_ret|]. intros _.
      apply avoids_bind; [by apply load_data_init_from_operator_avoids|].
      intros ld. apply avoids_bind; [by apply avoids_call_ret|].
      intros seq. apply avoids_bind.
      { unfold seq_load_apply_generic_options.
        destruct seq as [q|]; [|apply avoids_ret].
        apply avoids_bind; [|intros _; by apply resolve_overlap_avoids].
        unfold select_new_strip. rewrite Hrs. apply avoids_ret. }
      intros _. apply avoids_bind; [by apply avoids_call|].
      intros _. apply avoids_bind; [by apply avoids_call|].
      intros _. apply avoids_bind; [by apply avoids_call|].
      intros _. apply avoids_ret. }
    split; [by apply (Hav is_deselect_all)|]. split.
    + intros q. by apply (Hav is_select_active_set).
    + intros q w'. by rewrite select_new_strip_run, Hrs.
Qed.


(** The sample library does not deselect strips after they are added. *)
Lemma sample_library_keeps_selected (p : ptr) :
  library_keeps_selected (consts := Samples.sample_constants)
    (seqlib := Samples.sample_lib) p.
Proof.
  unfold library_keeps_selected, keeps_selected, selected. simpl.
  split_and!; try done.
  - intros col _ w (s & Hs & Hflag). rewrite map_lookup_imap, Hs. simpl.
    eexists. split; [done|]. by case_bool_decide.
  - intros w (s & Hs & Hflag). rewrite lookup_alter_eq, Hs. simpl.
    by eexists.
Qed.


(** *** The proxy job *)

(** An element that occurs once splits a list in one way only. *)
Lemma split_at_unique {A} (x : A) (l1 l2 pre post : list A) :
  x ∉ l1 -> x ∉ l2 -> l1 ++ x :: l2 = pre ++ x :: post ->
  pre = l1 /\ post = l2.
Proof.
  revert pre. induction l1 as [|a l1 IH]; intros pre Hl1 Hl2 Heq.
  - destruct pre as [|b pre]; simpl in Heq.
    + by injection Heq as <-.
    + injection Heq as <- Heq. exfalso. apply Hl2. rewrite Heq.
      apply elem_of_app. right. by left.
  - destruct pre as [|b pre]; simpl in Heq.
    + injection Heq as -> _. exfalso. apply Hl1. by left.
    + injection Heq as <- Heq.
      destruct (IH pre) as [-> ->]; [|done|done|done].
      intros Hin. apply Hl1. by right.
Qed.

Section ProxyFacts.
Context {consts : Constants} {P PropertyRNA : Type}
        {rna : RnaApi P PropertyRNA} {paths : PathApi}
        {L : Type} {seqlib : SeqLib L}.

Lemma enqueue_proxies_avoids bad l :
  (forall p, bad (Ev_proxy_set p) = false) ->
  (forall p, bad (Ev_proxy_rebuild_context p) = false) ->
  avoids bad (enqueue_proxies l).
Proof.
  intros Hs Hr. apply avoids_foreach. intros seq.
  apply avoids_bind; [by apply avoids_call|]. intros _.
  apply avoids_bind; [apply avoids_read|]. intros fl.
  apply avoids_bind; [apply avoids_write|]. intros _.
  apply avoids_bind; [apply avoids_write|]. intros _.
  by apply avoids_call.
Qed.

(** The calls of [seq_build_proxy], in order. *)
Lemma seq_build_proxy_calls (movie_strips : gset ptr) (w : World L) :
  calls (seq_build_proxy movie_strips) w =
  if negb (U_sequencer_proxy_setup w =? USER_SEQ_PROXY_SETUP_AUTOMATIC)
  then []
  else
    let w1 := ED_seq_proxy_job_get (ED_seq_proxy_wm_job_get w) in
    let w2 := world_after (enqueue_proxies (elements movie_strips)) w1 in
    [Ev_proxy_wm_job_get; Ev_proxy_job_get] ++
    calls (enqueue_proxies (elements movie_strips)) w1 ++
    Ev_jobs_is_running (WM_jobs_is_running w2) ::
    (if WM_jobs_is_running w2 then [] else [Ev_jobs_start]) ++
    [Ev_area_tag_redraw].
Proof.
  unfold seq_build_proxy. run_simpl.
  destruct (negb (U_sequencer_proxy_setup w =? _)); [done|].
  run_simpl. fold (enqueue_proxies (elements movie_strips)). cbv zeta.
  set (w2 := world_after (enqueue_proxies (elements movie_strips)) _).
  destruct (WM_jobs_is_running w2); simpl; run_simpl; by rewrite ?app_nil_r.
Qed.

Lemma seq_build_proxy_manual (movie_strips : gset ptr) (w : World L) :
  U_sequencer_proxy_setup w <> USER_SEQ_PROXY_SETUP_AUTOMATIC ->
  seq_build_proxy movie_strips w = (tt, w, []).
Proof.
  intros Hne. unfold seq_build_proxy. rewrite run_read_bind.
  by destruct (Z.eqb_spec (U_sequencer_proxy_setup w)
                 USER_SEQ_PROXY_SETUP_AUTOMATIC).
Qed.

End ProxyFacts.

(** C6: [seq_build_proxy] starts the proxy job only when it is not
    running: a call of [WM_jobs_start] comes directly after a call of
    [WM_jobs_is_running] that returned false, and there is at most one.
    When the user preference [sequencer_proxy_setup] is not [AUTOMATIC]
    the function calls nothing (no strip is enqueued, no job is started)
    and changes nothing. *)
Theorem seq_build_proxy_starts_idle_job_only
    {consts : Constants} {P PropertyRNA : Type} {rna : RnaApi P PropertyRNA}
    {paths : PathApi} {L : Type} {seqlib : SeqLib L}
    (movie_strips : gset ptr) (w : World L) :
  let run := seq_build_proxy movie_strips in
  (forall pre post, calls run w = pre ++ Ev_jobs_start :: post ->
     (exists pre', pre = pre' ++ [Ev_jobs_is_running false]) /\
     (Ev_jobs_start ∉ pre) /\ (Ev_jobs_start ∉ post)) /\
  (U_sequencer_proxy_setup w <> USER_SEQ_PROXY_SETUP_AUTOMATIC ->
     calls run w = [] /\ world_after run w = w).
Proof.
  intros run. split.
  - intros pre post. unfold run. rewrite seq_build_proxy_calls.
    destruct (negb _).
    { intros Heq. by destruct pre. }
    cbv zeta.
    set (w1 := ED_seq_proxy_job_get _).
    set (enq := calls (enqueue_proxies (elements movie_strips)) w1).
    set (w2 := world_after _ w1).
    assert (Henq : Ev_jobs_start ∉ enq).
    { apply (avoids_not_in is_jobs_start); [|done].
      by apply enqueue_proxies_avoids. }
    destruct (WM_jobs_is_running w2); simpl; intros Heq.
    + (* the job is running: [WM_jobs_start] is not called *)
      exfalso.
      assert (Hin : Ev_jobs_start ∈ pre ++ Ev_jobs_start :: post).
      { apply elem_of_app. right. by left. }
      rewrite <- Heq in Hin.
      rewrite !elem_of_cons, elem_of_app, !elem_of_cons, elem_of_nil in Hin.
      intuition discriminate.
    + (* the job is idle: the one call follows the test *)
      replace (Ev_proxy_wm_job_get :: Ev_proxy_job_get :: enq ++
               Ev_jobs_is_running false :: Ev_jobs_start ::
               [Ev_area_tag_redraw])
        with (([Ev_proxy_wm_job_get; Ev_proxy_job_get] ++ enq ++
               [Ev_jobs_is_running false]) ++
              Ev_jobs_start :: [Ev_area_tag_redraw]) in Heq
        by (by rewrite <- !app_assoc).
      assert (Hpre : Ev_jobs_start ∉ [Ev_proxy_wm_job_get; Ev_proxy_job_get]
                                      ++ enq ++ [Ev_jobs_is_running false]).
      { rewrite !elem_of_app, !elem_of_cons, !elem_of_nil.
        intuition discriminate. }
      assert (Hpost : Ev_jobs_start ∉ [Ev_area_tag_redraw]).
      { rewrite elem_of_cons, elem_of_nil. intuition discriminate. }
      apply split_at_unique in Heq as [-> ->]; [|done|done].
      split; [|done].
      exists ([Ev_proxy_wm_job_get; Ev_proxy_job_get] ++ enq).
      by rewrite <- !app_assoc.
  - intros Hne. unfold run, calls, world_after.
    by rewrite seq_build_proxy_manual.
Qed.

(** *** A movie strip and its sound strip *)

(** The sound block of the two movie import functions, run: the handle
    setters are called on the sound strip with the movie strip's right,
    then left handle frame, then [machine] of the movie strip goes up by 1;
    when the sound strip fails to load nothing more is called or
    written. *)
Lemma movie_add_sound_run
    {P PropertyRNA : Type} {rna : RnaApi P PropertyRNA}
    {L : Type} {seqlib : SeqLib L}
    (op : wmOperator P) (load_data : SeqLoadData) (seq_movie : ptr)
    (w : World L) :
  RNA_boolean_get (op_ptr op) "sound" = true ->
  let run := movie_add_sound op load_data seq_movie in
  let added := SEQ_add_sound_strip load_data w in
  match added.1 with
  | Some seq_sound =>
    let right := SEQ_time_right_handle_frame_get seq_movie added.2 in
    let w2 := SEQ_time_right_handle_frame_set seq_sound right added.2 in
    let left := SEQ_time_left_handle_frame_get seq_movie w2 in
    let w3 := SEQ_time_left_handle_frame_set seq_sound left w2 in
    result run w = Some seq_sound /\
    calls run w =
      [Ev_add_sound_strip load_data (Some seq_sound);
       Ev_right_handle_frame_set seq_sound right;
       Ev_left_handle_frame_set seq_sound left] /\
    world_after run w =
      with_strips (alter (set_machine (fun m => int_add m 1)) seq_movie) w3
  | None =>
    result run w = None /\
    calls run w = [Ev_add_sound_strip load_data None] /\
    world_after run w = added.2
  end.
Proof.
  intros Hsound run added. unfold run, movie_add_sound.
  rewrite Hsound. run_simpl. fold added.
  destruct added.1 as [seq_sound|]; simpl; by run_simpl.
Qed.

Section MovieFacts.
Context {consts : Constants} {P PropertyRNA : Type}
        {rna : RnaApi P PropertyRNA} {paths : PathApi}
        {L : Type} {seqlib : SeqLib L}.

Lemma avoids_movie_obs {A} (m : M L A) w :
  avoids is_movie_obs m -> omap movie_obs (calls m w) = [].
Proof.
  intros Hm. specialize (Hm w). induction Hm as [|e l He _ IH]; [done|].
  destruct e; try discriminate He; exact IH.
Qed.

Lemma clamp_sound_avoids bad (seq_movie seq_sound : option ptr) :
  (forall p z, bad (Ev_right_handle_frame_set p z) = false) ->
  (forall p z, bad (Ev_left_handle_frame_set p z) = false) ->
  avoids bad
    (sequencer_add_movie_clamp_sound_strip_length (L := L)
       seq_movie seq_sound).
Proof.
  intros Hr Hl. unfold sequencer_add_movie_clamp_sound_strip_length.
  destruct seq_movie as [m|], seq_sound as [s|]; try apply avoids_ret.
  apply avoids_bind; [apply avoids_read|]. intros r.
  apply avoids_bind; [by apply avoids_call|]. intros _.
  apply avoids_bind; [apply avoids_read|]. intros l. by apply avoids_call.
Qed.

Lemma movie_add_sound_avoids bad op ld seq_movie :
  (forall d r, bad (Ev_add_sound_strip d r) = false) ->
  (forall p z, bad (Ev_right_handle_frame_set p z) = false) ->
  (forall p z, bad (Ev_left_handle_frame_set p z) = false) ->
  avoids bad (movie_add_sound (L := L) op ld seq_movie).
Proof.
  intros Ha Hr Hl. unfold movie_add_sound. case_match; [|apply avoids_ret].
  apply avoids_bind; [by apply avoids_call_ret|]. intros s.
  apply avoids_bind; [by apply clamp_sound_avoids|]. intros _.
  destruct s; [|apply avoids_ret].
  apply avoids_bind; [apply avoids_write|]. intros _. apply avoids_ret.
Qed.

Lemma only_test_overlap_avoids bad op seq col :
  (forall p, bad (Ev_select_active_set p) = false) ->
  (forall p r, bad (Ev_test_overlap p r) = false) ->
  avoids bad
    (seq_load_apply_generic_options_only_test_overlap (L := L) op seq col).
Proof.
  intros Hs Ht. unfold seq_load_apply_generic_options_only_test_overlap.
  destruct seq as [p|]; [|apply avoids_ret].
  apply avoids_bind; [by apply select_new_strip_avoids|]. intros _.
  apply avoids_bind; [by apply avoids_ask|]. intros o. apply avoids_ret.
Qed.

Lemma movie_loaded_avoids op oso st ld seq_movie :
  avoids is_movie_obs (movie_loaded op oso st ld seq_movie).
Proof.
  unfold movie_loaded.
  apply avoids_bind; [by apply movie_add_sound_avoids|]. intros s.
  apply avoids_bind; [apply avoids_read|]. intros r.
  apply avoids_bind; [apply avoids_read|]. intros l.
  apply avoids_bind; [|intros [o col]; apply avoids_ret].
  destruct oso.
  - apply avoids_bind; [by apply only_test_overlap_avoids|]. intros [o1 c1].
    apply avoids_bind; [by apply only_test_overlap_avoids|]. intros [o2 c2].
    apply avoids_ret.
  - apply avoids_bind; [by apply seq_load_apply_generic_options_avoids|].
    intros _.
    apply avoids_bind; [by apply seq_load_apply_generic_options_avoids|].
    intros _. apply avoids_ret.
Qed.

Lemma movie_loaded_strips op oso st ld seq_movie (w : World L) :
  ml_movie_strips (result (movie_loaded op oso st ld seq_movie) w) =
  {[ seq_movie ]} ∪ ml_movie_strips st.
Proof.
  unfold movie_loaded. rewrite !result_bind.
  match goal with
  | |- context [let '(_, _) := ?x in _] => by destruct x as [o col]
  end.
Qed.

(** One iteration: the load is attempted with the path of the file; a
    failure is reported, a success adds the strip to [r_movie_strips]. *)
Lemma movie_multiple_body_run op oso (itemptr : P) st (w : World L) :
  let path_i :=
    BLI_path_join (RNA_string_get (op_ptr op) "directory")
      (RNA_string_get itemptr "name") in
  let ld :=
    with_name (STRNCPY sizeof_name (RNA_string_get itemptr "name"))
      (with_path path_i (ml_load_data st)) in
  let r := fst (SEQ_add_movie_strip ld w) in
  omap movie_obs (calls (movie_multiple_body op oso itemptr st) w)
    = file_obs path_i r /\
  ml_movie_strips (result (movie_multiple_body op oso itemptr st) w)
    = match r with
      | Some p => {[ p ]} ∪ ml_movie_strips st
      | None => ml_movie_strips st
      end.
Proof.
  intros path_i ld r. unfold movie_multiple_body. cbv zeta.
  fold path_i. fold ld. rewrite calls_bind, result_bind.
  rewrite calls_call_ret, result_call_ret, world_after_call_ret. fold r.
  destruct r as [p|].
  - fold (movie_loaded op oso st ld p). rewrite movie_loaded_strips.
    split; [|done]. simpl.
    rewrite avoids_movie_obs by apply movie_loaded_avoids. done.
  - run_simpl. done.
Qed.

(** The loop over the files. *)
Lemma movie_multiple_loop_run op oso (files : list P) :
  forall st (w : World L),
  let names := (fun itemptr => RNA_string_get itemptr "name") <$> files in
  let dir := RNA_string_get (op_ptr op) "directory" in
  let run := loop files (movie_multiple_body op oso) st in
  exists rs : list (option ptr),
    length rs = length files /\
    omap movie_obs (calls run w) = files_obs (BLI_path_join dir <$> names) rs /\
    forall p, p ∈ ml_movie_strips (result run w) <->
              p ∈ ml_movie_strips st \/ Some p ∈ rs.
Proof.
  induction files as [|itemptr files IH]; intros st w names dir run.
  - exists []. split; [done|]. split; [done|]. intros p. unfold run. simpl.
    rewrite result_ret, elem_of_nil. tauto.
  - unfold run. simpl. rewrite calls_bind, result_bind, omap_app.
    destruct (movie_multiple_body_run op oso itemptr st w) as [Hobs Hstrips].
    cbv zeta in Hobs, Hstrips.
    set (st' := result (movie_multiple_body op oso itemptr st) w) in *.
    set (w' := world_after (movie_multiple_body op oso itemptr st) w).
    destruct (IH st' w') as (rs & Hlen & Hrest & Hin).
    set (r := fst (SEQ_add_movie_strip _ w)) in *.
    exists (r :: rs). split; [simpl; by rewrite Hlen|]. split.
    + rewrite Hobs, Hrest. done.
    + intros p. rewrite Hin, Hstrips, elem_of_cons.
      destruct r as [q|].
      * rewrite elem_of_union, elem_of_singleton.
        split; [intros [[->|?]|?]; auto|intros [?|[[= ->]|?]]; auto].
      * split; [intros [?|?]; auto|intros [?|[[=]|?]]; auto].
Qed.

(** [sequencer_add_movie_multiple_strips] observed. *)
Lemma movie_multiple_strips_run op load_data (w : World L) :
  let files := RNA_collection_items (op_ptr op) "files" in
  let paths_tried :=
    (fun itemptr =>
       BLI_path_join (RNA_string_get (op_ptr op) "directory")
         (RNA_string_get itemptr "name")) <$> files in
  let run := sequencer_add_movie_multiple_strips op load_data ∅ in
  exists rs : list (option ptr),
    length rs = length files /\
    omap movie_obs (calls run w) = files_obs paths_tried rs /\
    forall p, p ∈ (result run w).2 <-> Some p ∈ rs.
Proof.
  intros files paths_tried run.
  unfold run, sequencer_add_movie_multiple_strips. cbv zeta.
  set (oso := negb _ && _).
  destruct (movie_multiple_loop_run op oso files
              (mkMovieLoop load_data false ∅ ∅) (SEQ_editing_ensure w))
    as (rs & Hlen & Hobs & Hin).
  cbv zeta in Hobs, Hin. rewrite <- list_fmap_compose in Hobs.
  exists rs. split; [done|].
  rewrite calls_bind, calls_call, world_after_call, result_bind.
  rewrite calls_bind, result_bind, world_after_call.
  fold files.
  set (lp := loop files (movie_multiple_body op oso) _) in *.
  rewrite calls_bind, result_bind, result_ret. simpl. split.
  - rewrite !omap_app, Hobs, calls_ret.
    rewrite (avoids_movie_obs (if oso then _ else _)); [by rewrite !app_nil_r|].
    destruct oso; [|apply avoids_ret]. case_match; [|apply avoids_ret].
    apply avoids_bind; [apply avoids_read|]. intros b. by apply avoids_call.
  - intros p. rewrite Hin. simpl. rewrite elem_of_empty. tauto.
Qed.

(** [sequencer_add_movie_single_strip] observed. *)
Lemma movie_single_strip_run op load_data (w : World L) :
  let r := fst (SEQ_add_movie_strip load_data (SEQ_editing_ensure w)) in
  let run := sequencer_add_movie_single_strip op load_data ∅ in
  omap movie_obs (calls run w) = file_obs (path load_data) r /\
  forall p, p ∈ (result run w).2 <-> r = Some p.
Proof.
  intros r run. unfold run, sequencer_add_movie_single_strip.
  rewrite calls_bind, calls_call, world_after_call, result_bind.
  rewrite calls_bind, result_bind, world_after_call.
  rewrite calls_call_ret, result_call_ret, world_after_call_ret. fold r.
  destruct r as [q|].
  - split.
    + simpl. rewrite avoids_movie_obs; [done|].
      apply avoids_bind; [by apply movie_add_sound_avoids|]. intros s.
      apply avoids_bind; [|intros _; apply avoids_ret].
      case_match.
      * apply avoids_bind; [by apply only_test_overlap_avoids|].
        intros [o1 c1].
        apply avoids_bind;
          [by apply (only_test_overlap_avoids _ op (Some q) c1)|].
        intros [o2 c2]. case_match; [|apply avoids_ret].
        apply avoids_bind; [apply avoids_read|]. intros b.
        by apply avoids_call.
      * apply avoids_bind; [by apply seq_load_apply_generic_options_avoids|].
        intros _.
        by apply (seq_load_apply_generic_options_avoids _ op (Some q)).
    + intros p. rewrite !result_bind, result_ret. simpl.
      rewrite elem_of_union, elem_of_singleton, elem_of_empty.
      split; [intros [->|[]]; done|intros [= ->]; by left].
  - run_simpl. simpl. split; [done|]. intros p. by rewrite elem_of_empty.
Qed.

Lemma seq_build_proxy_avoids bad (movie_strips : gset ptr) :
  bad Ev_proxy_wm_job_get = false -> bad Ev_proxy_job_get = false ->
  (forall p, bad (Ev_proxy_set p) = false) ->
  (forall p, bad (Ev_proxy_rebuild_context p) = false) ->
  (forall r, bad (Ev_jobs_is_running r) = false) ->
  bad Ev_jobs_start = false -> bad Ev_area_tag_redraw = false ->
  avoids bad (seq_build_proxy (L := L) movie_strips).
Proof.
  intros Hw Hj Hs Hr Hi Hst Ha. unfold seq_build_proxy.
  apply avoids_bind; [apply avoids_read|]. intros setup.
  case_match; [apply avoids_ret|].
  apply avoids_bind; [by apply avoids_call|]. intros _.
  apply avoids_bind; [by apply avoids_call|]. intros _.
  apply avoids_bind; [by apply enqueue_proxies_avoids|]. intros _.
  apply avoids_bind; [by apply avoids_ask|]. intros running.
  apply avoids_bind; [|intros _; by apply avoids_call].
  case_match; [|apply avoids_ret].
  apply avoids_bind; [apply avoids_write|]. intros _. by apply avoids_call.
Qed.

Lemma movie_strip_exec_steps (op : wmOperator P) :
  sequencer_add_movie_strip_exec (L := L) op =
  (load_data ← load_data_init_from_operator op;
   (if RNA_boolean_get (op_ptr op) "replace_sel"
    then call ED_sequencer_deselect_all Ev_deselect_all
    else mret tt) ;;
   movie_strips ← movie_import op load_data;
   movie_import_done movie_strips).
Proof. reflexivity. Qed.

Lemma movie_import_done_run (movie_strips : gset ptr) (w : World L) :
  result (movie_import_done movie_strips) w =
    (if (size movie_strips =? 0)%nat then OPERATOR_CANCELLED
     else OPERATOR_FINISHED) /\
  omap movie_obs (calls (movie_import_done movie_strips) w) = [].
Proof.
  unfold movie_import_done. destruct (size movie_strips =? 0)%nat.
  - by rewrite result_ret, calls_ret.
  - split; [by rewrite !result_bind|].
    apply avoids_movie_obs.
    apply avoids_bind; [by apply seq_build_proxy_avoids|]. intros _.
    apply avoids_bind; [by apply avoids_call|]. intros _.
    apply avoids_bind; [by apply avoids_call|]. intros _.
    apply avoids_bind; [by apply avoids_call|]. intros _. apply avoids_ret.
Qed.

(** The operator returns by the number of movie strips added, and nothing
    but the import loads movie files or reports. *)
Lemma movie_strip_exec_run op (w : World L) :
  let load_data := result (load_data_init_from_operator op) w in
  let import := movie_import op load_data in
  let w1 := movie_import_world op w in
  result (sequencer_add_movie_strip_exec op) w =
    (if (size (result import w1) =? 0)%nat then OPERATOR_CANCELLED
     else OPERATOR_FINISHED) /\
  omap movie_obs (calls (sequencer_add_movie_strip_exec op) w) =
    omap movie_obs (calls import w1).
Proof.
  intros load_data import w1. rewrite movie_strip_exec_steps.
  rewrite ?calls_bind, ?result_bind, ?world_after_bind. fold load_data.
  assert (Hw1 : world_after
                  (if RNA_boolean_get (op_ptr op) "replace_sel"
                   then call ED_sequencer_deselect_all Ev_deselect_all
                   else mret ())
                  (world_after (load_data_init_from_operator op) w) = w1).
  { unfold w1, movie_import_world.
    by destruct (RNA_boolean_get (op_ptr op) "replace_sel"). }
  rewrite Hw1. fold import.
  destruct (movie_import_done_run (result import w1)
              (world_after import w1)) as [Hres Hquiet].
  split; [exact Hres|]. rewrite !omap_app, Hquiet.
  rewrite (avoids_movie_obs (load_data_init_from_operator op))
    by (by apply load_data_init_from_operator_avoids).
  rewrite (avoids_movie_obs
             (if RNA_boolean_get (op_ptr op) "replace_sel"
              then call ED_sequencer_deselect_all Ev_deselect_all
              else mret ())).
  2: { destruct (RNA_boolean_get (op_ptr op) "replace_sel");
         [by apply avoids_call|apply avoids_ret]. }
  by rewrite app_nil_r.
Qed.

(** With [replace_sel], the movie operator too deselects before it
    inserts: [ED_sequencer_deselect_all] is called right after the load
    descriptor is built, which loads nothing. *)
Lemma movie_strip_exec_deselects_first op (w : World L) :
  RNA_boolean_get (op_ptr op) "replace_sel" = true ->
  let init := load_data_init_from_operator op in
  (exists rest,
     calls (sequencer_add_movie_strip_exec op) w =
     calls init w ++ Ev_deselect_all :: rest) /\
  Forall (fun e => is_movie_obs e = false) (calls init w).
Proof.
  intros Hrs init. split.
  - rewrite movie_strip_exec_steps, Hrs. rewrite calls_bind. fold init.
    rewrite calls_bind, calls_call. simpl. by eexists.
  - by apply load_data_init_from_operator_avoids.
Qed.

(** The multi-file import of sound strips goes the same way: every file
    is attempted, a failure is reported, and the loop goes on. *)
Lemma avoids_sound_obs {A} (m : M L A) w :
  avoids is_sound_obs m -> omap sound_obs (calls m w) = [].
Proof.
  intros Hm. specialize (Hm w). induction Hm as [|e l He _ IH]; [done|].
  destruct e; try discriminate He; exact IH.
Qed.

Lemma sound_multiple_body_run op (itemptr : P) load_data (w : World L) :
  let path_i :=
    BLI_path_join (RNA_string_get (op_ptr op) "directory")
      (RNA_string_get itemptr "name") in
  let ld :=
    with_name (STRNCPY sizeof_name (RNA_string_get itemptr "name"))
      (with_path path_i load_data) in
  omap sound_obs (calls (sound_multiple_body op itemptr load_data) w)
    = file_obs path_i (fst (SEQ_add_sound_strip ld w)).
Proof.
  intros path_i ld. unfold sound_multiple_body. cbv zeta.
  fold path_i. fold ld. rewrite calls_bind.
  rewrite calls_call_ret, result_call_ret, world_after_call_ret.
  destruct (SEQ_add_sound_strip ld w).1 as [q|]; simpl.
  - rewrite avoids_sound_obs; [done|].
    apply avoids_bind.
    { by apply (seq_load_apply_generic_options_avoids _ op (Some q)). }
    intros _. apply avoids_bind; [apply avoids_read|]. intros r.
    apply avoids_bind; [apply avoids_read|]. intros l. apply avoids_ret.
  - by run_simpl.
Qed.

Lemma sound_multiple_loop_run op (files : list P) :
  forall load_data (w : World L),
  exists rs : list (option ptr),
    length rs = length files /\
    omap sound_obs (calls (loop files (sound_multiple_body op) load_data) w)
      = files_obs
          ((fun itemptr =>
              BLI_path_join (RNA_string_get (op_ptr op) "directory")
                (RNA_string_get itemptr "name")) <$> files) rs.
Proof.
  induction files as [|itemptr files IH]; intros load_data w.
  - by exists [].
  - cbn [loop]. rewrite calls_bind, omap_app.
    pose proof (sound_multiple_body_run op itemptr load_data w) as Hbody.
    cbv zeta in Hbody. rewrite Hbody.
    destruct (IH (result (sound_multiple_body op itemptr load_data) w)
                (world_after (sound_multiple_body op itemptr load_data) w))
      as (rs & Hlen & Hobs).
    eexists (_ :: rs). split; [simpl; by rewrite Hlen|].
    rewrite Hobs. reflexivity.
Qed.

Lemma sound_multiple_strips_run op load_data (w : World L) :
  let files := RNA_collection_items (op_ptr op) "files" in
  let paths_tried :=
    (fun itemptr =>
       BLI_path_join (RNA_string_get (op_ptr op) "directory")
         (RNA_string_get itemptr "name")) <$> files in
  exists rs : list (option ptr),
    length rs = length files /\
    omap sound_obs (calls (sequencer_add_sound_multiple_strips op load_data) w)
      = files_obs paths_tried rs.
Proof.
  intros files paths_tried. unfold sequencer_add_sound_multiple_strips.
  rewrite calls_bind, calls_call, world_after_call. fold files.
  destruct (sound_multiple_loop_run op files load_data (SEQ_editing_ensure w))
    as (rs & Hlen & Hobs).
  exists rs. split; [done|]. rewrite omap_app, Hobs. reflexivity.
Qed.

(** An iteration of the loop of [sequencer_add_movie_multiple_strips]
    that loads its movie, followed by [next]. *)
Lemma movie_multiple_body_loaded op oso (itemptr : P) st (w : World L)
    (seq_movie : ptr) {B} (next : MovieLoop -> M L B) :
  let ld :=
    with_name (STRNCPY sizeof_name (RNA_string_get itemptr "name"))
      (with_path
         (BLI_path_join (RNA_string_get (op_ptr op) "directory")
            (RNA_string_get itemptr "name"))
         (ml_load_data st)) in
  (SEQ_add_movie_strip ld w).1 = Some seq_movie ->
  (movie_multiple_body op oso itemptr st ≫= next) w =
  (call_ret (SEQ_add_movie_strip ld) (Ev_add_movie_strip ld) ;;
   seq_sound ← movie_add_sound op ld seq_movie;
   right ← read (SEQ_time_right_handle_frame_get seq_movie);
   left ← read (SEQ_time_left_handle_frame_get seq_movie);
   let ld' :=
     with_start_frame (int_add (start_frame ld) (int_sub right left)) ld in
   '(has_seq_overlap, strip_col) ←
     (if oso then
        '(o1, col) ← seq_load_apply_generic_options_only_test_overlap
                       op seq_sound (ml_strip_col st);
        '(o2, col) ← seq_load_apply_generic_options_only_test_overlap
                       op (Some seq_movie) col;
        mret (ml_has_seq_overlap st || o1 || o2, col)
      else
        seq_load_apply_generic_options op seq_sound ;;
        seq_load_apply_generic_options op (Some seq_movie) ;;
        mret (ml_has_seq_overlap st, ml_strip_col st));
   next (mkMovieLoop ld' has_seq_overlap strip_col
           ({[ seq_movie ]} ∪ ml_movie_strips st))) w.
Proof.
  intros ld Hloaded. unfold movie_multiple_body. cbv zeta. fold ld.
  rewrite run_bind_assoc.
  rewrite (run_bind (call_ret _ _)).
  rewrite (run_bind (call_ret _ _) (fun _ => _)).
  change ((call_ret (SEQ_add_movie_strip ld) (Ev_add_movie_strip ld) w).1.1)
    with (SEQ_add_movie_strip ld w).1.
  rewrite Hloaded.
  set (w1 := (call_ret _ _ w).1.2).
  match goal with
  | |- (?a.1.1, ?a.1.2, _ ++ ?a.2) = (?b.1.1, ?b.1.2, _ ++ ?b.2) =>
    assert (Heq : a = b); [|by rewrite Heq]
  end.
  rewrite run_bind_assoc. apply run_bind_ext. intros seq_sound w2.
  rewrite run_bind_assoc. apply run_bind_ext. intros right w3.
  rewrite run_bind_assoc. apply run_bind_ext. intros left w4.
  rewrite run_bind_assoc. apply run_bind_ext. intros [h c] w5.
  by rewrite run_ret_bind.
Qed.

End MovieFacts.

(** C10: in both movie import functions, once [SEQ_add_movie_strip] has
    created the movie strip [seq_movie] and with the [sound] property true,
    [SEQ_add_sound_strip] is called next.  When it creates the sound strip
    the function sets the sound strip's right handle frame to the movie
    strip's right handle frame, then its left handle frame to the movie
    strip's left handle frame, and then increments the movie strip's
    channel ([machine]) by exactly 1 (in [int]), changing no other strip,
    before it goes on with the post-processing of the two strips.  When the
    sound strip fails to load the function goes on in the world
    [SEQ_add_sound_strip] left: it writes nothing, the movie strip's
    channel included.  This holds of the single file
    ([sequencer_add_movie_single_strip]) and of every file of the loop of
    [sequencer_add_movie_multiple_strips]. *)
Theorem movie_with_sound_moves_up_one_channel
    {consts : Constants} {P PropertyRNA : Type} {rna : RnaApi P PropertyRNA}
    {paths : PathApi} {L : Type} {seqlib : SeqLib L}
    (op : wmOperator P) (load_data : SeqLoadData) (r_movie_strips : gset ptr)
    (w : World L) :
  RNA_boolean_get (op_ptr op) "sound" = true ->
  let overlap_shuffle_override :=
    negb (RNA_boolean_get (op_ptr op) "overlap")
    && RNA_boolean_get (op_ptr op) "overlap_shuffle_override" in
  (* The sound block for the movie strip [seq_movie] loaded with [ld],
     entered in the world [w1]; [next] gives the calls and the last world
     of what the function does after the block, [tr] are the calls from
     the block on and [w_end] is the world the function leaves. *)
  let sound_block (ld : SeqLoadData) (seq_movie : ptr) (w1 : World L)
      (next : option ptr -> World L -> list Event * World L)
      (tr : list Event) (w_end : World L) : Prop :=
    let added := SEQ_add_sound_strip ld w1 in
    match added.1 with
    | Some seq_sound =>
      let right := SEQ_time_right_handle_frame_get seq_movie added.2 in
      let w2 := SEQ_time_right_handle_frame_set seq_sound right added.2 in
      let left := SEQ_time_left_handle_frame_get seq_movie w2 in
      let w3 := SEQ_time_left_handle_frame_set seq_sound left w2 in
      let w4 :=
        with_strips (alter (set_machine (fun m => int_add m 1)) seq_movie)
          w3 in
      tr = [Ev_add_sound_strip ld (Some seq_sound);
            Ev_right_handle_frame_set seq_sound right;
            Ev_left_handle_frame_set seq_sound left]
           ++ (next (Some seq_sound) w4).1 /\
      w_end = (next (Some seq_sound) w4).2 /\
      (forall movie, strips w3 !! seq_movie = Some movie ->
         exists movie',
           strips w4 !! seq_movie = Some movie' /\
           machine movie' = int_add (machine movie) 1 /\
           (INT_MIN <= machine movie < INT_MAX ->
              machine movie' = machine movie + 1)) /\
      (forall q, q <> seq_movie -> strips w4 !! q = strips w3 !! q)
    | None =>
      tr = Ev_add_sound_strip ld None :: (next None added.2).1 /\
      w_end = (next None added.2).2
    end in
  (forall seq_movie,
     let run := sequencer_add_movie_single_strip op load_data r_movie_strips in
     let loaded := SEQ_add_movie_strip load_data (SEQ_editing_ensure w) in
     loaded.1 = Some seq_movie ->
     let finish (seq_sound : option ptr) : M L unit :=
       if overlap_shuffle_override then
         '(o1, col) ← seq_load_apply_generic_options_only_test_overlap
                        op seq_sound ∅;
         '(o2, col) ← seq_load_apply_generic_options_only_test_overlap
                        op (Some seq_movie) col;
         if o1 || o2 then
           use_sync_markers ← read use_sync_markers_of;
           call (SEQ_transform_handle_overlap col use_sync_markers)
                (Ev_handle_overlap col use_sync_markers)
         else mret tt
       else
         seq_load_apply_generic_options op seq_sound ;;
         seq_load_apply_generic_options op (Some seq_movie) in
     exists tr,
       calls run w =
         Ev_editing_ensure :: Ev_add_movie_strip load_data (Some seq_movie)
         :: tr /\
       sound_block load_data seq_movie loaded.2
         (fun seq_sound w' =>
            (calls (finish seq_sound) w', world_after (finish seq_sound) w'))
         tr (world_after run w)) /\
  (forall done itemptr todo seq_movie,
     RNA_collection_items (op_ptr op) "files" = done ++ itemptr :: todo ->
     let run :=
       sequencer_add_movie_multiple_strips op load_data r_movie_strips in
     let body := movie_multiple_body op overlap_shuffle_override in
     let before :=
       loop done body (mkMovieLoop load_data false ∅ r_movie_strips) in
     let w0 := SEQ_editing_ensure w in
     let st := result before w0 in
     let ld :=
       with_name (STRNCPY sizeof_name (RNA_string_get itemptr "name"))
         (with_path
            (BLI_path_join (RNA_string_get (op_ptr op) "directory")
               (RNA_string_get itemptr "name"))
            (ml_load_data st)) in
     let loaded := SEQ_add_movie_strip ld (world_after before w0) in
     loaded.1 = Some seq_movie ->
     let continue (seq_sound : option ptr) : M L (SeqLoadData * gset ptr) :=
       right ← read (SEQ_time_right_handle_frame_get seq_movie);
       left ← read (SEQ_time_left_handle_frame_get seq_movie);
       let ld' :=
         with_start_frame (int_add (start_frame ld) (int_sub right left))
           ld in
       '(has_seq_overlap, strip_col) ←
         (if overlap_shuffle_override then
            '(o1, col) ← seq_load_apply_generic_options_only_test_overlap
                           op seq_sound (ml_strip_col st);
            '(o2, col) ← seq_load_apply_generic_options_only_test_overlap
                           op (Some seq_movie) col;
            mret (ml_has_seq_overlap st || o1 || o2, col)
          else
            seq_load_apply_generic_options op seq_sound ;;
            seq_load_apply_generic_options op (Some seq_movie) ;;
            mret (ml_has_seq_overlap st, ml_strip_col st));
       st' ← loop todo body
               (mkMovieLoop ld' has_seq_overlap strip_col
                  ({[ seq_movie ]} ∪ ml_movie_strips st));
       (if overlap_shuffle_override then
          if ml_has_seq_overlap st' then
            use_sync_markers ← read use_sync_markers_of;
            call (SEQ_transform_handle_overlap (ml_strip_col st')
                    use_sync_markers)
                 (Ev_handle_overlap (ml_strip_col st') use_sync_markers)
          else mret tt
        else mret tt) ;;
       mret (ml_load_data st', ml_movie_strips st') in
     exists tr,
       calls run w =
         Ev_editing_ensure :: calls before w0
         ++ Ev_add_movie_strip ld (Some seq_movie) :: tr /\
       sound_block ld seq_movie loaded.2
         (fun seq_sound w' =>
            (calls (continue seq_sound) w',
             world_after (continue seq_sound) w'))
         tr (world_after run w)).
Proof.
  intros Hsound oso sound_block.
  assert (Hblock : forall ld seq_movie w1 {A} (k : option ptr -> M L A),
            let block := movie_add_sound op ld seq_movie in
            sound_block ld seq_movie w1
              (fun s w' => (calls (k s) w', world_after (k s) w'))
              (calls block w1
               ++ calls (k (result block w1)) (world_after block w1))
              (world_after (k (result block w1)) (world_after block w1))).
  { intros ld seq_movie w1 A k block. unfold sound_block.
    pose proof (movie_add_sound_run op ld seq_movie w1 Hsound) as Hrun.
    cbv zeta in Hrun. fold block in Hrun.
    destruct (SEQ_add_sound_strip ld w1).1 as [seq_sound|].
    - destruct Hrun as (-> & -> & ->). cbn [fst snd].
      split_and!; try done.
      + intros movie Hm. simpl. rewrite lookup_alter_eq, Hm. simpl.
        eexists. split; [done|]. split; [done|]. intros Hr.
        apply int_add_small. unfold is_int, INT_MIN, INT_MAX in *. lia.
      + intros q Hq. simpl. by rewrite lookup_alter_ne.
    - by destruct Hrun as (-> & -> & ->). }
  split.
  - intros seq_movie run loaded Hloaded finish.
    set (block := movie_add_sound op load_data seq_movie).
    exists (calls block loaded.2
            ++ calls (finish (result block loaded.2))
                 (world_after block loaded.2)).
    split.
    + unfold run, sequencer_add_movie_single_strip.
      rewrite calls_bind, calls_call, world_after_call.
      rewrite calls_bind, calls_call_ret, result_call_ret,
        world_after_call_ret.
      fold loaded. rewrite Hloaded. cbn [app]. do 2 f_equal.
      rewrite calls_bind. fold block. f_equal.
      fold oso. fold (finish (result block loaded.2)).
      by rewrite calls_bind, calls_ret, app_nil_r.
    + replace (world_after run w)
        with (world_after (finish (result block loaded.2))
                (world_after block loaded.2)).
      { apply (Hblock load_data seq_movie loaded.2 _ finish). }
      unfold run, sequencer_add_movie_single_strip.
      rewrite world_after_bind, world_after_call.
      rewrite world_after_bind, result_call_ret, world_after_call_ret.
      fold loaded. rewrite Hloaded.
      rewrite world_after_bind. fold block.
      fold oso. fold (finish (result block loaded.2)).
      by rewrite world_after_bind, world_after_ret.
  - intros done itemptr todo seq_movie Hfiles run body before w0 st ld
      loaded Hloaded continue.
    set (block := movie_add_sound op ld seq_movie).
    set (st0 := mkMovieLoop load_data false ∅ r_movie_strips) in *.
    set (final := fun st' : MovieLoop =>
           (if oso then
              if ml_has_seq_overlap st' then
                use_sync_markers ← read use_sync_markers_of;
                call (SEQ_transform_handle_overlap (ml_strip_col st')
                        use_sync_markers)
                     (Ev_handle_overlap (ml_strip_col st') use_sync_markers)
              else mret tt
            else mret tt) ;;
           mret (ml_load_data st', ml_movie_strips st')).
    set (next := fun st' : MovieLoop => st'' ← loop todo body st'; final st'').
    assert (Hfile :
      (loop (RNA_collection_items (op_ptr op) "files") body st0 ≫= final) w0
      = (before ≫= fun st => body itemptr st ≫= next) w0).
    { rewrite Hfiles.
      rewrite (run_bind_ext_l _ _ _ _ (run_loop_app done (itemptr :: todo)
                                         body st0 w0)).
      rewrite run_bind_assoc. apply run_bind_ext. intros s w'.
      simpl loop. by rewrite run_bind_assoc. }
    assert (Hiter : (body itemptr st ≫= next) (world_after before w0)
                    = (call_ret (SEQ_add_movie_strip ld)
                         (Ev_add_movie_strip ld) ;;
                       seq_sound ← block; continue seq_sound)
                        (world_after before w0)).
    { apply (movie_multiple_body_loaded op oso itemptr st
               (world_after before w0) seq_movie next Hloaded). }
    exists (calls block loaded.2
            ++ calls (continue (result block loaded.2))
                 (world_after block loaded.2)).
    split.
    + unfold run, sequencer_add_movie_multiple_strips. fold oso body st0.
      fold final.
      rewrite calls_bind, calls_call, world_after_call. fold w0.
      cbn [app]. f_equal.
      rewrite (calls_ext _ _ _ Hfile), calls_bind. fold st. f_equal.
      rewrite (calls_ext _ _ _ Hiter), calls_bind, calls_call_ret,
        world_after_call_ret.
      fold loaded. rewrite Hloaded. cbn [app]. f_equal.
      by rewrite calls_bind.
    + replace (world_after run w)
        with (world_after (continue (result block loaded.2))
                (world_after block loaded.2)).
      { apply (Hblock ld seq_movie loaded.2 _ continue). }
      unfold run, sequencer_add_movie_multiple_strips. fold oso body st0.
      fold final.
      rewrite world_after_bind, world_after_call. fold w0.
      rewrite (world_after_ext _ _ _ Hfile), world_after_bind. fold st.
      rewrite (world_after_ext _ _ _ Hiter), world_after_bind,
        world_after_call_ret.
      fold loaded. by rewrite world_after_bind.
Qed.

Lemma movie_with_sound_moves_up_one_channel_witness :
  exists tr,
    calls (sequencer_add_movie_single_strip
             (consts := Samples.sample_constants)
             (rna := Samples.sample_rna) (seqlib := Samples.sample_lib)
             (sample_movie_op ["a.mov"]) sample_load_data ∅)
      Samples.sample_world =
    Ev_editing_ensure :: Ev_add_movie_strip sample_load_data (Some 1%nat)
    :: Ev_add_sound_strip sample_load_data (Some 2%nat)
    :: Ev_right_handle_frame_set 2%nat 11
    :: Ev_left_handle_frame_set 2%nat 1 :: tr.
Proof.
  assert (Hsound : RNA_boolean_get (RnaApi := Samples.sample_rna)
                     (op_ptr (sample_movie_op ["a.mov"])) "sound" = true)
    by (by vm_compute).
  destruct (movie_with_sound_moves_up_one_channel
              (consts := Samples.sample_constants)
              (rna := Samples.sample_rna) (paths := Samples.sample_paths)
              (seqlib := Samples.sample_lib)
              (sample_movie_op ["a.mov"]) sample_load_data ∅
              Samples.sample_world Hsound) as [Hsingle _].
  assert (Hloaded :
    (SEQ_add_movie_strip (SeqLib := Samples.sample_lib) sample_load_data
       (SEQ_editing_ensure (SeqLib := Samples.sample_lib)
          Samples.sample_world)).1 = Some 1%nat) by (by vm_compute).
  destruct (Hsingle 1%nat Hloaded) as (tr & Hcalls & Hblock).
  assert (Hadded :
    (SEQ_add_sound_strip (SeqLib := Samples.sample_lib) sample_load_data
       (SEQ_add_movie_strip (SeqLib := Samples.sample_lib) sample_load_data
          (SEQ_editing_ensure (SeqLib := Samples.sample_lib)
             Samples.sample_world)).2).1 = Some 2%nat) by (by vm_compute).
  cbv beta zeta in Hblock. rewrite Hadded in Hblock.
  destruct Hblock as (Htr & _).
  eexists. rewrite Hcalls, Htr. reflexivity.
Defined.

Lemma loaded_app a b : loaded (a ++ b) <-> loaded a \/ loaded b.
Proof.
  unfold loaded. split.
  - intros (path & p & Hin). apply elem_of_app in Hin as [Hin|Hin]; eauto.
  - intros [(path & p & Hin)|(path & p & Hin)]; exists path, p;
      apply elem_of_app; auto.
Qed.

Lemma loaded_file_obs path r :
  loaded (file_obs path r) <-> exists p, r = Some p.
Proof.
  unfold loaded, file_obs. split.
  - intros (path' & p & Hin). apply elem_of_cons in Hin as [[= _ <-]|Hin].
    + by exists p.
    + destruct r; [by apply elem_of_nil in Hin|].
      apply list_elem_of_singleton in Hin. discriminate.
  - intros [p ->]. exists path, p. by left.
Qed.

Lemma loaded_files_obs paths : forall rs,
  length rs = length paths ->
  loaded (files_obs paths rs) <-> exists p, Some p ∈ rs.
Proof.
  induction paths as [|path paths IH]; intros [|r rs] Hlen; try done.
  - unfold loaded. simpl. split.
    + intros (path & p & Hin). by apply elem_of_nil in Hin.
    + intros [p Hin]. by apply elem_of_nil in Hin.
  - change (files_obs (path :: paths) (r :: rs))
      with (file_obs path r ++ files_obs paths rs).
    rewrite loaded_app, loaded_file_obs, IH by (simpl in Hlen; lia).
    split.
    + intros [[p ->]|[p Hin]]; exists p; [by left|by right].
    + intros [p Hin]. apply elem_of_cons in Hin as [<-|Hin]; eauto.
Qed.

Lemma loaded_events (tr : list Event) :
  (exists ld p, Ev_add_movie_strip ld (Some p) ∈ tr) <->
  loaded (omap movie_obs tr).
Proof.
  unfold loaded. split.
  - intros (ld & p & Hin). exists (path ld), p.
    apply list_elem_of_omap. by exists (Ev_add_movie_strip ld (Some p)).
  - intros (path & p & Hin).
    apply list_elem_of_omap in Hin as (e & Hin & He).
    destruct e; try discriminate He. injection He as <- ->. eauto.
Qed.




(** The sample runs: three files of which the second cannot be loaded, and
    a lone file that cannot be loaded. *)
Example movie_import_sample :
  let run :=
    sequencer_add_movie_strip_exec
      (consts := Samples.sample_constants) (rna := Samples.sample_rna)
      (paths := Samples.sample_paths) (seqlib := Samples.sample_lib)
      (sample_movie_op ["a.mov"; "b.mov"; "c.mov"]) in
  omap movie_obs (calls run Samples.sample_world) =
    [Obs_load "/clips/a.mov" (Some 1%nat); Obs_load "/clips/b.mov" None;
     Obs_report RPT_ERROR "File '/clips/b.mov' could not be loaded";
     Obs_load "/clips/c.mov" (Some 3%nat)] /\
  result run Samples.sample_world = OPERATOR_FINISHED.
Proof. by vm_compute. Qed.

Example movie_import_sample_cancelled :
  let run :=
    sequencer_add_movie_strip_exec
      (consts := Samples.sample_constants) (rna := Samples.sample_rna)
      (paths := Samples.sample_paths) (seqlib := Samples.sample_lib)
      (sample_movie_op ["b.mov"]) in
  omap movie_obs (calls run Samples.sample_world) =
    [Obs_load "/clips/b.mov" None;
     Obs_report RPT_ERROR "File '/clips/b.mov' could not be loaded"] /\
  result run Samples.sample_world = OPERATOR_CANCELLED.
Proof. by vm_compute. Qed.

(** The sample scene operator: the new strip overlaps the movie strip on
    channel 1 and is shuffled; without a scene the operator is
    cancelled. *)
Example scene_strip_sample :
  let run :=
    sequencer_add_scene_strip_exec
      (consts := Samples.sample_constants) (rna := Samples.sample_rna)
      (paths := Samples.sample_paths) (seqlib := Samples.sample_lib)
      sample_scene_op in
  List.filter is_overlap_resolution (calls run Samples.sample_world) =
    [Ev_seqbase_shuffle 1%nat] /\
  result run Samples.sample_world = OPERATOR_FINISHED.
Proof. by vm_compute. Qed.

Example scene_strip_sample_not_found :
  let run :=
    sequencer_add_scene_strip_exec
      (consts := Samples.sample_constants) (rna := Samples.sample_rna)
      (paths := Samples.sample_paths) (seqlib := Samples.sample_lib)
      (Samples.sample_op [("scene", Samples.PEnum 3)]) in
  calls run Samples.sample_world =
    [Ev_editing_ensure; Ev_report RPT_ERROR "Scene not found"] /\
  result run Samples.sample_world = OPERATOR_CANCELLED.
Proof. by vm_compute. Qed.

(** The proxy job of the sample world is idle and gets started; with the
    job running it is left alone. *)
Example build_proxy_sample :
  calls (seq_build_proxy (consts := Samples.sample_constants)
           (seqlib := Samples.sample_lib) {[ 0%nat ]})
    Samples.sample_world =
  [Ev_proxy_wm_job_get; Ev_proxy_job_get; Ev_proxy_set 0%nat;
   Ev_proxy_rebuild_context 0%nat; Ev_jobs_is_running false; Ev_jobs_start;
   Ev_area_tag_redraw].
Proof. by vm_compute. Qed.

Example build_proxy_sample_running :
  calls (seq_build_proxy (consts := Samples.sample_constants)
           (seqlib := Samples.sample_lib) {[ 0%nat ]})
    (Samples.with_lib (Samples.lib_set_running true) Samples.sample_world) =
  [Ev_proxy_wm_job_get; Ev_proxy_job_get; Ev_proxy_set 0%nat;
   Ev_proxy_rebuild_context 0%nat; Ev_jobs_is_running true;
   Ev_area_tag_redraw].
Proof. by vm_compute. Qed.

End SequencerAddFacts.

(** ** The further operators of sequencer_add.c *)

Module SequencerAddOperatorsFacts.
Import CInt SequencerAdd SequencerAddSpec SequencerAddOperators.
Import CIntFacts SequencerAddFacts.

(** *** Proxy sizes and the proxy job *)

Section ProxySizeFacts.
Context {consts : Constants} {P PropertyRNA : Type}
        {rna : RnaApi P PropertyRNA} {paths : PathApi}
        {L : Type} {seqlib : SeqLib L}.

(** One step of the inner loop of [seq_get_proxy_size_flags]. *)
Local Abbreviation space_step :=
  (fun proxy_sizes sl =>
     if spacetype sl =? SPACE_SEQ then
       if negb ((sseq_view sl =? SEQ_VIEW_PREVIEW)
                || (sseq_view sl =? SEQ_VIEW_SEQUENCE_PREVIEW))
       then proxy_sizes
       else Z.lor proxy_sizes
              (SEQ_rendersize_to_proxysize (sseq_render_size sl))
     else proxy_sizes).

Lemma shows_preview_test sl :
  shows_preview sl <->
  (spacetype sl =? SPACE_SEQ)
  && ((sseq_view sl =? SEQ_VIEW_PREVIEW)
      || (sseq_view sl =? SEQ_VIEW_SEQUENCE_PREVIEW)) = true.
Proof.
  unfold shows_preview.
  rewrite andb_true_iff, orb_true_iff, !Z.eqb_eq. tauto.
Qed.

Lemma space_step_bits acc sl i :
  Z.testbit (space_step acc sl) i = true <->
  Z.testbit acc i = true \/
  (shows_preview sl /\
   Z.testbit (SEQ_rendersize_to_proxysize (sseq_render_size sl)) i = true).
Proof.
  rewrite shows_preview_test.
  destruct (spacetype sl =? SPACE_SEQ); simpl; [|intuition discriminate].
  destruct ((sseq_view sl =? SEQ_VIEW_PREVIEW)
            || (sseq_view sl =? SEQ_VIEW_SEQUENCE_PREVIEW)); simpl.
  - rewrite Z.lor_spec, orb_true_iff. tauto.
  - intuition discriminate.
Qed.

Lemma spaces_bits (l : list SpaceLink) : forall acc i,
  Z.testbit (fold_left space_step l acc) i = true <->
  Z.testbit acc i = true \/
  exists sl, sl ∈ l /\ shows_preview sl /\
    Z.testbit (SEQ_rendersize_to_proxysize (sseq_render_size sl)) i = true.
Proof.
  induction l as [|sl l IH]; intros acc i; simpl.
  - split; [auto|]. intros [H|(sl & Hin & _)]; [done|].
    by apply elem_of_nil in Hin.
  - rewrite IH, space_step_bits. split.
    + intros [[H|[Hp Hb]]|(sl' & Hin & Hp & Hb)]; [by left| |].
      * right. exists sl. split; [by left|done].
      * right. exists sl'. split; [by right|done].
    + intros [H|(sl' & Hin & Hp & Hb)]; [by left; left|].
      apply elem_of_cons in Hin as [->|Hin]; [left; right; done|].
      right. by exists sl'.
Qed.

Lemma areas_bits (l : list ScrArea) : forall acc i,
  Z.testbit
    (fold_left (fun proxy_sizes area =>
                  fold_left space_step (spacedata area) proxy_sizes) l acc) i
    = true <->
  Z.testbit acc i = true \/
  exists area sl, area ∈ l /\ sl ∈ spacedata area /\ shows_preview sl /\
    Z.testbit (SEQ_rendersize_to_proxysize (sseq_render_size sl)) i = true.
Proof.
  induction l as [|area l IH]; intros acc i; simpl.
  - split; [auto|]. intros [H|(area & sl & Hin & _)]; [done|].
    by apply elem_of_nil in Hin.
  - rewrite IH, spaces_bits. split.
    + intros [[H|(sl & Hin & Hp)]|(area' & sl & Ha & Hin & Hp)]; [by left| |].
      * right. exists area, sl. split; [by left|done].
      * right. exists area', sl. split; [by right|done].
    + intros [H|(area' & sl & Ha & Hin & Hp)]; [by left; left|].
      apply elem_of_cons in Ha as [->|Ha]; [left; right; by exists sl|].
      right. by exists area', sl.
Qed.

End ProxySizeFacts.

(** X1: the proxy sizes [seq_get_proxy_size_flags] returns are the union of
    the proxy sizes of the previews on screen: a bit is set in the result
    exactly when it is set in the proxy size of the render size of some
    sequencer space, of some area of the screen, whose view is the preview
    or the sequence with preview; with no such space the result is 0. *)
Theorem proxy_size_flags_union_of_previews
    {consts : Constants} {L : Type} {seqlib : SeqLib L} (w : World L) :
  (forall i,
     Z.testbit (seq_get_proxy_size_flags w) i = true <->
     exists area sl,
       area ∈ screen_areabase w /\ sl ∈ spacedata area /\ shows_preview sl /\
       Z.testbit (SEQ_rendersize_to_proxysize (sseq_render_size sl)) i
         = true) /\
  ((forall area sl, area ∈ screen_areabase w -> sl ∈ spacedata area ->
      ~ shows_preview sl) ->
   seq_get_proxy_size_flags w = 0).
Proof.
  assert (Hbits : forall i,
     Z.testbit (seq_get_proxy_size_flags w) i = true <->
     exists area sl,
       area ∈ screen_areabase w /\ sl ∈ spacedata area /\ shows_preview sl /\
       Z.testbit (SEQ_rendersize_to_proxysize (sseq_render_size sl)) i
         = true).
  { intros i. unfold seq_get_proxy_size_flags. rewrite areas_bits.
    rewrite Z.bits_0. intuition discriminate. }
  split; [exact Hbits|]. intros Hnone. apply Z.bits_inj'. intros i _.
  rewrite Z.bits_0. apply not_true_is_false. intros Hb.
  apply Hbits in Hb as (area & sl & Ha & Hin & Hp & _).
  by apply (Hnone area sl).
Qed.

Section ProxyJobFacts.
Context {consts : Constants} {P PropertyRNA : Type}
        {rna : RnaApi P PropertyRNA} {paths : PathApi}
        {L : Type} {seqlib : SeqLib L}.

(** One strip of the loop of [seq_build_proxy]. *)
Lemma enqueue_proxies_cons (p : ptr) (l : list ptr) (w : World L) :
  let w1 := SEQ_proxy_rebuild_context p (proxy_prepared p w) in
  calls (enqueue_proxies (p :: l)) w =
    Ev_proxy_set p :: Ev_proxy_rebuild_context p ::
    calls (enqueue_proxies l) w1 /\
  world_after (enqueue_proxies (p :: l)) w =
    world_after (enqueue_proxies l) w1.
Proof.
  intros w1. unfold enqueue_proxies. simpl foreach.
  fold (enqueue_proxies l). by run_simpl.
Qed.

Lemma enqueue_proxies_rebuilds (l : list ptr) : forall w : World L,
  omap rebuild_of (calls (enqueue_proxies l) w) = l /\
  omap proxy_set_of (calls (enqueue_proxies l) w) = l.
Proof.
  induction l as [|p l IH]; intros w; [done|].
  destruct (enqueue_proxies_cons p l w) as [-> _].
  destruct (IH (SEQ_proxy_rebuild_context p (proxy_prepared p w)))
    as [IHr IHs].
  set (t := calls (enqueue_proxies l) _) in *. simpl.
  split; f_equal; [exact IHr|exact IHs].
Qed.

Lemma proxy_prepared_fields (p : ptr) (s : Sequence) (w : World L) :
  strips (SEQ_proxy_set p true w) !! p = Some s ->
  strips (proxy_prepared p w) !! p =
    Some (set_build_flags (fun f => Z.lor f SEQ_PROXY_SKIP_EXISTING)
            (set_build_size_flags
               (seq_get_proxy_size_flags (SEQ_proxy_set p true w)) s)).
Proof.
  intros Hs. unfold proxy_prepared. simpl.
  by rewrite !lookup_alter_eq, Hs.
Qed.

(** The world the loop of [seq_build_proxy] leaves. *)
Lemma enqueue_proxies_world (l : list ptr) : forall w : World L,
  world_after (enqueue_proxies l) w =
  foldl (fun w p => SEQ_proxy_rebuild_context p (proxy_prepared p w)) w l.
Proof.
  induction l as [|p l IH]; intros w; [done|].
  destruct (enqueue_proxies_cons p l w) as [_ ->]. by rewrite IH.
Qed.

(** The world [seq_build_proxy] leaves. *)
Lemma seq_build_proxy_world (movie_strips : gset ptr) (w : World L) :
  U_sequencer_proxy_setup w = USER_SEQ_PROXY_SETUP_AUTOMATIC ->
  let w1 := ED_seq_proxy_job_get (ED_seq_proxy_wm_job_get w) in
  let w2 := world_after (enqueue_proxies (elements movie_strips)) w1 in
  world_after (seq_build_proxy movie_strips) w =
  ED_area_tag_redraw
    (if WM_jobs_is_running w2 then w2
     else WM_jobs_start (with_is_break false w2)).
Proof.
  intros Hauto w1 w2. unfold seq_build_proxy. run_simpl.
  rewrite Hauto, Z.eqb_refl. simpl. run_simpl.
  fold (enqueue_proxies (elements movie_strips)). fold w1. fold w2.
  destruct (WM_jobs_is_running w2); simpl; by run_simpl.
Qed.

End ProxyJobFacts.

(** X2: with the proxy setup on automatic, [seq_build_proxy] enables
    proxies on, and enqueues for rebuilding, every strip of the collection
    exactly once and no other strip.  The world it leaves is the one the
    strips' turns make one after the other, followed by the start of the
    job when it is not running and the redraw tag; in its turn a strip [p]
    is handed to [SEQ_proxy_rebuild_context] in the world [SEQ_proxy_set]
    left, with its proxy's [build_size_flags] set to the proxy sizes of the
    previews on screen and [SEQ_PROXY_SKIP_EXISTING] added to its
    [build_flags], its other fields as they were. *)
Theorem seq_build_proxy_enqueues_each_strip_once
    {consts : Constants} {P PropertyRNA : Type} {rna : RnaApi P PropertyRNA}
    {paths : PathApi} {L : Type} {seqlib : SeqLib L}
    (movie_strips : gset ptr) (w : World L) :
  U_sequencer_proxy_setup w = USER_SEQ_PROXY_SETUP_AUTOMATIC ->
  let tr := calls (seq_build_proxy movie_strips) w in
  NoDup (omap rebuild_of tr) /\
  (forall p, p ∈ omap rebuild_of tr <-> p ∈ movie_strips) /\
  omap proxy_set_of tr = omap rebuild_of tr /\
  (let turn (w' : World L) (p : ptr) :=
     SEQ_proxy_rebuild_context p (proxy_prepared p w') in
   let w1 := ED_seq_proxy_job_get (ED_seq_proxy_wm_job_get w) in
   let w2 := foldl turn w1 (elements movie_strips) in
   world_after (seq_build_proxy movie_strips) w =
     ED_area_tag_redraw
       (if WM_jobs_is_running w2 then w2
        else WM_jobs_start (with_is_break false w2))) /\
  (forall p (w' : World L) s,
     strips (SEQ_proxy_set p true w') !! p = Some s ->
     exists s',
       strips (proxy_prepared p w') !! p = Some s' /\
       build_size_flags s' =
         seq_get_proxy_size_flags (SEQ_proxy_set p true w') /\
       build_flags s' = Z.lor (build_flags s) SEQ_PROXY_SKIP_EXISTING /\
       seq_type s' = seq_type s /\ machine s' = machine s /\
       flag s' = flag s).
Proof.
  intros Hauto tr.
  assert (Htr : omap rebuild_of tr = elements movie_strips /\
                omap proxy_set_of tr = elements movie_strips).
  { unfold tr. rewrite seq_build_proxy_calls, Hauto, Z.eqb_refl. simpl.
    set (w1 := ED_seq_proxy_job_get _).
    rewrite !omap_app.
    destruct (enqueue_proxies_rebuilds (elements movie_strips) w1)
      as [-> ->].
    simpl. by destruct (WM_jobs_is_running _); simpl; rewrite app_nil_r. }
  destruct Htr as [Hr Hs]. rewrite Hr, Hs.
  split; [apply NoDup_elements|]. split; [intros p; apply elem_of_elements|].
  split; [done|]. split.
  { cbv zeta. rewrite seq_build_proxy_world by done. cbv zeta.
    by rewrite enqueue_proxies_world. }
  intros p w' s Hsome.
  eexists. split; [by apply proxy_prepared_fields|]. done.
Qed.

Lemma seq_build_proxy_enqueues_each_strip_once_witness :
  let tr :=
    calls (seq_build_proxy (consts := Samples.sample_constants)
             (seqlib := Samples.sample_lib) {[ 0%nat; 5%nat ]})
      Samples.sample_world in
  NoDup (omap rebuild_of tr) /\
  (forall p, p ∈ omap rebuild_of tr <-> p ∈ ({[ 0%nat; 5%nat ]} : gset ptr)).
Proof.
  intros tr.
  destruct (seq_build_proxy_enqueues_each_strip_once
              (consts := Samples.sample_constants)
              (rna := Samples.sample_rna) (paths := Samples.sample_paths)
              (seqlib := Samples.sample_lib)
              {[ 0%nat; 5%nat ]} Samples.sample_world eq_refl)
    as (Hnd & Hin & _).
  exact (conj Hnd Hin).
Defined.

(** *** Overlaps of the strips of a movie import *)

Section TraceFacts.
Context {L : Type}.

Lemma avoids_existsb bad {A} (m : M L A) (w : World L) :
  avoids bad m -> existsb bad (calls m w) = false.
Proof.
  intros Hav. specialize (Hav w).
  induction Hav as [|e tr He _ IH]; [done|]. simpl. by rewrite He, IH.
Qed.

Lemma avoids_omap {B} (f : Event -> option B) {A} (m : M L A) (w : World L) :
  avoids (fun e => bool_decide (is_Some (f e))) m -> omap f (calls m w) = [].
Proof.
  intros Hav. specialize (Hav w).
  induction Hav as [|e tr He _ IH]; [done|]. simpl.
  destruct (f e) as [b|] eqn:Hf; [|exact IH].
  apply bool_decide_eq_false in He. by destruct He.
Qed.

Lemma overlaps_of_app (a b : list Event) :
  overlaps_of (a ++ b) = ov_app (overlaps_of a) (overlaps_of b).
Proof.
  unfold overlaps_of, ov_app. simpl.
  by rewrite !omap_app, existsb_app, List.filter_app.
Qed.

(** A run without additions, tests and resolutions. *)
Lemma overlaps_of_avoids {A} (m : M L A) (w : World L) :
  avoids (fun e => bool_decide (is_Some (loaded_strip_of e))) m ->
  avoids (fun e => bool_decide (is_Some (tested_strip_of e))) m ->
  avoids is_overlap_resolution m ->
  overlaps_of (calls m w) = mkOverlaps [] [] false [].
Proof.
  intros Hl Ht Hr. unfold overlaps_of.
  rewrite (avoids_omap _ _ _ Hl), (avoids_omap _ _ _ Ht).
  rewrite (avoids_filter _ _ _ Hr). f_equal.
  apply avoids_existsb. intros w'. specialize (Ht w').
  eapply Forall_impl; [exact Ht|]. intros e He. simpl in He.
  by destruct e.
Qed.

End TraceFacts.

Section MovieOverlapFacts.
Context {consts : Constants} {P PropertyRNA : Type}
        {rna : RnaApi P PropertyRNA} {paths : PathApi}
        {L : Type} {seqlib : SeqLib L}.

Lemma select_new_strip_overlaps (op : wmOperator P) p (w : World L) :
  overlaps_of (calls (select_new_strip op p) w) = mkOverlaps [] [] false [].
Proof. by apply overlaps_of_avoids; apply select_new_strip_avoids. Qed.

Lemma only_test_overlaps (op : wmOperator P) (seq : option ptr) col
    (w : World L) :
  let run := seq_load_apply_generic_options_only_test_overlap op seq col in
  overlaps_of (calls run w) =
    mkOverlaps [] (option_list seq) (result run w).1 [] /\
  (result run w).2 = match seq with Some p => {[ p ]} ∪ col | None => col end.
Proof.
  intros run. unfold run, seq_load_apply_generic_options_only_test_overlap.
  destruct seq as [p|]; [|done]. run_simpl.
  rewrite overlaps_of_app, select_new_strip_overlaps.
  unfold overlaps_of, ov_app. simpl. by rewrite orb_false_r.
Qed.

Lemma movie_add_sound_overlaps (op : wmOperator P) ld m (w : World L) :
  let run := movie_add_sound op ld m in
  overlaps_of (calls run w) =
    mkOverlaps (option_list (result run w)) [] false [].
Proof.
  intros run. unfold run, movie_add_sound.
  destruct (RNA_boolean_get (op_ptr op) "sound"); [|done]. run_simpl.
  rewrite !overlaps_of_app.
  rewrite (overlaps_of_avoids
             (sequencer_add_movie_clamp_sound_strip_length _ _))
    by (by apply clamp_sound_avoids).
  destruct (SEQ_add_sound_strip ld w).1 as [s|]; by run_simpl.
Qed.

End MovieOverlapFacts.

Section MovieLoopOverlapFacts.
Context {consts : Constants} {P PropertyRNA : Type}
        {rna : RnaApi P PropertyRNA} {paths : PathApi}
        {L : Type} {seqlib : SeqLib L}.

Lemma movie_loaded_overlaps (op : wmOperator P) st ld m (w : World L) :
  let run := movie_loaded op true st ld m in
  exists (sound : option ptr) (found : bool),
    overlaps_of (calls run w) =
      mkOverlaps (option_list sound) (option_list sound ++ [m]) found [] /\
    ml_strip_col (result run w) =
      {[ m ]} ∪ match sound with
                | Some s => {[ s ]} ∪ ml_strip_col st
                | None => ml_strip_col st
                end /\
    ml_has_seq_overlap (result run w) = ml_has_seq_overlap st || found.
Proof.
  intros run. unfold run, movie_loaded. run_simpl.
  set (sound := result (movie_add_sound op ld m) w).
  set (w1 := world_after (movie_add_sound op ld m) w).
  destruct (only_test_overlaps op sound (ml_strip_col st) w1) as [Ho1 Hc1].
  set (t1 := seq_load_apply_generic_options_only_test_overlap op sound _)
    in *.
  set (w2 := world_after t1 w1).
  destruct (result t1 w1) as [o1 c1] eqn:Hr1. simpl in Ho1, Hc1. run_simpl.
  destruct (only_test_overlaps op (Some m) c1 w2) as [Ho2 Hc2].
  set (t2 := seq_load_apply_generic_options_only_test_overlap op (Some m) _)
    in *.
  destruct (result t2 w2) as [o2 c2] eqn:Hr2. simpl in Ho2, Hc2. run_simpl.
  exists sound, (o1 || o2).
  rewrite !overlaps_of_app, movie_add_sound_overlaps, Ho1, Ho2.
  fold sound. unfold ov_app, overlaps_of. simpl.
  rewrite !app_nil_r, !orb_false_r. split; [done|].
  split; [|by rewrite orb_assoc]. rewrite Hc2, Hc1. by destruct sound.
Qed.

(** One iteration with the override: no resolution yet; the strips created
    are the strips tested and join the collection. *)
Lemma movie_multiple_body_overlaps (op : wmOperator P) (itemptr : P) st
    (w : World L) :
  let run := movie_multiple_body op true itemptr st in
  exists (created tested : list ptr) (found : bool),
    overlaps_of (calls run w) = mkOverlaps created tested found [] /\
    (forall p, p ∈ tested <-> p ∈ created) /\
    (forall p, p ∈ ml_strip_col (result run w) <->
               p ∈ ml_strip_col st \/ p ∈ created) /\
    ml_has_seq_overlap (result run w) = ml_has_seq_overlap st || found.
Proof.
  intros run. unfold run, movie_multiple_body. cbv zeta.
  set (ld := with_name _ _). rewrite calls_bind, result_bind.
  rewrite calls_call_ret, result_call_ret, world_after_call_ret.
  destruct (SEQ_add_movie_strip ld w).1 as [m|] eqn:Hm.
  - fold (movie_loaded op true st ld m).
    destruct (movie_loaded_overlaps op st ld m (SEQ_add_movie_strip ld w).2)
      as (sound & found & Hov & Hcol & Hhas).
    cbv zeta in Hov, Hcol, Hhas.
    exists (m :: option_list sound), (option_list sound ++ [m]), found.
    rewrite overlaps_of_app, Hov, Hcol, Hhas.
    split; [done|]. split; [|split; [|done]]; intros p.
    + rewrite elem_of_app, list_elem_of_singleton, elem_of_cons. tauto.
    + rewrite elem_of_cons, elem_of_union, elem_of_singleton.
      destruct sound as [s|]; simpl.
      * rewrite elem_of_union, !elem_of_singleton, list_elem_of_singleton.
        tauto.
      * rewrite elem_of_nil. tauto.
  - exists [], [], false. run_simpl. simpl.
    rewrite orb_false_r. split; [done|]. split; [done|].
    split; [|done]. intros p. rewrite elem_of_nil. tauto.
Qed.

(** The loop with the override. *)
Lemma movie_multiple_loop_overlaps (op : wmOperator P) (files : list P) :
  forall st (w : World L),
  let run := loop files (movie_multiple_body op true) st in
  exists (created tested : list ptr) (found : bool),
    overlaps_of (calls run w) = mkOverlaps created tested found [] /\
    (forall p, p ∈ tested <-> p ∈ created) /\
    (forall p, p ∈ ml_strip_col (result run w) <->
               p ∈ ml_strip_col st \/ p ∈ created) /\
    ml_has_seq_overlap (result run w) = ml_has_seq_overlap st || found.
Proof.
  induction files as [|itemptr files IH]; intros st w run.
  - exists [], [], false. unfold run. simpl. run_simpl.
    rewrite orb_false_r. split; [done|]. split; [done|].
    split; [|done]. intros p. rewrite elem_of_nil. tauto.
  - unfold run. simpl. rewrite calls_bind, result_bind.
    destruct (movie_multiple_body_overlaps op itemptr st w)
      as (c1 & t1 & f1 & Hov1 & Ht1 & Hcol1 & Hhas1).
    cbv zeta in Hov1, Hcol1, Hhas1.
    set (st' := result (movie_multiple_body op true itemptr st) w) in *.
    set (w' := world_after (movie_multiple_body op true itemptr st) w).
    destruct (IH st' w') as (c2 & t2 & f2 & Hov2 & Ht2 & Hcol2 & Hhas2).
    cbv zeta in Hov2, Hcol2, Hhas2.
    exists (c1 ++ c2), (t1 ++ t2), (f1 || f2).
    rewrite overlaps_of_app, Hov1, Hov2, Hhas2, Hhas1, orb_assoc.
    split; [done|]. split; [|split; [|done]]; intros p.
    + rewrite !elem_of_app, Ht1, Ht2. tauto.
    + rewrite Hcol2, Hcol1, elem_of_app. tauto.
Qed.

End MovieLoopOverlapFacts.

(** X3: with [overlap] false and [overlap_shuffle_override] true, a
    multi-file movie import resolves the overlaps of all its new strips
    together.  Every strip it creates (movie and sound) is tested for
    overlap and no other strip is; while the files are imported nothing is
    resolved; and if some test found an overlap, the import ends with one
    call of [SEQ_transform_handle_overlap] on the collection of exactly
    the created strips, else no resolution is called at all
    ([SEQ_transform_seqbase_shuffle] is never called). *)
Theorem movie_multiple_strips_resolves_overlaps_together
    {consts : Constants} {P PropertyRNA : Type} {rna : RnaApi P PropertyRNA}
    {paths : PathApi} {L : Type} {seqlib : SeqLib L}
    (op : wmOperator P) (load_data : SeqLoadData) (r_movie_strips : gset ptr)
    (w : World L) :
  RNA_boolean_get (op_ptr op) "overlap" = false ->
  RNA_boolean_get (op_ptr op) "overlap_shuffle_override" = true ->
  let tr :=
    calls (sequencer_add_movie_multiple_strips op load_data r_movie_strips)
      w in
  let created := omap loaded_strip_of tr in
  (forall p, p ∈ omap tested_strip_of tr <-> p ∈ created) /\
  if existsb found_overlap tr
  then exists pre col b,
         tr = pre ++ [Ev_handle_overlap col b] /\
         List.filter is_overlap_resolution pre = [] /\
         forall p, p ∈ col <-> p ∈ created
  else List.filter is_overlap_resolution tr = [].
Proof.
  intros Hov Hoso tr created. unfold created, tr.
  unfold sequencer_add_movie_multiple_strips. rewrite Hov, Hoso. simpl andb.
  cbv zeta. rewrite calls_bind, calls_call, world_after_call.
  rewrite calls_bind.
  set (files := RNA_collection_items (op_ptr op) "files").
  set (st0 := mkMovieLoop load_data false ∅ r_movie_strips).
  set (w0 := SEQ_editing_ensure w).
  destruct (movie_multiple_loop_overlaps op files st0 w0)
    as (cr & te & found & Hovl & Hte & Hcol & Hhas).
  cbv zeta in Hovl, Hcol, Hhas. simpl in Hhas.
  set (lp := loop files (movie_multiple_body op true) st0) in *.
  assert (Hcr : omap loaded_strip_of (calls lp w0) = cr)
    by (by apply (f_equal ov_loaded) in Hovl).
  assert (Hts : omap tested_strip_of (calls lp w0) = te)
    by (by apply (f_equal ov_tested) in Hovl).
  assert (Hfo : existsb found_overlap (calls lp w0) = found)
    by (by apply (f_equal ov_found) in Hovl).
  assert (Hre : List.filter is_overlap_resolution (calls lp w0) = [])
    by (by apply (f_equal ov_resolved) in Hovl).
  rewrite calls_bind, Hhas. destruct found; run_simpl.
  - rewrite !omap_app, !existsb_app, Hcr, Hts, Hfo. simpl.
    rewrite !app_nil_r. split; [exact Hte|].
    eexists (Ev_editing_ensure :: calls lp w0), _, _.
    split; [done|]. split; [simpl; exact Hre|]. intros p.
    rewrite Hcol. simpl. rewrite elem_of_empty. tauto.
  - rewrite !app_nil_r, !omap_app, existsb_app, List.filter_app.
    rewrite Hcr, Hts, Hfo, Hre. simpl. split; [exact Hte|done].
Qed.

(** X4: with [overlap] false and [overlap_shuffle_override] true, the
    single-file movie import treats the movie strip and its sound strip
    together: every strip it creates is tested for overlap and no other
    strip is; if some test found an overlap the import ends with one call
    of [SEQ_transform_handle_overlap] on the collection of exactly the
    created strips, and else it calls no resolution at all. *)
Theorem movie_single_strip_resolves_overlaps_together
    {consts : Constants} {P PropertyRNA : Type} {rna : RnaApi P PropertyRNA}
    {L : Type} {seqlib : SeqLib L}
    (op : wmOperator P) (load_data : SeqLoadData) (r_movie_strips : gset ptr)
    (w : World L) :
  RNA_boolean_get (op_ptr op) "overlap" = false ->
  RNA_boolean_get (op_ptr op) "overlap_shuffle_override" = true ->
  let tr :=
    calls (sequencer_add_movie_single_strip op load_data r_movie_strips) w in
  let created := omap loaded_strip_of tr in
  (forall p, p ∈ omap tested_strip_of tr <-> p ∈ created) /\
  if existsb found_overlap tr
  then exists pre col b,
         tr = pre ++ [Ev_handle_overlap col b] /\
         List.filter is_overlap_resolution pre = [] /\
         forall p, p ∈ col <-> p ∈ created
  else List.filter is_overlap_resolution tr = [].
Proof.
  intros Hov Hoso tr created. unfold created, tr.
  unfold sequencer_add_movie_single_strip. rewrite Hov, Hoso. simpl andb.
  rewrite calls_bind, calls_call, world_after_call.
  rewrite calls_bind, calls_call_ret, result_call_ret, world_after_call_ret.
  set (w0 := SEQ_editing_ensure w).
  destruct (SEQ_add_movie_strip load_data w0).1 as [m|] eqn:Hm.
  2:{ run_simpl. simpl. split; [done|done]. }
  set (w1 := (SEQ_add_movie_strip load_data w0).2). rewrite calls_bind.
  pose proof (movie_add_sound_overlaps op load_data m w1) as Hsnd.
  cbv zeta in Hsnd.
  set (sound := result (movie_add_sound op load_data m) w1) in *.
  set (w2 := world_after (movie_add_sound op load_data m) w1).
  set (snd_calls := calls (movie_add_sound op load_data m) w1) in *.
  rewrite calls_bind, calls_ret, app_nil_r, calls_bind.
  destruct (only_test_overlaps op sound ∅ w2) as [Ho1 Hc1].
  set (t1 := seq_load_apply_generic_options_only_test_overlap op sound _)
    in *.
  set (w3 := world_after t1 w2).
  destruct (result t1 w2) as [o1 c1] eqn:Hr1. simpl in Ho1, Hc1.
  rewrite calls_bind.
  destruct (only_test_overlaps op (Some m) c1 w3) as [Ho2 Hc2].
  set (t2 := seq_load_apply_generic_options_only_test_overlap op (Some m) _)
    in *.
  destruct (result t2 w3) as [o2 c2] eqn:Hr2. simpl in Ho2, Hc2.
  assert (Hall :
    overlaps_of (Ev_editing_ensure :: Ev_add_movie_strip load_data (Some m)
                   :: snd_calls ++ calls t1 w2 ++ calls t2 w3) =
    mkOverlaps (m :: option_list sound) (option_list sound ++ [m])
      (o1 || o2) []).
  { change (overlaps_of (?a :: ?b :: ?l))
      with (ov_app (overlaps_of [a; b]) (overlaps_of l)).
    rewrite !overlaps_of_app, Hsnd, Ho1, Ho2.
    unfold ov_app, overlaps_of. simpl. by rewrite !app_nil_r. }
  assert (Hmem : forall p, p ∈ option_list sound ++ [m] <->
                           p ∈ m :: option_list sound).
  { intros p. rewrite elem_of_app, list_elem_of_singleton, elem_of_cons.
    tauto. }
  assert (Hcol : forall p, p ∈ c2 <-> p ∈ m :: option_list sound).
  { intros p. rewrite Hc2, Hc1, elem_of_cons, elem_of_union, elem_of_singleton.
    destruct sound as [s|]; simpl.
    - rewrite elem_of_union, elem_of_singleton, list_elem_of_singleton,
        elem_of_empty. tauto.
    - rewrite elem_of_empty, elem_of_nil. tauto. }
  set (T := Ev_editing_ensure :: Ev_add_movie_strip load_data (Some m) ::
            snd_calls ++ calls t1 w2 ++ calls t2 w3) in *.
  assert (Hcr : omap loaded_strip_of T = m :: option_list sound)
    by (by apply (f_equal ov_loaded) in Hall).
  assert (Hts : omap tested_strip_of T = option_list sound ++ [m])
    by (by apply (f_equal ov_tested) in Hall).
  assert (Hfo : existsb found_overlap T = o1 || o2)
    by (by apply (f_equal ov_found) in Hall).
  assert (Hre : List.filter is_overlap_resolution T = [])
    by (by apply (f_equal ov_resolved) in Hall).
  destruct (o1 || o2) eqn:Hfound; run_simpl.
  - set (h := Ev_handle_overlap c2 (use_sync_markers_of (world_after t2 w3))).
    match goal with
    | |- context [existsb found_overlap ?l] =>
      replace l with (T ++ [h])
        by (unfold T; simpl; by rewrite <- ?app_assoc)
    end.
    rewrite !omap_app, existsb_app, Hcr, Hts, Hfo.
    simpl. rewrite !app_nil_r. split; [exact Hmem|].
    eexists T, c2, _. split; [done|]. split; [exact Hre|exact Hcol].
  - rewrite !app_nil_r.
    change ([Ev_editing_ensure] ++ [Ev_add_movie_strip load_data (Some m)] ++
            snd_calls ++ calls t1 w2 ++ calls t2 w3) with T.
    rewrite Hcr, Hts, Hfo. split; [exact Hmem|exact Hre].
Qed.

Lemma movie_multiple_strips_resolves_overlaps_together_witness :
  let tr :=
    calls (sequencer_add_movie_multiple_strips
             (consts := Samples.sample_constants) (rna := Samples.sample_rna)
             (paths := Samples.sample_paths) (seqlib := Samples.sample_lib)
             sample_override_op sample_load_data ∅)
      Samples.sample_world in
  exists pre col b,
    tr = pre ++ [Ev_handle_overlap col b] /\
    List.filter is_overlap_resolution pre = [] /\
    forall p, p ∈ col <-> p ∈ omap loaded_strip_of tr.
Proof.
  intros tr.
  assert (Hov : RNA_boolean_get (RnaApi := Samples.sample_rna)
                  (op_ptr sample_override_op) "overlap" = false)
    by (by vm_compute).
  assert (Hoso : RNA_boolean_get (RnaApi := Samples.sample_rna)
                   (op_ptr sample_override_op) "overlap_shuffle_override"
                 = true) by (by vm_compute).
  destruct (movie_multiple_strips_resolves_overlaps_together
              (consts := Samples.sample_constants)
              (rna := Samples.sample_rna) (paths := Samples.sample_paths)
              (seqlib := Samples.sample_lib)
              sample_override_op sample_load_data ∅ Samples.sample_world
              Hov Hoso) as [_ Hres].
  assert (Hfound : existsb found_overlap tr = true) by (by vm_compute).
  fold tr in Hres. rewrite Hfound in Hres. exact Hres.
Defined.

Lemma movie_single_strip_resolves_overlaps_together_witness :
  let tr :=
    calls (sequencer_add_movie_single_strip
             (consts := Samples.sample_constants) (rna := Samples.sample_rna)
             (seqlib := Samples.sample_lib)
             sample_override_op sample_load_data ∅)
      Samples.sample_world in
  exists pre col b,
    tr = pre ++ [Ev_handle_overlap col b] /\
    List.filter is_overlap_resolution pre = [] /\
    forall p, p ∈ col <-> p ∈ omap loaded_strip_of tr.
Proof.
  intros tr.
  assert (Hov : RNA_boolean_get (RnaApi := Samples.sample_rna)
                  (op_ptr sample_override_op) "overlap" = false)
    by (by vm_compute).
  assert (Hoso : RNA_boolean_get (RnaApi := Samples.sample_rna)
                   (op_ptr sample_override_op) "overlap_shuffle_override"
                 = true) by (by vm_compute).
  destruct (movie_single_strip_resolves_overlaps_together
              (consts := Samples.sample_constants)
              (rna := Samples.sample_rna) (seqlib := Samples.sample_lib)
              sample_override_op sample_load_data ∅ Samples.sample_world
              Hov Hoso) as [_ Hres].
  assert (Hfound : existsb found_overlap tr = true) by (by vm_compute).
  fold tr in Hres. rewrite Hfound in Hres. exact Hres.
Defined.

(** The sample import of three files, of which the second cannot be
    loaded: the four strips (two movies, two sounds) are resolved in one
    call. *)
Example movie_override_sample :
  let tr :=
    calls (sequencer_add_movie_multiple_strips
             (consts := Samples.sample_constants) (rna := Samples.sample_rna)
             (paths := Samples.sample_paths) (seqlib := Samples.sample_lib)
             sample_override_op sample_load_data ∅)
      Samples.sample_world in
  omap loaded_strip_of tr = [1%nat; 2%nat; 3%nat; 4%nat] /\
  omap tested_strip_of tr = [2%nat; 1%nat; 4%nat; 3%nat] /\
  List.filter is_overlap_resolution tr =
    [Ev_handle_overlap {[ 3%nat; 4%nat; 1%nat; 2%nat ]} false].
Proof. by vm_compute. Qed.

(** *** The load descriptor: path, name and side effect *)

Section LoadPathFacts.
Context {consts : Constants} {P PropertyRNA : Type}
        {rna : RnaApi P PropertyRNA} {paths : PathApi}
        {L : Type} {seqlib : SeqLib L}.

Lemma STRNCPY_length (size : nat) (src : string) :
  (String.length (STRNCPY size src) <= size - 1)%nat.
Proof.
  unfold STRNCPY. generalize (size - 1)%nat as n. intros n. revert src.
  induction n as [|n IH]; intros [|c src]; simpl; try lia.
  specialize (IH src). lia.
Qed.

(** The blocks after the path block keep the path and the name. *)
Lemma load_data_frame_end_path ptr ld :
  path (load_data_frame_end ptr ld) = path ld /\
  name (load_data_frame_end ptr ld) = name ld.
Proof. unfold load_data_frame_end. by case_match. Qed.

Lemma load_data_flag_path ptr n mask ld :
  path (load_data_flag ptr n mask ld) = path ld /\
  name (load_data_flag ptr n mask ld) = name ld.
Proof. unfold load_data_flag. by case_match. Qed.

Lemma load_data_multiview_path (op : wmOperator P) ld :
  path (load_data_multiview op ld) = path ld /\
  name (load_data_multiview op ld) = name ld.
Proof. unfold load_data_multiview. by repeat case_match. Qed.

Lemma load_data_relative_path rel bp ld :
  path (load_data_relative rel bp ld) =
    (if rel then BLI_path_rel (path ld) bp else path ld) /\
  name (load_data_relative rel bp ld) = name ld.
Proof. unfold load_data_relative. by destruct rel. Qed.

(** The blocks before the path block leave both empty. *)
Lemma load_data_before_path ptr :
  path (load_data_playback_rate ptr (stage_fit ptr (load_data_start ptr)))
    = "" /\
  name (load_data_playback_rate ptr (stage_fit ptr (load_data_start ptr)))
    = "".
Proof.
  unfold load_data_playback_rate, stage_fit, load_data_start.
  by repeat case_match.
Qed.

Lemma load_data_init_path (op : wmOperator P) (w : World L) :
  let ptr := op_ptr op in
  let run := load_data_init_from_operator op in
  let staged :=
    load_data_path ptr
      (load_data_playback_rate ptr (stage_fit ptr (load_data_start ptr))) in
  path (result run w) =
    relative_to_blendfile op (world_after run w) (path staged) /\
  name (result run w) = name staged.
Proof.
  intros ptr run staged. unfold run.
  rewrite load_data_init_from_operator_stages. cbv zeta. fold ptr.
  rewrite (proj1 (load_data_multiview_path _ _)),
    (proj2 (load_data_multiview_path _ _)).
  rewrite !(proj1 (load_data_flag_path _ _ _ _)),
    !(proj2 (load_data_flag_path _ _ _ _)).
  rewrite (proj1 (load_data_frame_end_path _ _)),
    (proj2 (load_data_frame_end_path _ _)).
  rewrite (proj1 (load_data_relative_path _ _ _)),
    (proj2 (load_data_relative_path _ _ _)).
  done.
Qed.

End LoadPathFacts.

(** X5: the path and the name of the load descriptor.  The name never
    exceeds the [name] buffer (at most [sizeof(name) - 1] characters).
    When the operator has a [filepath] property, the path is its value and
    the name the base name of that path, whatever [directory] and [files]
    hold; without [filepath] but with [directory] and a first entry in
    [files], the path joins the directory and that entry's name, which is
    the descriptor's name; in every other case both stay empty.  In each
    case the path is made relative to the blend file when [relative_path]
    exists and is true (the empty path too). *)
Theorem load_data_path_and_name
    {consts : Constants} {P PropertyRNA : Type} {rna : RnaApi P PropertyRNA}
    {paths : PathApi} {L : Type} {seqlib : SeqLib L}
    (op : wmOperator P) (w : World L) :
  let ptr := op_ptr op in
  let run := load_data_init_from_operator op in
  let ld := result run w in
  let rel := relative_to_blendfile op (world_after run w) in
  let first_file :=
    match RNA_struct_find_property ptr "directory",
          RNA_struct_find_property ptr "files" with
    | Some _, Some fprop => head (RNA_property_collection_items ptr fprop)
    | _, _ => None
    end in
  (String.length (name ld) <= sizeof_name - 1)%nat /\
  (forall prop, RNA_struct_find_property ptr "filepath" = Some prop ->
     path ld = rel (RNA_property_string_get ptr prop) /\
     name ld = STRNCPY sizeof_name
                 (BLI_path_basename (RNA_property_string_get ptr prop))) /\
  (RNA_struct_find_property ptr "filepath" = None ->
   match first_file with
   | Some itemptr =>
     path ld = rel (BLI_path_join (RNA_string_get_alloc ptr "directory")
                      (RNA_string_get_alloc itemptr "name")) /\
     name ld = STRNCPY sizeof_name (RNA_string_get_alloc itemptr "name")
   | None => path ld = rel "" /\ name ld = ""
   end).
Proof.
  intros ptr run ld rel first_file.
  destruct (load_data_init_path op w) as [Hpath Hname].
  cbv zeta in Hpath, Hname. fold ptr run ld rel in Hpath, Hname.
  destruct (load_data_before_path ptr) as [Hp0 Hn0].
  set (ld0 := load_data_playback_rate ptr _) in *.
  rewrite Hpath, Hname. unfold first_file, load_data_path. fold ptr.
  destruct (RNA_struct_find_property ptr "filepath") as [fp|].
  - split; [apply STRNCPY_length|]. split; [|done].
    by intros prop [= <-].
  - destruct (RNA_struct_find_property ptr "directory") as [dp|].
    + destruct (RNA_struct_find_property ptr "files") as [fprop|].
      * destruct (RNA_property_collection_items ptr fprop) as [|itemptr rest].
        -- rewrite Hp0, Hn0. simpl. split; [lia|]. by split.
        -- simpl. split; [apply STRNCPY_length|]. by split.
      * rewrite Hp0, Hn0. simpl. split; [lia|]. by split.
    + rewrite Hp0, Hn0. simpl. split; [lia|]. by split.
Qed.

Section LoadOptionFacts.
Context {consts : Constants} {P PropertyRNA : Type}
        {rna : RnaApi P PropertyRNA} {paths : PathApi}
        {L : Type} {seqlib : SeqLib L}.

(** The fit method, the multiview request and the scene of a descriptor,
    block by block. *)
Local Abbreviation keeps_options f :=
  (forall ld : SeqLoadData,
     fit_method (f ld) = fit_method ld /\
     use_multiview (f ld) = use_multiview ld /\
     ld_scene (f ld) = ld_scene ld).

Lemma load_data_playback_rate_options (ptr : P) :
  keeps_options (load_data_playback_rate ptr).
Proof. intros ld. unfold load_data_playback_rate. by case_match. Qed.

Lemma load_data_path_options (ptr : P) : keeps_options (load_data_path ptr).
Proof. intros ld. unfold load_data_path. by repeat case_match. Qed.

Lemma load_data_relative_options rel bp :
  keeps_options (load_data_relative rel bp).
Proof. intros ld. unfold load_data_relative. by destruct rel. Qed.

Lemma load_data_frame_end_options (ptr : P) :
  keeps_options (load_data_frame_end ptr).
Proof. intros ld. unfold load_data_frame_end. by case_match. Qed.

Lemma load_data_flag_options (ptr : P) n mask :
  keeps_options (load_data_flag ptr n mask).
Proof. intros ld. unfold load_data_flag. by case_match. Qed.

Lemma stage_fit_options (ptr : P) :
  let ld := stage_fit ptr (load_data_start ptr) in
  fit_method ld =
    match RNA_struct_find_property ptr "fit_method" with
    | Some _ => RNA_enum_get ptr "fit_method"
    | None => 0
    end /\
  use_multiview ld = false /\ ld_scene ld = None.
Proof. unfold stage_fit. by case_match. Qed.

Lemma load_data_before_multiview (ptr : P) bp :
  let ld :=
    load_data_flag ptr "set_view_transform" SEQ_LOAD_SET_VIEW_TRANSFORM
      (load_data_flag ptr "use_framerate" SEQ_LOAD_MOVIE_SYNC_FPS
         (load_data_flag ptr "mono" SEQ_LOAD_SOUND_MONO
            (load_data_flag ptr "cache" SEQ_LOAD_SOUND_CACHE
               (load_data_frame_end ptr
                  (load_data_relative (prop_is_true ptr "relative_path") bp
                     (load_data_path ptr
                        (load_data_playback_rate ptr
                           (stage_fit ptr (load_data_start ptr)))))))))
  in
  fit_method ld =
    match RNA_struct_find_property ptr "fit_method" with
    | Some _ => RNA_enum_get ptr "fit_method"
    | None => 0
    end /\
  use_multiview ld = false /\ ld_scene ld = None.
Proof.
  intros ld. unfold ld.
  repeat match goal with
  | |- context [fit_method (load_data_flag ?p ?n ?m ?d)] =>
    destruct (load_data_flag_options p n m d) as (-> & -> & ->)
  end.
  destruct (load_data_frame_end_options ptr
    (load_data_relative (prop_is_true ptr "relative_path") bp
       (load_data_path ptr
          (load_data_playback_rate ptr
             (stage_fit ptr (load_data_start ptr))))))
    as (-> & -> & ->).
  destruct (load_data_relative_options (prop_is_true ptr "relative_path") bp
    (load_data_path ptr
       (load_data_playback_rate ptr (stage_fit ptr (load_data_start ptr)))))
    as (-> & -> & ->).
  destruct (load_data_path_options ptr
    (load_data_playback_rate ptr (stage_fit ptr (load_data_start ptr))))
    as (-> & -> & ->).
  destruct (load_data_playback_rate_options ptr
    (stage_fit ptr (load_data_start ptr))) as (-> & -> & ->).
  apply stage_fit_options.
Qed.

Lemma load_data_init_calls (op : wmOperator P) (w : World L) :
  let run := load_data_init_from_operator op in
  let fit := load_data_fit_method (op_ptr op) (load_data_start (op_ptr op)) in
  calls run w = calls fit w /\ world_after run w = world_after fit w.
Proof.
  intros run fit. unfold run, load_data_init_from_operator. cbv zeta.
  fold fit. rewrite calls_bind, world_after_bind.
  rewrite calls_bind, world_after_bind, calls_read, world_after_read.
  rewrite calls_ret, world_after_ret. by rewrite !app_nil_r.
Qed.

End LoadOptionFacts.

(** X6: what [load_data_init_from_operator] does besides filling the
    descriptor.  When the operator has a [fit_method] property the
    function writes its value to the scene's tool settings, the only
    library call it makes; without that property it calls nothing, leaves
    the world as it was and the descriptor's [fit_method] zero.  The
    descriptor asks for multiview only when [use_multiview] exists and is
    true and the operator carries custom data, whose image format then
    gives [views_format] and [stereo3d_format]. *)
Theorem load_data_init_side_effect
    {consts : Constants} {P PropertyRNA : Type} {rna : RnaApi P PropertyRNA}
    {paths : PathApi} {L : Type} {seqlib : SeqLib L}
    (op : wmOperator P) (w : World L) :
  let ptr := op_ptr op in
  let run := load_data_init_from_operator op in
  let ld := result run w in
  match RNA_struct_find_property ptr "fit_method" with
  | Some _ =>
    fit_method ld = RNA_enum_get ptr "fit_method" /\
    calls run w = [Ev_fit_method_set (RNA_enum_get ptr "fit_method")] /\
    world_after run w =
      SEQ_tool_settings_fit_method_set (RNA_enum_get ptr "fit_method") w
  | None => fit_method ld = 0 /\ calls run w = [] /\ world_after run w = w
  end /\
  (use_multiview ld = true <->
     prop_is_true ptr "use_multiview" = true /\ is_Some (customdata op)) /\
  (forall sad, customdata op = Some sad ->
     prop_is_true ptr "use_multiview" = true ->
     views_format ld = imf_views_format (im_format sad) /\
     stereo3d_format ld = Some (imf_stereo3d_format (im_format sad))) /\
  ld_scene ld = None.
Proof.
  intros ptr run ld.
  destruct (load_data_init_calls op w) as [Hcalls Hworld].
  cbv zeta in Hcalls, Hworld. fold ptr run in Hcalls, Hworld.
  pose proof (load_data_init_from_operator_stages op w) as Hst.
  cbv zeta in Hst. fold ptr run ld in Hst.
  destruct (load_data_before_multiview ptr
              (BKE_main_blendfile_path (world_after run w)))
    as (Hfit & Hmv & Hsc).
  cbv zeta in Hfit, Hmv, Hsc.
  set (before := load_data_flag ptr "set_view_transform" _ _) in *.
  assert (Hld : fit_method ld = fit_method before /\
                ld_scene ld = ld_scene before).
  { rewrite Hst. unfold load_data_multiview. by repeat case_match. }
  destruct Hld as [Hld1 Hld2]. rewrite Hld1, Hld2, Hfit, Hsc, Hcalls, Hworld.
  unfold load_data_fit_method.
  split; [by destruct (RNA_struct_find_property ptr "fit_method")|].
  split; [|split; [|done]]; rewrite Hst; unfold load_data_multiview;
    fold ptr.
  - destruct (prop_is_true ptr "use_multiview"), (customdata op) as [sad|];
      simpl; rewrite ?Hmv.
    + split; [by eauto|done].
    + split; [done|]. by intros [_ [? ?]].
    + split; [done|]. by intros [? _].
    + split; [done|]. by intros [? _].
  - intros sad -> ->. done.
Qed.

(** *** Adding sound strips *)

Section SoundFacts.
Context {consts : Constants} {P PropertyRNA : Type}
        {rna : RnaApi P PropertyRNA} {paths : PathApi}
        {L : Type} {seqlib : SeqLib L}.

Lemma sound_single_strip_run (op : wmOperator P) load_data (w : World L) :
  let r := (SEQ_add_sound_strip load_data (SEQ_editing_ensure w)).1 in
  let run := sequencer_add_sound_single_strip op load_data in
  result run w = bool_decide (is_Some r) /\
  omap sound_obs (calls run w) = file_obs (path load_data) r /\
  List.filter is_update (calls run w) = [].
Proof.
  intros r run. unfold run, sequencer_add_sound_single_strip.
  rewrite calls_bind, calls_call, world_after_call, result_bind.
  rewrite calls_bind, result_bind, world_after_call.
  rewrite calls_call_ret, result_call_ret, world_after_call_ret. fold r.
  destruct r as [q|]; run_simpl.
  - split; [done|]. rewrite !omap_app, !List.filter_app, app_nil_r.
    rewrite avoids_sound_obs, avoids_filter;
      by try apply seq_load_apply_generic_options_avoids.
  - done.
Qed.

Lemma sound_multiple_strips_avoids_update (op : wmOperator P) load_data :
  avoids is_update (sequencer_add_sound_multiple_strips (L := L) op load_data).
Proof.
  unfold sequencer_add_sound_multiple_strips.
  apply avoids_bind; [by apply avoids_call|]. intros _.
  apply avoids_loop. intros itemptr ld. unfold sound_multiple_body.
  apply avoids_bind; [by apply avoids_call_ret|]. intros [q|].
  - apply avoids_bind; [by apply seq_load_apply_generic_options_avoids|].
    intros _. avoids_auto.
  - apply avoids_bind; [by apply avoids_call|]. intros _. apply avoids_ret.
Qed.

(** The import step: whether it succeeded, and what is observed of it. *)
Lemma sound_import_run (op : wmOperator P) load_data (w : World L) :
  let run := sound_import op load_data in
  let files := RNA_collection_items (op_ptr op) "files" in
  let paths_tried :=
    (fun itemptr =>
       BLI_path_join (RNA_string_get (op_ptr op) "directory")
         (RNA_string_get itemptr "name")) <$> files in
  List.filter is_update (calls run w) = [] /\
  if 1 <? RNA_property_collection_length (op_ptr op)
            (RNA_struct_find_property (op_ptr op) "files")
  then result run w = true /\
       exists rs : list (option ptr),
         length rs = length files /\
         omap sound_obs (calls run w) = files_obs paths_tried rs
  else let r := (SEQ_add_sound_strip load_data (SEQ_editing_ensure w)).1 in
       result run w = bool_decide (is_Some r) /\
       omap sound_obs (calls run w) = file_obs (path load_data) r.
Proof.
  intros run files paths_tried. unfold run, sound_import.
  destruct (1 <? _).
  - run_simpl. rewrite app_nil_r.
    split; [by apply avoids_filter, sound_multiple_strips_avoids_update|].
    split; [done|]. apply sound_multiple_strips_run.
  - destruct (sound_single_strip_run op load_data w) as (Hr & Hobs & Hup).
    done.
Qed.

End SoundFacts.

(** X7: the sound-add operator.  With more than one entry in [files] it
    tries every file in turn (the path joined from the directory and the
    file's name), reports each one that cannot be loaded, and returns
    [OPERATOR_FINISHED] even when none could.  With one file (or none in
    [files]) it tries the path of the load descriptor and returns
    [OPERATOR_CANCELLED], with the error reported, exactly when
    [SEQ_add_sound_strip] returns [NULL].  A cancelled run tags and
    notifies nothing; a finished run ends with the calls
    [DEG_relations_tag_update], [DEG_id_tag_update] and
    [WM_event_add_notifier], the only ones of their kind. *)
Theorem sound_strip_exec_cancels_single_file_only
    {consts : Constants} {P PropertyRNA : Type} {rna : RnaApi P PropertyRNA}
    {paths : PathApi} {L : Type} {seqlib : SeqLib L}
    (op : wmOperator P) (w : World L) :
  let run := sequencer_add_sound_strip_exec op in
  let ld := result (load_data_init_from_operator op) w in
  let w1 := sound_import_world op w in
  let files := RNA_collection_items (op_ptr op) "files" in
  let paths_tried :=
    (fun itemptr =>
       BLI_path_join (RNA_string_get (op_ptr op) "directory")
         (RNA_string_get itemptr "name")) <$> files in
  let updates :=
    [Ev_deg_relations_tag_update; Ev_deg_id_tag_update;
     Ev_event_add_notifier] in
  (if 1 <? RNA_property_collection_length (op_ptr op)
             (RNA_struct_find_property (op_ptr op) "files")
   then result run w = OPERATOR_FINISHED /\
        exists rs : list (option ptr),
          length rs = length files /\
          omap sound_obs (calls run w) = files_obs paths_tried rs
   else let r := (SEQ_add_sound_strip ld (SEQ_editing_ensure w1)).1 in
        omap sound_obs (calls run w) = file_obs (path ld) r /\
        (result run w = OPERATOR_CANCELLED <-> r = None) /\
        (result run w = OPERATOR_FINISHED <-> exists p, r = Some p)) /\
  (result run w = OPERATOR_CANCELLED ->
     List.filter is_update (calls run w) = []) /\
  (result run w = OPERATOR_FINISHED ->
     exists pre, calls run w = pre ++ updates /\
                 List.filter is_update pre = []).
Proof.
  intros run ld w1 files paths_tried updates.
  unfold run, sequencer_add_sound_strip_exec. run_simpl. fold ld.
  set (init := load_data_init_from_operator op).
  set (desel := if RNA_boolean_get (op_ptr op) "replace_sel"
                then call ED_sequencer_deselect_all Ev_deselect_all
                else mret tt).
  assert (Hw1 : world_after desel (world_after init w) = w1).
  { unfold desel, w1, sound_import_world. fold init.
    by destruct (RNA_boolean_get (op_ptr op) "replace_sel"). }
  rewrite Hw1.
  destruct (sound_import_run op ld w1) as [Hup Himp]. cbv zeta in Himp.
  fold files paths_tried in Himp.
  set (imp := sound_import op ld) in *.
  assert (Hpre : List.filter is_update
                   (calls init w ++ calls desel (world_after init w) ++
                    calls imp w1) = []).
  { rewrite !List.filter_app, Hup.
    rewrite (avoids_filter _ init) by (by apply load_data_init_from_operator_avoids).
    unfold desel. by destruct (RNA_boolean_get (op_ptr op) "replace_sel"). }
  assert (Hobs : omap sound_obs
                   (calls init w ++ calls desel (world_after init w) ++
                    calls imp w1) = omap sound_obs (calls imp w1)).
  { rewrite !omap_app.
    rewrite (avoids_sound_obs init)
      by (by apply load_data_init_from_operator_avoids).
    unfold desel. by destruct (RNA_boolean_get (op_ptr op) "replace_sel"). }
  destruct (result imp w1) eqn:Hres; simpl negb; cbv iota; run_simpl.
  - (* imported *)
    replace (calls init w ++ calls desel (world_after init w) ++
             calls imp w1 ++ [Ev_deg_relations_tag_update] ++
             [Ev_deg_id_tag_update] ++ [Ev_event_add_notifier] ++ [])
      with ((calls init w ++ calls desel (world_after init w) ++
             calls imp w1) ++ updates)
      by (unfold updates; simpl; by rewrite <- !app_assoc).
    rewrite omap_app, Hobs. simpl. rewrite app_nil_r.
    split; [|split; [done|]].
    + destruct (1 <? _).
      * destruct Himp as [_ Hrs]. by split.
      * destruct Himp as [Hr Hfile]. cbv zeta in Hr, Hfile.
        split; [exact Hfile|]. symmetry in Hr.
        apply bool_decide_eq_true in Hr as [p Hp]. rewrite Hp.
        split; [split; done|]. split; [by eauto|done].
    + intros _. eexists. split; [done|exact Hpre].
  - (* not imported *)
    rewrite app_nil_r. rewrite Hobs. split; [|split; [by intros _|done]].
    destruct (1 <? _).
    + by destruct Himp as [[=] _].
    + destruct Himp as [Hr Hfile]. cbv zeta in Hr, Hfile.
      split; [exact Hfile|]. symmetry in Hr.
      apply bool_decide_eq_false in Hr.
      destruct (SEQ_add_sound_strip ld (SEQ_editing_ensure w1)).1 as [p|].
      * destruct Hr. by eexists.
      * split; [done|]. split; [done|]. by intros [p [=]].
Qed.

(** *** Image sequences *)

Section ImageFrameFacts.
Context {P PropertyRNA : Type} {rna : RnaApi P PropertyRNA}
        {frames : FrameApi}.

(** The loop leaves the least and the greatest of the frame numbers found
    and of the initial values. *)
Lemma minmax_frame_fold (files : list P) : forall mn mx nd,
  let r := fold_left minmax_frame_step files (mn, mx, nd) in
  let found := frames_found files nd in
  (r.1.1 <= mn /\ (forall f, f ∈ found -> r.1.1 <= f) /\
   (r.1.1 = mn \/ r.1.1 ∈ found)) /\
  (mx <= r.1.2 /\ (forall f, f ∈ found -> f <= r.1.2) /\
   (r.1.2 = mx \/ r.1.2 ∈ found)).
Proof.
  induction files as [|itemptr files IH]; intros mn mx nd; simpl.
  - split; (split; [lia|]); (split; [|by left]); intros f Hf;
      by apply elem_of_nil in Hf.
  - destruct (BLI_path_frame_get (RNA_string_get_alloc itemptr "name") nd)
      as [[frame|] nd'].
    + destruct (IH (Z.min mn frame) (Z.max mx frame) nd')
        as [(Hle & Hall & Hin) (Hge & Hall' & Hin')].
      cbv zeta in *.
      set (r := fold_left minmax_frame_step files _) in *.
      split; (split; [lia|]); split.
      * intros f Hf. apply elem_of_cons in Hf as [->|Hf]; [lia|auto].
      * destruct Hin as [Hin|Hin]; [|right; by right].
        destruct (Z.min_spec mn frame) as [[_ Hm]|[_ Hm]]; rewrite Hm in Hin;
          [by left|right; rewrite Hin; by left].
      * intros f Hf. apply elem_of_cons in Hf as [->|Hf]; [lia|auto].
      * destruct Hin' as [Hin'|Hin']; [|right; by right].
        destruct (Z.max_spec mx frame) as [[_ Hm]|[_ Hm]];
          rewrite Hm in Hin'; [right; rewrite Hin'; by left|by left].
    + apply IH.
Qed.

End ImageFrameFacts.

(** X8: the range of frames [sequencer_image_seq_get_minmax_frame] makes
    of the numbered files.  When the names of [files] hold frame numbers
    (all of them [int]s, one at least below [INT_MAX]), [*r_minframe] is
    the least frame number found; and for the greatest one [mx], the
    length returned is [mx - minframe + 1] when that fits an [int], so that
    every frame number found lies in the range of [len] frames from
    [minframe].  When no name holds a frame number (or each one found is
    [INT_MAX]), [*r_minframe] is the start frame [sfra] and the length
    returned is 2, for any [sfra] below [INT_MAX]. *)
Theorem image_seq_minmax_covers_found_frames
    {P PropertyRNA : Type} {rna : RnaApi P PropertyRNA} {frames : FrameApi}
    (op : wmOperator P) (sfra : Z) :
  let found := frames_found (RNA_collection_items (op_ptr op) "files") 0 in
  let r := sequencer_image_seq_get_minmax_frame op sfra in
  let len := r.1.1 in
  let minframe := r.1.2 in
  ((exists f, f ∈ found /\ f < INT_MAX) -> Forall is_int found ->
     minframe ∈ found /\
     (forall f, f ∈ found -> minframe <= f) /\
     (forall mx, mx ∈ found -> (forall f, f ∈ found -> f <= mx) ->
        is_int (mx - minframe + 1) ->
        len = mx - minframe + 1 /\ 1 <= len /\
        forall f, f ∈ found -> minframe <= f < minframe + len)) /\
  ((forall f, f ∈ found -> f = INT_MAX) ->
     minframe = sfra /\ (INT_MIN <= sfra < INT_MAX -> len = 2)).
Proof.
  intros found r len minframe.
  unfold len, minframe, r, sequencer_image_seq_get_minmax_frame.
  destruct (minmax_frame_fold (RNA_collection_items (op_ptr op) "files")
              INT_MAX INT_MIN 0)
    as [(Hle & Hall & Hin) (Hge & Hall' & Hin')].
  cbv zeta in *. fold found in Hall, Hin, Hall', Hin'.
  destruct (fold_left minmax_frame_step _ _) as [[mn mx'] nd].
  simpl in Hle, Hall, Hin, Hge, Hall', Hin'. split.
  - intros (f0 & Hf0 & Hlt) Hint.
    assert (Hmn : mn < INT_MAX) by (specialize (Hall _ Hf0); lia).
    destruct (Z.eqb_spec mn INT_MAX) as [|_]; [lia|]. simpl.
    destruct Hin as [|Hin]; [lia|]. split; [exact Hin|].
    split; [exact Hall|]. intros mx Hmx Hmax Hfit.
    assert (Hmx' : mx' = mx).
    { destruct Hin' as [Hmin|Hin'].
      - rewrite Forall_forall in Hint. pose proof (Hint _ Hmx) as Hi.
        pose proof (Hall' _ Hmx). unfold is_int in Hi. lia.
      - pose proof (Hmax _ Hin'). pose proof (Hall' _ Hmx). lia. }
    subst mx'. pose proof (Hall _ Hmx) as Hmnmx.
    assert (is_int (mx - mn))
      by (unfold is_int, INT_MIN, INT_MAX in *; lia).
    rewrite int_sub_small, int_add_small by done.
    split; [done|]. split; [lia|]. intros f Hf.
    pose proof (Hall' _ Hf). pose proof (Hall _ Hf). lia.
  - intros Hnone.
    assert (Hmn : mn = INT_MAX).
    { destruct Hin as [|Hin]; [done|]. by apply Hnone. }
    subst mn. rewrite Z.eqb_refl. simpl. split; [done|]. intros Hs.
    rewrite (int_add_small sfra 1)
      by (unfold is_int, INT_MIN, INT_MAX in *; lia).
    rewrite int_sub_small by (unfold is_int, INT_MIN, INT_MAX; lia).
    rewrite int_add_small by (unfold is_int, INT_MIN, INT_MAX; lia). lia.
Qed.

Section ImagePlaceholderFacts.
Context {P PropertyRNA : Type} {rna : RnaApi P PropertyRNA}
        {frames : FrameApi}.

(** The range of the frames found, with the greatest of them. *)
Lemma image_seq_minmax_range (op : wmOperator P) (sfra : Z) :
  let found := frames_found (RNA_collection_items (op_ptr op) "files") 0 in
  let r := sequencer_image_seq_get_minmax_frame op sfra in
  (exists f, f ∈ found /\ f < INT_MAX) -> Forall is_int found ->
  (forall a b, a ∈ found -> b ∈ found -> b - a < INT_MAX) ->
  exists mx,
    mx ∈ found /\ (forall f, f ∈ found -> f <= mx) /\
    r.1.2 ∈ found /\ (forall f, f ∈ found -> r.1.2 <= f) /\
    r.1.1 = mx - r.1.2 + 1.
Proof.
  intros found r (f0 & Hf0 & Hlt) Hint Hspan.
  unfold r, sequencer_image_seq_get_minmax_frame.
  destruct (minmax_frame_fold (RNA_collection_items (op_ptr op) "files")
              INT_MAX INT_MIN 0)
    as [(Hle & Hall & Hin) (Hge & Hall' & Hin')].
  cbv zeta in *. fold found in Hall, Hin, Hall', Hin'.
  destruct (fold_left minmax_frame_step _ _) as [[mn mx] nd].
  simpl in Hle, Hall, Hin, Hge, Hall', Hin'.
  rewrite Forall_forall in Hint.
  assert (Hmn : mn < INT_MAX) by (specialize (Hall _ Hf0); lia).
  destruct (Z.eqb_spec mn INT_MAX) as [|_]; [lia|]. simpl.
  destruct Hin as [|Hin]; [lia|].
  assert (Hmx : mx ∈ found).
  { destruct Hin' as [Hmin|Hin']; [|done].
    pose proof (Hint _ Hf0) as Hi. pose proof (Hall' _ Hf0).
    unfold is_int in Hi. replace mx with f0 by lia. done. }
  exists mx. split; [done|]. split; [done|]. split; [done|].
  split; [done|]. pose proof (Hspan _ _ Hin Hmx). pose proof (Hall _ Hmx).
  rewrite int_sub_small, int_add_small;
    unfold is_int, INT_MIN, INT_MAX in *; lia.
Qed.

End ImagePlaceholderFacts.

(** X9: the placeholders cover the numbered files.  When the names of
    [files] hold frame numbers ([int]s, one at least below [INT_MAX],
    spanning fewer than [INT_MAX] frames), the length and the first frame
    that [sequencer_image_seq_get_minmax_frame] computes make
    [sequencer_image_seq_reserve_frames] write exactly [len] names, and
    every frame number [f] found has its placeholder among them, at the
    element [f - minframe]: the name of the first file with [f] as its
    frame number. *)
Theorem image_seq_placeholders_cover_found_frames
    {P PropertyRNA : Type} {rna : RnaApi P PropertyRNA} {frames : FrameApi}
    (op : wmOperator P) (sfra : Z) :
  let found := frames_found (RNA_collection_items (op_ptr op) "files") 0 in
  let r := sequencer_image_seq_get_minmax_frame op sfra in
  let len := r.1.1 in
  let minframe := r.1.2 in
  let numdigits := r.2 in
  let names := sequencer_image_seq_reserve_frames op len minframe numdigits in
  (exists f, f ∈ found /\ f < INT_MAX) -> Forall is_int found ->
  (forall a b, a ∈ found -> b ∈ found -> b - a < INT_MAX) ->
  1 <= len /\ length names = Z.to_nat len /\
  forall f, f ∈ found ->
    0 <= f - minframe < len /\
    is_Some (names !! Z.to_nat (f - minframe)) /\
    names !! Z.to_nat (f - minframe) = placeholder_name op f numdigits.
Proof.
  intros found r len minframe numdigits names Hex Hint Hspan.
  destruct (image_seq_minmax_range op sfra Hex Hint Hspan)
    as (mx & Hmx & Hmax & Hmin & Hleast & Hlen).
  fold found r in Hmx, Hmax, Hmin, Hleast, Hlen.
  fold len minframe in Hmin, Hleast, Hlen.
  pose proof (Hleast _ Hmx) as Hle.
  assert (Hfiles : RNA_collection_items (op_ptr op) "files" <> []).
  { intros Hnil. unfold found in Hmx. rewrite Hnil in Hmx.
    by apply elem_of_nil in Hmx. }
  unfold names, sequencer_image_seq_reserve_frames, placeholder_name.
  destruct (RNA_collection_items (op_ptr op) "files") as [|itemptr rest];
    [done|].
  destruct (BLI_path_frame_strip _) as [filename ext].
  split; [lia|]. split; [by rewrite length_fmap, length_seqZ|].
  intros f Hf. pose proof (Hleast _ Hf). pose proof (Hmax _ Hf).
  assert (Hrange : 0 <= f - minframe < len) by lia.
  split; [exact Hrange|].
  rewrite list_lookup_fmap, lookup_seqZ_lt by (rewrite Z2Nat.id; lia).
  rewrite Z2Nat.id by lia. simpl.
  rewrite Forall_forall in Hint. pose proof (Hint _ Hf) as Hi.
  replace (0 + (f - minframe)) with (f - minframe) by lia.
  rewrite int_add_small
    by (by replace (minframe + (f - minframe)) with f by lia).
  replace (minframe + (f - minframe)) with f by lia. by split.
Qed.

Lemma image_seq_placeholders_cover_found_frames_witness :
  let r :=
    sequencer_image_seq_get_minmax_frame (rna := Samples.sample_rna)
      (frames := sample_frames) sample_image_op 1 in
  let names :=
    sequencer_image_seq_reserve_frames (rna := Samples.sample_rna)
      (frames := sample_frames) sample_image_op r.1.1 r.1.2 r.2 in
  r = (5, 3, 4) /\ length names = 5%nat /\
  names !! 4%nat =
    placeholder_name (rna := Samples.sample_rna) (frames := sample_frames)
      sample_image_op 7 4.
Proof.
  intros r names.
  assert (Hfound : frames_found (rna := Samples.sample_rna)
                     (frames := sample_frames)
                     (RNA_collection_items (RnaApi := Samples.sample_rna)
                        (op_ptr sample_image_op) "files") 0
                   = [7; 3]) by (by vm_compute).
  assert (Hex : exists f,
             f ∈ frames_found (rna := Samples.sample_rna)
                   (frames := sample_frames)
                   (RNA_collection_items (RnaApi := Samples.sample_rna)
                        (op_ptr sample_image_op) "files") 0
             /\ f < INT_MAX).
  { exists 7. rewrite Hfound. split; [by left|done]. }
  assert (Hint : Forall is_int
             (frames_found (rna := Samples.sample_rna)
                (frames := sample_frames)
                (RNA_collection_items (RnaApi := Samples.sample_rna)
                        (op_ptr sample_image_op) "files") 0)).
  { rewrite Hfound. repeat constructor; unfold INT_MIN, INT_MAX; lia. }
  assert (Hspan : forall a b,
             a ∈ frames_found (rna := Samples.sample_rna)
                   (frames := sample_frames)
                   (RNA_collection_items (RnaApi := Samples.sample_rna)
                        (op_ptr sample_image_op) "files") 0 ->
             b ∈ frames_found (rna := Samples.sample_rna)
                   (frames := sample_frames)
                   (RNA_collection_items (RnaApi := Samples.sample_rna)
                        (op_ptr sample_image_op) "files") 0 ->
             b - a < INT_MAX).
  { rewrite Hfound. intros a b Ha Hb.
    assert (3 <= a <= 7 /\ 3 <= b <= 7); [|unfold INT_MAX; lia].
    rewrite !elem_of_cons, !elem_of_nil in Ha, Hb. lia. }
  destruct (image_seq_placeholders_cover_found_frames
              (rna := Samples.sample_rna) (frames := sample_frames)
              sample_image_op 1 Hex Hint Hspan) as (_ & Hlen & Hcover).
  assert (Hr : r = (5, 3, 4)) by (by vm_compute).
  fold r names in Hlen, Hcover. split; [exact Hr|].
  rewrite Hr in Hlen, Hcover. simpl in Hlen, Hcover.
  split; [exact Hlen|].
  assert (H7 : 7 ∈ frames_found (rna := Samples.sample_rna)
                     (frames := sample_frames)
                     (RNA_collection_items (RnaApi := Samples.sample_rna)
                        (op_ptr sample_image_op) "files") 0)
    by (rewrite Hfound; by left).
  destruct (Hcover 7 H7) as (_ & _ & Hname). exact Hname.
Defined.

(** *** Running the operators with the longer call record *)

Section OpRunFacts.
Context {L : Type}.

Lemma op_run_bind {A B} (m : MO L A) (k : A -> MO L B) (w : World L) :
  (m ≫= k) w =
  ((k (m w).1.1 (m w).1.2).1.1,
   (k (m w).1.1 (m w).1.2).1.2,
   (m w).2 ++ (k (m w).1.1 (m w).1.2).2).
Proof.
  unfold mbind, MO_bind. destruct (m w) as [[a w1] t1]. simpl.
  by destruct (k a w1) as [[b w2] t2].
Qed.

Lemma op_result_bind {A B} (m : MO L A) (k : A -> MO L B) w :
  op_result (m ≫= k) w = op_result (k (op_result m w)) (op_world_after m w).
Proof. unfold op_result. by rewrite op_run_bind. Qed.

Lemma op_world_after_bind {A B} (m : MO L A) (k : A -> MO L B) w :
  op_world_after (m ≫= k) w =
  op_world_after (k (op_result m w)) (op_world_after m w).
Proof. unfold op_world_after, op_result. by rewrite op_run_bind. Qed.

Lemma op_calls_bind {A B} (m : MO L A) (k : A -> MO L B) w :
  op_calls (m ≫= k) w =
  op_calls m w ++ op_calls (k (op_result m w)) (op_world_after m w).
Proof. unfold op_calls, op_world_after, op_result. by rewrite op_run_bind. Qed.

Lemma op_calls_lift {A} (m : M L A) w :
  op_calls (lift m) w = Ev_base <$> calls m w.
Proof. reflexivity. Qed.
Lemma op_result_lift {A} (m : M L A) w : op_result (lift m) w = result m w.
Proof. reflexivity. Qed.
Lemma op_world_after_lift {A} (m : M L A) w :
  op_world_after (lift m) w = world_after m w.
Proof. reflexivity. Qed.

Lemma op_calls_call f e (w : World L) : op_calls (op_call f e) w = [e].
Proof. reflexivity. Qed.
Lemma op_world_after_call f e (w : World L) :
  op_world_after (op_call f e) w = f w.
Proof. reflexivity. Qed.
Lemma op_calls_call_ret {A} (f : World L -> A * World L) e w :
  op_calls (op_call_ret f e) w = [e (f w).1].
Proof. reflexivity. Qed.
Lemma op_result_call_ret {A} (f : World L -> A * World L) e w :
  op_result (op_call_ret f e) w = (f w).1.
Proof. reflexivity. Qed.
Lemma op_world_after_call_ret {A} (f : World L -> A * World L) e w :
  op_world_after (op_call_ret f e) w = (f w).2.
Proof. reflexivity. Qed.
Lemma op_calls_ask {A} (f : World L -> A) e w :
  op_calls (op_ask f e) w = [e (f w)].
Proof. reflexivity. Qed.
Lemma op_result_ask {A} (f : World L -> A) e w :
  op_result (op_ask f e) w = f w.
Proof. reflexivity. Qed.
Lemma op_world_after_ask {A} (f : World L -> A) e w :
  op_world_after (op_ask f e) w = w.
Proof. reflexivity. Qed.
Lemma op_calls_read {A} (f : World L -> A) w : op_calls (op_read f) w = [].
Proof. reflexivity. Qed.
Lemma op_result_read {A} (f : World L -> A) w :
  op_result (op_read f) w = f w.
Proof. reflexivity. Qed.
Lemma op_world_after_read {A} (f : World L -> A) w :
  op_world_after (op_read f) w = w.
Proof. reflexivity. Qed.
Lemma op_calls_ret {A} (a : A) (w : World L) :
  op_calls (mret a : MO L A) w = [].
Proof. reflexivity. Qed.
Lemma op_result_ret {A} (a : A) (w : World L) :
  op_result (mret a : MO L A) w = a.
Proof. reflexivity. Qed.
Lemma op_world_after_ret {A} (a : A) (w : World L) :
  op_world_after (mret a : MO L A) w = w.
Proof. reflexivity. Qed.

(** The recorded calls of [M] within a longer record. *)
Lemma base_of_lifted (t : list Event) : omap base_of (Ev_base <$> t) = t.
Proof. induction t as [|e t IH]; [done|]. simpl. f_equal. exact IH. Qed.

Lemma elem_of_lifted (e : Event) (t : list Event) :
  Ev_base e ∈ Ev_base <$> t <-> e ∈ t.
Proof.
  rewrite list_elem_of_fmap. split; [|by eauto].
  by intros (e' & [= <-] & Hin).
Qed.

Lemma not_lifted (e : OpEvent) (t : list Event) :
  base_of e = None -> e ∉ Ev_base <$> t.
Proof.
  intros He Hin. apply list_elem_of_fmap in Hin as (e' & -> & _). done.
Qed.

End OpRunFacts.

(** Runs the binds, lifts, calls and reads at the head of a goal. *)
Ltac op_simpl :=
  repeat first
    [ rewrite op_calls_bind | rewrite op_world_after_bind
    | rewrite op_result_bind
    | rewrite op_calls_lift | rewrite op_result_lift
    | rewrite op_world_after_lift
    | rewrite op_calls_call | rewrite op_world_after_call
    | rewrite op_calls_call_ret | rewrite op_result_call_ret
    | rewrite op_world_after_call_ret
    | rewrite op_calls_ask | rewrite op_result_ask
    | rewrite op_world_after_ask
    | rewrite op_calls_read | rewrite op_result_read
    | rewrite op_world_after_read
    | rewrite op_calls_ret | rewrite op_result_ret
    | rewrite op_world_after_ret ].

Section OpAvoidsFacts.
Context {L : Type}.

Lemma op_avoids_ret bad {A} (a : A) : op_avoids bad (mret a : MO L A).
Proof. intros w. constructor. Qed.

Lemma op_avoids_bind bad {A B} (m : MO L A) (k : A -> MO L B) :
  op_avoids bad m -> (forall a, op_avoids bad (k a)) ->
  op_avoids bad (m ≫= k).
Proof.
  intros Hm Hk w. rewrite op_calls_bind. apply Forall_app. split; [apply Hm|].
  apply Hk.
Qed.

Lemma op_avoids_lift bad {A} (m : M L A) :
  avoids (fun e => bad (Ev_base e)) m -> op_avoids bad (lift m).
Proof.
  intros Hm w. rewrite op_calls_lift. apply Forall_fmap.
  eapply Forall_impl; [apply Hm|]. by intros e He.
Qed.

Lemma op_avoids_call bad f e :
  bad e = false -> op_avoids bad (op_call (L := L) f e).
Proof. intros He w. by repeat constructor. Qed.

Lemma op_avoids_call_ret bad {A} (f : World L -> A * World L) e :
  (forall a, bad (e a) = false) -> op_avoids bad (op_call_ret f e).
Proof. intros He w. by repeat constructor. Qed.

Lemma op_avoids_ask bad {A} (f : World L -> A) e :
  (forall a, bad (e a) = false) -> op_avoids bad (op_ask f e).
Proof. intros He w. by repeat constructor. Qed.

Lemma op_avoids_read bad {A} (f : World L -> A) : op_avoids bad (op_read f).
Proof. intros w. constructor. Qed.

Lemma op_avoids_loop bad {A S} (l : list A) (body : A -> S -> MO L S) :
  (forall x s, op_avoids bad (body x s)) ->
  forall s, op_avoids bad (op_loop l body s).
Proof.
  intros Hb. induction l as [|x l IH]; intros s; simpl.
  - apply op_avoids_ret.
  - apply op_avoids_bind; [apply Hb|]. intros s'. apply IH.
Qed.

Lemma op_avoids_not_in bad {A} (m : MO L A) w e :
  op_avoids bad m -> bad e = true -> e ∉ op_calls m w.
Proof.
  intros Hm He Hin. specialize (Hm w). rewrite Forall_forall in Hm.
  specialize (Hm _ Hin). congruence.
Qed.

Lemma op_avoids_filter bad {A} (m : MO L A) w :
  op_avoids bad m -> List.filter bad (op_calls m w) = [].
Proof.
  intros Hm. specialize (Hm w).
  induction Hm as [|e l He _ IH]; [done|]. simpl. by rewrite He.
Qed.

End OpAvoidsFacts.

(** Breaks a goal [op_avoids bad m] down along the structure of [m]. *)
Ltac op_avoids_step :=
  first
    [ apply op_avoids_ret
    | apply op_avoids_read
    | apply op_avoids_call; reflexivity
    | apply op_avoids_call_ret; intros; reflexivity
    | apply op_avoids_ask; intros; reflexivity
    | apply op_avoids_bind; [|intros]
    | apply op_avoids_loop; intros
    | progress case_match ].

Ltac op_avoids_auto := repeat op_avoids_step.

(** *** Adding a strip with a new scene *)

Section NewSceneFacts.
Context {consts : Constants} {P PropertyRNA : Type}
        {rna : RnaApi P PropertyRNA} {paths : PathApi}
        {L : Type} {seqlib : SeqLib L} {oplib : OperatorLib L}.

Lemma deselect_if_replacing_avoids bad (op : wmOperator P) :
  bad Ev_deselect_all = false ->
  avoids bad (deselect_if_replacing (L := L) op).
Proof.
  intros Hd. unfold deselect_if_replacing.
  case_match; [by apply avoids_call|apply avoids_ret].
Qed.

Lemma scene_strip_new_exec_no_report (op : wmOperator P) :
  op_avoids is_base_report (sequencer_add_scene_strip_new_exec op).
Proof.
  unfold sequencer_add_scene_strip_new_exec.
  apply op_avoids_bind; [by apply op_avoids_lift, avoids_call|]. intros _.
  apply op_avoids_bind;
    [by apply op_avoids_lift, deselect_if_replacing_avoids|]. intros _.
  apply op_avoids_bind;
    [by apply op_avoids_lift, load_data_init_from_operator_avoids|].
  intros ld. apply op_avoids_bind; [by apply op_avoids_call_ret|].
  intros [sce|]; [|apply op_avoids_ret].
  apply op_avoids_bind; [by apply op_avoids_lift, avoids_call_ret|].
  intros seq.
  apply op_avoids_bind;
    [by apply op_avoids_lift, seq_load_apply_generic_options_avoids|].
  intros _. repeat (apply op_avoids_bind;
                      [by apply op_avoids_lift, avoids_call|intros _]).
  apply op_avoids_ret.
Qed.

End NewSceneFacts.

(** X10: [sequencer_add_scene_strip_new_exec] is cancelled exactly when
    [ED_scene_sequencer_add] returns [NULL]; by then it has cleared the
    selection (with [replace_sel]) and run [load_data_init_from_operator],
    and the cancelled run ends with the call that failed: no strip is
    added, nothing is tagged, and nothing is ever reported.  When the
    scene is created the strip is added for that scene, and the operator
    returns [OPERATOR_FINISHED]. *)
Theorem scene_strip_new_exec_cancels_after_deselect
    {consts : Constants} {P PropertyRNA : Type} {rna : RnaApi P PropertyRNA}
    {paths : PathApi} {L : Type} {seqlib : SeqLib L} {oplib : OperatorLib L}
    (op : wmOperator P) (w : World L) :
  let run := sequencer_add_scene_strip_new_exec op in
  let init := load_data_init_from_operator op in
  let w0 := world_after (deselect_if_replacing op) (SEQ_editing_ensure w) in
  let type := RNA_enum_get (op_ptr op) "type" in
  let created := ED_scene_sequencer_add type (world_after init w0) in
  let before :=
    Ev_base <$> (Ev_editing_ensure ::
                 calls (deselect_if_replacing op) (SEQ_editing_ensure w) ++
                 calls init w0) in
  (op_result run w = OPERATOR_CANCELLED <-> created.1 = None) /\
  (created.1 = None ->
     op_calls run w = before ++ [Ev_scene_sequencer_add type None] /\
     op_world_after run w = created.2) /\
  (forall sce, created.1 = Some sce ->
     op_result run w = OPERATOR_FINISHED /\
     let load_data := with_scene (Some sce) (result init w0) in
     exists rest,
       op_calls run w =
         before ++ Ev_scene_sequencer_add type (Some sce) ::
         Ev_base (Ev_add_scene_strip load_data
                    (SEQ_add_scene_strip load_data created.2).1) :: rest) /\
  (forall t msg, Ev_base (Ev_report t msg) ∉ op_calls run w) /\
  (RNA_boolean_get (op_ptr op) "replace_sel" = true ->
     Ev_base Ev_deselect_all ∈ before).
Proof.
  intros run init w0 type created before.
  assert (Hrun : op_calls run w =
            before ++ Ev_scene_sequencer_add type created.1 ::
            op_calls (match created.1 with
                      | None => mret OPERATOR_CANCELLED
                      | Some sce =>
                        let load_data :=
                          with_scene (Some sce) (result init w0) in
                        seq ← lift (call_ret (SEQ_add_scene_strip load_data)
                                      (Ev_add_scene_strip load_data));
                        lift (seq_load_apply_generic_options op seq) ;;
                        lift (call DEG_id_tag_update Ev_deg_id_tag_update) ;;
                        lift (call DEG_relations_tag_update
                                Ev_deg_relations_tag_update) ;;
                        lift (call WM_event_add_notifier
                                Ev_event_add_notifier) ;;
                        mret OPERATOR_FINISHED
                      end) created.2 /\
          op_result run w =
            match created.1 with
            | None => OPERATOR_CANCELLED
            | Some _ => OPERATOR_FINISHED
            end /\
          (created.1 = None -> op_world_after run w = created.2)).
  { unfold run, sequencer_add_scene_strip_new_exec. op_simpl.
    rewrite ?world_after_call, ?calls_call. fold init w0 type.
    fold created. unfold before. rewrite !fmap_cons, fmap_nil, fmap_app.
    cbn [app]. rewrite <- !app_assoc.
    split; [done|]. destruct created.1; by op_simpl. }
  destruct Hrun as (Hcalls & Hres & Hworld). rewrite Hres, Hcalls.
  split; [by destruct created.1|]. split.
  { intros Hnone. rewrite Hnone. split; [done|by apply Hworld]. }
  split.
  { intros sce Hsome. rewrite Hsome. split; [done|]. cbv zeta. op_simpl.
    run_simpl. simpl. by eexists. }
  split.
  - intros t msg. rewrite <- Hcalls.
    apply (op_avoids_not_in is_base_report); [|done].
    apply scene_strip_new_exec_no_report.
  - intros Hrs. unfold before. rewrite elem_of_lifted. right.
    apply elem_of_app. left. unfold deselect_if_replacing. rewrite Hrs.
    by left.
Qed.

(** *** Adding movie clip and mask strips *)

Section ClipMaskFacts.
Context {consts : Constants} {P PropertyRNA : Type}
        {rna : RnaApi P PropertyRNA} {paths : PathApi}
        {L : Type} {seqlib : SeqLib L} {oplib : OperatorLib L}.

(** What both operators do once the data-block is found, but for the
    insertion itself: nothing of it adds a strip, reports or updates the
    relations. *)
Lemma before_insertion_avoids bad (op : wmOperator P) :
  bad (Ev_base Ev_deselect_all) = false ->
  (forall m, bad (Ev_base (Ev_fit_method_set m)) = false) ->
  op_avoids bad (lift (deselect_if_replacing op)) /\
  op_avoids bad (lift (load_data_init_from_operator (L := L) op)).
Proof.
  intros Hd Hf.
  split; apply op_avoids_lift;
    [by apply deselect_if_replacing_avoids
    |by apply load_data_init_from_operator_avoids].
Qed.

Lemma after_insertion_avoids bad (op : wmOperator P) seq :
  (forall p, bad (Ev_base (Ev_select_active_set p)) = false) ->
  (forall p r, bad (Ev_base (Ev_test_overlap p r)) = false) ->
  (forall col b, bad (Ev_base (Ev_handle_overlap col b)) = false) ->
  (forall p, bad (Ev_base (Ev_seqbase_shuffle p)) = false) ->
  bad (Ev_base Ev_deg_id_tag_update) = false ->
  bad (Ev_base Ev_event_add_notifier) = false ->
  op_avoids bad
    (lift (seq_load_apply_generic_options (L := L) op seq) ;;
     lift (call DEG_id_tag_update Ev_deg_id_tag_update) ;;
     lift (call WM_event_add_notifier Ev_event_add_notifier) ;;
     mret OPERATOR_FINISHED).
Proof.
  intros Hs Ht Hh Hsh Hdeg Hn.
  apply op_avoids_bind;
    [by apply op_avoids_lift, seq_load_apply_generic_options_avoids|].
  intros _. apply op_avoids_bind; [by apply op_avoids_lift, avoids_call|].
  intros _. apply op_avoids_bind; [by apply op_avoids_lift, avoids_call|].
  intros _. apply op_avoids_ret.
Qed.

Lemma after_insertion_result (op : wmOperator P) seq (w : World L) :
  op_result
    (lift (seq_load_apply_generic_options op seq) ;;
     lift (call DEG_id_tag_update Ev_deg_id_tag_update) ;;
     lift (call WM_event_add_notifier Ev_event_add_notifier) ;;
     mret OPERATOR_FINISHED) w = OPERATOR_FINISHED.
Proof. by op_simpl. Qed.

(** What the two operators do once the data-block is found. *)
Local Abbreviation clip_found op clip :=
  (lift (deselect_if_replacing op) ;;
   load_data ← lift (load_data_init_from_operator op);
   seq ← op_call_ret (SEQ_add_movieclip_strip load_data clip)
                     (Ev_add_movieclip_strip load_data clip);
   lift (seq_load_apply_generic_options op seq) ;;
   lift (call DEG_id_tag_update Ev_deg_id_tag_update) ;;
   lift (call WM_event_add_notifier Ev_event_add_notifier) ;;
   mret OPERATOR_FINISHED).

Local Abbreviation mask_found op mask :=
  (lift (deselect_if_replacing op) ;;
   load_data ← lift (load_data_init_from_operator op);
   seq ← op_call_ret (SEQ_add_mask_strip load_data mask)
                     (Ev_add_mask_strip load_data mask);
   lift (seq_load_apply_generic_options op seq) ;;
   lift (call DEG_id_tag_update Ev_deg_id_tag_update) ;;
   lift (call WM_event_add_notifier Ev_event_add_notifier) ;;
   mret OPERATOR_FINISHED).

Lemma clip_found_avoids bad (op : wmOperator P) (clip : nat) :
  bad (Ev_base Ev_deselect_all) = false ->
  (forall m, bad (Ev_base (Ev_fit_method_set m)) = false) ->
  (forall ld r, bad (Ev_add_movieclip_strip ld clip r) = false) ->
  (forall p, bad (Ev_base (Ev_select_active_set p)) = false) ->
  (forall p r, bad (Ev_base (Ev_test_overlap p r)) = false) ->
  (forall col b, bad (Ev_base (Ev_handle_overlap col b)) = false) ->
  (forall p, bad (Ev_base (Ev_seqbase_shuffle p)) = false) ->
  bad (Ev_base Ev_deg_id_tag_update) = false ->
  bad (Ev_base Ev_event_add_notifier) = false ->
  op_avoids (L := L) bad (clip_found op clip).
Proof.
  intros Hd Hf Ha Hs Ht Hh Hsh Hdeg Hn.
  destruct (before_insertion_avoids bad op Hd Hf) as [H1 H2].
  apply op_avoids_bind; [exact H1|]. intros _.
  apply op_avoids_bind; [exact H2|]. intros ld.
  apply op_avoids_bind; [by apply op_avoids_call_ret|]. intros seq.
  by apply after_insertion_avoids.
Qed.

Lemma mask_found_avoids bad (op : wmOperator P) (mask : nat) :
  bad (Ev_base Ev_deselect_all) = false ->
  (forall m, bad (Ev_base (Ev_fit_method_set m)) = false) ->
  (forall ld r, bad (Ev_add_mask_strip ld mask r) = false) ->
  (forall p, bad (Ev_base (Ev_select_active_set p)) = false) ->
  (forall p r, bad (Ev_base (Ev_test_overlap p r)) = false) ->
  (forall col b, bad (Ev_base (Ev_handle_overlap col b)) = false) ->
  (forall p, bad (Ev_base (Ev_seqbase_shuffle p)) = false) ->
  bad (Ev_base Ev_deg_id_tag_update) = false ->
  bad (Ev_base Ev_event_add_notifier) = false ->
  op_avoids (L := L) bad (mask_found op mask).
Proof.
  intros Hd Hf Ha Hs Ht Hh Hsh Hdeg Hn.
  destruct (before_insertion_avoids bad op Hd Hf) as [H1 H2].
  apply op_avoids_bind; [exact H1|]. intros _.
  apply op_avoids_bind; [exact H2|]. intros ld.
  apply op_avoids_bind; [by apply op_avoids_call_ret|]. intros seq.
  by apply after_insertion_avoids.
Qed.

(** The one strip the found branch adds. *)
Lemma clip_found_added (op : wmOperator P) (clip : nat) (w : World L) :
  op_result (clip_found op clip) w = OPERATOR_FINISHED /\
  exists ld r,
    List.filter is_strip_added (op_calls (clip_found op clip) w) =
      [Ev_add_movieclip_strip ld clip r].
Proof.
  destruct (before_insertion_avoids is_strip_added op eq_refl
              ltac:(done)) as [H1 H2].
  split.
  - do 3 rewrite op_result_bind. apply after_insertion_result.
  - do 3 rewrite op_calls_bind. rewrite !List.filter_app.
    rewrite (op_avoids_filter _ _ _ H1), (op_avoids_filter _ _ _ H2).
    rewrite op_calls_call_ret.
    rewrite (op_avoids_filter is_strip_added)
      by (by apply after_insertion_avoids).
    simpl. by eexists _, _.
Qed.

Lemma mask_found_added (op : wmOperator P) (mask : nat) (w : World L) :
  op_result (mask_found op mask) w = OPERATOR_FINISHED /\
  exists ld r,
    List.filter is_strip_added (op_calls (mask_found op mask) w) =
      [Ev_add_mask_strip ld mask r].
Proof.
  destruct (before_insertion_avoids is_strip_added op eq_refl
              ltac:(done)) as [H1 H2].
  split.
  - do 3 rewrite op_result_bind. apply after_insertion_result.
  - do 3 rewrite op_calls_bind. rewrite !List.filter_app.
    rewrite (op_avoids_filter _ _ _ H1), (op_avoids_filter _ _ _ H2).
    rewrite op_calls_call_ret.
    rewrite (op_avoids_filter is_strip_added)
      by (by apply after_insertion_avoids).
    simpl. by eexists _, _.
Qed.

Lemma movieclip_strip_exec_run (op : wmOperator P) (w : World L) :
  let w0 := SEQ_editing_ensure w in
  sequencer_add_movieclip_strip_exec op w =
  match BLI_findlink_movieclips (RNA_enum_get (op_ptr op) "clip") w0 with
  | None =>
    (OPERATOR_CANCELLED, BKE_report RPT_ERROR "Movie clip not found" w0,
     [Ev_base Ev_editing_ensure;
      Ev_base (Ev_report RPT_ERROR "Movie clip not found")])
  | Some clip =>
    (op_result (clip_found op clip) w0,
     op_world_after (clip_found op clip) w0,
     Ev_base Ev_editing_ensure :: op_calls (clip_found op clip) w0)
  end.
Proof.
  intros w0. unfold sequencer_add_movieclip_strip_exec.
  rewrite op_run_bind. simpl. fold w0. rewrite op_run_bind. simpl.
  by destruct (BLI_findlink_movieclips _ w0).
Qed.

Lemma mask_strip_exec_run (op : wmOperator P) (w : World L) :
  let w0 := SEQ_editing_ensure w in
  sequencer_add_mask_strip_exec op w =
  match BLI_findlink_masks (RNA_enum_get (op_ptr op) "mask") w0 with
  | None =>
    (OPERATOR_CANCELLED, BKE_report RPT_ERROR "Mask not found" w0,
     [Ev_base Ev_editing_ensure;
      Ev_base (Ev_report RPT_ERROR "Mask not found")])
  | Some mask =>
    (op_result (mask_found op mask) w0,
     op_world_after (mask_found op mask) w0,
     Ev_base Ev_editing_ensure :: op_calls (mask_found op mask) w0)
  end.
Proof.
  intros w0. unfold sequencer_add_mask_strip_exec.
  rewrite op_run_bind. simpl. fold w0. rewrite op_run_bind. simpl.
  by destruct (BLI_findlink_masks _ w0).
Qed.

End ClipMaskFacts.

(** X11: the movie-clip and the mask add operators.  Each is cancelled
    exactly when its data-block (the [clip], the [mask] of [bmain] the enum
    property selects) is not found; it then reports its own error ("Movie
    clip not found", "Mask not found") and calls nothing else: the
    selection and the tool settings are untouched.  When the data-block is
    found the operator returns [OPERATOR_FINISHED], adds exactly one strip,
    for that data-block, reports nothing and, unlike the scene operator,
    never calls [DEG_relations_tag_update]. *)
Theorem clip_and_mask_exec_cancelled_iff_not_found
    {consts : Constants} {P PropertyRNA : Type} {rna : RnaApi P PropertyRNA}
    {paths : PathApi} {L : Type} {seqlib : SeqLib L} {oplib : OperatorLib L}
    (op : wmOperator P) (w : World L) :
  let w0 := SEQ_editing_ensure w in
  let cancelled (run : MO L OperatorResult) (msg : string) :=
    op_result run w = OPERATOR_CANCELLED /\
    op_calls run w =
      [Ev_base Ev_editing_ensure; Ev_base (Ev_report RPT_ERROR msg)] /\
    op_world_after run w = BKE_report RPT_ERROR msg w0 in
  let finished (run : MO L OperatorResult) (added : OpEvent -> Prop) :=
    op_result run w = OPERATOR_FINISHED /\
    (forall t msg, Ev_base (Ev_report t msg) ∉ op_calls run w) /\
    (Ev_base Ev_deg_relations_tag_update ∉ op_calls run w) /\
    exists e, added e /\ List.filter is_strip_added (op_calls run w) = [e] in
  match BLI_findlink_movieclips (RNA_enum_get (op_ptr op) "clip") w0 with
  | None =>
    cancelled (sequencer_add_movieclip_strip_exec op) "Movie clip not found"
  | Some clip =>
    finished (sequencer_add_movieclip_strip_exec op)
      (fun e => exists ld r, e = Ev_add_movieclip_strip ld clip r)
  end /\
  match BLI_findlink_masks (RNA_enum_get (op_ptr op) "mask") w0 with
  | None => cancelled (sequencer_add_mask_strip_exec op) "Mask not found"
  | Some mask =>
    finished (sequencer_add_mask_strip_exec op)
      (fun e => exists ld r, e = Ev_add_mask_strip ld mask r)
  end.
Proof.
  intros w0 cancelled finished. unfold cancelled, finished.
  unfold op_result, op_calls, op_world_after.
  rewrite movieclip_strip_exec_run, mask_strip_exec_run. fold w0. split.
  - destruct (BLI_findlink_movieclips _ w0) as [clip|]; [|done]. simpl.
    destruct (clip_found_added op clip w0) as (Hres & ld & r & Hadd).
    split; [exact Hres|]. split; [|split].
    + intros t msg Hin. apply elem_of_cons in Hin as [[=]|Hin]. revert Hin.
      apply (op_avoids_not_in is_base_report); [|done].
      by apply clip_found_avoids.
    + intros Hin. apply elem_of_cons in Hin as [[=]|Hin]. revert Hin.
      apply (op_avoids_not_in is_base_relations_update); [|done].
      by apply clip_found_avoids.
    + eexists. split; [by exists ld, r|exact Hadd].
  - destruct (BLI_findlink_masks _ w0) as [mask|]; [|done]. simpl.
    destruct (mask_found_added op mask w0) as (Hres & ld & r & Hadd).
    split; [exact Hres|]. split; [|split].
    + intros t msg Hin. apply elem_of_cons in Hin as [[=]|Hin]. revert Hin.
      apply (op_avoids_not_in is_base_report); [|done].
      by apply mask_found_avoids.
    + intros Hin. apply elem_of_cons in Hin as [[=]|Hin]. revert Hin.
      apply (op_avoids_not_in is_base_relations_update); [|done].
      by apply mask_found_avoids.
    + eexists. split; [by exists ld, r|exact Hadd].
Qed.

(** *** Adding image strips *)

Section ImageExecFacts.
Context {consts : Constants} {P PropertyRNA : Type}
        {rna : RnaApi P PropertyRNA} {paths : PathApi} {frames : FrameApi}
        {L : Type} {seqlib : SeqLib L} {oplib : OperatorLib L}.

(** A loop that makes one call for each element, counting from [i]. *)
Lemma op_loop_counting {A} (f : A -> Z -> World L -> World L)
    (e : A -> Z -> OpEvent) (l : list A) : forall (i : Z) (w : World L),
  op_calls (op_loop l (fun x i => op_call (f x i) (e x i) ;; mret (i + 1)) i)
    w = imap (fun k x => e x (i + Z.of_nat k)) l.
Proof.
  induction l as [|x l IH]; intros i w; [done|].
  simpl op_loop. op_simpl. rewrite IH. simpl.
  rewrite Z.add_0_r. f_equal. apply imap_ext. intros k y _. simpl.
  f_equal. lia.
Qed.

Lemma omap_imap_some {A B} (obs : OpEvent -> option B)
    (e : nat -> A -> OpEvent) (g : nat -> A -> B) (l : list A) :
  (forall k x, obs (e k x) = Some (g k x)) ->
  omap obs (imap e l) = imap g l.
Proof.
  revert e g. induction l as [|x l IH]; intros e g He; [done|].
  simpl. rewrite He. f_equal. apply IH. intros k y. apply He.
Qed.

Lemma omap_imap_none {A B} (obs : OpEvent -> option B)
    (e : nat -> A -> OpEvent) (l : list A) :
  (forall k x, obs (e k x) = None) -> omap obs (imap e l) = [].
Proof.
  revert e. induction l as [|x l IH]; intros e He; [done|].
  simpl. rewrite He. apply IH. intros k y. apply He.
Qed.

End ImageExecFacts.

(** X12: how [sequencer_add_image_strip_load_files] fills an image strip.
    It sets the strip's directory first, to the directory part of the
    descriptor's path.  Without placeholders it then loads every entry of
    [files] once, in order, the entry [k] (counting from 0) as the frame
    [k] of the strip, and writes no element name; with placeholders it
    loads no file and writes the names that
    [sequencer_image_seq_reserve_frames] makes to the elements 0, 1, ...
    of the strip, in order. *)
Theorem image_strip_load_files_in_order
    {P PropertyRNA : Type} {rna : RnaApi P PropertyRNA} {frames : FrameApi}
    {L : Type} {oplib : OperatorLib L}
    (op : wmOperator P) (seq : ptr) (load_data : SeqLoadData)
    (minframe numdigits : Z) (w : World L) :
  let tr :=
    op_calls (sequencer_add_image_strip_load_files op seq load_data
                minframe numdigits) w in
  let directory := BLI_path_split_dir_part (path load_data) FILE_MAXDIR in
  (exists rest, tr = Ev_image_set_directory seq directory :: rest) /\
  if RNA_boolean_get (op_ptr op) "use_placeholders" then
    omap image_load_of tr = [] /\
    omap elem_name_of tr =
      imap (fun k name => (seq, Z.of_nat k, name))
        (sequencer_image_seq_reserve_frames op (image_len load_data)
           minframe numdigits)
  else
    omap elem_name_of tr = [] /\
    omap image_load_of tr =
      imap (fun k itemptr =>
              (seq, Z.of_nat k, RNA_string_get_alloc itemptr "name"))
        (RNA_collection_items (op_ptr op) "files").
Proof.
  intros tr directory. unfold tr, sequencer_add_image_strip_load_files.
  fold directory. rewrite op_calls_bind, op_calls_call, op_world_after_call.
  split; [by eexists|].
  destruct (RNA_boolean_get (op_ptr op) "use_placeholders").
  - rewrite op_calls_bind, op_calls_ret, app_nil_r.
    rewrite (op_loop_counting (fun name i => StripElem_name_set seq i name)
               (fun name i => Ev_strip_elem_name seq i name)).
    simpl. split; [by apply omap_imap_none|]. by apply omap_imap_some.
  - rewrite op_calls_bind, op_calls_ret, app_nil_r.
    rewrite (op_loop_counting
               (fun itemptr i =>
                  SEQ_add_image_load_file seq i
                    (RNA_string_get_alloc itemptr "name"))
               (fun itemptr i =>
                  Ev_image_load_file seq i
                    (RNA_string_get_alloc itemptr "name"))).
    simpl. split; [by apply omap_imap_none|]. by apply omap_imap_some.
Qed.

Section ImageStripExecFacts.
Context {consts : Constants} {P PropertyRNA : Type}
        {rna : RnaApi P PropertyRNA} {paths : PathApi} {frames : FrameApi}
        {L : Type} {seqlib : SeqLib L} {oplib : OperatorLib L}.

Lemma image_strip_load_files_avoids bad (op : wmOperator P) seq ld mn nd :
  (forall p d, bad (Ev_image_set_directory p d) = false) ->
  (forall p i n, bad (Ev_strip_elem_name p i n) = false) ->
  (forall p i n, bad (Ev_image_load_file p i n) = false) ->
  op_avoids (L := L) bad
    (sequencer_add_image_strip_load_files op seq ld mn nd).
Proof.
  intros Hd He Hl. unfold sequencer_add_image_strip_load_files.
  apply op_avoids_bind; [by apply op_avoids_call|]. intros _.
  case_match.
  - apply op_avoids_bind; [|intros; apply op_avoids_ret].
    apply op_avoids_loop. intros name i.
    apply op_avoids_bind; [by apply op_avoids_call|]. intros _.
    apply op_avoids_ret.
  - apply op_avoids_bind; [|intros; apply op_avoids_ret].
    apply op_avoids_loop. intros itemptr i.
    apply op_avoids_bind; [by apply op_avoids_call|]. intros _.
    apply op_avoids_ret.
Qed.

(** What the operator does once the length is known not to be 0. *)
Local Abbreviation image_add op load_data minframe numdigits :=
  (lift (deselect_if_replacing op) ;;
   seq ← op_call_ret (SEQ_add_image_strip load_data)
                     (Ev_add_image_strip load_data);
   sequencer_add_image_strip_load_files op seq load_data minframe
     numdigits ;;
   op_call (SEQ_add_image_init_alpha_mode seq)
           (Ev_image_init_alpha_mode seq) ;;
   (if image_len load_data =? 1 then
      lift (call (SEQ_time_right_handle_frame_set seq
                    (image_end_frame load_data))
                 (Ev_right_handle_frame_set seq (image_end_frame load_data)))
    else mret tt) ;;
   lift (seq_load_apply_generic_options op (Some seq)) ;;
   lift (call DEG_id_tag_update Ev_deg_id_tag_update) ;;
   lift (call WM_event_add_notifier Ev_event_add_notifier) ;;
   mret OPERATOR_FINISHED).

Lemma image_strip_exec_run (op : wmOperator P) (w : World L) :
  let run := sequencer_add_image_strip_exec op in
  let w0 := SEQ_editing_ensure w in
  let init := load_data_init_from_operator op in
  let calc :=
    sequencer_add_image_strip_calculate_length op
      (start_frame (result init w0)) in
  let load_data := with_image_len calc.1.1 (result init w0) in
  let before := Ev_base <$> (Ev_editing_ensure :: calls init w0) in
  let add := image_add op load_data calc.1.2 calc.2 in
  if calc.1.1 =? 0 then
    op_result run w = OPERATOR_CANCELLED /\
    op_world_after run w = world_after init w0 /\
    op_calls run w = before
  else
    op_result run w = op_result add (world_after init w0) /\
    op_world_after run w = op_world_after add (world_after init w0) /\
    op_calls run w = before ++ op_calls add (world_after init w0).
Proof.
  intros run w0 init calc load_data before add.
  unfold run, sequencer_add_image_strip_exec.
  do 2 rewrite op_result_bind, op_world_after_bind, op_calls_bind.
  rewrite !op_result_lift, !op_world_after_lift, !op_calls_lift.
  rewrite world_after_call, calls_call. fold w0 init. fold calc.
  unfold add, load_data, before. destruct calc as [[len mn] nd].
  change (image_len (with_image_len ?l ?d)) with l. cbn [fst snd].
  rewrite !fmap_cons, fmap_nil. cbn [app].
  destruct (len =? 0); [op_simpl; by rewrite app_nil_r|done].
Qed.

Lemma image_add_run (op : wmOperator P) load_data mn nd (w : World L) :
  let add := image_add op load_data mn nd in
  let seq := (SEQ_add_image_strip load_data
                (world_after (deselect_if_replacing op) w)).1 in
  op_result add w = OPERATOR_FINISHED /\
  List.filter is_strip_added (op_calls add w) =
    [Ev_add_image_strip load_data seq] /\
  List.filter is_base_handle_set (op_calls add w) =
    (if image_len load_data =? 1
     then [Ev_base (Ev_right_handle_frame_set seq
                      (image_end_frame load_data))]
     else []) /\
  List.filter is_base_report (op_calls add w) = [] /\
  (RNA_boolean_get (op_ptr op) "replace_sel" = true ->
   exists rest, op_calls add w = Ev_base Ev_deselect_all :: rest).
Proof.
  intros add seq. unfold add.
  split; [by op_simpl|].
  rewrite op_calls_bind, op_world_after_lift.
  rewrite op_calls_bind, op_calls_call_ret, op_result_call_ret,
    op_world_after_call_ret. fold seq.
  set (w1 := (SEQ_add_image_strip load_data _).2).
  rewrite op_calls_bind.
  set (files := sequencer_add_image_strip_load_files op seq load_data mn nd).
  rewrite op_calls_bind, op_calls_call, op_world_after_call.
  rewrite op_calls_bind.
  set (handle := if image_len load_data =? 1 then _ else _).
  set (w2 := SEQ_add_image_init_alpha_mode seq _).
  set (rest := _ ≫= _).
  assert (Hrest : forall bad,
            (forall p, bad (Ev_base (Ev_select_active_set p)) = false) ->
            (forall p r, bad (Ev_base (Ev_test_overlap p r)) = false) ->
            (forall col b, bad (Ev_base (Ev_handle_overlap col b)) = false) ->
            (forall p, bad (Ev_base (Ev_seqbase_shuffle p)) = false) ->
            bad (Ev_base Ev_deg_id_tag_update) = false ->
            bad (Ev_base Ev_event_add_notifier) = false ->
            List.filter bad (op_calls rest (op_world_after handle w2)) = []).
  { intros bad ? ? ? ? ? ?. apply op_avoids_filter.
    by apply after_insertion_avoids. }
  assert (Hfiles : forall bad,
            (forall p d, bad (Ev_image_set_directory p d) = false) ->
            (forall p i n, bad (Ev_strip_elem_name p i n) = false) ->
            (forall p i n, bad (Ev_image_load_file p i n) = false) ->
            List.filter bad (op_calls files w1) = []).
  { intros bad ? ? ?. apply op_avoids_filter.
    by apply image_strip_load_files_avoids. }
  assert (Hdesel : forall bad,
            bad (Ev_base Ev_deselect_all) = false ->
            List.filter bad (op_calls (lift (deselect_if_replacing op)) w)
            = []).
  { intros bad ?. apply op_avoids_filter, op_avoids_lift.
    by apply deselect_if_replacing_avoids. }
  rewrite !List.filter_app, !Hrest, !Hfiles, !Hdesel by done.
  unfold handle. split_and!.
  - by destruct (image_len load_data =? 1).
  - by destruct (image_len load_data =? 1).
  - by destruct (image_len load_data =? 1).
  - intros Hrs. rewrite op_calls_lift. unfold deselect_if_replacing.
    rewrite Hrs. by eexists.
Qed.

End ImageStripExecFacts.


(** *** Adding effect strips *)

Section EffectExecFacts.
Context {consts : Constants} {opconsts : OperatorConstants}
        {P PropertyRNA : Type} {rna : RnaApi P PropertyRNA}
        {rnaset : RnaSetApi P} {paths : PathApi}
        {L : Type} {seqlib : SeqLib L} {oplib : OperatorLib L}.

(** What the operator does once the inputs are found. *)
Local Abbreviation effect_add op load_data type seq1 seq2 seq3 :=
  (lift (deselect_if_replacing op) ;;
   let effect := mkEffectData type seq1 seq2 seq3 in
   chosen ← op_read (effect_channel op seq1 seq2 seq3 load_data);
   seq ← op_call_ret (SEQ_add_effect_strip chosen effect)
                     (Ev_add_effect_strip chosen effect);
   lift (seq_load_apply_generic_options op (Some seq)) ;;
   seq_type ← op_read (fun w => seq_type <$> strips w !! seq);
   (if bool_decide (seq_type = Some SEQ_TYPE_COLOR) then
      let col := RNA_float_get_array (op_ptr op) "color" in
      op_call (SolidColorVars_col_set seq col) (Ev_color_set seq col)
    else mret tt) ;;
   lift (call DEG_id_tag_update Ev_deg_id_tag_update) ;;
   lift (call WM_event_add_notifier Ev_event_add_notifier) ;;
   mret OPERATOR_FINISHED).

Lemma effect_strip_exec_run (op : wmOperator P) (w : World L) :
  let run := sequencer_add_effect_strip_exec op in
  let w0 := SEQ_editing_ensure w in
  let init := load_data_init_from_operator op in
  let w1 := world_after init w0 in
  let type := RNA_enum_get (op_ptr op) "type" in
  let found := seq_effect_find_selected type w1 in
  let before :=
    (Ev_base <$> (Ev_editing_ensure :: calls init w0)) ++
    [Ev_effect_find_selected type found] in
  match found with
  | Inputs_error msg =>
    op_result run w = OPERATOR_CANCELLED /\
    op_world_after run w = BKE_report RPT_ERROR msg w1 /\
    op_calls run w = before ++ [Ev_base (Ev_report RPT_ERROR msg)]
  | Inputs_found seq1 seq2 seq3 =>
    let add := effect_add op (result init w0) type seq1 seq2 seq3 in
    op_result run w = op_result add w1 /\
    op_world_after run w = op_world_after add w1 /\
    op_calls run w = before ++ op_calls add w1
  end.
Proof.
  intros run w0 init w1 type found before.
  unfold run, sequencer_add_effect_strip_exec.
  do 3 rewrite op_result_bind, op_world_after_bind, op_calls_bind.
  rewrite !op_result_lift, !op_world_after_lift, !op_calls_lift.
  rewrite world_after_call, calls_call. fold w0 init. fold w1. fold type.
  rewrite op_result_ask, op_world_after_ask, op_calls_ask. fold found.
  unfold before. rewrite !fmap_cons, fmap_nil. cbn [app].
  rewrite <- ?app_assoc. cbn [app].
  destruct found as [seq1 seq2 seq3|msg];
    [split_and!; try done; by rewrite <- app_assoc|].
  op_simpl. rewrite <- ?app_assoc. done.
Qed.

Lemma effect_add_run (op : wmOperator P) load_data type seq1 seq2 seq3
    (w : World L) :
  let add := effect_add op load_data type seq1 seq2 seq3 in
  let w2 := world_after (deselect_if_replacing op) w in
  let load_data' := effect_channel op seq1 seq2 seq3 load_data w2 in
  let effect := mkEffectData type seq1 seq2 seq3 in
  op_result add w = OPERATOR_FINISHED /\
  List.filter is_strip_added (op_calls add w) =
    [Ev_add_effect_strip load_data' effect
       (SEQ_add_effect_strip load_data' effect w2).1] /\
  List.filter is_base_report (op_calls add w) = [].
Proof.
  intros add w2 load_data' effect. unfold add.
  split; [by op_simpl|].
  rewrite op_calls_bind, op_world_after_lift. fold w2. cbv zeta.
  rewrite op_calls_bind, op_calls_read, op_result_read, op_world_after_read.
  fold load_data'. fold effect.
  rewrite op_calls_bind, op_calls_call_ret, op_result_call_ret,
    op_world_after_call_ret.
  set (seq := (SEQ_add_effect_strip load_data' effect w2).1).
  set (w3 := (SEQ_add_effect_strip load_data' effect w2).2).
  rewrite op_calls_bind, op_world_after_lift.
  rewrite op_calls_bind, op_calls_read, op_result_read, op_world_after_read.
  rewrite op_calls_bind.
  set (colour := if bool_decide _ then _ else _).
  set (w4 := world_after _ w3).
  assert (Hcol : forall bad,
            (forall p c, bad (Ev_color_set p c) = false) ->
            List.filter bad (op_calls colour w4) = []).
  { intros bad Hc. unfold colour. case_bool_decide; [|done].
    simpl. by rewrite Hc. }
  assert (Hgen : forall bad,
            (forall p, bad (Ev_base (Ev_select_active_set p)) = false) ->
            (forall p r, bad (Ev_base (Ev_test_overlap p r)) = false) ->
            (forall col b, bad (Ev_base (Ev_handle_overlap col b)) = false) ->
            (forall p, bad (Ev_base (Ev_seqbase_shuffle p)) = false) ->
            List.filter bad
              (op_calls (lift (seq_load_apply_generic_options op (Some seq)))
                 w3) = []).
  { intros bad ? ? ? ?. apply op_avoids_filter, op_avoids_lift.
    by apply seq_load_apply_generic_options_avoids. }
  assert (Hdesel : forall bad,
            bad (Ev_base Ev_deselect_all) = false ->
            List.filter bad (op_calls (lift (deselect_if_replacing op)) w)
            = []).
  { intros bad ?. apply op_avoids_filter, op_avoids_lift.
    by apply deselect_if_replacing_avoids. }
  rewrite !List.filter_app, !Hcol, !Hgen, !Hdesel by done.
  by op_simpl.
Qed.

Lemma effect_channel_value (op : wmOperator P) seq1 seq2 seq3 load_data
    (w : World L) :
  let chan :=
    Z.max (Z.max (machine_or_zero w seq1) (machine_or_zero w seq2))
      (machine_or_zero w seq3) in
  let load_data' := effect_channel op seq1 seq2 seq3 load_data w in
  channel load_data' =
    (if negb (RNA_struct_property_is_set (op_ptr op) "channel")
        && bool_decide (is_Some seq1) && (chan <? MAXSEQ)
     then chan else channel load_data) /\
  start_frame load_data' = start_frame load_data /\
  effect_end_frame load_data' = effect_end_frame load_data /\
  flags load_data' = flags load_data.
Proof.
  intros chan load_data'. unfold load_data', effect_channel. fold chan.
  destruct (RNA_struct_property_is_set (op_ptr op) "channel"); [done|].
  destruct seq1 as [s1|]; [|done]. simpl.
  by destruct (chan <? MAXSEQ).
Qed.

End EffectExecFacts.




(** *** The selection, in every add-strip exec *)

Section SelectionTraceFacts.

Lemma inserted_is_selection_call e p :
  inserted_strip_of e = Some p -> is_selection_call e = true.
Proof. destruct e as [[]| | | | | | | | | | |]; by try discriminate. Qed.

Lemma deselect_all_is e :
  is_base_deselect_all e = true -> e = Ev_base Ev_deselect_all.
Proof. destruct e as [[]| | | | | | | | | | |]; by try discriminate. Qed.

Lemma selection_handled_nil rs d : selection_handled rs d [].
Proof.
  destruct rs; simpl.
  - intros pre e post p Heq. by destruct pre.
  - split; [|intros q]; apply not_elem_of_nil.
Qed.

Lemma selection_handled_mono rs d tr :
  selection_handled rs d tr -> selection_handled rs true tr.
Proof.
  destruct rs; simpl; [|done]. intros H pre e post p Heq Hins.
  destruct (H pre e post p Heq Hins) as [_ Hsel]. split; [by left|done].
Qed.

Lemma selection_handled_app rs d t1 t2 :
  selection_handled rs d t1 ->
  selection_handled rs (d || existsb is_base_deselect_all t1) t2 ->
  selection_handled rs d (t1 ++ t2).
Proof.
  destruct rs; simpl.
  - intros H1 H2 pre e post p Heq Hins.
    apply app_eq_inv in Heq as [(k & -> & Hk)|(k & -> & Hk)].
    + destruct k as [|x k]; simpl in Hk.
      * subst t2. destruct (H2 [] e post p eq_refl Hins) as [Hd Hsel].
        rewrite app_nil_r in Hd. split; [|done]. destruct Hd as [Hd|Hd].
        -- apply orb_true_iff in Hd as [Hd|Hd]; [by left|right].
           apply existsb_exists in Hd as (x & Hx & Hdes).
           apply deselect_all_is in Hdes as ->.
           by apply list_elem_of_In.
        -- by apply elem_of_nil in Hd.
      * injection Hk as <- ->.
        destruct (H1 pre e k p eq_refl Hins) as [Hd Hsel]. split; [done|].
        apply elem_of_app. by left.
    + destruct (H2 k e post p Hk Hins) as [Hd Hsel]. split; [|done].
      destruct Hd as [Hd|Hd].
      * apply orb_true_iff in Hd as [Hd|Hd]; [by left|right].
        apply existsb_exists in Hd as (x & Hx & Hdes).
        apply deselect_all_is in Hdes as ->.
        apply elem_of_app. left. by apply list_elem_of_In.
      * right. apply elem_of_app. by right.
  - intros [Hd1 Hs1] [Hd2 Hs2]. split.
    + rewrite elem_of_app. tauto.
    + intros q. rewrite elem_of_app. specialize (Hs1 q). specialize (Hs2 q).
      tauto.
Qed.

Lemma selection_handled_app_same rs d t1 t2 :
  selection_handled rs d t1 -> selection_handled rs d t2 ->
  selection_handled rs d (t1 ++ t2).
Proof.
  intros H1 H2. apply selection_handled_app; [done|].
  destruct d; [done|]. simpl.
  destruct (existsb is_base_deselect_all t1);
    [by apply (selection_handled_mono _ false)|done].
Qed.

(** Calls that neither insert a strip nor touch the selection. *)
Lemma selection_handled_neutral rs d tr :
  Forall (fun e => is_selection_call e = false) tr ->
  selection_handled rs d tr.
Proof.
  intros Hall. rewrite Forall_forall in Hall. destruct rs; simpl.
  - intros pre e post p -> Hins.
    apply inserted_is_selection_call in Hins.
    rewrite Hall in Hins; [done|]. apply elem_of_app. right. by left.
  - split; [|intros q]; intros Hin; by apply Hall in Hin.
Qed.

(** [ED_sequencer_deselect_all], called when [replace_sel] asks for it,
    and what comes after it. *)
Lemma selection_handled_deselect (rs : bool) d tr :
  selection_handled rs true tr ->
  selection_handled rs d
    ((if rs then [Ev_base Ev_deselect_all] else []) ++ tr).
Proof.
  intros H. apply selection_handled_app.
  - destruct rs; [|apply selection_handled_nil]. simpl.
    intros pre e post p Heq Hins.
    destruct pre as [|x [|y pre]]; try done.
    injection Heq as <- _. done.
  - destruct rs; simpl; [by rewrite orb_true_r|done].
Qed.

(** An insertion, and the calls after it. *)
Lemma selection_handled_insert rs e tr :
  is_strip_added e = true ->
  selection_handled rs true tr ->
  (rs = true -> forall p, inserted_strip_of e = Some p ->
                Ev_base (Ev_select_active_set p) ∈ tr) ->
  selection_handled rs true (e :: tr).
Proof.
  intros Hadd H Hsel. destruct rs; simpl in *.
  - intros pre e' post p Heq Hins. destruct pre as [|x pre].
    + injection Heq as <- <-. split; [by left|]. by apply Hsel.
    + injection Heq as <- ->.
      destruct (H pre e' post p eq_refl Hins) as [_ Hs]. split; [by left|done].
  - destruct H as [Hd Hs]. split.
    + rewrite elem_of_cons. intros [<-|?]; done.
    + intros q. rewrite elem_of_cons. intros [<-|?]; [done|].
      by apply (Hs q).
Qed.

(** [SEQ_select_active_set], called when [replace_sel] asks for it. *)
Lemma selection_handled_select (rs : bool) d q :
  selection_handled rs d
    (if rs then [Ev_base (Ev_select_active_set q)] else []).
Proof.
  destruct rs; [|apply selection_handled_nil]. simpl.
  intros pre e post p Heq Hins.
  destruct pre as [|x [|y pre]]; try done. by injection Heq as <- _.
Qed.

Lemma selection_handled_replaces tr :
  selection_handled true false tr <-> replaces_selection tr.
Proof.
  unfold replaces_selection. simpl. split; intros H pre e post p Heq Hins;
    destruct (H pre e post p Heq Hins) as [Hd Hs]; (split; [|done]).
  - by destruct Hd.
  - by right.
Qed.

End SelectionTraceFacts.


Section SelectionRunFacts.
Context {consts : Constants} {P PropertyRNA : Type}
        {rna : RnaApi P PropertyRNA} {paths : PathApi}
        {L : Type} {seqlib : SeqLib L}.

(** [replace_sel], as every exec reads it. *)
Local Abbreviation replacing op := (RNA_boolean_get (op_ptr op) "replace_sel").

Lemma handles_selection_ret rs d {A} (a : A) :
  handles_selection rs d (mret a : M L A).
Proof. intros w. apply selection_handled_nil. Qed.

Lemma handles_selection_bind rs d {A B} (m : M L A) (k : A -> M L B) :
  handles_selection rs d m -> (forall a, handles_selection rs d (k a)) ->
  handles_selection rs d (m ≫= k).
Proof.
  intros Hm Hk w. rewrite calls_bind, fmap_app.
  apply selection_handled_app_same; [apply Hm|apply Hk].
Qed.

Lemma handles_selection_mono rs d {A} (m : M L A) :
  handles_selection rs d m -> handles_selection rs true m.
Proof. intros Hm w. by apply (selection_handled_mono rs d). Qed.

Lemma handles_selection_avoids rs d {A} (m : M L A) :
  avoids (fun e => is_selection_call (Ev_base e)) m ->
  handles_selection rs d m.
Proof.
  intros Hm w. apply selection_handled_neutral, Forall_fmap. apply Hm.
Qed.

Lemma handles_selection_loop rs d {A S} (l : list A)
    (body : A -> S -> M L S) :
  (forall x s, handles_selection rs d (body x s)) ->
  forall s, handles_selection rs d (loop l body s).
Proof.
  intros Hbody. induction l as [|x l IH]; intros s; simpl.
  - apply handles_selection_ret.
  - apply handles_selection_bind; [apply Hbody|apply IH].
Qed.

(** The deselection every exec starts its insertions with. *)
Lemma handles_selection_deselect (op : wmOperator P) d {A}
    (k : unit -> M L A) :
  (forall a, handles_selection (replacing op) true (k a)) ->
  handles_selection (replacing op) d
    ((if replacing op
      then call ED_sequencer_deselect_all Ev_deselect_all
      else mret tt) ≫= k).
Proof.
  intros Hk w. rewrite calls_bind, fmap_app.
  replace (Ev_base <$> calls (if replacing op then _ else _) w)
    with (if replacing op then [Ev_base Ev_deselect_all] else [])
    by by destruct (replacing op).
  apply selection_handled_deselect, Hk.
Qed.

Lemma in_calls_bind_l {A B} (m : M L A) (k : A -> M L B) e (w : World L) :
  e ∈ calls m w -> e ∈ calls (m ≫= k) w.
Proof. intros He. rewrite calls_bind, elem_of_app. by left. Qed.

Lemma in_calls_bind_r {A B} (m : M L A) (k : A -> M L B) e (w : World L) :
  e ∈ calls (k (result m w)) (world_after m w) -> e ∈ calls (m ≫= k) w.
Proof. intros He. rewrite calls_bind, elem_of_app. by right. Qed.

(** The insertion of a strip by a call that may fail. *)
Lemma handles_selection_insert rs {A} (f : World L -> option ptr * World L)
    (ev : option ptr -> Event) (k : option ptr -> M L A) :
  (forall r, inserted_strip_of (Ev_base (ev r)) = r) ->
  (forall r, is_strip_added (Ev_base (ev r)) = true) ->
  (forall r, handles_selection rs true (k r)) ->
  (rs = true -> forall p w, Ev_select_active_set p ∈ calls (k (Some p)) w) ->
  handles_selection rs true (call_ret f ev ≫= k).
Proof.
  intros Hins Hadd Hk Hsel w.
  rewrite calls_bind, calls_call_ret, result_call_ret, world_after_call_ret.
  simpl. apply selection_handled_insert; [apply Hadd|apply Hk|].
  intros Hrs p Hp. rewrite Hins in Hp. rewrite Hp.
  apply list_elem_of_fmap_2. by apply Hsel.
Qed.

(** The post-processing of a new strip. *)
Lemma handles_selection_select_new_strip (op : wmOperator P) d q :
  handles_selection (L := L) (replacing op) d (select_new_strip op q).
Proof.
  intros w. unfold calls. rewrite select_new_strip_run.
  replace (Ev_base <$> (if replacing op then _ else _).2)
    with (if replacing op then [Ev_base (Ev_select_active_set q)] else [])
    by by destruct (replacing op).
  apply selection_handled_select.
Qed.

Lemma handles_selection_generic (op : wmOperator P) d seq :
  handles_selection (L := L) (replacing op) d
    (seq_load_apply_generic_options op seq).
Proof.
  unfold seq_load_apply_generic_options.
  destruct seq as [q|]; [|apply handles_selection_ret].
  apply handles_selection_bind;
    [apply handles_selection_select_new_strip|]. intros _.
  apply handles_selection_avoids. by apply resolve_overlap_avoids.
Qed.

Lemma handles_selection_only_test (op : wmOperator P) d seq col :
  handles_selection (L := L) (replacing op) d
    (seq_load_apply_generic_options_only_test_overlap op seq col).
Proof.
  unfold seq_load_apply_generic_options_only_test_overlap.
  destruct seq as [q|]; [|apply handles_selection_ret].
  apply handles_selection_bind;
    [apply handles_selection_select_new_strip|]. intros _.
  apply handles_selection_avoids. avoids_auto.
Qed.

Lemma generic_selects (op : wmOperator P) q (w : World L) :
  replacing op = true ->
  Ev_select_active_set q ∈ calls (seq_load_apply_generic_options op (Some q)) w.
Proof.
  intros Hrs. unfold seq_load_apply_generic_options.
  apply in_calls_bind_l. rewrite select_new_strip_calls by done. by left.
Qed.

Lemma only_test_selects (op : wmOperator P) q col (w : World L) :
  replacing op = true ->
  Ev_select_active_set q
  ∈ calls (seq_load_apply_generic_options_only_test_overlap op (Some q) col) w.
Proof.
  intros Hrs. unfold seq_load_apply_generic_options_only_test_overlap.
  apply in_calls_bind_l. rewrite select_new_strip_calls by done. by left.
Qed.

End SelectionRunFacts.


Section SelectionMovieFacts.
Context {consts : Constants} {P PropertyRNA : Type}
        {rna : RnaApi P PropertyRNA} {paths : PathApi}
        {L : Type} {seqlib : SeqLib L}.

Local Abbreviation replacing op := (RNA_boolean_get (op_ptr op) "replace_sel").

(** The sound block of the movie imports, and what follows it. *)
Lemma handles_selection_movie_sound (op : wmOperator P) ld seq_movie {A}
    (k : option ptr -> M L A) :
  (forall s, handles_selection (replacing op) true (k s)) ->
  (replacing op = true ->
   forall q w, Ev_select_active_set q ∈ calls (k (Some q)) w) ->
  handles_selection (replacing op) true
    (movie_add_sound op ld seq_movie ≫= k).
Proof.
  intros Hk Hsel w. rewrite calls_bind, fmap_app.
  destruct (RNA_boolean_get (op_ptr op) "sound") eqn:Hsound.
  - pose proof (movie_add_sound_run op ld seq_movie w Hsound) as Hrun.
    cbv zeta in Hrun.
    destruct (SEQ_add_sound_strip ld w).1 as [s|].
    + destruct Hrun as (-> & -> & ->). simpl.
      apply selection_handled_insert; [done| |].
      * apply (selection_handled_app_same _ _ [_; _]); [|apply Hk].
        apply selection_handled_neutral. by repeat constructor.
      * intros Hrs p [= <-]. do 2 right.
        apply list_elem_of_fmap_2. by apply Hsel.
    + destruct Hrun as (-> & -> & ->). simpl.
      apply selection_handled_insert; [done|apply Hk|done].
  - unfold movie_add_sound. rewrite Hsound. simpl. apply Hk.
Qed.

Lemma handles_selection_movie_single (op : wmOperator P) ld col :
  handles_selection (replacing op) true
    (sequencer_add_movie_single_strip op ld col).
Proof.
  unfold sequencer_add_movie_single_strip.
  apply handles_selection_bind; [apply handles_selection_avoids; avoids_auto|].
  intros _. apply handles_selection_insert; [done|done| |].
  - intros [seq_movie|]; [|apply handles_selection_avoids; avoids_auto].
    apply handles_selection_movie_sound.
    + intros s. apply handles_selection_bind;
        [|intros; apply handles_selection_ret].
      case_match.
      * apply handles_selection_bind; [apply handles_selection_only_test|].
        intros [o1 c1]. apply handles_selection_bind;
          [apply handles_selection_only_test|].
        intros [o2 c2]. apply handles_selection_avoids. avoids_auto.
      * apply handles_selection_bind; [apply handles_selection_generic|].
        intros _. apply handles_selection_generic.
    + intros Hrs q w. apply in_calls_bind_l. case_match.
      * apply in_calls_bind_l. by apply only_test_selects.
      * apply in_calls_bind_l. by apply generic_selects.
  - intros Hrs p w. apply in_calls_bind_r, in_calls_bind_l. case_match.
    + apply in_calls_bind_r.
      destruct (result _ _) as [o1 c1]. apply in_calls_bind_l.
      by apply only_test_selects.
    + apply in_calls_bind_r. by apply generic_selects.
Qed.

Lemma handles_selection_movie_body (op : wmOperator P) oso itemptr st :
  handles_selection (replacing op) true (movie_multiple_body op oso itemptr st).
Proof.
  unfold movie_multiple_body. cbv zeta.
  apply handles_selection_insert; [done|done| |].
  - intros [seq_movie|]; [|apply handles_selection_avoids; avoids_auto].
    apply handles_selection_movie_sound.
    + intros s.
      apply handles_selection_bind; [apply handles_selection_avoids; avoids_auto|].
      intros right.
      apply handles_selection_bind; [apply handles_selection_avoids; avoids_auto|].
      intros left.
      apply handles_selection_bind;
        [|intros [h c]; apply handles_selection_ret].
      destruct oso.
      * apply handles_selection_bind; [apply handles_selection_only_test|].
        intros [o1 c1]. apply handles_selection_bind;
          [apply handles_selection_only_test|].
        intros [o2 c2]. apply handles_selection_ret.
      * apply handles_selection_bind; [apply handles_selection_generic|].
        intros _. apply handles_selection_bind;
          [apply handles_selection_generic|].
        intros _. apply handles_selection_ret.
    + intros Hrs q w. apply in_calls_bind_r, in_calls_bind_r, in_calls_bind_l.
      rewrite !world_after_read. destruct oso.
      * apply in_calls_bind_l. by apply only_test_selects.
      * apply in_calls_bind_l. by apply generic_selects.
  - intros Hrs p w.
    apply in_calls_bind_r, in_calls_bind_r, in_calls_bind_r, in_calls_bind_l.
    rewrite !world_after_read. destruct oso.
    + apply in_calls_bind_r.
      destruct (result _ _) as [o1 c1]. apply in_calls_bind_l.
      by apply only_test_selects.
    + apply in_calls_bind_r, in_calls_bind_l. by apply generic_selects.
Qed.

Lemma handles_selection_movie_multiple (op : wmOperator P) ld col :
  handles_selection (replacing op) true
    (sequencer_add_movie_multiple_strips op ld col).
Proof.
  unfold sequencer_add_movie_multiple_strips.
  apply handles_selection_bind; [apply handles_selection_avoids; avoids_auto|].
  intros _. apply handles_selection_bind.
  { apply handles_selection_loop. intros x s.
    apply handles_selection_movie_body. }
  intros st. apply handles_selection_avoids. avoids_auto.
Qed.

Lemma handles_selection_sound_single (op : wmOperator P) ld :
  handles_selection (replacing op) true
    (sequencer_add_sound_single_strip op ld).
Proof.
  unfold sequencer_add_sound_single_strip.
  apply handles_selection_bind; [apply handles_selection_avoids; avoids_auto|].
  intros _. apply handles_selection_insert; [done|done| |].
  - intros [seq|]; [|apply handles_selection_avoids; avoids_auto].
    apply handles_selection_bind; [apply handles_selection_generic|].
    intros _. apply handles_selection_ret.
  - intros Hrs p w. apply in_calls_bind_l. by apply generic_selects.
Qed.

Lemma handles_selection_sound_multiple (op : wmOperator P) ld :
  handles_selection (replacing op) true
    (sequencer_add_sound_multiple_strips op ld).
Proof.
  unfold sequencer_add_sound_multiple_strips.
  apply handles_selection_bind; [apply handles_selection_avoids; avoids_auto|].
  intros _. apply handles_selection_loop. intros itemptr load_data.
  unfold sound_multiple_body. cbv zeta.
  apply handles_selection_insert; [done|done| |].
  - intros [seq|]; [|apply handles_selection_avoids; avoids_auto].
    apply handles_selection_bind; [apply handles_selection_generic|].
    intros _. apply handles_selection_avoids. avoids_auto.
  - intros Hrs p w. apply in_calls_bind_l. by apply generic_selects.
Qed.

(** The three execs that make all their calls through [M]. *)
Lemma handles_selection_scene_exec (op : wmOperator P) :
  handles_selection (replacing op) false (sequencer_add_scene_strip_exec op).
Proof.
  unfold sequencer_add_scene_strip_exec.
  apply handles_selection_bind; [apply handles_selection_avoids; avoids_auto|].
  intros _.
  apply handles_selection_bind; [apply handles_selection_avoids; avoids_auto|].
  intros [sce|]; [|apply handles_selection_avoids; avoids_auto].
  apply handles_selection_deselect. intros _.
  apply handles_selection_bind.
  { apply handles_selection_avoids.
    by apply load_data_init_from_operator_avoids. }
  intros load_data. apply handles_selection_insert; [done|done| |].
  - intros r. apply handles_selection_bind; [apply handles_selection_generic|].
    intros _. apply handles_selection_avoids. avoids_auto.
  - intros Hrs p w. apply in_calls_bind_l. by apply generic_selects.
Qed.

Lemma handles_selection_movie_exec (op : wmOperator P) :
  handles_selection (replacing op) false (sequencer_add_movie_strip_exec op).
Proof.
  unfold sequencer_add_movie_strip_exec.
  apply handles_selection_bind.
  { apply handles_selection_avoids.
    by apply load_data_init_from_operator_avoids. }
  intros load_data. apply handles_selection_deselect. intros _.
  apply handles_selection_bind.
  { case_match.
    - apply handles_selection_bind; [apply handles_selection_movie_multiple|].
      intros r. apply handles_selection_ret.
    - apply handles_selection_bind; [apply handles_selection_movie_single|].
      intros r. apply handles_selection_ret. }
  intros movie_strips. case_match; [apply handles_selection_ret|].
  apply handles_selection_bind.
  { apply handles_selection_avoids. by apply seq_build_proxy_avoids. }
  intros _. apply handles_selection_avoids. avoids_auto.
Qed.

Lemma handles_selection_sound_exec (op : wmOperator P) :
  handles_selection (replacing op) false (sequencer_add_sound_strip_exec op).
Proof.
  unfold sequencer_add_sound_strip_exec.
  apply handles_selection_bind.
  { apply handles_selection_avoids.
    by apply load_data_init_from_operator_avoids. }
  intros load_data. apply handles_selection_deselect. intros _.
  apply handles_selection_bind.
  { unfold sound_import. cbv zeta. case_match.
    - apply handles_selection_bind; [apply handles_selection_sound_multiple|].
      intros r. apply handles_selection_ret.
    - apply handles_selection_sound_single. }
  intros imported. case_match; [apply handles_selection_ret|].
  apply handles_selection_avoids. avoids_auto.
Qed.

End SelectionMovieFacts.


Section SelectionOpFacts.
Context {consts : Constants} {opconsts : OperatorConstants}
        {P PropertyRNA : Type} {rna : RnaApi P PropertyRNA}
        {rnaset : RnaSetApi P} {paths : PathApi} {frames : FrameApi}
        {L : Type} {seqlib : SeqLib L} {oplib : OperatorLib L}.

Local Abbreviation replacing op := (RNA_boolean_get (op_ptr op) "replace_sel").

Lemma op_handles_selection_ret rs d {A} (a : A) :
  op_handles_selection rs d (mret a : MO L A).
Proof. intros w. apply selection_handled_nil. Qed.

Lemma op_handles_selection_bind rs d {A B} (m : MO L A) (k : A -> MO L B) :
  op_handles_selection rs d m ->
  (forall a, op_handles_selection rs d (k a)) ->
  op_handles_selection rs d (m ≫= k).
Proof.
  intros Hm Hk w. rewrite op_calls_bind.
  apply selection_handled_app_same; [apply Hm|apply Hk].
Qed.

Lemma op_handles_selection_lift rs d {A} (m : M L A) :
  handles_selection rs d m -> op_handles_selection rs d (lift m).
Proof. intros Hm w. apply Hm. Qed.

Lemma op_handles_selection_avoids rs d {A} (m : MO L A) :
  op_avoids is_selection_call m -> op_handles_selection rs d m.
Proof. intros Hm w. apply selection_handled_neutral, Hm. Qed.

Lemma op_handles_selection_deselect (op : wmOperator P) d {A}
    (k : unit -> MO L A) :
  (forall a, op_handles_selection (replacing op) true (k a)) ->
  op_handles_selection (replacing op) d
    (lift (deselect_if_replacing op) ≫= k).
Proof.
  intros Hk w. rewrite op_calls_bind, op_calls_lift.
  unfold deselect_if_replacing.
  replace (Ev_base <$> calls (if replacing op then _ else _) w)
    with (if replacing op then [Ev_base Ev_deselect_all] else [])
    by by destruct (replacing op).
  apply selection_handled_deselect, Hk.
Qed.

Lemma in_op_calls_bind_l {A B} (m : MO L A) (k : A -> MO L B) e
    (w : World L) :
  e ∈ op_calls m w -> e ∈ op_calls (m ≫= k) w.
Proof. intros He. rewrite op_calls_bind, elem_of_app. by left. Qed.

Lemma in_op_calls_bind_r {A B} (m : MO L A) (k : A -> MO L B) e
    (w : World L) :
  e ∈ op_calls (k (op_result m w)) (op_world_after m w) ->
  e ∈ op_calls (m ≫= k) w.
Proof. intros He. rewrite op_calls_bind, elem_of_app. by right. Qed.

(** The insertion of a strip, by one call, and what follows it. *)
Lemma op_handles_selection_insert rs {A B} (m : MO L A) (e : A -> OpEvent)
    (k : A -> MO L B) :
  (forall w, op_calls m w = [e (op_result m w)]) ->
  (forall a, is_strip_added (e a) = true) ->
  (forall a, op_handles_selection rs true (k a)) ->
  (rs = true -> forall a p w,
     inserted_strip_of (e a) = Some p ->
     Ev_base (Ev_select_active_set p) ∈ op_calls (k a) w) ->
  op_handles_selection rs true (m ≫= k).
Proof.
  intros Hm Hadd Hk Hsel w. rewrite op_calls_bind, Hm. simpl.
  apply selection_handled_insert; [apply Hadd|apply Hk|].
  intros Hrs p Hp. by apply (Hsel Hrs _ p).
Qed.

(** What every exec does once its strip is in: the post-processing, then
    the updates. *)
Lemma op_handles_selection_generic (op : wmOperator P) d seq :
  op_handles_selection (L := L) (replacing op) d
    (lift (seq_load_apply_generic_options op seq)).
Proof. apply op_handles_selection_lift, handles_selection_generic. Qed.

Lemma op_generic_selects (op : wmOperator P) q {A} (k : unit -> MO L A)
    (w : World L) :
  replacing op = true ->
  Ev_base (Ev_select_active_set q)
  ∈ op_calls (lift (seq_load_apply_generic_options op (Some q)) ≫= k) w.
Proof.
  intros Hrs. apply in_op_calls_bind_l. rewrite op_calls_lift.
  apply list_elem_of_fmap_2. by apply generic_selects.
Qed.

Lemma op_handles_selection_scene_new_exec (op : wmOperator P) :
  op_handles_selection (replacing op) false
    (sequencer_add_scene_strip_new_exec op).
Proof.
  unfold sequencer_add_scene_strip_new_exec.
  apply op_handles_selection_bind;
    [apply op_handles_selection_avoids; op_avoids_auto|].
  intros _. apply op_handles_selection_deselect. intros _.
  apply op_handles_selection_bind.
  { apply op_handles_selection_avoids, op_avoids_lift.
    by apply load_data_init_from_operator_avoids. }
  intros load_data. cbv zeta.
  apply op_handles_selection_bind;
    [apply op_handles_selection_avoids; op_avoids_auto|].
  intros [sce|]; [|apply op_handles_selection_ret].
  apply (op_handles_selection_insert _ _
           (fun r => Ev_base
                       (Ev_add_scene_strip (with_scene (Some sce) load_data)
                          r))); [done|done| |].
  - intros r. apply op_handles_selection_bind;
      [apply op_handles_selection_generic|].
    intros _. apply op_handles_selection_avoids.
    repeat (apply op_avoids_bind; [by apply op_avoids_lift, avoids_call|];
            intros _).
    apply op_avoids_ret.
  - intros Hrs r p w [= ->]. by apply op_generic_selects.
Qed.

Lemma op_handles_selection_after_insertion (op : wmOperator P) seq :
  op_handles_selection (L := L) (replacing op) true
    (lift (seq_load_apply_generic_options op seq) ;;
     lift (call DEG_id_tag_update Ev_deg_id_tag_update) ;;
     lift (call WM_event_add_notifier Ev_event_add_notifier) ;;
     mret OPERATOR_FINISHED).
Proof.
  apply op_handles_selection_bind; [apply op_handles_selection_generic|].
  intros _. apply op_handles_selection_avoids.
  repeat (apply op_avoids_bind; [by apply op_avoids_lift, avoids_call|];
          intros _).
  apply op_avoids_ret.
Qed.

Lemma op_handles_selection_movieclip_exec (op : wmOperator P) :
  op_handles_selection (replacing op) false
    (sequencer_add_movieclip_strip_exec op).
Proof.
  unfold sequencer_add_movieclip_strip_exec.
  apply op_handles_selection_bind;
    [apply op_handles_selection_avoids; op_avoids_auto|].
  intros _.
  apply op_handles_selection_bind;
    [apply op_handles_selection_avoids; op_avoids_auto|].
  intros [clip|].
  2:{ apply op_handles_selection_avoids.
      apply op_avoids_bind; [by apply op_avoids_lift, avoids_call|].
      intros _. apply op_avoids_ret. }
  apply op_handles_selection_deselect. intros _.
  apply op_handles_selection_bind.
  { apply op_handles_selection_avoids, op_avoids_lift.
    by apply load_data_init_from_operator_avoids. }
  intros load_data.
  apply (op_handles_selection_insert _ _
           (Ev_add_movieclip_strip load_data clip)); [done|done| |].
  - intros r. apply op_handles_selection_after_insertion.
  - intros Hrs r p w [= ->]. by apply op_generic_selects.
Qed.

Lemma op_handles_selection_mask_exec (op : wmOperator P) :
  op_handles_selection (replacing op) false
    (sequencer_add_mask_strip_exec op).
Proof.
  unfold sequencer_add_mask_strip_exec.
  apply op_handles_selection_bind;
    [apply op_handles_selection_avoids; op_avoids_auto|].
  intros _.
  apply op_handles_selection_bind;
    [apply op_handles_selection_avoids; op_avoids_auto|].
  intros [mask|].
  2:{ apply op_handles_selection_avoids.
      apply op_avoids_bind; [by apply op_avoids_lift, avoids_call|].
      intros _. apply op_avoids_ret. }
  apply op_handles_selection_deselect. intros _.
  apply op_handles_selection_bind.
  { apply op_handles_selection_avoids, op_avoids_lift.
    by apply load_data_init_from_operator_avoids. }
  intros load_data.
  apply (op_handles_selection_insert _ _
           (Ev_add_mask_strip load_data mask)); [done|done| |].
  - intros r. apply op_handles_selection_after_insertion.
  - intros Hrs r p w [= ->]. by apply op_generic_selects.
Qed.

Lemma op_handles_selection_image_exec (op : wmOperator P) :
  op_handles_selection (replacing op) false
    (sequencer_add_image_strip_exec op).
Proof.
  unfold sequencer_add_image_strip_exec.
  apply op_handles_selection_bind;
    [apply op_handles_selection_avoids; op_avoids_auto|].
  intros _. apply op_handles_selection_bind.
  { apply op_handles_selection_avoids, op_avoids_lift.
    by apply load_data_init_from_operator_avoids. }
  intros load_data.
  destruct (sequencer_add_image_strip_calculate_length op _)
    as [[len minframe] numdigits].
  cbv zeta. case_match; [apply op_handles_selection_ret|].
  apply op_handles_selection_deselect. intros _.
  apply (op_handles_selection_insert _ _
           (Ev_add_image_strip (with_image_len len load_data)));
    [done|done| |].
  - intros seq.
    apply op_handles_selection_bind.
    { apply op_handles_selection_avoids.
      by apply image_strip_load_files_avoids. }
    intros _. apply op_handles_selection_bind;
      [apply op_handles_selection_avoids; op_avoids_auto|].
    intros _. apply op_handles_selection_bind.
    { apply op_handles_selection_avoids. case_match; [|apply op_avoids_ret].
      by apply op_avoids_lift, avoids_call. }
    intros _. apply op_handles_selection_after_insertion.
  - intros Hrs seq p w [= ->].
    do 3 apply in_op_calls_bind_r. by apply op_generic_selects.
Qed.

Lemma op_handles_selection_effect_exec (op : wmOperator P) :
  op_handles_selection (replacing op) false
    (sequencer_add_effect_strip_exec op).
Proof.
  unfold sequencer_add_effect_strip_exec.
  apply op_handles_selection_bind;
    [apply op_handles_selection_avoids; op_avoids_auto|].
  intros _. apply op_handles_selection_bind.
  { apply op_handles_selection_avoids, op_avoids_lift.
    by apply load_data_init_from_operator_avoids. }
  intros load_data. cbv zeta.
  apply op_handles_selection_bind;
    [apply op_handles_selection_avoids; op_avoids_auto|].
  intros [seq1 seq2 seq3|msg].
  2:{ apply op_handles_selection_avoids.
      apply op_avoids_bind; [by apply op_avoids_lift, avoids_call|].
      intros _. apply op_avoids_ret. }
  apply op_handles_selection_deselect. intros _.
  apply op_handles_selection_bind;
    [apply op_handles_selection_avoids; op_avoids_auto|].
  intros chosen.
  apply (op_handles_selection_insert _ _
           (Ev_add_effect_strip chosen
              (mkEffectData (RNA_enum_get (op_ptr op) "type") seq1 seq2
                 seq3))); [done|done| |].
  - intros seq.
    apply op_handles_selection_bind; [apply op_handles_selection_generic|].
    intros _. apply op_handles_selection_avoids.
    apply op_avoids_bind; [apply op_avoids_read|]. intros seq_type.
    apply op_avoids_bind.
    { case_match; [by apply op_avoids_call|apply op_avoids_ret]. }
    intros _.
    repeat (apply op_avoids_bind; [by apply op_avoids_lift, avoids_call|];
            intros _).
    apply op_avoids_ret.
  - intros Hrs seq p w [= ->]. by apply op_generic_selects.
Qed.

End SelectionOpFacts.




End SequencerAddOperatorsFacts.


(** ** rna_curve.c: splines, their points, and the curve's links *)

Module RnaCurveSplinesFacts.
Import CInt RnaCurveSplines.
Import CIntFacts.

Section PointLookupFacts.
Context {cconsts : CurveConstants}.

(** The loop stops at the first spline whose array holds the address. *)
Lemma nurb_search_first (nurbs : list Nurb) (point i0 : Z) (i : nat) nu :
  nurbs !! i = Some nu ->
  point_in_nurb nu point = true ->
  first_holder nurbs i point ->
  0 <= i0 -> i0 + Z.of_nat (length nurbs) <= INT_MAX ->
  nurb_search nurbs point i0 = Some (nu, i0 + Z.of_nat i).
Proof.
  revert i0 i. induction nurbs as [|nu0 rest IH]; intros i0 i Hi Hin Hfirst
    Hlo Hhi; [done|].
  destruct i as [|i]; simpl in *.
  - injection Hi as ->. rewrite Hin. f_equal. f_equal. lia.
  - rewrite (Hfirst 0%nat nu0) by (done || lia).
    rewrite int_add_small by (unfold is_int, INT_MIN, INT_MAX in *; lia).
    rewrite (IH (i0 + 1) i); try done; try lia.
    + f_equal. f_equal. lia.
    + intros j nu' Hj Hnu'. apply (Hfirst (S j) nu'); [lia|done].
Qed.

Lemma nurb_search_none (nurbs : list Nurb) (point i0 : Z) :
  nurb_search nurbs point i0 = None <->
  Forall (fun nu => point_in_nurb nu point = false) nurbs.
Proof.
  revert i0. induction nurbs as [|nu rest IH]; intros i0; simpl.
  - split; [constructor|done].
  - destruct (point_in_nurb nu point) eqn:Hin.
    + split; [done|]. intros H. inversion H; congruence.
    + rewrite IH. split; [by constructor|]. intros H. by inversion H.
Qed.

Lemma nurb_search_some (nurbs : list Nurb) (point i0 : Z) nu i :
  nurb_search nurbs point i0 = Some (nu, i) ->
  nu ∈ nurbs /\ point_in_nurb nu point = true.
Proof.
  revert i0. induction nurbs as [|nu0 rest IH]; intros i0; simpl; [done|].
  destruct (point_in_nurb nu0 point) eqn:Hin.
  - intros [= -> ->]. split; [left|done].
  - intros H. destruct (IH _ H) as [? ?]. split; [by right|done].
Qed.

(** The elements of an array lie in it. *)
Lemma element_in_array base size count k :
  0 < size -> 0 <= k < count ->
  (base <=? element_address base size k)
  && (element_address base size k <? element_address base size count) = true.
Proof.
  intros Hsize Hk. unfold element_address.
  apply andb_true_intro. split; [apply Z.leb_le|apply Z.ltb_lt]; nia.
Qed.

(** The difference of the address of an element and the start of its array
    is the index of the element. *)
Lemma element_index base size k :
  0 < size -> is_int k ->
  wrap_int ((element_address base size k - base) `quot` size) = k.
Proof.
  intros Hsize Hk. unfold element_address.
  replace (base + k * size - base) with (k * size) by lia.
  rewrite Z.quot_mul by lia. by apply wrap_int_small.
Qed.

(** [curve_nurb_from_point] on the address of an element of a spline's
    array. *)
Lemma curve_nurb_from_point_element (nurbs : list Nurb) (i : nat) (nu : Nurb)
    (k : Z) :
  let bezier := nu_type nu =? CU_BEZIER in
  let point :=
    if bezier then element_address (bezt nu) sizeof_BezTriple k
    else element_address (bp nu) sizeof_BPoint k in
  let count := if bezier then pntsu nu else pntsu nu * pntsv nu in
  0 < sizeof_BezTriple -> 0 < sizeof_BPoint ->
  Z.of_nat (length nurbs) <= INT_MAX ->
  nurbs !! i = Some nu ->
  is_int count -> 0 <= k < count ->
  first_holder nurbs i point ->
  curve_nurb_from_point nurbs point = Some (nu, Z.of_nat i, k).
Proof.
  intros bezier point count Hbez Hbp Hlen Hi Hcount Hk Hfirst.
  assert (Hkint : is_int k) by (unfold is_int, INT_MIN, INT_MAX in *; lia).
  assert (Hin : point_in_nurb nu point = true).
  { unfold point_in_nurb, point, count, bezier in *.
    destruct (nu_type nu =? CU_BEZIER).
    - by apply element_in_array.
    - unfold int_mul. rewrite wrap_int_small by done.
      by apply element_in_array. }
  unfold curve_nurb_from_point.
  rewrite (nurb_search_first _ point 0 i nu Hi Hin Hfirst) by lia.
  rewrite Z.add_0_l. fold bezier. unfold point. destruct bezier.
  - by rewrite element_index.
  - by rewrite element_index.
Qed.

End PointLookupFacts.

(** X15: the path [rna_Curve_spline_point_path] gives for the address of
    the [k]-th point of the [i]-th spline names exactly that point:
    [splines[i].bezier_points[k]] for a Bezier spline, [splines[i].points[k]]
    for any other, whose array has [pntsu * pntsv] points.  This holds when
    no earlier spline's array holds the address. *)
Theorem spline_point_path_names_the_point
    {cconsts : CurveConstants} (cu : Curve) (i : nat) (nu : Nurb) (k : Z) :
  let bezier := nu_type nu =? CU_BEZIER in
  let point :=
    if bezier then element_address (bezt nu) sizeof_BezTriple k
    else element_address (bp nu) sizeof_BPoint k in
  let count := if bezier then pntsu nu else pntsu nu * pntsv nu in
  0 < sizeof_BezTriple -> 0 < sizeof_BPoint ->
  Z.of_nat (length (cu_nurbs cu)) <= INT_MAX ->
  cu_nurbs cu !! i = Some nu ->
  is_int count -> 0 <= k < count ->
  first_holder (cu_nurbs cu) i point ->
  rna_Curve_spline_point_path cu point =
    "splines[" +:+ pretty (Z.of_nat i)
      +:+ (if bezier then "].bezier_points[" else "].points[")
      +:+ pretty k +:+ "]".
Proof.
  intros bezier point count Hbez Hbp Hlen Hi Hcount Hk Hfirst.
  unfold rna_Curve_spline_point_path, point, bezier.
  rewrite (curve_nurb_from_point_element (cu_nurbs cu) i nu k) by done.
  by destruct (nu_type nu =? CU_BEZIER).
Qed.

Lemma spline_point_path_names_the_point_witness :
  rna_Curve_spline_point_path (cconsts := sample_constants) sample_curve
    (8192 + 3 * 36)
  = "splines[1].points[3]".
Proof.
  apply (spline_point_path_names_the_point (cconsts := sample_constants)
           sample_curve 1 sample_grid 3); try done.
  intros [|j] nu' Hj Hnu'; [|lia]. injection Hnu' as <-. done.
Defined.




(** X17: the setters of the bevel and the taper object take exactly the
    objects [rna_Curve_otherObject_poll] accepts: a legacy curve object
    whose data is not this curve.  An accepted object is stored and made
    extern; a refused one leaves the link as it was; no object clears it.
    Neither setter writes another field, so the curve is never linked to
    an object that uses it as data. *)
Theorem object_links_take_what_poll_accepts
    {cconsts : CurveConstants} (cu : Z) (c : Curve)
    (value : option (Z * Object)) :
  let accepted := rna_Curve_otherObject_poll cu value in
  let bevel := rna_Curve_bevelObject_set cu c value in
  let taper := rna_Curve_taperObject_set cu c value in
  let link (old : option Z) :=
    match value with
    | Some (ob_ptr, _) => if accepted then Some ob_ptr else old
    | None => None
    end in
  (accepted = true <->
   exists ob_ptr ob, value = Some (ob_ptr, ob) /\
                     ob_type ob = OB_CURVES_LEGACY /\ ob_data ob <> cu) /\
  bevel.1 = with_bevobj (link (cu_bevobj c)) c /\
  taper.1 = with_taperobj (link (cu_taperobj c)) c /\
  bevel.2 = taper.2 /\
  bevel.2 = match value with
            | Some (ob_ptr, _) =>
              if accepted then [Ev_id_lib_extern ob_ptr] else []
            | None => []
            end.
Proof.
  cbv zeta.
  unfold rna_Curve_otherObject_poll, rna_Curve_bevelObject_set,
    rna_Curve_taperObject_set.
  destruct value as [[ob_ptr ob]|]; simpl.
  - destruct (Z.eqb_spec (ob_type ob) OB_CURVES_LEGACY) as [Ht|Ht];
      destruct (Z.eqb_spec (ob_data ob) cu) as [Hd|Hd]; simpl.
    all: split_and!; try done; try (by destruct c).
    all: split; try done.
    all: try (intros (? & ? & [= <- <-] & ? & ?); done).
    intros _. by exists ob_ptr, ob.
  - split_and!; try done. split; [done|]. by intros (? & ? & ? & _).
Qed.

(** X18: of [rna_Curve_spline_points_add] and
    [rna_Curve_spline_bezpoints_add], each spline refuses exactly one: a
    Bezier spline the first, any other spline the second.  The refused call
    reports an error and leaves the spline alone; the other one does nothing
    at all for a count of zero, and otherwise adds the points, recomputes
    the knots and sends the data update, in this order. *)
Theorem points_add_refused_by_kind
    {cconsts : CurveConstants} {clib : CurveLib} (nu : Nurb) (number : Z) :
  let bezier := nu_type nu =? CU_BEZIER in
  let points := rna_Curve_spline_points_add nu number in
  let bezpoints := rna_Curve_spline_bezpoints_add nu number in
  let refused := if bezier then points else bezpoints in
  let served := if bezier then bezpoints else points in
  let added :=
    if bezier then BKE_nurb_bezierPoints_add nu number
    else BKE_nurb_points_add nu number in
  let add_call :=
    if bezier then Ev_nurb_bezierPoints_add number
    else Ev_nurb_points_add number in
  refused =
    (nu, [Ev_report_error
            (if bezier then "Bezier spline cannot have points added"
             else "Only Bezier splines can be added")]) /\
  served =
    (if number =? 0 then (nu, [])
     else (BKE_nurb_knot_calc_u added,
           [add_call; Ev_nurb_knot_calc_u; Ev_deg_id_tag_update;
            Ev_main_add_notifier])).
Proof.
  intros bezier points bezpoints refused served added add_call.
  unfold refused, served, added, add_call, points, bezpoints,
    rna_Curve_spline_points_add, rna_Curve_spline_bezpoints_add.
  fold bezier. by destruct bezier, (number =? 0).
Qed.

Section ResolutionFacts.
Context {cconsts : CurveConstants}.

Lemma with_resolu_synced (r : Z) (nurbs : list Nurb) :
  Forall (fun nu => resolu nu = r) nurbs -> with_resolu r <$> nurbs = nurbs.
Proof.
  induction 1 as [|nu rest Hnu _ IH]; [done|].
  rewrite fmap_cons, IH. f_equal. destruct nu. simpl in *. by subst.
Qed.

End ResolutionFacts.

(** X19: [rna_Curve_resolution_u_update_data] gives every spline the
    curve's resolution along U and changes nothing else: the splines keep
    their number, their order and every other field, and the curve keeps its
    own fields.  A curve whose splines carry its resolution already is left
    as it is.  The data update is sent in every case. *)
Theorem resolution_u_update_syncs_splines
    {cconsts : CurveConstants} (cu : Curve) :
  let cu' := (rna_Curve_resolution_u_update_data cu).1 in
  resolution_u_synced cu' /\
  cu' = with_nurbs (cu_nurbs cu') cu /\
  length (cu_nurbs cu') = length (cu_nurbs cu) /\
  (forall i nu,
     cu_nurbs cu !! i = Some nu ->
     exists nu', cu_nurbs cu' !! i = Some nu' /\
                 nu' = with_resolu (cu_resolu cu) nu /\
                 with_resolu (resolu nu) nu' = nu) /\
  (resolution_u_synced cu -> cu' = cu) /\
  (rna_Curve_resolution_u_update_data cu).2
    = [Ev_deg_id_tag_update; Ev_main_add_notifier].
Proof.
  intros cu'. unfold cu', rna_Curve_resolution_u_update_data. simpl.
  split_and!; try done.
  - unfold resolution_u_synced. simpl. apply Forall_fmap, Forall_true.
    done.
  - by rewrite length_fmap.
  - intros i nu Hi. exists (with_resolu (cu_resolu cu) nu).
    rewrite list_lookup_fmap, Hi. split_and!; try done. by destruct nu.
  - intros Hs. rewrite with_resolu_synced by done. by destruct cu.
Qed.


(** X20: [rna_Curve_spline_new] appends one spline to the curve and changes
    nothing else of it.  The spline is of the type asked for, has a single
    point of radius 1, order 4 both ways and the curve's two resolutions, so
    splines that carried the curve's resolution still all do.  When no
    older spline's array holds the address of the new point, the path of
    that point is [splines[n].bezier_points[0]] for a Bezier spline and
    [splines[n].points[0]] otherwise, [n] being the number of splines the
    curve had. *)
Theorem spline_new_appends_one_point_spline
    {cconsts : CurveConstants} (cu : Curve) (type point : Z) :
  let new := rna_Curve_spline_new cu type point in
  let cu' := new.1.1 in
  let nu := new.1.2 in
  let bezier := type =? CU_BEZIER in
  0 < Nurb_type_bits -> in_range Nurb_type_bits type ->
  0 < sizeof_BezTriple -> 0 < sizeof_BPoint ->
  Z.of_nat (length (cu_nurbs cu)) < INT_MAX ->
  Forall (fun old => point_in_nurb old point = false) (cu_nurbs cu) ->
  cu' = with_nurbs (cu_nurbs cu ++ [nu]) cu /\
  nu = mkNurb type CU_SMOOTH 1 1 (cu_resolu cu) (cu_resolv cu) 4 4
              (if bezier then 0 else point) (if bezier then point else 0) /\
  new.2 = RnaCurve.f32_one /\
  rna_Nurb_length nu = (if bezier then 0 else 1) /\
  (resolution_u_synced cu -> resolution_u_synced cu') /\
  rna_Curve_spline_point_path cu' point =
    "splines[" +:+ pretty (Z.of_nat (length (cu_nurbs cu)))
      +:+ (if bezier then "].bezier_points[" else "].points[") +:+ "0]".
Proof.
  intros new cu' nu bezier Hbits Htype Hbez Hbp Hlen Hfresh.
  assert (Hnu : nu = mkNurb type CU_SMOOTH 1 1 (cu_resolu cu) (cu_resolv cu)
                       4 4 (if bezier then 0 else point)
                       (if bezier then point else 0)).
  { unfold nu, new, rna_Curve_spline_new. simpl.
    rewrite wrap_small by done. fold bezier. by destruct bezier. }
  assert (Hcu : cu' = with_nurbs (cu_nurbs cu ++ [nu]) cu) by done.
  split_and!; try done.
  - rewrite Hnu. unfold rna_Nurb_length. simpl. fold bezier.
    by destruct bezier.
  - unfold resolution_u_synced. rewrite Hcu. simpl. intros Hs.
    apply Forall_app. split; [done|]. apply Forall_singleton.
    by rewrite Hnu.
  - pose proof (curve_nurb_from_point_element (cu_nurbs cu')
                  (length (cu_nurbs cu)) nu 0) as Hfound.
    cbv zeta in Hfound.
    assert (Hkind : (nu_type nu =? CU_BEZIER) = bezier) by by rewrite Hnu.
    rewrite Hkind in Hfound.
    assert (Hpoint : (if bezier
                      then element_address (bezt nu) sizeof_BezTriple 0
                      else element_address (bp nu) sizeof_BPoint 0) = point).
    { rewrite Hnu. unfold element_address. destruct bezier; simpl; lia. }
    rewrite Hpoint in Hfound. unfold rna_Curve_spline_point_path.
    rewrite Hfound, Hkind; [by destruct bezier| | | | | | |]; try done.
    + rewrite Hcu. simpl. rewrite length_app. simpl. lia.
    + rewrite Hcu. simpl. by rewrite list_lookup_middle.
    + rewrite Hnu. by destruct bezier.
    + rewrite Hnu. destruct bezier; simpl; lia.
    + intros j old Hj Hold. rewrite Hcu in Hold. simpl in Hold.
      rewrite lookup_app_l in Hold by done.
      rewrite Forall_forall in Hfresh.
      by apply Hfresh, (list_elem_of_lookup_2 _ j).
Qed.

Lemma spline_new_appends_one_point_spline_witness :
  rna_Curve_spline_point_path (cconsts := sample_constants)
    (rna_Curve_spline_new (cconsts := sample_constants) sample_curve 0
       12288).1.1 12288
  = "splines[2].points[0]".
Proof.
  refine (proj2 (proj2 (proj2 (proj2 (proj2
    (spline_new_appends_one_point_spline (cconsts := sample_constants)
       sample_curve 0 12288 _ _ _ _ _ _)))))); try done.
  by repeat constructor.
Defined.


Section DimensionFacts.
Context {cconsts : CurveConstants}.

Lemma flag_set_bits (flag mask : Z) :
  Z.land (Z.lor flag mask) mask = mask.
Proof.
  apply Z.bits_inj'. intros n Hn.
  rewrite Z.land_spec, Z.lor_spec. by destruct (Z.testbit flag n),
    (Z.testbit mask n).
Qed.

Lemma flag_cleared_bits (flag mask : Z) :
  Z.land (Z.land flag (Z.lnot mask)) mask = 0.
Proof.
  apply Z.bits_inj'. intros n Hn.
  rewrite !Z.land_spec, Z.lnot_spec, Z.bits_0 by done.
  by destruct (Z.testbit flag n), (Z.testbit mask n).
Qed.

Lemma flag_other_bits (flag mask : Z) (n : Z) :
  0 <= n -> Z.testbit mask n = false ->
  Z.testbit (Z.lor flag mask) n = Z.testbit flag n /\
  Z.testbit (Z.land flag (Z.lnot mask)) n = Z.testbit flag n.
Proof.
  intros Hn Hm. rewrite Z.lor_spec, Z.land_spec, Z.lnot_spec, Hm by done.
  by destruct (Z.testbit flag n).
Qed.

End DimensionFacts.

(** X21: after [rna_Curve_dimension_set] the fill modes on offer follow the
    value set, provided [BKE_curve_dimension_update] leaves [flag] as it
    finds it: [rna_Curve_fill_mode_itemf] on the curve the setter leaves
    gives the 3D table for [CU_3D] and the 2D table for any other value.
    Only a 3D value skips the call of [BKE_curve_dimension_update], which
    gets the curve with the bits of [CU_3D] cleared.  Of [flag], the setter
    changes only the bits of [CU_3D].  The two tables list the same values
    in the same order, under names that differ for the first and the
    last. *)
Theorem dimension_set_selects_fill_modes
    {cconsts : CurveConstants} {clib : CurveLib} (cu : Curve) (value : Z) :
  CU_3D <> 0 ->
  (forall c, cu_flag (BKE_curve_dimension_update c) = cu_flag c) ->
  let set := rna_Curve_dimension_set cu value in
  let written :=
    with_flag (if value =? CU_3D then Z.lor (cu_flag cu) CU_3D
               else Z.land (cu_flag cu) (Z.lnot CU_3D)) cu in
  set =
    (if value =? CU_3D then (written, [])
     else (BKE_curve_dimension_update written,
           [Ev_curve_dimension_update written])) /\
  rna_Curve_fill_mode_itemf set.1 =
    (if value =? CU_3D then curve3d_fill_mode_items
     else curve2d_fill_mode_items) /\
  (forall n, 0 <= n -> Z.testbit CU_3D n = false ->
             Z.testbit (cu_flag set.1) n = Z.testbit (cu_flag cu) n) /\
  item_value <$> curve3d_fill_mode_items
    = item_value <$> curve2d_fill_mode_items /\
  item_identifier <$> curve3d_fill_mode_items
    = ["FULL"; "BACK"; "FRONT"; "HALF"] /\
  item_identifier <$> curve2d_fill_mode_items
    = ["NONE"; "BACK"; "FRONT"; "BOTH"].
Proof.
  intros H3d Hlib set written.
  assert (Hset : set =
                 if value =? CU_3D then (written, [])
                 else (BKE_curve_dimension_update written,
                       [Ev_curve_dimension_update written])).
  { unfold set, rna_Curve_dimension_set, written.
    by destruct (value =? CU_3D). }
  assert (Hflag : cu_flag set.1 = cu_flag written).
  { rewrite Hset. destruct (value =? CU_3D); [done|]. simpl. apply Hlib. }
  split_and!; try done.
  - unfold rna_Curve_fill_mode_itemf. rewrite Hflag. unfold written.
    destruct (value =? CU_3D); simpl.
    + rewrite flag_set_bits. by destruct (Z.eqb_spec CU_3D 0).
    + by rewrite flag_cleared_bits.
  - intros n Hn Hbit. rewrite Hflag. unfold written.
    destruct (flag_other_bits (cu_flag cu) CU_3D n Hn Hbit) as [Hor Hand].
    by destruct (value =? CU_3D).
Qed.

Lemma dimension_set_selects_fill_modes_witness :
  rna_Curve_fill_mode_itemf (cconsts := sample_constants)
    (rna_Curve_dimension_set (cconsts := sample_constants)
       (clib := sample_curve_lib) sample_curve 0).1
  = curve2d_fill_mode_items (cconsts := sample_constants).
Proof.
  assert (H3d : CU_3D (CurveConstants := sample_constants) <> 0) by done.
  assert (Hlib : forall c,
            cu_flag (BKE_curve_dimension_update (CurveLib := sample_curve_lib)
                       c) = cu_flag c) by done.
  destruct (dimension_set_selects_fill_modes (cconsts := sample_constants)
              (clib := sample_curve_lib) sample_curve 0 H3d Hlib)
    as (_ & Hitems & _).
  exact Hitems.
Defined.

(** X22: with at least one text box in the curve, every index in the range
    [rna_Curve_active_textbox_index_range] declares names a text box:
    [rna_TextBox_path] of the address of the box at that index is
    [text_boxes[index]].  The last index of the range is the last box. *)
Theorem textbox_index_range_names_boxes
    {cconsts : CurveConstants} (cu : Curve) (index : Z) :
  let range := rna_Curve_active_textbox_index_range cu in
  0 < sizeof_TextBox ->
  1 <= cu_totbox cu <= INT_MAX ->
  range.1 <= index <= range.2 ->
  range.2 = cu_totbox cu - 1 /\
  rna_TextBox_path cu (element_address (cu_tb cu) sizeof_TextBox index)
  = "text_boxes[" +:+ pretty index +:+ "]".
Proof.
  intros range Hsize Htot. unfold range, rna_Curve_active_textbox_index_range.
  simpl. rewrite int_sub_small
    by (unfold is_int, INT_MIN, INT_MAX in *; lia).
  rewrite Z.max_r by lia. intros Hindex. split; [done|].
  unfold rna_TextBox_path.
  rewrite element_index
    by (try done; unfold is_int, INT_MIN, INT_MAX in *; lia).
  destruct (Z.leb_spec 0 index); [|lia].
  destruct (Z.ltb_spec index (cu_totbox cu)); [done|lia].
Qed.

Lemma textbox_index_range_names_boxes_witness :
  rna_TextBox_path (cconsts := sample_constants) sample_curve (16384 + 16)
  = "text_boxes[1]".
Proof.
  refine (proj2 (textbox_index_range_names_boxes
                   (cconsts := sample_constants) sample_curve 1 _ _ _));
    try done.
Defined.

End RnaCurveSplinesFacts.


(** ** rna_curve.c: the bevel profile and the text body *)

Module RnaCurveBevelFacts.
Import CInt RnaCurveBevel.
Import CIntFacts.

(** X23: after [rna_Curve_bevel_mode_set] with a value the field can hold,
    the mode is that value, and a curve in profile mode has a profile: one
    is added and initialised with [bevresol + 1] segments exactly when the
    mode set is the profile mode and the curve had none; a profile the
    curve has is never replaced.  So neither the setter nor
    [rna_Curve_bevel_resolution_update] after it hands [NULL] to
    [BKE_curveprofile_init]. *)
Theorem bevel_mode_set_ensures_profile
    {bconsts : BevelConstants} (added : Z) (cu : Curve) (value : Z) :
  let set := rna_Curve_bevel_mode_set added cu value in
  let cu' := set.1 in
  let adds :=
    (value =? CU_BEV_MODE_CURVE_PROFILE)
    && bool_decide (bevel_profile cu = None) in
  0 < bevel_mode_bits ->
  in_range bevel_mode_bits value ->
  in_range bevel_mode_bits CU_BEV_MODE_CURVE_PROFILE ->
  bevel_mode cu' = value /\
  bevresol cu' = bevresol cu /\
  (bevel_mode cu' = CU_BEV_MODE_CURVE_PROFILE ->
   is_Some (bevel_profile cu')) /\
  bevel_profile cu' = (if adds then Some added else bevel_profile cu) /\
  set.2 = (if adds
           then [Ev_curveprofile_add added;
                 Ev_curveprofile_init (Some added) (int_add (bevresol cu) 1)]
           else []) /\
  List.filter inits_null (set.2 ++ rna_Curve_bevel_resolution_update cu')
  = [].
Proof.
  intros set cu' adds Hbits Hvalue Hprofile.
  assert (Hmode : bevel_mode cu' = value).
  { unfold cu', set, rna_Curve_bevel_mode_set.
    destruct (value =? CU_BEV_MODE_CURVE_PROFILE), (bevel_profile cu);
      simpl; by apply wrap_small. }
  assert (Hprof : bevel_profile cu'
                  = if adds then Some added else bevel_profile cu).
  { unfold cu', set, adds, rna_Curve_bevel_mode_set.
    destruct (value =? CU_BEV_MODE_CURVE_PROFILE),
      (bevel_profile cu) eqn:Hp; simpl; try done.
    all: by rewrite ?Hp. }
  assert (Hsome : bevel_mode cu' = CU_BEV_MODE_CURVE_PROFILE ->
                  is_Some (bevel_profile cu')).
  { rewrite Hmode, Hprof. intros ->. unfold adds. rewrite Z.eqb_refl.
    destruct (bevel_profile cu); simpl; by eexists. }
  assert (Htr : set.2 = if adds
                        then [Ev_curveprofile_add added;
                              Ev_curveprofile_init (Some added)
                                (int_add (bevresol cu) 1)]
                        else []).
  { unfold set, adds, rna_Curve_bevel_mode_set.
    by destruct (value =? CU_BEV_MODE_CURVE_PROFILE), (bevel_profile cu). }
  split_and!; try done.
  - unfold cu', set, rna_Curve_bevel_mode_set.
    by destruct (value =? CU_BEV_MODE_CURVE_PROFILE), (bevel_profile cu).
  - rewrite List.filter_app, Htr. unfold rna_Curve_bevel_resolution_update.
    destruct (Z.eqb_spec (bevel_mode cu') CU_BEV_MODE_CURVE_PROFILE)
      as [Hm|Hm].
    + destruct (Hsome Hm) as [q ->]. by destruct adds.
    + by destruct adds.
Qed.

Lemma bevel_mode_set_ensures_profile_witness :
  bevel_profile
    (rna_Curve_bevel_mode_set (bconsts := sample_bevel) 4096
       (mkCurve 0 None 4) 2).1
  = Some 4096.
Proof.
  refine (proj1 (proj2 (proj2 (proj2
    (bevel_mode_set_ensures_profile (bconsts := sample_bevel) 4096
       (mkCurve 0 None 4) 2 _ _ _))))); done.
Defined.

End RnaCurveBevelFacts.

Module RnaCurveTextFacts.
Import CInt RnaCurveText.
Import CIntFacts.

(** X24: the text body round trip.  When [BLI_strlen_utf8_ex] counts all
    the bytes of the string, [rna_Curve_body_set] is defined and after it
    [rna_Curve_body_length] is the number of bytes of the string,
    [rna_Curve_body_get] copies out the string with its terminator, and the
    cursor is at the end, after the last character.  The block allocated
    for the text holds the bytes copied into it, the block of character
    infos has an entry for each character and four more, and the old
    blocks are freed exactly when the curve had them. *)
Theorem body_set_get_round_trip
    {tlib : TextLib} (cu : Curve) (value : list Byte.byte) (len_chars : Z) :
  BLI_strlen_utf8_ex value = (len_chars, Z.of_nat (length value)) ->
  Z.of_nat (length value) < INT_MAX ->
  0 <= len_chars <= INT_MAX ->
  1 <= sizeof_char32_t ->
  exists cu' b,
    rna_Curve_body_set cu value
      = Some (cu',
              match str cu with Some old => [Ev_free_str old] | None => [] end
              ++ match strinfo cu with
                 | Some old => [Ev_free_strinfo old]
                 | None => []
                 end) /\
    rna_Curve_body_length cu' = Z.of_nat (length value) /\
    rna_Curve_body_get cu' = Some (value ++ [Byte.x00]) /\
    pos cu' = len_chars /\ len_char32 cu' = len_chars /\
    str cu' = Some b /\
    Z.of_nat (length (block_bytes b)) <= block_size b /\
    strinfo cu' = Some ((len_char32 cu' + 4) * sizeof_CharInfo).
Proof.
  intros Hcount Hlen Hchars Hsize.
  assert (Hint : is_int (Z.of_nat (length value)))
    by (unfold is_int, INT_MIN, INT_MAX in *; lia).
  assert (Hcint : is_int len_chars)
    by (unfold is_int, INT_MIN, INT_MAX in *; lia).
  assert (Hread : read_string value (Z.of_nat (length value) + 1)
                  = Some (value ++ [Byte.x00])).
  { unfold read_string.
    destruct (Z.leb_spec 0 (Z.of_nat (length value) + 1)); [|lia].
    rewrite Z.leb_refl. simpl. f_equal. apply take_ge.
    rewrite length_app. simpl. lia. }
  unfold rna_Curve_body_set. rewrite Hcount, Hread.
  destruct (Z.leb_spec (Z.of_nat (length value) + 1)
              (Z.of_nat (length value) + sizeof_char32_t)); [|lia].
  eexists _, _. split; [reflexivity|]. simpl.
  rewrite !wrap_int_small by done.
  split_and!; try done.
  - unfold rna_Curve_body_get, rna_Curve_body_length. simpl.
    rewrite ?wrap_int_small by done.
    rewrite int_add_small by (unfold is_int, INT_MIN, INT_MAX in *; lia).
    unfold read_block. simpl. rewrite length_app. simpl.
    destruct (Z.leb_spec 0 (Z.of_nat (length value) + 1)); [|lia].
    destruct (Z.leb_spec (Z.of_nat (length value) + 1)
                (Z.of_nat (length value + 1))); [|lia].
    simpl. f_equal. apply take_ge. rewrite length_app. simpl. lia.
  - simpl. rewrite length_app. simpl. lia.
Qed.

Lemma body_set_get_round_trip_witness :
  exists cu',
    fst <$> rna_Curve_body_set (tlib := sample_text)
              (mkCurve None None 0 0 0) [Byte.x68; Byte.x69]
      = Some cu' /\
    rna_Curve_body_get cu' = Some [Byte.x68; Byte.x69; Byte.x00].
Proof.
  destruct (body_set_get_round_trip (tlib := sample_text)
              (mkCurve None None 0 0 0) [Byte.x68; Byte.x69] 2)
    as (cu' & b & Hset & _ & Hget & _); try done.
  exists cu'. rewrite Hset. done.
Defined.

End RnaCurveTextFacts.
